(** * gbajs2: memory subsystem, bus fabric, wait states and DMA engine

    A shallow embedding of the memory regions ([MemoryView], [MemoryBlock],
    [ROMView], [BIOSView]), of the bus and wait-state controller
    ([GameBoyAdvanceMMU]) and of the save-data base64 codec
    ([GameBoyAdvance.encodeBase64] / [decodeBase64]), with the properties
    of the specification stated and proved against them; and, around these,
    of the snapshot format ([Pointer], [Serializer], the bus's [freeze] and
    [defrost]), of [hex], of the keypad ([GameBoyAdvanceKeypad]), of the
    save-game store ([LocalStorageSaveGame]) and of the core's
    [retrieveSavedata] and [logStackTrace], with what the code itself shows
    of them.

    JavaScript numbers are modelled as [Z] (every value handled here is an
    integer far below 2^53); the 32-bit coercions of the bitwise operators are
    written out. *)

From Stdlib Require Import ZArith Lia Bool List Ascii String.
From Stdlib.Strings Require Import Byte.
From stdpp Require Import base option list gmap strings.

Local Open Scope Z_scope.

(** ** JavaScript integer coercions and bitwise operators *)

Module JS.

(** ECMAScript ToUint32 / ToInt32 / ToUint16 / ToInt16 / ToInt8 / ToUint8. *)
Definition ToUint32 (x : Z) : Z := x mod 2 ^ 32.

Definition ToInt32 (x : Z) : Z :=
  let m := x mod 2 ^ 32 in
  if 2 ^ 31 <=? m then m - 2 ^ 32 else m.

Definition ToUint16 (x : Z) : Z := x mod 2 ^ 16.

Definition ToInt16 (x : Z) : Z :=
  let m := x mod 2 ^ 16 in
  if 2 ^ 15 <=? m then m - 2 ^ 16 else m.

Definition ToUint8 (x : Z) : Z := x mod 2 ^ 8.

Definition ToInt8 (x : Z) : Z :=
  let m := x mod 2 ^ 8 in
  if 2 ^ 7 <=? m then m - 2 ^ 8 else m.

(** [a & b], [a | b], [~a], [a << n], [a >> n], [a >>> n]. *)
Definition and (a b : Z) : Z := Z.land (ToInt32 a) (ToInt32 b).
Definition or (a b : Z) : Z := Z.lor (ToInt32 a) (ToInt32 b).
Definition not (a : Z) : Z := Z.lnot (ToInt32 a).
Definition shl (a n : Z) : Z := ToInt32 (Z.shiftl (ToInt32 a) (ToUint32 n mod 32)).
Definition shr (a n : Z) : Z := Z.shiftr (ToInt32 a) (ToUint32 n mod 32).
Definition ushr (a n : Z) : Z := Z.shiftr (ToUint32 a) (ToUint32 n mod 32).

(** Truthiness of a number: [0] is falsy, everything else truthy. *)
Definition truthy (x : Z) : bool := negb (x =? 0).

End JS.

(** ** Completions

    A call either returns, throws, leaves the code modelled here (it calls
    into a collaborator class whose source is not part of this development, or
    it computes with values beyond those modelled, as when a sum turns into a
    string), or is cut off by the recursion budget of the model. Only a
    return carries a state: nothing is stated here about what a call that
    throws has already written. *)

Inductive error : Type :=
  | RangeError
  | TypeError
  | ReferenceError
  | InvalidCharacterError
  | Error (message : string).

Inductive outcome (A : Type) : Type :=
  | Normal (a : A)
  | Throw (e : error)
  | Outside (who : string)
  | Fuel.

Arguments Normal {A} a.
Arguments Throw {A} e.
Arguments Outside {A} who.
Arguments Fuel {A}.

Definition obind {A B} (m : outcome A) (k : A -> outcome B) : outcome B :=
  match m with
  | Normal a => k a
  | Throw e => Throw e
  | Outside w => Outside w
  | Fuel => Fuel
  end.

Definition omap {A B} (f : A -> B) (m : outcome A) : outcome B :=
  obind m (fun a => Normal (f a)).

Notation "'let!' x ':=' m 'in' k" := (obind m (fun x => k))
  (at level 10, x name, m at level 100, k at level 200).

(** ** Bytes and [DataView] *)

Definition byte_to_Z (b : byte) : Z := Z.of_N (Byte.to_N b).

Definition Z_to_byte (z : Z) : byte :=
  match Byte.of_N (Z.to_N (z mod 256)) with
  | Some b => b
  | None => x00
  end.

(** Little-endian value of a byte sequence, and the [n] low bytes of a value. *)
Fixpoint le_combine (l : list byte) : Z :=
  match l with
  | [] => 0
  | b :: t => byte_to_Z b + 256 * le_combine t
  end.

Fixpoint le_split (n : nat) (v : Z) : list byte :=
  match n with
  | O => []
  | S n' => Z_to_byte v :: le_split n' (v / 256)
  end.

Module DataView.

(** A [DataView] over an [ArrayBuffer], starting at [byteOffset]. *)
Record t : Type := mk {
  buffer : list byte;
  byteOffset : Z;
}.

Definition byteLength (dv : t) : Z := Z.of_nat (length (buffer dv)) - byteOffset dv.

(** Every accessor throws a RangeError unless the [n] bytes at index [i] lie
    inside the view. *)
Definition in_bounds (dv : t) (i n : Z) : bool :=
  (0 <=? i) && (i + n <=? byteLength dv).

Definition read (dv : t) (i : Z) (n : nat) : list byte :=
  take n (drop (Z.to_nat (byteOffset dv + i)) (buffer dv)).

Definition write (dv : t) (i : Z) (bs : list byte) : t :=
  let k := Z.to_nat (byteOffset dv + i) in
  mk (take k (buffer dv) ++ bs ++ drop (k + length bs) (buffer dv)) (byteOffset dv).

Definition endian (littleEndian : bool) (bs : list byte) : list byte :=
  if littleEndian then bs else rev bs.

Definition get (dv : t) (i : Z) (n : nat) (littleEndian : bool) : outcome Z :=
  if in_bounds dv i (Z.of_nat n)
  then Normal (le_combine (endian littleEndian (read dv i n)))
  else Throw RangeError.

Definition set (dv : t) (i : Z) (n : nat) (v : Z) (littleEndian : bool) : outcome t :=
  if in_bounds dv i (Z.of_nat n)
  then Normal (write dv i (endian littleEndian (le_split n v)))
  else Throw RangeError.

Definition getUint8 (dv : t) (i : Z) : outcome Z := get dv i 1 true.
Definition getInt8 (dv : t) (i : Z) : outcome Z := omap JS.ToInt8 (get dv i 1 true).
Definition getUint16 (dv : t) (i : Z) (le : bool) : outcome Z := get dv i 2 le.
Definition getInt16 (dv : t) (i : Z) (le : bool) : outcome Z :=
  omap JS.ToInt16 (get dv i 2 le).
Definition getInt32 (dv : t) (i : Z) (le : bool) : outcome Z :=
  omap JS.ToInt32 (get dv i 4 le).

Definition setInt8 (dv : t) (i v : Z) : outcome t := set dv i 1 v true.
Definition setInt16 (dv : t) (i v : Z) (le : bool) : outcome t := set dv i 2 v le.
Definition setUint16 (dv : t) (i v : Z) (le : bool) : outcome t := set dv i 2 v le.
Definition setInt32 (dv : t) (i v : Z) (le : bool) : outcome t := set dv i 4 v le.

End DataView.

(** ** [hex] *)

Definition hex_digit (d : Z) : ascii :=
  match String.get (Z.to_nat d) "0123456789ABCDEF" with
  | Some c => c
  | None => "0"%char
  end.

(** [n.toString(16).toUpperCase()] for an integer [0 <= n]: the digits, most
    significant first, without a leading zero; [fuel] bounds their number. *)
Fixpoint toString16 (fuel : nat) (n : Z) : string :=
  match fuel with
  | O => EmptyString
  | S fuel' =>
      (if n / 16 =? 0 then EmptyString else toString16 fuel' (n / 16))
      +:+ String (hex_digit (n mod 16)) EmptyString
  end.

(** [new Array(n).join("0")]: [n - 1] zeros between [n] empty elements; a
    length outside 0 .. 2^32 - 1 is a RangeError. *)
Definition joined_zeros (n : Z) : outcome string :=
  if (0 <=? n) && (n <? 2 ^ 32)
  then Normal (string_of_list_ascii (replicate (Z.to_nat (n - 1)) "0"%char))
  else Throw RangeError.

(** [hex(value, leading = 8, usePrefix = true)]; an argument left out is
    [None]. A value shifted by [>>> 0] has at most eight digits. *)
Definition hex (value : Z) (leading : option Z) (usePrefix : option bool)
  : outcome string :=
  let leading := default 8 leading in
  let usePrefix := default true usePrefix in
  let asHex := toString16 8 (JS.ushr value 0) in
  let leading := leading - Z.of_nat (String.length asHex) in
  if leading <? 0 then Normal asHex
  else
    let! zeros := joined_zeros (leading + 1) in
    Normal (((if usePrefix then "0x" else EmptyString) +:+ zeros) +:+ asHex).

(** ** Snapshots: [Pointer] and [Serializer]

    JavaScript strings are sequences of code units; the strings handled here
    have code units below 256 and are modelled as [string]. A [Blob] or an
    [ArrayBuffer] is the sequence of its bytes. *)

Module Pointer.

(** [top] is a number, or [undefined] ([None]) once [pop] has found the stack
    empty. *)
Record t : Type := mk {
  index : Z;
  top : option Z;
  stack : list (option Z);
}.

Definition new : t := mk 0 (Some 0) [].

Definition advance (p : t) (amount : Z) : Z * t :=
  (index p, mk (index p + amount) (top p) (stack p)).

(** [this.index - this.top]: [None] is [NaN]. *)
Definition mark (p : t) : option Z :=
  match top p with
  | Some t => Some (index p - t)
  | None => None
  end.

(** [push] and [pop]: the array [stack] grows and shrinks at its end. *)
Definition push (p : t) : t :=
  mk (index p) (Some (index p)) (stack p ++ [top p]).

Definition pop (p : t) : t :=
  mk (index p) (default None (last (stack p))) (removelast (stack p)).

(** The loop of [readString]: [i] runs up to [length]; [n] bounds the rounds
    (every round reads a byte of the view). *)
Fixpoint read_chars (view : DataView.t) (n : nat) (i length : Z) (p : t) (bytes : string)
  : outcome (string * t) :=
  match n with
  | O => Fuel
  | S n' =>
      if i <? length then
        let '(at_, p) := advance p 1 in
        let! c := DataView.getUint8 view at_ in
        read_chars view n' (i + 1) length p
                   (bytes +:+ String (ascii_of_N (Z.to_N c)) EmptyString)
      else Normal (bytes, p)
  end.

Definition readString (view : DataView.t) (p : t) : outcome (string * t) :=
  let '(at_, p) := advance p 4 in
  let! length := DataView.get view at_ 4 true in
  read_chars view (S (Z.to_nat (DataView.byteLength view))) 0 length p EmptyString.

End Pointer.

Module Serializer.

Definition TAG_INT : Z := 1.
Definition TAG_STRING : Z := 2.
Definition TAG_STRUCT : Z := 3.
Definition TAG_BLOB : Z := 4.
Definition TAG_BOOLEAN : Z := 5.
Definition TYPE : string := "application/octet-stream".

(** The values of a snapshot tree. [VBlob] is a [Blob] whose type is
    [Serializer.TYPE]; [VBuffer] an [ArrayBuffer]; [VObject] a plain object,
    given by its own enumerable properties in enumeration order (an object
    has each key once, and its array indices come first, in ascending order);
    [VNull] is [null] and [VUndefined] is [undefined]. Functions, symbols and
    big integers are not among the values modelled. *)
#[warnings="-register-all"] Inductive value : Type :=
  | VNumber (n : Z)
  | VString (s : string)
  | VBoolean (b : bool)
  | VBlob (bytes : list byte)
  | VBuffer (bytes : list byte)
  | VObject (properties : list (string * value))
  | VNull
  | VUndefined.

(** [pack(value)] and [pack8(value)]: the number written little-endian into a
    fresh buffer of 4 bytes, or of 1; [NaN] is written as 0. *)
Definition pack (value : option Z) : list byte := le_split 4 (default 0 value).
Definition pack8 (value : Z) : list byte := le_split 1 value.

(** The bytes a string part contributes to a [Blob]: its UTF-8 encoding. *)
Definition utf8_char (c : ascii) : list byte :=
  let n := Z.of_N (N_of_ascii c) in
  if n <? 0x80 then [Z_to_byte n]
  else [Z_to_byte (Z.lor 0xc0 (Z.shiftr n 6)); Z_to_byte (Z.lor 0x80 (Z.land n 0x3f))].

Definition utf8 (s : string) : list byte :=
  flat_map utf8_char (list_ascii_of_string s).

(** [x.size || x.byteLength || x.length] for a blob or a buffer of the given
    bytes, and [x.size || x.length || x.byteLength] for a string: the one
    length the value has, or [undefined] when that is 0. [None] is also the
    [NaN] a sum with [undefined] gives. *)
Definition measured (length : Z) : option Z :=
  if length =? 0 then None else Some length.

(** [prefix(value)] for a string, and for a buffer or a blob. *)
Definition prefix_string (s : string) : list byte :=
  pack (measured (Z.of_nat (String.length s))) ++ utf8 s.

Definition prefix (bytes : list byte) : list byte :=
  pack (measured (Z.of_nat (length bytes))) ++ bytes.

(** [object[key]] for an own property: the value the key has. (In a list
    that names a key more than once, the last entry.) *)
Fixpoint property (object : list (string * value)) (key : string) : option value :=
  match object with
  | [] => None
  | (k, v) :: rest =>
      match property rest key with
      | Some v' => Some v'
      | None => if String.eqb k key then Some v else None
      end
  end.

Definition has_key (object : list (string * value)) (key : string) : bool :=
  existsb (fun kv => String.eqb (fst kv) key) object.

(** [x.type === Serializer.TYPE] for a plain object [x]. *)
Definition typed (properties : list (string * value)) : bool :=
  match property properties "type" with
  | Some (VString s) => String.eqb s TYPE
  | _ => false
  end.

(** Truthiness, of a property that may be absent. *)
Definition truthy (x : option value) : bool :=
  match x with
  | Some (VNumber n) => negb (n =? 0)
  | Some (VString s) => negb (String.eqb s EmptyString)
  | Some (VBoolean b) => b
  | Some (VBlob _ | VBuffer _ | VObject _) => true
  | Some (VNull | VUndefined) | None => false
  end.

(** [body.size || body.byteLength || body.length] for a plain object, as an
    addend of the number [1 + head.size]: [Normal None] is [NaN]. A string or
    an object there turns the sum into a string, which is not followed. *)
Definition object_measure (properties : list (string * value)) : outcome (option Z) :=
  let size := property properties "size" in
  let byteLength := property properties "byteLength" in
  let length := property properties "length" in
  match (if truthy size then size else if truthy byteLength then byteLength else length) with
  | None | Some VUndefined => Normal None
  | Some (VNumber n) => Normal (Some n)
  | Some (VBoolean b) => Normal (Some (if b then 1 else 0))
  | Some VNull => Normal (Some 0)
  | Some (VString _ | VBlob _ | VBuffer _ | VObject _) => Outside "String concatenation"
  end.

(** One round of the loop of [serialize], up to the update of [size]: the
    tag; the bytes the body contributes to the blob; the body's
    [size || byteLength || length]; and whether [new Blob] can take the body
    as a part. A plain object whose [type] is [Serializer.TYPE] is handed to
    [new Blob] as it is: a part that is no blob and no buffer is converted
    to a string, for such an object the text [[object Object]], unless the
    object has a property [toString] of its own (no value modelled here can
    be called), which makes the conversion a TypeError. *)
Definition part_of (nested : value -> outcome (list byte)) (x : value)
  : outcome (Z * list byte * option Z * bool) :=
  let blob_part (tag : Z) (body : list byte) :=
    Normal (tag, body, measured (Z.of_nat (length body)), true) in
  match x with
  | VNumber n => blob_part TAG_INT (pack (Some n))
  | VString s => blob_part TAG_STRING (prefix_string s)
  | VBlob bytes => blob_part TAG_BLOB bytes
  | VBuffer _ => let! body := nested x in blob_part TAG_STRUCT body
  | VObject properties =>
      if typed properties then
        let! measure := object_measure properties in
        Normal (TAG_BLOB, utf8 "[object Object]", measure,
                negb (has_key properties "toString"))
      else let! body := nested x in blob_part TAG_STRUCT body
  | VBoolean b => blob_part TAG_BOOLEAN (pack8 (if b then 1 else 0))
  | VNull => Throw TypeError
  | VUndefined => Throw TypeError
  end.

(** The loop of [serialize] over the properties, given the serializer of the
    nested objects: [size] and [parts] as they stand, and whether every part
    so far is one [new Blob] can take. The result is the blob with the size in
    front. *)
Fixpoint serialize_properties (nested : value -> outcome (list byte))
    (stream : list (string * value)) (size : option Z) (parts : list byte)
    (convertible : bool)
  : outcome (list byte) :=
  match stream with
  | [] => if convertible then Normal (pack size ++ parts) else Throw TypeError
  | (i, x) :: rest =>
      let head := prefix_string i in
      let! part := part_of nested x in
      let '(tag, body, measure, ok) := part in
      let size :=
        match size, measure with
        | Some size, Some b => Some (size + (1 + Z.of_nat (length head) + b))
        | _, _ => None
        end in
      serialize_properties nested rest size (parts ++ pack8 tag ++ head ++ body)
                           (convertible && ok)
  end.

(** [serialize(stream)] for an object; a buffer has no enumerable property.
    Every round begins with [stream.hasOwnProperty(i)]: where the object has a
    property of that name itself, the call is a TypeError (its value cannot be
    called). *)
Fixpoint serialize_value (stream : value) : outcome (list byte) :=
  match stream with
  | VObject properties =>
      if has_key properties "hasOwnProperty" then Throw TypeError
      else serialize_properties serialize_value properties (Some 4) [] true
  | VBuffer _ => Normal (pack (Some 4))
  | _ => Outside "Serializer.serialize of a primitive"
  end.

Definition serialize (stream : list (string * value)) : outcome (list byte) :=
  serialize_value (VObject stream).

(** [buffer.slice(begin, end)] *)
Definition slice (buffer : list byte) (begin end_ : Z) : list byte :=
  let len := Z.of_nat (length buffer) in
  let relative x := if x <? 0 then Z.max (len + x) 0 else Z.min x len in
  let first := relative begin in
  let final := relative end_ in
  take (Z.to_nat (final - first)) (drop (Z.to_nat first) buffer).

(** An array index: the canonical decimal numeral of an integer from 0 to
    2^32 - 2. *)
Fixpoint decimal (acc : Z) (s : string) : option Z :=
  match s with
  | EmptyString => Some acc
  | String c rest =>
      let d := Z.of_N (N_of_ascii c) - 0x30 in
      if (0 <=? d) && (d <=? 9) then decimal (acc * 10 + d) rest else None
  end.

Definition array_index (key : string) : option Z :=
  match key with
  | EmptyString => None
  | String c rest =>
      if Ascii.eqb c "0" then
        if String.eqb rest EmptyString then Some 0 else None
      else
        match decimal 0 key with
        | Some n => if n <? 2 ^ 32 - 1 then Some n else None
        | None => None
        end
  end.

(** A new value for a key the object has: the property keeps its place. *)
Fixpoint replace_property (object : list (string * value)) (key : string) (body : value)
  : list (string * value) :=
  match object with
  | [] => []
  | (k, v) :: rest =>
      if String.eqb k key then (k, body) :: rest
      else (k, v) :: replace_property rest key body
  end.

(** A new array index [n] enters among the array indices, which come first
    and in ascending order. *)
Fixpoint insert_index (object : list (string * value)) (n : Z) (key : string) (body : value)
  : list (string * value) :=
  match object with
  | [] => [(key, body)]
  | (k, v) :: rest =>
      match array_index k with
      | Some m =>
          if n <? m then (key, body) :: (k, v) :: rest
          else (k, v) :: insert_index rest n key body
      | None => (key, body) :: (k, v) :: rest
      end
  end.

(** [object[head] = body] on an object created by [{}], the object being the
    list of its properties in enumeration order: a key the object has keeps
    its place, a new array index is put in order among the indices, any other
    new key comes last. The key [__proto__] is the accessor of
    [Object.prototype]: no property is created; an object assigned to it
    becomes the prototype, which is not modelled. *)
Definition assign (object : list (string * value)) (head : string) (body : value)
  : outcome (list (string * value)) :=
  if String.eqb head "__proto__" then
    match body with
    | VObject _ | VBuffer _ | VBlob _ => Outside "Object.prototype.__proto__"
    | _ => Normal object
    end
  else if has_key object head then Normal (replace_property object head body)
  else
    match array_index head with
    | Some n => Normal (insert_index object n head body)
    | None => Normal (object ++ [(head, body)])
    end.

(** [a < b] and [a > b] where [a] may be [NaN]. *)
Definition lt (a : option Z) (b : Z) : bool :=
  match a with Some a => a <? b | None => false end.

Definition gt (a : option Z) (b : Z) : bool :=
  match a with Some a => b <? a | None => false end.

(** The loop of [deserializeStream], given the function that reads a nested
    stream; [n] bounds the rounds. *)
Fixpoint deserialize_records
    (nested : DataView.t -> Pointer.t -> outcome (list (string * value) * Pointer.t))
    (n : nat) (view : DataView.t) (remaining : Z)
    (object : list (string * value)) (pointer : Pointer.t)
  : outcome (list (string * value) * Pointer.t) :=
  match n with
  | O => Fuel
  | S n' =>
      if lt (Pointer.mark pointer) remaining then
        let '(at_, pointer) := Pointer.advance pointer 1 in
        let! tag := DataView.getUint8 view at_ in
        let! h := Pointer.readString view pointer in
        let '(head, pointer) := h in
        let! b :=
          if tag =? TAG_INT then
            let '(at_, pointer) := Pointer.advance pointer 4 in
            let! n := DataView.get view at_ 4 true in
            Normal (VNumber n, pointer)
          else if tag =? TAG_STRING then
            let! s := Pointer.readString view pointer in
            Normal (VString (fst s), snd s)
          else if tag =? TAG_STRUCT then
            let! o := nested view pointer in
            Normal (VObject (fst o), snd o)
          else if tag =? TAG_BLOB then
            let '(at_, pointer) := Pointer.advance pointer 4 in
            let! size := DataView.get view at_ 4 true in
            let '(first, pointer) := Pointer.advance pointer size in
            let '(final, pointer) := Pointer.advance pointer 0 in
            Normal (VBuffer (slice (DataView.buffer view) first final), pointer)
          else if tag =? TAG_BOOLEAN then
            let '(at_, pointer) := Pointer.advance pointer 1 in
            let! x := DataView.getUint8 view at_ in
            Normal (VBoolean (JS.truthy x), pointer)
          else Normal (VUndefined, pointer) in
        let '(body, pointer) := b in
        let! object := assign object head body in
        deserialize_records nested n' view remaining object pointer
      else Normal (object, pointer)
  end.

(** [deserializeStream(view, pointer)]; [fuel] bounds the nesting and, at each
    level, the rounds of the loop. The string thrown is carried by [Error]. *)
Fixpoint deserializeStream (fuel : nat) (view : DataView.t) (pointer : Pointer.t)
  : outcome (list (string * value) * Pointer.t) :=
  match fuel with
  | O => Fuel
  | S fuel' =>
      let pointer := Pointer.push pointer in
      let '(at_, pointer) := Pointer.advance pointer 4 in
      let! remaining := DataView.get view at_ 4 true in
      let! r := deserialize_records (deserializeStream fuel') fuel' view remaining [] pointer in
      let '(object, pointer) := r in
      if gt (Pointer.mark pointer) remaining
      then Throw (Error "Size of serialized data exceeded")
      else Normal (object, Pointer.pop pointer)
  end.

(** [deserialize(blob, callback)]: the object handed to the callback. Every
    record takes at least five bytes, which bounds the nesting and the
    rounds. *)
Definition deserialize (blob : list byte) : outcome (list (string * value)) :=
  let! r := deserializeStream (S (length blob)) (DataView.mk blob 0) Pointer.new in
  Normal (fst r).

End Serializer.

(** ** Memory regions *)

(** [MemoryView]: a byte buffer, the [DataView] over it, and the address masks. *)
Module MemoryView.

Record t : Type := mk {
  view : DataView.t;
  mask : Z;
  mask8 : Z;
  mask16 : Z;
  mask32 : Z;
}.

(** [this.buffer] is the buffer the view was created over. *)
Definition buffer (v : t) : list byte := DataView.buffer (view v).
Definition byteLength (v : t) : Z := Z.of_nat (length (buffer v)).

Definition with_view (v : t) (dv : DataView.t) : t :=
  mk dv (mask v) (mask8 v) (mask16 v) (mask32 v).

Definition with_mask (v : t) (m : Z) : t :=
  mk (view v) m (mask8 v) (mask16 v) (mask32 v).

Definition resetMask (v : t) : t :=
  mk (view v) (mask v)
     (JS.and (mask v) 0xffffffff)
     (JS.and (mask v) 0xfffffffe)
     (JS.and (mask v) 0xfffffffc).

(** [new MemoryView(memory, offset)]; [offset] is [None] when the argument is
    not a number. No caller passes an offset beyond the buffer. *)
Definition new (memory : list byte) (offset : option Z) : t :=
  resetMask
    (mk (DataView.mk memory (default 0 offset))
        (Z.of_nat (length memory) - 1) 0 0 0).

Definition load8 (v : t) (offset : Z) : outcome Z :=
  DataView.getInt8 (view v) (JS.and offset (mask8 v)).

Definition load16 (v : t) (offset : Z) : outcome Z :=
  DataView.getInt16 (view v) (JS.and offset (mask v)) true.

Definition loadU8 (v : t) (offset : Z) : outcome Z :=
  DataView.getUint8 (view v) (JS.and offset (mask8 v)).

Definition loadU16 (v : t) (offset : Z) : outcome Z :=
  DataView.getUint16 (view v) (JS.and offset (mask v)) true.

Definition load32 (v : t) (offset : Z) : outcome Z :=
  let rotate := JS.shl (JS.and offset 3) 3 in
  let! mem := DataView.getInt32 (view v) (JS.and offset (mask32 v)) true in
  Normal (JS.or (JS.ushr mem rotate) (JS.shl mem (32 - rotate))).

Definition store8 (v : t) (offset value : Z) : outcome t :=
  let! dv := DataView.setInt8 (view v) (JS.and offset (mask8 v)) value in
  Normal (with_view v dv).

Definition store16 (v : t) (offset value : Z) : outcome t :=
  let! dv := DataView.setInt16 (view v) (JS.and offset (mask16 v)) value true in
  Normal (with_view v dv).

Definition store32 (v : t) (offset value : Z) : outcome t :=
  let! dv := DataView.setInt32 (view v) (JS.and offset (mask32 v)) value true in
  Normal (with_view v dv).

Definition invalidatePage (v : t) (address : Z) : t := v.

(** [replaceData(memory, offset)]: the buffer and the view are replaced, the
    masks stay. The instruction cache is reset by the classes that have one. *)
Definition replaceData (v : t) (memory : list byte) (offset : option Z) : t :=
  with_view v (DataView.mk memory (default 0 offset)).

End MemoryView.

(** An instruction-cache page as [accessPage] creates it: the two decoded
    instruction arrays (their contents belong to the CPU; the lengths are kept)
    and the [invalid] flag. *)
Record page : Type := mkPage {
  thumb : Z;
  arm : Z;
  invalid : bool;
}.

(** The fields [MemoryBlock], [ROMView] and [BIOSView] add to [MemoryView].
    [icache] is a JavaScript array with holes: a finite map from indices. *)
Module Cached.

Record t : Type := mk {
  base : MemoryView.t;
  ICACHE_PAGE_BITS : Z;
  PAGE_MASK : Z;
  icache : gmap Z page;
}.

Definition with_base (c : t) (v : MemoryView.t) : t :=
  mk v (ICACHE_PAGE_BITS c) (PAGE_MASK c) (icache c).

Definition with_icache (c : t) (ic : gmap Z page) : t :=
  mk (base c) (ICACHE_PAGE_BITS c) (PAGE_MASK c) ic.

End Cached.

Module MemoryBlock.

Definition new (size cacheBits : Z) : Cached.t :=
  Cached.mk (MemoryView.new (replicate (Z.to_nat size) x00) None)
            cacheBits
            (JS.shl 2 cacheBits - 1)
            ∅.

(** [invalidatePage]: flag the page the address falls in, when there is one,
    and then overwrite [ICACHE_PAGE_BITS] with 4. *)
Definition invalidatePage (b : Cached.t) (address : Z) : Cached.t :=
  let i := JS.shr (JS.and address (MemoryView.mask (Cached.base b)))
                  (Cached.ICACHE_PAGE_BITS b) in
  let ic :=
    match Cached.icache b !! i with
    | Some p => <[i := mkPage (thumb p) (arm p) true]> (Cached.icache b)
    | None => Cached.icache b
    end in
  Cached.mk (Cached.base b) 4 (Cached.PAGE_MASK b) ic.

End MemoryBlock.

Module ROMView.

Definition new (rom : list byte) (offset : option Z) : Cached.t :=
  let v := MemoryView.new rom offset in
  Cached.mk (MemoryView.resetMask (MemoryView.with_mask v 0x01ffffff))
            10
            (JS.shl 2 10 - 1)
            ∅.

(** Stores are dropped, except that 16- and 32-bit stores to [0xc4, 0xca) are
    handed to the GPIO object, whose class is not part of this development.
    The view has no GPIO object until such a store makes one with
    [this.mmu.allocGPIO(this)]; [mmu] tells whether the field [mmu] of the view
    has been assigned: where it has not, reading [allocGPIO] off it is a
    TypeError. *)
Definition store8 (r : Cached.t) (offset value : Z) : outcome Cached.t := Normal r.

Definition store16 (r : Cached.t) (mmu : bool) (offset value : Z) : outcome Cached.t :=
  if (offset <? 0xca) && (0xc4 <=? offset)
  then if mmu then Outside "GameBoyAdvanceGPIO.store16" else Throw TypeError
  else Normal r.

Definition store32 (r : Cached.t) (mmu : bool) (offset value : Z) : outcome Cached.t :=
  if (offset <? 0xca) && (0xc4 <=? offset)
  then if mmu then Outside "GameBoyAdvanceGPIO.store32" else Throw TypeError
  else Normal r.

End ROMView.

Module BIOSView.

Definition new (rom : list byte) (offset : option Z) : Cached.t :=
  Cached.mk (MemoryView.new rom offset) 16 (JS.shl 2 16 - 1) ∅.

Definition byteLength (b : Cached.t) : Z := MemoryView.byteLength (Cached.base b).
Definition view (b : Cached.t) : DataView.t := MemoryView.view (Cached.base b).

Definition load8 (b : Cached.t) (offset : Z) : outcome Z :=
  if byteLength b <=? offset then Normal (-1)
  else DataView.getInt8 (view b) offset.

Definition load16 (b : Cached.t) (offset : Z) : outcome Z :=
  if byteLength b <=? offset then Normal (-1)
  else DataView.getInt16 (view b) offset true.

Definition loadU8 (b : Cached.t) (offset : Z) : outcome Z :=
  if byteLength b <=? offset then Normal (-1)
  else DataView.getUint8 (view b) offset.

Definition loadU16 (b : Cached.t) (offset : Z) : outcome Z :=
  if byteLength b <=? offset then Normal (-1)
  else DataView.getUint16 (view b) offset true.

Definition load32 (b : Cached.t) (offset : Z) : outcome Z :=
  if byteLength b <=? offset then Normal (-1)
  else DataView.getInt32 (view b) offset true.

Definition store8 (b : Cached.t) (offset value : Z) : outcome Cached.t := Normal b.
Definition store16 (b : Cached.t) (offset value : Z) : outcome Cached.t := Normal b.
Definition store32 (b : Cached.t) (offset value : Z) : outcome Cached.t := Normal b.

End BIOSView.

(** The reference notion of a 32-bit right rotation, as the specification
    uses it: the word's 32 bits moved down by [r] places, the low [r] bits
    re-entering at the top; the result read as a signed 32-bit value. *)
Definition rotate_right (w r : Z) : Z :=
  JS.ToInt32 (Z.lor (Z.shiftr (JS.ToUint32 w) r)
                    (Z.shiftl (JS.ToUint32 w) (32 - r))).

(** ** Region objects and dynamic dispatch *)

(** The save-data classes [loadRom] instantiates. Their sources are not part of
    this development: an instance is represented by its constructor call. *)
Inductive savedata_class : Type :=
  | FlashSavedata
  | SRAMSavedata
  | EEPROMSavedata.

(** The objects that sit in the slots of [GameBoyAdvanceMMU.memory].
    [OIO] is the [GameBoyAdvanceIO] object, of which the [registers] array
    (a zero-filled [Uint16Array]) is modelled; [OOther] stands for an object of
    a class outside this development (palette, VRAM, OAM). A ROM view carries
    whether its field [mmu] has been assigned, which [loadRom] does for the
    view it maps into the three cartridge windows and for no other. *)
Inductive object : Type :=
  | OBadMemory
  | OMemoryBlock (b : Cached.t)
  | OROMView (r : Cached.t) (mmu : bool)
  | OBIOSView (b : Cached.t)
  | OIO (registers : gmap Z Z)
  | OSavedata (c : savedata_class) (size : Z)
  | OOther (class : string).

Module Region.

Definition foreign {A} (o : object) (method : string) : outcome A :=
  match o with
  | OBadMemory => Outside ("BadMemory." +:+ method)
  | OIO _ => Outside ("GameBoyAdvanceIO." +:+ method)
  | OSavedata _ _ => Outside ("Savedata." +:+ method)
  | OOther c => Outside (c +:+ "." +:+ method)
  | _ => Outside method
  end.

(** Loads. [BadMemory] reads through the CPU's registers and
    [GameBoyAdvanceIO] through the peripherals: both leave this development. *)
Definition load8 (o : object) (offset : Z) : outcome Z :=
  match o with
  | OMemoryBlock c | OROMView c _ => MemoryView.load8 (Cached.base c) offset
  | OBIOSView c => BIOSView.load8 c offset
  | _ => foreign o "load8"
  end.

Definition load16 (o : object) (offset : Z) : outcome Z :=
  match o with
  | OMemoryBlock c | OROMView c _ => MemoryView.load16 (Cached.base c) offset
  | OBIOSView c => BIOSView.load16 c offset
  | _ => foreign o "load16"
  end.

Definition loadU8 (o : object) (offset : Z) : outcome Z :=
  match o with
  | OMemoryBlock c | OROMView c _ => MemoryView.loadU8 (Cached.base c) offset
  | OBIOSView c => BIOSView.loadU8 c offset
  | _ => foreign o "loadU8"
  end.

Definition loadU16 (o : object) (offset : Z) : outcome Z :=
  match o with
  | OMemoryBlock c | OROMView c _ => MemoryView.loadU16 (Cached.base c) offset
  | OBIOSView c => BIOSView.loadU16 c offset
  | _ => foreign o "loadU16"
  end.

Definition load32 (o : object) (offset : Z) : outcome Z :=
  match o with
  | OMemoryBlock c | OROMView c _ => MemoryView.load32 (Cached.base c) offset
  | OBIOSView c => BIOSView.load32 c offset
  | _ => foreign o "load32"
  end.

(** Stores. *)
Definition store8 (o : object) (offset value : Z) : outcome object :=
  match o with
  | OMemoryBlock c =>
      let! v := MemoryView.store8 (Cached.base c) offset value in
      Normal (OMemoryBlock (Cached.with_base c v))
  | OROMView c mmu => omap (fun c => OROMView c mmu) (ROMView.store8 c offset value)
  | OBIOSView c => omap OBIOSView (BIOSView.store8 c offset value)
  | OBadMemory => Normal o
  | _ => foreign o "store8"
  end.

Definition store16 (o : object) (offset value : Z) : outcome object :=
  match o with
  | OMemoryBlock c =>
      let! v := MemoryView.store16 (Cached.base c) offset value in
      Normal (OMemoryBlock (Cached.with_base c v))
  | OROMView c mmu => omap (fun c => OROMView c mmu) (ROMView.store16 c mmu offset value)
  | OBIOSView c => omap OBIOSView (BIOSView.store16 c offset value)
  | OBadMemory => Normal o
  | _ => foreign o "store16"
  end.

Definition store32 (o : object) (offset value : Z) : outcome object :=
  match o with
  | OMemoryBlock c =>
      let! v := MemoryView.store32 (Cached.base c) offset value in
      Normal (OMemoryBlock (Cached.with_base c v))
  | OROMView c mmu => omap (fun c => OROMView c mmu) (ROMView.store32 c mmu offset value)
  | OBIOSView c => omap OBIOSView (BIOSView.store32 c offset value)
  | OBadMemory => Normal o
  | _ => foreign o "store32"
  end.

(** [invalidatePage] is empty in every class but [MemoryBlock]. *)
Definition invalidatePage (o : object) (address : Z) : outcome object :=
  match o with
  | OMemoryBlock c => Normal (OMemoryBlock (MemoryBlock.invalidatePage c address))
  | OROMView c mmu =>
      Normal (OROMView (Cached.with_base c (MemoryView.invalidatePage (Cached.base c) address))
                       mmu)
  | OBIOSView c =>
      Normal (OBIOSView (Cached.with_base c (MemoryView.invalidatePage (Cached.base c) address)))
  | OBadMemory | OIO _ => Normal o
  | _ => foreign o "invalidatePage"
  end.

(** Property reads: [None] is [undefined]. *)
Definition cached (o : object) : option Cached.t :=
  match o with
  | OMemoryBlock c | OROMView c _ | OBIOSView c => Some c
  | _ => None
  end.

Definition ICACHE_PAGE_BITS (o : object) : outcome (option Z) :=
  match o with
  | OMemoryBlock c | OROMView c _ | OBIOSView c => Normal (Some (Cached.ICACHE_PAGE_BITS c))
  | OBadMemory | OIO _ => Normal None
  | _ => foreign o "ICACHE_PAGE_BITS"
  end.

Definition view (o : object) : outcome (option DataView.t) :=
  match o with
  | OMemoryBlock c | OROMView c _ | OBIOSView c =>
      Normal (Some (MemoryView.view (Cached.base c)))
  | OBadMemory | OIO _ => Normal None
  | _ => foreign o "view"
  end.

Definition mask (o : object) : outcome (option Z) :=
  match o with
  | OMemoryBlock c | OROMView c _ | OBIOSView c =>
      Normal (Some (MemoryView.mask (Cached.base c)))
  | OBadMemory | OIO _ => Normal None
  | _ => foreign o "mask"
  end.

Definition with_cached (o : object) (c : Cached.t) : object :=
  match o with
  | OMemoryBlock _ => OMemoryBlock c
  | OROMView _ mmu => OROMView c mmu
  | OBIOSView _ => OBIOSView c
  | _ => o
  end.

(** A write through the object's [DataView]: the view shares the object's
    buffer, so the object sees it. *)
Definition with_view (o : object) (dv : DataView.t) : object :=
  match o with
  | OMemoryBlock c =>
      OMemoryBlock (Cached.with_base c (MemoryView.with_view (Cached.base c) dv))
  | OROMView c mmu =>
      OROMView (Cached.with_base c (MemoryView.with_view (Cached.base c) dv)) mmu
  | OBIOSView c =>
      OBIOSView (Cached.with_base c (MemoryView.with_view (Cached.base c) dv))
  | _ => o
  end.

(** [this.buffer] *)
Definition buffer (o : object) : outcome (option (list byte)) :=
  match o with
  | OMemoryBlock c | OROMView c _ | OBIOSView c =>
      Normal (Some (MemoryView.buffer (Cached.base c)))
  | OBadMemory | OIO _ => Normal None
  | _ => foreign o "buffer"
  end.

(** [replaceData(memory)], inherited from [MemoryView] by the three classes
    with an instruction cache, which is replaced by an array of holes.
    [new DataView] accepts nothing but a buffer; the open bus and the I/O
    object have no such method. *)
Definition replaceData (o : object) (memory : option Serializer.value) : outcome object :=
  let replaced (c : Cached.t) : outcome Cached.t :=
    match memory with
    | Some (Serializer.VBuffer bytes) =>
        Normal (Cached.mk (MemoryView.replaceData (Cached.base c) bytes None)
                          (Cached.ICACHE_PAGE_BITS c) (Cached.PAGE_MASK c) ∅)
    | _ => Throw TypeError
    end in
  match o with
  | OMemoryBlock c => omap OMemoryBlock (replaced c)
  | OROMView c mmu => omap (fun c => OROMView c mmu) (replaced c)
  | OBIOSView c => omap OBIOSView (replaced c)
  | OBadMemory | OIO _ => Throw TypeError
  | _ => foreign o "replaceData"
  end.

End Region.

(** ** The bus: [GameBoyAdvanceMMU] *)

Record cart_info : Type := mkCart {
  title : option string;
  code : option string;
  maker : option string;
  cart_memory : list byte;
  saveType : option string;
}.

(** A DMA channel record of the interrupt handler ([cpu.irq.dma[i]]). *)
Record dma_info : Type := mkDma {
  enable : bool;
  repeat : bool;
  width : Z;
  doIrq : bool;
  srcControl : Z;
  dstControl : Z;
  timing : Z;
  source : Z;
  dest : Z;
  count : Z;
  nextSource : Z;
  nextDest : Z;
  nextCount : Z;
  nextIRQ : Z;
}.

(** The six wait-state vectors. JavaScript arrays are maps from indices:
    a write to any index succeeds. *)
Record waits : Type := mkWaits {
  waitstates : gmap Z Z;
  waitstates32 : gmap Z Z;
  waitstatesSeq : gmap Z Z;
  waitstatesSeq32 : gmap Z Z;
  waitstatesPrefetch : gmap Z Z;
  waitstatesPrefetch32 : gmap Z Z;
}.

(** Reading an array of numbers. The wait vectors always hold 256 numbers and
    the register file is zero-filled, so every read made here finds a number;
    an absent entry reads as 0. *)
Definition rd (v : gmap Z Z) (i : Z) : Z := default 0 (v !! i).

Definition array_of_list (l : list Z) : gmap Z Z :=
  list_to_map (imap (fun i x => (Z.of_nat i, x)) l).

Module GameBoyAdvanceMMU.

Definition REGION_WORKING_RAM : Z := 0x2.
Definition REGION_WORKING_IRAM : Z := 0x3.
Definition REGION_IO : Z := 0x4.
Definition REGION_PALETTE_RAM : Z := 0x5.
Definition REGION_VRAM : Z := 0x6.
Definition REGION_OAM : Z := 0x7.
Definition REGION_CART0 : Z := 0x8.
Definition REGION_CART1 : Z := 0xa.
Definition REGION_CART2 : Z := 0xc.
Definition REGION_CART_SRAM : Z := 0xe.

Definition BASE_OFFSET : Z := 24.
Definition OFFSET_MASK : Z := 0x00ffffff.

Definition SIZE_WORKING_RAM : Z := 0x00040000.
Definition SIZE_WORKING_IRAM : Z := 0x00008000.
Definition SIZE_IO : Z := 0x00000400.
Definition SIZE_CART_SRAM : Z := 0x00008000.
Definition SIZE_CART_FLASH512 : Z := 0x00010000.
Definition SIZE_CART_FLASH1M : Z := 0x00020000.
Definition SIZE_CART_EEPROM : Z := 0x00002000.

Definition DMA_TIMING_NOW : Z := 0.
Definition DMA_TIMING_VBLANK : Z := 1.
Definition DMA_TIMING_HBLANK : Z := 2.
Definition DMA_TIMING_CUSTOM : Z := 3.

Definition DMA_INCREMENT_RELOAD : Z := 3.

(** [DMA_OFFSET = [1, -1, 0, 1]], indexed by a two-bit control field. *)
Definition DMA_OFFSET (control : Z) : Z :=
  nth (Z.to_nat control) [1; -1; 0; 1] 0.

Definition ROM_WS (i : Z) : Z := nth (Z.to_nat i) [4; 3; 2; 8] 0.

Definition ROM_WS_SEQ (window i : Z) : Z :=
  nth (Z.to_nat i) (nth (Z.to_nat window) [[2; 1]; [4; 1]; [8; 1]] []) 0.

(** [DMA_REGISTER[i] = DMAiCNT_HI >> 1], with the register offsets of
    [GameBoyAdvanceIO]. *)
Definition DMA0CNT_HI : Z := 0x0ba.
Definition DMA1CNT_HI : Z := 0x0c6.
Definition DMA2CNT_HI : Z := 0x0d2.
Definition DMA3CNT_HI : Z := 0x0de.

Definition DMA_REGISTER : list Z :=
  [JS.shr DMA0CNT_HI 1; JS.shr DMA1CNT_HI 1; JS.shr DMA2CNT_HI 1; JS.shr DMA3CNT_HI 1].

(** The bus object, the objects it refers to (a heap of region objects, so
    that a ROM view installed in several slots is one object), and the
    collaborator state its methods touch: [cpu.cycles], the channel records
    [cpu.irq.dma] and the warnings logged through [core.WARN]. *)
Record t : Type := mk {
  heap : gmap positive object;
  next : positive;
  badMemory : option positive;
  bios : option positive;
  cart : option cart_info;
  memory : gmap Z positive;
  save : option positive;
  ws : waits;
  cycles : Z;
  dma : gmap Z dma_info;
  warnings : list string;
}.

Definition with_heap (s : t) (h : gmap positive object) : t :=
  mk h (next s) (badMemory s) (bios s) (cart s) (memory s) (save s) (ws s)
     (cycles s) (dma s) (warnings s).

Definition with_memory (s : t) (m : gmap Z positive) : t :=
  mk (heap s) (next s) (badMemory s) (bios s) (cart s) m (save s) (ws s)
     (cycles s) (dma s) (warnings s).

Definition with_cart (s : t) (c : option cart_info) : t :=
  mk (heap s) (next s) (badMemory s) (bios s) c (memory s) (save s) (ws s)
     (cycles s) (dma s) (warnings s).

Definition with_save (s : t) (l : option positive) : t :=
  mk (heap s) (next s) (badMemory s) (bios s) (cart s) (memory s) l (ws s)
     (cycles s) (dma s) (warnings s).

Definition with_ws (s : t) (w : waits) : t :=
  mk (heap s) (next s) (badMemory s) (bios s) (cart s) (memory s) (save s) w
     (cycles s) (dma s) (warnings s).

Definition with_cycles (s : t) (c : Z) : t :=
  mk (heap s) (next s) (badMemory s) (bios s) (cart s) (memory s) (save s) (ws s)
     c (dma s) (warnings s).

Definition with_dma (s : t) (d : gmap Z dma_info) : t :=
  mk (heap s) (next s) (badMemory s) (bios s) (cart s) (memory s) (save s) (ws s)
     (cycles s) d (warnings s).

Definition WARN (s : t) (msg : string) : t :=
  mk (heap s) (next s) (badMemory s) (bios s) (cart s) (memory s) (save s) (ws s)
     (cycles s) (dma s) (warnings s ++ [msg]).

(** [new C(...)]: a fresh object. *)
Definition alloc (s : t) (o : object) : t * positive :=
  (mk (<[next s := o]> (heap s)) (Pos.succ (next s)) (badMemory s) (bios s) (cart s)
      (memory s) (save s) (ws s) (cycles s) (dma s) (warnings s),
   next s).

(** [this.memory[region]]: the object in a slot; [None] for [null] or
    [undefined]. *)
Definition slot (s : t) (region : Z) : option (positive * object) :=
  match memory s !! region with
  | Some l => match heap s !! l with Some o => Some (l, o) | None => None end
  | None => None
  end.

Definition set_object (s : t) (l : positive) (o : object) : t :=
  with_heap s (<[l := o]> (heap s)).

Definition mmap (region : Z) (l : positive) (s : t) : t :=
  with_memory s (<[region := l]> (memory s)).

Definition setWaitStates : waits :=
  let seq := array_of_list ([0; 0; 2; 0; 0; 0; 0; 0; 2; 2; 4; 4; 8; 8; 4] ++ replicate 241 0) in
  let seq32 := array_of_list ([0; 0; 5; 0; 0; 1; 0; 1; 5; 5; 9; 9; 17; 17; 8] ++ replicate 241 0) in
  mkWaits
    (array_of_list ([0; 0; 2; 0; 0; 0; 0; 0; 4; 4; 4; 4; 4; 4; 4] ++ replicate 241 0))
    (array_of_list ([0; 0; 5; 0; 0; 1; 0; 1; 7; 7; 9; 9; 13; 13; 8] ++ replicate 241 0))
    seq seq32 seq seq32.

(** [new GameBoyAdvanceMMU()]: the constructor sets the wait states; the
    other fields are not yet assigned. The cycle counter of a fresh CPU is 0
    and no channel is programmed. *)
Definition initial : t :=
  mk ∅ 1%positive None None None ∅ None setWaitStates 0 ∅ [].

(** [clear()]: fresh open-bus object and working RAM blocks, the sixteen slots
    and the 240 mirrors above them, default wait states, no cart, no save. *)
Definition clear (s : t) : t :=
  let '(s, bad) := alloc s OBadMemory in
  let '(s, ram) := alloc s (OMemoryBlock (MemoryBlock.new SIZE_WORKING_RAM 9)) in
  let '(s, iram) := alloc s (OMemoryBlock (MemoryBlock.new SIZE_WORKING_IRAM 7)) in
  let low : gmap Z positive :=
    <[2 := ram]> (<[3 := iram]>
      (match bios s with Some b => <[0 := b]> ∅ | None => ∅ end)) in
  let slots :=
    foldr (fun i m => <[Z.of_nat i := bad]> m) low (1%nat :: seq 8 248) in
  mk (heap s) (next s) (Some bad) (bios s) None slots None setWaitStates
     (cycles s) (dma s) (warnings s).

(** [loadBios(bios, real)]; the [real] flag is not used by the code modelled
    here. *)
Definition loadBios (image : list byte) (s : t) : t :=
  let '(s, b) := alloc s (OBIOSView (BIOSView.new image None)) in
  mk (heap s) (next s) (badMemory s) (Some b) (cart s) (memory s) (save s) (ws s)
     (cycles s) (dma s) (warnings s).

(** [freeze()]: the buffers of the two working RAM blocks, each prefixed with
    its length. *)
Definition frozen_buffer (s : t) (region : Z) : outcome (list byte) :=
  match slot s region with
  | Some (_, o) =>
      let! b := Region.buffer o in
      match b with
      | Some bytes => Normal (Serializer.prefix bytes)
      | None => Throw TypeError
      end
  | None => Throw TypeError
  end.

Definition freeze (s : t) : outcome (list (string * Serializer.value)) :=
  let! ram := frozen_buffer s REGION_WORKING_RAM in
  let! iram := frozen_buffer s REGION_WORKING_IRAM in
  Normal [("ram", Serializer.VBlob ram); ("iram", Serializer.VBlob iram)].

(** [defrost(frost)] *)
Definition replace_slot (region : Z) (memory : option Serializer.value) (s : t) : outcome t :=
  match slot s region with
  | Some (l, o) =>
      let! o := Region.replaceData o memory in
      Normal (set_object s l o)
  | None => Throw TypeError
  end.

Definition defrost (frost : list (string * Serializer.value)) (s : t) : outcome t :=
  let! s := replace_slot REGION_WORKING_RAM (Serializer.property frost "ram") s in
  replace_slot REGION_WORKING_IRAM (Serializer.property frost "iram") s.

(** *** [loadRom] *)

(** [String.fromCharCode(c)] for a byte value. *)
Definition fromCharCode (c : Z) : string :=
  String (ascii_of_N (Z.to_N c)) EmptyString.

(** The header strings: up to [n] characters from [base], stopping at a zero
    byte. *)
Fixpoint read_name (lo : Cached.t) (n : nat) (i base : Z) (name : string)
  : outcome string :=
  match n with
  | O => Normal name
  | S n' =>
      let! c := MemoryView.loadU8 (Cached.base lo) (i + base) in
      if c =? 0 then Normal name
      else read_name lo n' (i + 1) base (name +:+ fromCharCode c)
  end.

Definition save_prefixes : list string :=
  ["F"; "FL"; "FLA"; "FLAS"; "FLASH"; "FLASH_"; "FLASH5"; "FLASH51"; "FLASH512";
   "FLASH512_"; "FLASH1"; "FLASH1M"; "FLASH1M_"; "S"; "SR"; "SRA"; "SRAM";
   "SRAM_"; "E"; "EE"; "EEP"; "EEPR"; "EEPRO"; "EEPROM"; "EEPROM_"].

Definition save_tokens : list string :=
  ["FLASH_V"; "FLASH512_V"; "FLASH1M_V"; "SRAM_V"; "EEPROM_V"].

Definition string_in (x : string) (l : list string) : bool :=
  existsb (String.eqb x) l.

(** The scan for the save-type token: [n] bytes are left to read from [i];
    the result is the final [state] and the [terminal] flag. *)
Fixpoint scan_savetype (lo : Cached.t) (n : nat) (i : Z) (state : string)
  : outcome (string * bool) :=
  match n with
  | O => Normal (state, false)
  | S n' =>
      let! c := MemoryView.loadU8 (Cached.base lo) i in
      let next := fromCharCode c in
      let state := state +:+ next in
      if string_in state save_prefixes then scan_savetype lo n' (i + 1) state
      else if string_in state save_tokens then Normal (state, true)
      else scan_savetype lo n' (i + 1) next
  end.

(** [this.save = this.memory[region] = new C(size)]. *)
Definition install_save (s : t) (region : Z) (c : savedata_class) (size : Z) : t :=
  let '(s, l) := alloc s (OSavedata c size) in
  with_save (mmap region l s) (Some l).

(** [loadRom(rom, process)]. The views [lo] and [hi] are fresh objects; each
    enters the heap when the first slot is made to refer to it. *)
Definition loadRom (rom : list byte) (process : bool) (s : t)
  : outcome (t * option cart_info) :=
  let lo := ROMView.new rom None in
  let! b := DataView.getUint8 (MemoryView.view (Cached.base lo)) 0xb2 in
  if negb (b =? 0x96) then
    (* Not a valid ROM *)
    Normal (s, None)
  else
    let '(s, lo_ref) := alloc s (OROMView lo true) in
    let s := mmap REGION_CART0 lo_ref s in
    let s := mmap REGION_CART1 lo_ref s in
    let s := mmap REGION_CART2 lo_ref s in
    let s :=
      if 0x01000000 <? Z.of_nat (length rom) then
        let '(s, hi_ref) :=
          alloc s (OROMView (ROMView.new rom (Some 0x01000000)) false) in
        let s := mmap (REGION_CART0 + 1) hi_ref s in
        let s := mmap (REGION_CART1 + 1) hi_ref s in
        mmap (REGION_CART2 + 1) hi_ref s
      else s in
    if process then
      let! name := read_name lo 12 0 0xa0 EmptyString in
      let! code := read_name lo 4 0 0xac EmptyString in
      let! maker := read_name lo 2 0 0xb0 EmptyString in
      (* Find savedata type *)
      let! r := scan_savetype lo (Z.to_nat (Z.of_nat (length rom) - 0xe4)) 0xe4 EmptyString in
      let '(state, terminal) := r in
      let s :=
        if terminal then
          if string_in state ["FLASH_V"; "FLASH512_V"] then
            install_save s REGION_CART_SRAM FlashSavedata SIZE_CART_FLASH512
          else if String.eqb state "FLASH1M_V" then
            install_save s REGION_CART_SRAM FlashSavedata SIZE_CART_FLASH1M
          else if String.eqb state "SRAM_V" then
            install_save s REGION_CART_SRAM SRAMSavedata SIZE_CART_SRAM
          else if String.eqb state "EEPROM_V" then
            install_save s (REGION_CART2 + 1) EEPROMSavedata SIZE_CART_EEPROM
          else s
        else s in
      let s :=
        match save s with
        | None =>
            (* Assume we have SRAM *)
            install_save s REGION_CART_SRAM SRAMSavedata SIZE_CART_SRAM
        | Some _ => s
        end in
      let cart :=
        mkCart (Some name) (Some code) (Some maker) rom
               (if terminal then Some state else None) in
      Normal (with_cart s (Some cart), Some cart)
    else
      let cart := mkCart None None None rom None in
      Normal (with_cart s (Some cart), Some cart).

(** *** Bus loads and stores *)

Definition load8 (offset : Z) (s : t) : outcome Z :=
  match slot s (JS.ushr offset BASE_OFFSET) with
  | Some (_, o) => Region.load8 o (JS.and offset 0x00ffffff)
  | None => Throw TypeError
  end.

Definition load16 (offset : Z) (s : t) : outcome Z :=
  match slot s (JS.ushr offset BASE_OFFSET) with
  | Some (_, o) => Region.load16 o (JS.and offset 0x00ffffff)
  | None => Throw TypeError
  end.

Definition load32 (offset : Z) (s : t) : outcome Z :=
  match slot s (JS.ushr offset BASE_OFFSET) with
  | Some (_, o) => Region.load32 o (JS.and offset 0x00ffffff)
  | None => Throw TypeError
  end.

Definition loadU8 (offset : Z) (s : t) : outcome Z :=
  match slot s (JS.ushr offset BASE_OFFSET) with
  | Some (_, o) => Region.loadU8 o (JS.and offset 0x00ffffff)
  | None => Throw TypeError
  end.

Definition loadU16 (offset : Z) (s : t) : outcome Z :=
  match slot s (JS.ushr offset BASE_OFFSET) with
  | Some (_, o) => Region.loadU16 o (JS.and offset 0x00ffffff)
  | None => Throw TypeError
  end.

Definition store8 (offset value : Z) (s : t) : outcome t :=
  let maskedOffset := JS.and offset 0x00ffffff in
  match slot s (JS.ushr offset BASE_OFFSET) with
  | Some (l, o) =>
      let! o := Region.store8 o maskedOffset value in
      let! o := Region.invalidatePage o maskedOffset in
      Normal (set_object s l o)
  | None => Throw TypeError
  end.

Definition store16 (offset value : Z) (s : t) : outcome t :=
  let maskedOffset := JS.and offset 0x00fffffe in
  match slot s (JS.ushr offset BASE_OFFSET) with
  | Some (l, o) =>
      let! o := Region.store16 o maskedOffset value in
      let! o := Region.invalidatePage o maskedOffset in
      Normal (set_object s l o)
  | None => Throw TypeError
  end.

Definition store32 (offset value : Z) (s : t) : outcome t :=
  let maskedOffset := JS.and offset 0x00fffffc in
  match slot s (JS.ushr offset BASE_OFFSET) with
  | Some (l, o) =>
      let! o := Region.store32 o maskedOffset value in
      let! o := Region.invalidatePage o maskedOffset in
      let! o := Region.invalidatePage o (maskedOffset + 2) in
      Normal (set_object s l o)
  | None => Throw TypeError
  end.

(** *** Cycle charges *)

Definition wait (address : Z) (s : t) : t :=
  with_cycles s (cycles s + (1 + rd (waitstates (ws s)) (JS.ushr address BASE_OFFSET))).

Definition waitSeq (address : Z) (s : t) : t :=
  with_cycles s (cycles s + (1 + rd (waitstatesSeq (ws s)) (JS.ushr address BASE_OFFSET))).

Definition wait32 (address : Z) (s : t) : t :=
  with_cycles s (cycles s + (1 + rd (waitstates32 (ws s)) (JS.ushr address BASE_OFFSET))).

Definition waitSeq32 (address : Z) (s : t) : t :=
  with_cycles s (cycles s + (1 + rd (waitstatesSeq32 (ws s)) (JS.ushr address BASE_OFFSET))).

Definition waitPrefetch (address : Z) (s : t) : t :=
  with_cycles s (cycles s + (1 + rd (waitstatesPrefetch (ws s)) (JS.ushr address BASE_OFFSET))).

Definition waitPrefetch32 (address : Z) (s : t) : t :=
  with_cycles s (cycles s + (1 + rd (waitstatesPrefetch32 (ws s)) (JS.ushr address BASE_OFFSET))).

(** [waitMul]. In [rs & (0xffffff00 === 0xffffff00)] the comparison binds
    tighter than [&]: it is [rs & true], that is [rs & 1]; [a || b] on numbers
    and booleans is taken for its truth value. *)
Definition waitMul_cycles (rs : Z) : Z :=
  if JS.truthy (JS.and rs (if 0xffffff00 =? 0xffffff00 then 1 else 0))
     || negb (JS.truthy (JS.and rs 0xffffff00))
  then 1
  else if JS.truthy (JS.and rs (if 0xffff0000 =? 0xffff0000 then 1 else 0))
          || negb (JS.truthy (JS.and rs 0xffff0000))
  then 2
  else if JS.truthy (JS.and rs (if 0xff000000 =? 0xff000000 then 1 else 0))
          || negb (JS.truthy (JS.and rs 0xff000000))
  then 3
  else 4.

Definition waitMul (rs : Z) (s : t) : t :=
  with_cycles s (cycles s + waitMul_cycles rs).

Definition waitMulti32 (address seq : Z) (s : t) : t :=
  let s := with_cycles s (cycles s + (1 + rd (waitstates32 (ws s)) (JS.ushr address BASE_OFFSET))) in
  with_cycles s
    (cycles s + (1 + rd (waitstatesSeq32 (ws s)) (JS.ushr address BASE_OFFSET)) * (seq - 1)).

(** *** Instruction-cache pages *)

Definition addressToPage (region address : Z) (s : t) : outcome Z :=
  match slot s region with
  | Some (_, o) =>
      let! bits := Region.ICACHE_PAGE_BITS o in
      match bits with
      | Some bits => Normal (JS.shr address bits)
      | None => Normal (JS.shr address 0)
      end
  | None => Throw TypeError
  end.

(** [accessPage]: the page, created when absent or invalid; an [Error] for a
    region without [icache]. *)
Definition new_page (c : Cached.t) : page :=
  mkPage (JS.shl 1 (Cached.ICACHE_PAGE_BITS c))
         (JS.shl 1 (Cached.ICACHE_PAGE_BITS c - 1))
         false.

Definition accessPage (region pageId : Z) (s : t) : outcome (t * page) :=
  match slot s region with
  | Some (l, o) =>
      match Region.cached o with
      | Some c =>
          let fresh :=
            let p := new_page c in
            let c := Cached.with_icache c (<[pageId := p]> (Cached.icache c)) in
            Normal (set_object s l (Region.with_cached o c), p) in
          match Cached.icache c !! pageId with
          | Some p => if invalid p then fresh else Normal (s, p)
          | None => fresh
          end
      | None =>
          match o with
          | OBadMemory | OIO _ => Throw (Error "Region of memory does not have icache.")
          | _ => Region.foreign o "icache"
          end
      end
  | None => Throw TypeError
  end.

(** *** The DMA engine *)

(** Truthiness of a property that is an object or [undefined]. *)
Definition defined {A} (x : option A) : bool :=
  match x with Some _ => true | None => false end.

Definition channel (s : t) (i : Z) : option dma_info := dma s !! i.

Definition set_channel (s : t) (i : Z) (info : dma_info) : t :=
  with_dma s (<[i := info]> (dma s)).

(** The sweep over the destination's instruction-cache pages; [n] pages are
    left, [i] is the page counter. [ICACHE_PAGE_BITS] is read again on every
    round. *)
Fixpoint invalidate_pages (n : nat) (i : Z) (o : object) : outcome object :=
  match n with
  | O => Normal o
  | S n' =>
      let! bits := Region.ICACHE_PAGE_BITS o in
      let! o := Region.invalidatePage o (JS.shl i (default 0 bits)) in
      invalidate_pages n' (i + 1) o
  end.

(** The view of an object on the heap; [sourceView] and [destView] are such
    views: they share the buffer of the object they were taken from. *)
Definition heap_view (h : gmap positive object) (l : positive) : outcome DataView.t :=
  match h !! l with
  | Some o =>
      let! v := Region.view o in
      match v with Some dv => Normal dv | None => Throw TypeError end
  | None => Throw TypeError
  end.

Definition heap_object (h : gmap positive object) (l : positive) : outcome object :=
  match h !! l with
  | Some o => Normal o
  | None => Throw TypeError
  end.

Definition write_view (h : gmap positive object) (l : positive) (dv : DataView.t)
  : outcome (gmap positive object) :=
  let! o := heap_object h l in
  Normal (<[l := Region.with_view o dv]> h).

(** One round of each of the six transfer loops. *)
Definition copy32_views (ls ld : positive) (sourceMask destMask : Z)
    (source dest : Z) (h : gmap positive object) : outcome (gmap positive object) :=
  let! sourceView := heap_view h ls in
  let! word := DataView.getInt32 sourceView (JS.and source sourceMask) false in
  let! destView := heap_view h ld in
  let! destView := DataView.setInt32 destView (JS.and dest destMask) word false in
  write_view h ld destView.

Definition copy16_views (ls ld : positive) (sourceMask destMask : Z)
    (source dest : Z) (h : gmap positive object) : outcome (gmap positive object) :=
  let! sourceView := heap_view h ls in
  let! word := DataView.getUint16 sourceView (JS.and source sourceMask) false in
  let! destView := heap_view h ld in
  let! destView := DataView.setUint16 destView (JS.and dest destMask) word false in
  write_view h ld destView.

Definition copy32_view_store (ls ld : positive) (sourceMask : Z)
    (source dest : Z) (h : gmap positive object) : outcome (gmap positive object) :=
  let! sourceView := heap_view h ls in
  let! word := DataView.getInt32 sourceView (JS.and source sourceMask) true in
  let! destBlock := heap_object h ld in
  let! destBlock := Region.store32 destBlock dest word in
  Normal (<[ld := destBlock]> h).

Definition copy16_view_store (ls ld : positive) (sourceMask : Z)
    (source dest : Z) (h : gmap positive object) : outcome (gmap positive object) :=
  let! sourceView := heap_view h ls in
  let! word := DataView.getUint16 sourceView (JS.and source sourceMask) true in
  let! destBlock := heap_object h ld in
  let! destBlock := Region.store16 destBlock dest word in
  Normal (<[ld := destBlock]> h).

Definition copy32_load_store (ls ld : positive)
    (source dest : Z) (h : gmap positive object) : outcome (gmap positive object) :=
  let! sourceBlock := heap_object h ls in
  let! word := Region.load32 sourceBlock source in
  let! destBlock := heap_object h ld in
  let! destBlock := Region.store32 destBlock dest word in
  Normal (<[ld := destBlock]> h).

Definition copy16_load_store (ls ld : positive)
    (source dest : Z) (h : gmap positive object) : outcome (gmap positive object) :=
  let! sourceBlock := heap_object h ls in
  let! word := Region.loadU16 sourceBlock source in
  let! destBlock := heap_object h ld in
  let! destBlock := Region.store16 destBlock dest word in
  Normal (<[ld := destBlock]> h).

(** [while (wordsRemaining--) { body; source += sourceOffset; dest += destOffset }]
    with [n] rounds to go; the result carries the final [source] and [dest]. *)
Fixpoint dma_loop
    (body : Z -> Z -> gmap positive object -> outcome (gmap positive object))
    (n : nat) (sourceOffset destOffset source dest : Z) (h : gmap positive object)
  : outcome (gmap positive object * Z * Z) :=
  match n with
  | O => Normal (h, source, dest)
  | S n' =>
      let! h := body source dest h in
      dma_loop body n' sourceOffset destOffset
               (source + sourceOffset) (dest + destOffset) h
  end.

(** The number of rounds of [while (wordsRemaining--)]: a negative counter
    never reaches zero. *)
Definition rounds (wordsRemaining : Z) : outcome nat :=
  if wordsRemaining <? 0 then Fuel else Normal (Z.to_nat wordsRemaining).

(** "The addresses stay in range for the transfer count": each of the [n]
    four-byte accesses at [start], [start + step], ..., masked, lies inside
    the view. *)
Fixpoint stays_in_range (dv : DataView.t) (n : nat) (start step mask : Z) : bool :=
  match n with
  | O => true
  | S n' =>
      DataView.in_bounds dv (JS.and start mask) 4
      && stays_in_range dv n' (start + step) step mask
  end.

(** [serviceDma] up to the end of the transfer. The result is the state
    with the final [source], [dest] and [wordsRemaining]. *)
Definition transfer (info : dma_info) (s : t) : outcome (t * Z * Z * Z) :=
  let width := width info in
  let sourceOffset := DMA_OFFSET (srcControl info) * width in
  let destOffset := DMA_OFFSET (dstControl info) * width in
  let sourceRegion := JS.ushr (nextSource info) BASE_OFFSET in
  let destRegion := JS.ushr (nextDest info) BASE_OFFSET in
  let sourceBlock := slot s sourceRegion in
  let destBlock := slot s destRegion in
  let wordsRemaining := nextCount info in
  let source := JS.and (nextSource info) OFFSET_MASK in
  let dest := JS.and (nextDest info) OFFSET_MASK in
  match destBlock with
  | None => Throw TypeError
  | Some (ld, od) =>
      let! bits := Region.ICACHE_PAGE_BITS od in
      let! od :=
        match bits with
        | Some bits =>
            if JS.truthy bits then
              let endPage := JS.shr (dest + wordsRemaining * width) bits in
              let first := JS.shr dest bits in
              invalidate_pages (Z.to_nat (endPage - first + 1)) first od
            else Normal od
        | None => Normal od
        end in
      let s := set_object s ld od in
      let! dv :=
        if (destRegion =? REGION_WORKING_RAM) || (destRegion =? REGION_WORKING_IRAM)
        then
          let! v := Region.view od in
          let! m := Region.mask od in
          Normal (defined v, default 0xffffffff m)
        else Normal (false, 0xffffffff) in
      let '(destView, destMask) := dv in
      let! sv :=
        if (sourceRegion =? REGION_WORKING_RAM) || (sourceRegion =? REGION_WORKING_IRAM)
           || (sourceRegion =? REGION_CART0) || (sourceRegion =? REGION_CART1)
        then
          match slot s sourceRegion with
          | None => Throw TypeError
          | Some (_, os) =>
              let! v := Region.view os in
              let! m := Region.mask os in
              Normal (defined v, default 0xffffffff m)
          end
        else Normal (false, 0xffffffff) in
      let '(sourceView, sourceMask) := sv in
      match sourceBlock with
      | Some (ls, _) =>
          let! n := rounds wordsRemaining in
          let! r :=
            if sourceView && destView then
              if width =? 4 then
                dma_loop (copy32_views ls ld sourceMask destMask) n
                         sourceOffset destOffset
                         (JS.and source 0xfffffffc) (JS.and dest 0xfffffffc) (heap s)
              else
                dma_loop (copy16_views ls ld sourceMask destMask) n
                         sourceOffset destOffset source dest (heap s)
            else if sourceView then
              if width =? 4 then
                dma_loop (copy32_view_store ls ld sourceMask) n
                         sourceOffset destOffset
                         (JS.and source 0xfffffffc) (JS.and dest 0xfffffffc) (heap s)
              else
                dma_loop (copy16_view_store ls ld sourceMask) n
                         sourceOffset destOffset source dest (heap s)
            else
              if width =? 4 then
                dma_loop (copy32_load_store ls ld) n
                         sourceOffset destOffset
                         (JS.and source 0xfffffffc) (JS.and dest 0xfffffffc) (heap s)
              else
                dma_loop (copy16_load_store ls ld) n
                         sourceOffset destOffset source dest (heap s) in
          let '(h, source, dest) := r in
          Normal (with_heap s h, source, dest, -1)
      | None =>
          Normal (WARN s "Invalid DMA", source, dest, wordsRemaining)
      end
  end.

(** The bookkeeping of [serviceDma] after the transfer, up to the test of
    [repeat]: the interrupt time and the shadow registers. The width
    ([words]: 32 bits), [sourceRegion] and [destRegion] are the constants taken
    from the record when the call began, [at_call]; the other fields are read
    from the record as it is now, [info]. *)
Definition settle (at_call info : dma_info) (s : t) (src dst remaining : Z) : dma_info :=
  let words := width at_call =? 4 in
  let sourceRegion := JS.ushr (nextSource at_call) BASE_OFFSET in
  let destRegion := JS.ushr (nextDest at_call) BASE_OFFSET in
  let irq :=
    if doIrq info then
      cycles s + 2
      + (if words
         then rd (waitstates32 (ws s)) sourceRegion + rd (waitstates32 (ws s)) destRegion
         else rd (waitstates (ws s)) sourceRegion + rd (waitstates (ws s)) destRegion)
      + (count info - 1)
        * (if words
           then rd (waitstatesSeq32 (ws s)) sourceRegion
                + rd (waitstatesSeq32 (ws s)) destRegion
           else rd (waitstatesSeq (ws s)) sourceRegion
                + rd (waitstatesSeq (ws s)) destRegion)
    else nextIRQ info in
  mkDma (enable info) (repeat info) (width info) (doIrq info)
        (srcControl info) (dstControl info) (timing info)
        (source info) (dest info) (count info)
        (JS.or src (JS.shl sourceRegion BASE_OFFSET))
        (JS.or dst (JS.shl destRegion BASE_OFFSET))
        remaining
        irq.

(** [info.enable = false] *)
Definition disable (info : dma_info) : dma_info :=
  mkDma false (repeat info) (width info) (doIrq info)
        (srcControl info) (dstControl info) (timing info)
        (source info) (dest info) (count info)
        (nextSource info) (nextDest info) (nextCount info) (nextIRQ info).

(** [info.nextCount = info.count], and [info.nextDest = info.dest] when the
    destination control is increment-and-reload. *)
Definition reload (info : dma_info) : dma_info :=
  mkDma (enable info) (repeat info) (width info) (doIrq info)
        (srcControl info) (dstControl info) (timing info)
        (source info) (dest info) (count info)
        (nextSource info)
        (if dstControl info =? DMA_INCREMENT_RELOAD then dest info else nextDest info)
        (count info) (nextIRQ info).

(** [io.registers[DMA_REGISTER[dma]] &= 0x7fe0] on the object in the I/O slot;
    the register file is a [Uint16Array]. *)
Definition clear_enable_bit (i : Z) (s : t) : outcome t :=
  match slot s REGION_IO with
  | Some (l, OIO registers) =>
      match DMA_REGISTER !! Z.to_nat i with
      | Some r =>
          if 0 <=? i then
            Normal (set_object s l
                      (OIO (<[r := JS.ToUint16 (JS.and (rd registers r) 0x7fe0)]> registers)))
          else Normal s
      | None => Normal s
      end
  | Some (_, (OSavedata _ _ | OOther _) as o) => Region.foreign o "registers"
  | Some _ => Throw TypeError
  | None => Throw TypeError
  end.

(** What [serviceDma] runs of the classes outside this development, as
    parameters: [moved info s] is the transfer itself for the channel record
    [info] on the bus [s], from the sweep over the destination's pages to the
    end of the loop, which calls the loads and stores of whatever regions the
    addresses select: the bus it leaves, with the channel records as they then
    are, and the final [source], [dest] and [wordsRemaining];
    [scheduleFIFODma] and [scheduleVCaptureDma] are the methods of the audio
    and the video object. *)
Record outside : Type := mkOutside {
  moved : dma_info -> t -> outcome (t * Z * Z * Z);
  scheduleFIFODma : Z -> t -> outcome t;
  scheduleVCaptureDma : Z -> t -> outcome t;
}.

(** The transfer as the regions modelled here perform it; every call into
    the audio or the video object leaves the model. *)
Definition modelled : outside :=
  mkOutside transfer
            (fun _ _ => Outside "GameBoyAdvanceAudio.scheduleFIFODma")
            (fun _ _ => Outside "GameBoyAdvanceVideo.scheduleVCaptureDma").

(** A text between double quotes. *)
Definition quoted (text : string) : string :=
  let quote := String (ascii_of_nat 34) EmptyString in
  quote +:+ text +:+ quote.

(** [scheduleDma], given the function that services a channel. *)
Definition scheduleDma_with (o : outside) (service : Z -> t -> outcome t) (i : Z) (s : t)
  : outcome t :=
  match channel s i with
  | None => Throw TypeError
  | Some info =>
      if timing info =? DMA_TIMING_NOW then service i s
      else if (timing info =? DMA_TIMING_HBLANK) || (timing info =? DMA_TIMING_VBLANK) then
        (* Handled implicitly *)
        Normal s
      else if timing info =? DMA_TIMING_CUSTOM then
        if i =? 0 then Normal (WARN s "Discarding invalid DMA0 scheduling")
        else if (i =? 1) || (i =? 2) then scheduleFIFODma o i s
        else if i =? 3 then
          scheduleVCaptureDma o i
            (WARN s ("Going to try and call unresolved function "
                     +:+ quoted "scheduleVCaptureDma"))
        else Normal s
      else Normal s
  end.

(** [serviceDma(dma, info)], where [info] is the record of channel [dma]: every
    caller passes [cpu.irq.dma[dma]], and the record of a channel is one
    object throughout, so that what the transfer has made of it is read off
    the bus the transfer leaves. The call chain through [scheduleDma] is
    bounded by [fuel]. *)
Fixpoint serviceDma (o : outside) (fuel : nat) (i : Z) (s : t) : outcome t :=
  match fuel with
  | O => Fuel
  | S fuel' =>
      match channel s i with
      | None => Throw TypeError
      | Some at_call =>
          if negb (enable at_call) then
            (* There was a DMA scheduled that got canceled *)
            Normal s
          else
            let! r := moved o at_call s in
            let '(s, src, dst, remaining) := r in
            match channel s i with
            | None => Throw TypeError
            | Some info =>
                let info := settle at_call info s src dst remaining in
                if negb (repeat info) then
                  let s := set_channel s i (disable info) in
                  (* Clear the enable bit in memory *)
                  clear_enable_bit i s
                else
                  let s := set_channel s i (reload info) in
                  scheduleDma_with o (serviceDma o fuel') i s
            end
      end
  end.

Definition scheduleDma (o : outside) (fuel : nat) (i : Z) (s : t) : outcome t :=
  scheduleDma_with o (serviceDma o fuel) i s.

(** *** [adjustTimings] *)

Definition adjustTimings (word : Z) (w : waits) : waits :=
  let sram := JS.and word 0x0003 in
  let ws0 := JS.shr (JS.and word 0x000c) 2 in
  let ws0seq := JS.shr (JS.and word 0x0010) 4 in
  let ws1 := JS.shr (JS.and word 0x0060) 5 in
  let ws1seq := JS.shr (JS.and word 0x0080) 7 in
  let ws2 := JS.shr (JS.and word 0x0300) 8 in
  let ws2seq := JS.shr (JS.and word 0x0400) 10 in
  let prefetch := JS.and word 0x4000 in
  let n := <[REGION_CART_SRAM := ROM_WS sram]> (waitstates w) in
  let q := <[REGION_CART_SRAM := ROM_WS sram]> (waitstatesSeq w) in
  let n32 := <[REGION_CART_SRAM := ROM_WS sram]> (waitstates32 w) in
  let q32 := <[REGION_CART_SRAM := ROM_WS sram]> (waitstatesSeq32 w) in
  let n := <[REGION_CART0 := ROM_WS ws0]> (<[REGION_CART0 + 1 := ROM_WS ws0]> n) in
  let n := <[REGION_CART1 := ROM_WS ws1]> (<[REGION_CART1 + 1 := ROM_WS ws1]> n) in
  let n := <[REGION_CART2 := ROM_WS ws2]> (<[REGION_CART2 + 1 := ROM_WS ws2]> n) in
  let q := <[REGION_CART0 := ROM_WS_SEQ 0 ws0seq]>
             (<[REGION_CART0 + 1 := ROM_WS_SEQ 0 ws0seq]> q) in
  let q := <[REGION_CART1 := ROM_WS_SEQ 1 ws1seq]>
             (<[REGION_CART1 + 1 := ROM_WS_SEQ 1 ws1seq]> q) in
  let q := <[REGION_CART2 := ROM_WS_SEQ 2 ws2seq]>
             (<[REGION_CART2 + 1 := ROM_WS_SEQ 2 ws2seq]> q) in
  let v0 := rd n REGION_CART0 + 1 + rd q REGION_CART0 in
  let n32 := <[REGION_CART0 := v0]> (<[REGION_CART0 + 1 := v0]> n32) in
  let v1 := rd n REGION_CART1 + 1 + rd q REGION_CART1 in
  let n32 := <[REGION_CART1 := v1]> (<[REGION_CART1 + 1 := v1]> n32) in
  let v2 := rd n REGION_CART2 + 1 + rd q REGION_CART2 in
  let n32 := <[REGION_CART2 := v2]> (<[REGION_CART2 + 1 := v2]> n32) in
  let u0 := 2 * rd q REGION_CART0 + 1 in
  let q32 := <[REGION_CART0 := u0]> (<[REGION_CART0 + 1 := u0]> q32) in
  let u1 := 2 * rd q REGION_CART1 + 1 in
  let q32 := <[REGION_CART1 := u1]> (<[REGION_CART1 + 1 := u1]> q32) in
  let u2 := 2 * rd q REGION_CART2 + 1 in
  let q32 := <[REGION_CART2 := u2]> (<[REGION_CART2 + 1 := u2]> q32) in
  if JS.truthy prefetch then
    let p := waitstatesPrefetch w in
    let p := <[REGION_CART0 := 0]> (<[REGION_CART0 + 1 := 0]> p) in
    let p := <[REGION_CART1 := 0]> (<[REGION_CART1 + 1 := 0]> p) in
    let p := <[REGION_CART2 := 0]> (<[REGION_CART2 + 1 := 0]> p) in
    let p32 := waitstatesPrefetch32 w in
    let p32 := <[REGION_CART0 := 0]> (<[REGION_CART0 + 1 := 0]> p32) in
    let p32 := <[REGION_CART1 := 0]> (<[REGION_CART1 + 1 := 0]> p32) in
    let p32 := <[REGION_CART2 := 0]> (<[REGION_CART2 + 1 := 0]> p32) in
    mkWaits n n32 q q32 p p32
  else
    let p := waitstatesPrefetch w in
    let p := <[REGION_CART0 := rd q REGION_CART0]>
               (<[REGION_CART0 + 1 := rd q REGION_CART0]> p) in
    let p := <[REGION_CART1 := rd q REGION_CART1]>
               (<[REGION_CART1 + 1 := rd q REGION_CART1]> p) in
    let p := <[REGION_CART2 := rd q REGION_CART2]>
               (<[REGION_CART2 + 1 := rd q REGION_CART2]> p) in
    let p32 := waitstatesPrefetch32 w in
    let p32 := <[REGION_CART0 := rd q32 REGION_CART0]>
                 (<[REGION_CART0 + 1 := rd q32 REGION_CART0]> p32) in
    let p32 := <[REGION_CART1 := rd q32 REGION_CART1]>
                 (<[REGION_CART1 + 1 := rd q32 REGION_CART1]> p32) in
    let p32 := <[REGION_CART2 := rd q32 REGION_CART2]>
                 (<[REGION_CART2 + 1 := rd q32 REGION_CART2]> p32) in
    mkWaits n n32 q q32 p p32.

End GameBoyAdvanceMMU.

(** ** Save-data transport: base64

    JavaScript strings are modelled as [string]; every character handled here
    has a code below 256. *)

Module Base64.

Definition alphabet : string :=
  "ABCDEFGHIJKLMNOPQRSTUVWXYZabcdefghijklmnopqrstuvwxyz0123456789+/".

Definition charCode (c : ascii) : Z := Z.of_N (N_of_ascii c).

Definition char_of_sextet (n : Z) : ascii :=
  match String.get (Z.to_nat n) alphabet with
  | Some c => c
  | None => "="%char
  end.

Fixpoint index_from (i : Z) (c : ascii) (s : string) : option Z :=
  match s with
  | EmptyString => None
  | String d rest => if Ascii.eqb c d then Some i else index_from (i + 1) c rest
  end.

Definition sextet_of_char (c : ascii) : option Z := index_from 0 c alphabet.

(** [btoa]: three bytes to four characters, the last group padded with [=]. *)
Fixpoint btoa_codes (l : list Z) : list ascii :=
  match l with
  | a :: b :: c :: rest =>
      let n := a * 65536 + b * 256 + c in
      char_of_sextet (n / 262144) :: char_of_sextet (n / 4096 mod 64)
        :: char_of_sextet (n / 64 mod 64) :: char_of_sextet (n mod 64)
        :: btoa_codes rest
  | [a; b] =>
      let n := a * 65536 + b * 256 in
      [char_of_sextet (n / 262144); char_of_sextet (n / 4096 mod 64);
       char_of_sextet (n / 64 mod 64); "="%char]
  | [a] =>
      let n := a * 65536 in
      [char_of_sextet (n / 262144); char_of_sextet (n / 4096 mod 64);
       "="%char; "="%char]
  | [] => []
  end.

Definition btoa (s : string) : string :=
  string_of_list_ascii (btoa_codes (map charCode (list_ascii_of_string s))).

(** [atob]: ASCII whitespace is dropped; when the length is then a multiple of
    four, one or two trailing [=] are dropped; a length of 1 modulo 4 or a
    character outside the alphabet is an [InvalidCharacterError]; left-over
    bits of the last group are discarded. *)
Definition is_space (c : ascii) : bool :=
  let n := charCode c in
  (n =? 9) || (n =? 10) || (n =? 12) || (n =? 13) || (n =? 32).

Definition strip_padding (l : list ascii) : list ascii :=
  if Z.of_nat (length l) mod 4 =? 0 then
    match rev l with
    | "="%char :: "="%char :: r => rev r
    | "="%char :: r => rev r
    | _ => l
    end
  else l.

Fixpoint sextets (l : list ascii) : option (list Z) :=
  match l with
  | [] => Some []
  | c :: rest =>
      match sextet_of_char c, sextets rest with
      | Some n, Some ns => Some (n :: ns)
      | _, _ => None
      end
  end.

Fixpoint atob_codes (l : list Z) : list Z :=
  match l with
  | a :: b :: c :: d :: rest =>
      let n := a * 262144 + b * 4096 + c * 64 + d in
      n / 65536 :: n / 256 mod 256 :: n mod 256 :: atob_codes rest
  | [a; b; c] =>
      let n := a * 262144 + b * 4096 + c * 64 in
      [n / 65536; n / 256 mod 256]
  | [a; b] =>
      let n := a * 262144 + b * 4096 in
      [n / 65536]
  | _ => []
  end.

Definition atob (s : string) : outcome string :=
  let l := filter (fun c => is_space c = false) (list_ascii_of_string s) in
  let l := strip_padding l in
  if Z.of_nat (length l) mod 4 =? 1 then Throw InvalidCharacterError
  else
    match sextets l with
    | Some ns =>
        Normal (string_of_list_ascii
                  (map (fun n => ascii_of_N (Z.to_N n)) (atob_codes ns)))
    | None => Throw InvalidCharacterError
    end.

End Base64.

(** ** The keypad: [GameBoyAdvanceKeypad] *)

Module GameBoyAdvanceKeypad.

Definition KEY_OFFSET : Z := 0x03ff.

(** The bit of each key, assigned once in the constructor. *)
Definition A : Z := 0.
Definition B : Z := 1.
Definition SELECT : Z := 2.
Definition START : Z := 3.
Definition RIGHT : Z := 4.
Definition LEFT : Z := 5.
Definition UP : Z := 6.
Definition DOWN : Z := 7.
Definition R : Z := 8.
Definition L : Z := 9.

(** [pressedKeys] is an object used as a map from input devices to bit
    fields. The gamepad list is left out. *)
Record t : Type := mk {
  pressedKeys : gmap string Z;
  KEYCODE_LEFT : Z;
  KEYCODE_UP : Z;
  KEYCODE_RIGHT : Z;
  KEYCODE_DOWN : Z;
  KEYCODE_START : Z;
  KEYCODE_SELECT : Z;
  KEYCODE_A : Z;
  KEYCODE_B : Z;
  KEYCODE_L : Z;
  KEYCODE_R : Z;
  eatInput : bool;
  remappingKeyId : string;
}.

Definition new : t :=
  mk (<["keyboard" := 0]> ∅) 37 38 39 40 13 220 90 88 65 83 false EmptyString.

Definition with_pressedKeys (k : t) (p : gmap string Z) : t :=
  mk p (KEYCODE_LEFT k) (KEYCODE_UP k) (KEYCODE_RIGHT k) (KEYCODE_DOWN k)
     (KEYCODE_START k) (KEYCODE_SELECT k) (KEYCODE_A k) (KEYCODE_B k)
     (KEYCODE_L k) (KEYCODE_R k) (eatInput k) (remappingKeyId k).

Definition with_remappingKeyId (k : t) (id : string) : t :=
  mk (pressedKeys k) (KEYCODE_LEFT k) (KEYCODE_UP k) (KEYCODE_RIGHT k) (KEYCODE_DOWN k)
     (KEYCODE_START k) (KEYCODE_SELECT k) (KEYCODE_A k) (KEYCODE_B k)
     (KEYCODE_L k) (KEYCODE_R k) (eatInput k) id.

(** The getter [currentDown]: [Object.values(pressedKeys).reduce(...)]. The
    order in which the values are visited does not change the result. *)
Definition currentDown (k : t) : Z :=
  map_fold (fun _ value acc => JS.and acc (JS.not value)) KEY_OFFSET (pressedKeys k).

(** [remapKeycode(keyId, keycode)] *)
Definition remapKeycode (keyId : string) (keycode : Z) (k : t) : t :=
  let set l u r d st se a b ll rr :=
    mk (pressedKeys k) l u r d st se a b ll rr (eatInput k) (remappingKeyId k) in
  let l := KEYCODE_LEFT k in let u := KEYCODE_UP k in
  let r := KEYCODE_RIGHT k in let d := KEYCODE_DOWN k in
  let st := KEYCODE_START k in let se := KEYCODE_SELECT k in
  let a := KEYCODE_A k in let b := KEYCODE_B k in
  let ll := KEYCODE_L k in let rr := KEYCODE_R k in
  if String.eqb keyId "A" then set l u r d st se keycode b ll rr
  else if String.eqb keyId "B" then set l u r d st se a keycode ll rr
  else if String.eqb keyId "SELECT" then set l u r d st keycode a b ll rr
  else if String.eqb keyId "START" then set l u r d keycode se a b ll rr
  else if String.eqb keyId "RIGHT" then set l u keycode d st se a b ll rr
  else if String.eqb keyId "LEFT" then set keycode u r d st se a b ll rr
  else if String.eqb keyId "UP" then set l keycode r d st se a b ll rr
  else if String.eqb keyId "DOWN" then set l u r keycode st se a b ll rr
  else if String.eqb keyId "R" then set l u r d st se a b ll keycode
  else if String.eqb keyId "L" then set l u r d st se a b keycode rr
  else k.

(** [initKeycodeRemap(keyId)] *)
Definition validKeyIds : list string :=
  ["A"; "B"; "SELECT"; "START"; "RIGHT"; "LEFT"; "UP"; "DOWN"; "R"; "L"].

Definition initKeycodeRemap (keyId : string) (k : t) : t :=
  if existsb (String.eqb keyId) validKeyIds
  then with_remappingKeyId k keyId
  else k.

(** The [switch] of [keyboardHandler]: the bit of the first case the key code
    matches; [None] is the default case. *)
Definition toggle_of (k : t) (keyCode : Z) : option Z :=
  if keyCode =? KEYCODE_START k then Some START
  else if keyCode =? KEYCODE_SELECT k then Some SELECT
  else if keyCode =? KEYCODE_A k then Some A
  else if keyCode =? KEYCODE_B k then Some B
  else if keyCode =? KEYCODE_L k then Some L
  else if keyCode =? KEYCODE_R k then Some R
  else if keyCode =? KEYCODE_UP k then Some UP
  else if keyCode =? KEYCODE_RIGHT k then Some RIGHT
  else if keyCode =? KEYCODE_DOWN k then Some DOWN
  else if keyCode =? KEYCODE_LEFT k then Some LEFT
  else None.

(** [keyboardHandler(e)] for an event with the given [keyCode] and [type].
    The result says whether [e.preventDefault()] has been called. *)
Definition keyboardHandler (keyCode : Z) (type : string) (k : t) : t * bool :=
  if negb (String.eqb (remappingKeyId k) EmptyString) then
    (* Check for a remapping *)
    (with_remappingKeyId (remapKeycode (remappingKeyId k) keyCode k) EmptyString, true)
  else
    match toggle_of k keyCode with
    | None => (k, false)
    | Some toggle =>
        let toggle := JS.shl 1 toggle in
        let keyboard := default 0 (pressedKeys k !! "keyboard") in
        let keyboard :=
          if String.eqb type "keydown" then JS.or keyboard toggle
          else JS.and keyboard (JS.not toggle) in
        (with_pressedKeys k (<["keyboard" := keyboard]> (pressedKeys k)), eatInput k)
    end.

End GameBoyAdvanceKeypad.

(** ** Save games in the browser's storage: [LocalStorageSaveGame] *)

Module LocalStorageSaveGame.

(** [window.localStorage]: the items, and whether the browser refuses another
    write for want of room. *)
Record storage : Type := mkStorage {
  items : gmap string string;
  full : bool;
}.

Definition setItem (key value : string) (st : storage) : outcome storage :=
  if full st then Throw (Error "QuotaExceededError")
  else Normal (mkStorage (<[key := value]> (items st)) (full st)).

Definition getItem (key : string) (st : storage) : option string := items st !! key.

(** The constructor's arguments; an absent one is falsy like the empty
    string. *)
Record t : Type := mk {
  namespace : string;
  prefix : string;
}.

Definition truthy (v : string) : bool := negb (String.eqb v EmptyString).

Definition _key (this : t) (game : string) : string :=
  String.concat "." (List.filter truthy [namespace this; prefix this; game]).

Definition save (this : t) (game data : string) (st : storage) : outcome storage :=
  setItem (_key this game) data st.

Definition load (this : t) (game : string) (st : storage) : option string :=
  getItem (_key this game) st.

End LocalStorageSaveGame.

(** ** The core object: [GameBoyAdvance] *)

Module GameBoyAdvance.

(** [while (wordstring.length >= 3) { ... splice(0, 3) ... }], with [n]
    bounding the rounds. *)
Fixpoint splice_triplets (n : nat) (wordstring data : list string)
  : list string * list string :=
  match n with
  | O => (wordstring, data)
  | S n' =>
      if (3 <=? length wordstring)%nat
      then splice_triplets n' (drop 3 wordstring)
             (data ++ [Base64.btoa (String.concat EmptyString (take 3 wordstring))])
      else (wordstring, data)
  end.

(** [encodeBase64(view)]: the bytes are pushed on [wordstring] one at a time;
    whenever three are there they are spliced off and encoded. *)
Fixpoint encode_loop (view : DataView.t) (n : nat) (i : Z)
    (wordstring : list string) (data : list string) : outcome (list string * list string) :=
  match n with
  | O => Normal (wordstring, data)
  | S n' =>
      let! b := DataView.getUint8 view i in
      let wordstring := wordstring ++ [GameBoyAdvanceMMU.fromCharCode b] in
      let '(wordstring, data) :=
        splice_triplets (length wordstring) wordstring data in
      encode_loop view n' (i + 1) wordstring data
  end.

Definition encodeBase64 (view : DataView.t) : outcome string :=
  let! r := encode_loop view (Z.to_nat (DataView.byteLength view)) 0 [] [] in
  let '(wordstring, data) := r in
  let data :=
    match wordstring with
    | [] => data
    | _ => data ++ [Base64.btoa (String.concat EmptyString wordstring)]
    end in
  Normal (String.concat EmptyString data).

(** [string.match(/..../g)]: the successive groups of four characters none of
    which is a line terminator; [None] ([null]) when there is no such group.
    [n] bounds the scan by the length of the string. *)
Definition is_line_terminator (c : ascii) : bool :=
  (Base64.charCode c =? 10) || (Base64.charCode c =? 13).

Fixpoint groups_of_four (n : nat) (l : list ascii) : list string :=
  match n with
  | O => []
  | S n' =>
      match l with
      | a :: ((b :: c :: d :: rest) as tail) =>
          if existsb is_line_terminator [a; b; c; d]
          then groups_of_four n' tail
          else string_of_list_ascii [a; b; c; d] :: groups_of_four n' rest
      | _ => []
      end
  end.

Definition match_groups (s : string) : option (list string) :=
  match groups_of_four (String.length s) (list_ascii_of_string s) with
  | [] => None
  | g => Some g
  end.

(** [view[i] = v] on a [Uint8Array]: a write outside the array is dropped. *)
Definition set_u8 (view : list byte) (i : Z) (v : Z) : list byte :=
  if (0 <=? i) && (i <? Z.of_nat (length view))
  then <[Z.to_nat i := Z_to_byte v]> view
  else view.

(** [s.charCodeAt(k)], stored into a [Uint8Array]: [NaN] is stored as 0. *)
Definition charCodeAt (s : string) (k : nat) : Z :=
  match String.get k s with
  | Some c => Base64.charCode c
  | None => 0
  end.

(** [bits.shift()] followed by [atob]: [bits] may be [null], and an empty
    array shifts [undefined], which [atob] reads as the text "undefined". *)
Definition shift_atob (bits : option (list string)) : outcome (string * option (list string)) :=
  match bits with
  | None => Throw TypeError
  | Some [] =>
      let! s := Base64.atob "undefined" in Normal (s, Some [])
  | Some (g :: rest) =>
      let! s := Base64.atob g in Normal (s, Some rest)
  end.

(** The [for] loop of [decodeBase64]; [length4] is four times [length], which
    need not be whole. [n] bounds the rounds. *)
Fixpoint decode_loop (n : nat) (i : Z) (length4 : Z)
    (bits : option (list string)) (view : list byte)
  : outcome (option (list string) * list byte) :=
  match n with
  | O => Fuel
  | S n' =>
      if 4 * (i + 2) <? length4 then
        let! r := shift_atob bits in
        let '(s, bits) := r in
        let view := set_u8 view i (charCodeAt s 0) in
        let view := set_u8 view (i + 1) (charCodeAt s 1) in
        let view := set_u8 view (i + 2) (charCodeAt s 2) in
        decode_loop n' (i + 3) length4 bits view
      else Normal (bits, view)
  end.

(** [string[k] == c]; an index outside the string reads [undefined]. *)
Definition char_at_is (s : string) (k : Z) (c : ascii) : bool :=
  if k <? 0 then false
  else
    match String.get (Z.to_nat k) s with
    | Some d => Ascii.eqb d c
    | None => false
    end.

(** [decodeBase64(string)]. The counter [i] of the [for] loop is declared with
    [let]: after the loop the name [i] refers to whatever binding the
    enclosing scopes have; [global_i] is that binding ([None]: there is none,
    and reading the name is a ReferenceError). The result is the buffer and
    the outer binding. *)
Definition decodeBase64 (global_i : option Z) (string : string)
  : outcome (list byte * option Z) :=
  let len := Z.of_nat (String.length string) in
  let length4 := len * 3 in
  let length4 :=
    if char_at_is string (len - 2) "="
    then length4 - 8
    else if char_at_is string (len - 1) "="
    then length4 - 4
    else length4 in
  let view := replicate (Z.to_nat (Z.quot length4 4)) x00 in
  let bits := match_groups string in
  let! r := decode_loop (S (Z.to_nat len)) 0 length4 bits view in
  let '(bits, view) := r in
  match global_i with
  | None => Throw ReferenceError
  | Some i =>
      if 4 * i <? length4 then
        let! r := shift_atob bits in
        let '(s, bits) := r in
        let view := set_u8 view i (charCodeAt s 0) in
        if (1 <? String.length s)%nat
        then Normal (set_u8 view (i + 1) (charCodeAt s 1), Some (i + 2))
        else Normal (view, Some (i + 1))
      else Normal (view, Some i)
  end.

End GameBoyAdvance.

(** ** The core object: logging and the stored save

    The fields of [GameBoyAdvance] these methods touch: the save-game store
    handed to the constructor with the [localStorage] behind it, the bus, the
    log level, and the calls of [this.log] in the order they were made.
    [outer_i] is the binding the name [i] has outside [decodeBase64]. *)

Module GameBoyAdvanceCore.

(** An argument of [this.log]: a text, or a text with an exception appended
    to it ([text + e]). *)
Inductive message : Type :=
  | Text (text : string)
  | TextWith (text : string) (e : error).

Record t : Type := mk {
  saveGame : LocalStorageSaveGame.t;
  localStorage : LocalStorageSaveGame.storage;
  mmu : GameBoyAdvanceMMU.t;
  logLevel : Z;
  logged : list (Z * message);
  outer_i : option Z;
}.

Definition LOG_ERROR : Z := 1.
Definition LOG_WARN : Z := 2.

(** The constructor's [logLevel]. *)
Definition default_logLevel : Z := JS.or LOG_ERROR LOG_WARN.

Definition log (this : t) (level : Z) (m : message) : t :=
  mk (saveGame this) (localStorage this) (mmu this) (logLevel this)
     (logged this ++ [(level, m)]) (outer_i this).

Definition with_mmu (this : t) (m : GameBoyAdvanceMMU.t) : t :=
  mk (saveGame this) (localStorage this) m (logLevel this) (logged this) (outer_i this).

Definition with_outer_i (this : t) (i : option Z) : t :=
  mk (saveGame this) (localStorage this) (mmu this) (logLevel this) (logged this) i.

Definition ERROR (this : t) (error : message) : t :=
  if JS.truthy (JS.and (logLevel this) LOG_ERROR) then log this LOG_ERROR error else this.

Definition WARN (this : t) (warn : message) : t :=
  if JS.truthy (JS.and (logLevel this) LOG_WARN) then log this LOG_WARN warn else this.

(** [logStackTrace(stack)]: the loop from [i] to the end of [stack]. *)
Fixpoint log_frames (n : nat) (i : Z) (stack : list string) (this : t) : t :=
  match n with
  | O => this
  | S n' =>
      if i <? Z.of_nat (length stack) then
        let this :=
          match stack !! Z.to_nat i with
          | Some frame => log this (-1) (Text ("> " +:+ frame))
          | None => log this (-1) (Text "> undefined")
          end in
        log_frames n' (i + 1) stack this
      else this
  end.

Definition logStackTrace (stack : list string) (this : t) : t :=
  let overflow := Z.of_nat (length stack) - 32 in
  let this := ERROR this (Text "Stack trace follows:") in
  let this := if 0 <? overflow then log this (-1) (Text "> (Too many frames)") else this in
  log_frames (length stack) (Z.max overflow 0) stack this.

(** [mmu.loadSavedata(save)]: [this.save.replaceData(save)]. *)
Definition loadSavedata (save : list byte) (s : GameBoyAdvanceMMU.t)
  : outcome GameBoyAdvanceMMU.t :=
  match GameBoyAdvanceMMU.save s with
  | None => Throw TypeError
  | Some l =>
      match GameBoyAdvanceMMU.heap s !! l with
      | Some o =>
          let! o := Region.replaceData o (Some (Serializer.VBuffer save)) in
          Normal (GameBoyAdvanceMMU.set_object s l o)
      | None => Throw TypeError
      end
  end.

(** [retrieveSavedata()], with [decodeSavedata] and [setSavedata] in place.
    What [try] catches is an exception; [decodeBase64] writes the outer [i]
    only after its last call that can throw, so the state a [catch] starts
    from is the state before the call. The result is [this] afterwards and the
    value returned. *)
Definition retrieveSavedata (this : t) : outcome (t * bool) :=
  let failed (this : t) (e : error) :=
    Normal (WARN this (TextWith "Could not retrieve savedata! " e), false) in
  match GameBoyAdvanceMMU.cart (mmu this) with
  | None => failed this TypeError
  | Some cart =>
      match LocalStorageSaveGame.load (saveGame this) (default EmptyString (code cart))
              (localStorage this) with
      | Some data =>
          if LocalStorageSaveGame.truthy data then
            match GameBoyAdvance.decodeBase64 (outer_i this) data with
            | Normal (buffer, i) =>
                let this := with_outer_i this i in
                match loadSavedata buffer (mmu this) with
                | Normal m => Normal (with_mmu this m, true)
                | Throw e => failed this e
                | Outside who => Outside who
                | Fuel => Fuel
                end
            | Throw e => failed this e
            | Outside who => Outside who
            | Fuel => Fuel
            end
          else Normal (this, false)
      | None => Normal (this, false)
      end
  end.

End GameBoyAdvanceCore.

(** ** Observations and sample inputs used in the statements below *)

Definition is_normal {A} (o : outcome A) : bool :=
  match o with Normal _ => true | _ => false end.

(** The value of a register of the I/O object in slot 4. *)
Definition io_register (s : GameBoyAdvanceMMU.t) (r : Z) : option Z :=
  match GameBoyAdvanceMMU.slot s GameBoyAdvanceMMU.REGION_IO with
  | Some (_, OIO registers) => Some (rd registers r)
  | _ => None
  end.

(** Invariants of a transfer between regions that have raw views: at [ls]
    sits a RAM block or a ROM view, at [ld] a RAM block; both carry the masks
    of [resetMask], the mask and the length of the view are [m] and [len]. *)
Definition source_ok (ls : positive) (m len : Z) (h : gmap positive object) : Prop :=
  exists c,
    (h !! ls = Some (OMemoryBlock c) \/ exists mmu, h !! ls = Some (OROMView c mmu))
    /\ MemoryView.resetMask (Cached.base c) = Cached.base c
    /\ MemoryView.mask (Cached.base c) = m
    /\ DataView.byteLength (MemoryView.view (Cached.base c)) = len
    /\ 0 <= DataView.byteOffset (MemoryView.view (Cached.base c)).

Definition dest_ok (ld : positive) (m len : Z) (h : gmap positive object) : Prop :=
  exists c,
    h !! ld = Some (OMemoryBlock c)
    /\ MemoryView.resetMask (Cached.base c) = Cached.base c
    /\ MemoryView.mask (Cached.base c) = m
    /\ DataView.byteLength (MemoryView.view (Cached.base c)) = len
    /\ 0 <= DataView.byteOffset (MemoryView.view (Cached.base c)).

Definition in_range (len i : Z) : bool := (0 <=? i) && (i + 4 <=? len).

(** The page of a region's instruction cache, when it is allocated. *)
Definition cached_page (s : GameBoyAdvanceMMU.t) (region pageId : Z) : option page :=
  match GameBoyAdvanceMMU.slot s region with
  | Some (_, o) =>
      match Region.cached o with
      | Some c => Cached.icache c !! pageId
      | None => None
      end
  | None => None
  end.


(** Two ROM images: one whose byte at 0xB2 is 0x00, one with the title
    "HELLOWORLD" at 0xA0 and 0x96 at 0xB2. *)
Definition bad_header_rom : list byte := replicate 0xB2 x00 ++ [x00; x01].


Definition good_header_rom : list byte :=
  replicate 0xA0 x00
  ++ [x48; x45; x4c; x4c; x4f; x57; x4f; x52; x4c; x44; x00; x00]
  ++ replicate 6 x00 ++ [x96] ++ replicate 0x40 x00.


(** A repeating channel as [serviceDma] reloads it. *)
Definition reloaded (s : GameBoyAdvanceMMU.t) (i : Z) : Prop :=
  exists info,
    GameBoyAdvanceMMU.channel s i = Some info
    /\ repeat info = true
    /\ nextCount info = count info
    /\ (dstControl info = GameBoyAdvanceMMU.DMA_INCREMENT_RELOAD ->
        nextDest info = dest info).

(** A method of the audio or the video object that, when it returns, has
    left a reloaded channel reloaded. *)
Definition keeps_reloaded (schedule : Z -> GameBoyAdvanceMMU.t -> outcome GameBoyAdvanceMMU.t)
  : Prop :=
  forall i s s', schedule i s = Normal s' -> reloaded s i -> reloaded s' i.

(** What the claim promises of the channel record and the control register,
    in terms of the record [info] that the call found: the programmed
    [repeat], [count], [dest] and [dstControl]. *)
Definition bookkeeping_done (info : dma_info) (r : Z) (s' : GameBoyAdvanceMMU.t) (i : Z) : Prop :=
  exists info',
    GameBoyAdvanceMMU.channel s' i = Some info'
    /\ if repeat info
       then nextCount info' = count info
            /\ (dstControl info = GameBoyAdvanceMMU.DMA_INCREMENT_RELOAD ->
                nextDest info' = dest info)
       else enable info' = false
            /\ exists v, io_register s' r = Some v /\ Z.testbit v 15 = false.

(** Two channel records with the same programme: the fields a game writes
    and [serviceDma] reads back when it reloads the channel. *)
Definition same_program (a b : dma_info) : Prop :=
  repeat a = repeat b /\ count a = count b
  /\ dest a = dest b /\ dstControl a = dstControl b.

(** A method of the audio or the video object that, when it returns, has
    left the programme of every channel as it was. *)
Definition keeps_program_of
    (schedule : Z -> GameBoyAdvanceMMU.t -> outcome GameBoyAdvanceMMU.t) : Prop :=
  forall i s s' info,
    schedule i s = Normal s' ->
    GameBoyAdvanceMMU.channel s i = Some info ->
    exists info', GameBoyAdvanceMMU.channel s' i = Some info' /\ same_program info info'.

(** Collaborators that do not reprogram the channel in service: neither the
    loads and stores of the transfer nor the two scheduling methods. *)
Definition keeps_program (o : GameBoyAdvanceMMU.outside) : Prop :=
  (forall i s info s1 src dst remaining,
      GameBoyAdvanceMMU.channel s i = Some info ->
      GameBoyAdvanceMMU.moved o info s = Normal (s1, src, dst, remaining) ->
      exists now, GameBoyAdvanceMMU.channel s1 i = Some now /\ same_program info now)
  /\ keeps_program_of (GameBoyAdvanceMMU.scheduleFIFODma o)
  /\ keeps_program_of (GameBoyAdvanceMMU.scheduleVCaptureDma o).

(** A small heap for a transfer: a 16-byte ROM view and a 16-byte RAM block. *)
Definition sample_rom_view : Cached.t :=
  ROMView.new [x10; x11; x12; x13; x14; x15; x16; x17;
               x18; x19; x1a; x1b; x1c; x1d; x1e; x1f] None.

Definition sample_block : Cached.t := MemoryBlock.new 16 7.

Definition sample_heap : gmap positive object :=
  <[1%positive := OROMView sample_rom_view false]>
    (<[2%positive := OMemoryBlock sample_block]> ∅).

(** The bus after [reset()]: [clear()], then the I/O object mapped into slot
    4, its register file zero but for [DMA3CNT_HI], which holds the control
    word 0x8400 just written (enable, 32-bit, immediate); and channel 3 as
    [dmaWriteControl] leaves it for a transfer of 16 words from
    0x02000000 to 0x03000000. *)
Definition channel3_immediate : dma_info :=
  mkDma true false 4 false 0 0 GameBoyAdvanceMMU.DMA_TIMING_NOW
        0x02000000 0x03000000 0x10
        0x02000000 0x03000000 0x10 0.

Definition after_reset : GameBoyAdvanceMMU.t :=
  let '(s, io) :=
    GameBoyAdvanceMMU.alloc (GameBoyAdvanceMMU.clear GameBoyAdvanceMMU.initial)
      (OIO (<[JS.shr GameBoyAdvanceMMU.DMA3CNT_HI 1 := 0x8400]> ∅)) in
  GameBoyAdvanceMMU.mmap GameBoyAdvanceMMU.REGION_IO io s.

Definition dma3_programmed : GameBoyAdvanceMMU.t :=
  GameBoyAdvanceMMU.set_channel after_reset 3 channel3_immediate.

(** The same with [repeat] set, the destination reloaded, and H-blank timing. *)
Definition channel3_repeat_hblank : dma_info :=
  mkDma true true 4 false 0 GameBoyAdvanceMMU.DMA_INCREMENT_RELOAD
        GameBoyAdvanceMMU.DMA_TIMING_HBLANK
        0x02000000 0x03000000 0x10
        0x02000000 0x03000000 0x10 0.

Definition dma3_repeating : GameBoyAdvanceMMU.t :=
  GameBoyAdvanceMMU.set_channel after_reset 3 channel3_repeat_hblank.

(** Save data of five bytes, "abcde". *)
Definition sample_save : DataView.t :=
  DataView.mk [x61; x62; x63; x64; x65] 0.

(** ** Further observations and sample inputs *)

(** The regions whose stores are dropped: open bus, cartridge ROM, BIOS. *)
Definition read_only (o : object) : bool :=
  match o with
  | OBadMemory | OROMView _ _ | OBIOSView _ => true
  | _ => false
  end.

(** The offsets a ROM view hands to the GPIO object on a 16- or 32-bit store. *)
Definition gpio_window (o : object) (offset : Z) : bool :=
  match o with
  | OROMView _ _ => (offset <? 0xca) && (0xc4 <=? offset)
  | _ => false
  end.

(** Whether the field [mmu] of a ROM view has been assigned. *)
Definition has_mmu (o : object) : bool :=
  match o with
  | OROMView _ mmu => mmu
  | _ => false
  end.

(** A view as [new MemoryView(buffer)] builds it over a buffer of [2^k] bytes
    (every [MemoryBlock] of the bus has such a size), and as the stores keep
    it. *)
Definition block_shape (v : MemoryView.t) (k : Z) : Prop :=
  MemoryView.resetMask v = v
  /\ MemoryView.mask v = 2 ^ k - 1
  /\ DataView.byteOffset (MemoryView.view v) = 0
  /\ MemoryView.byteLength v = 2 ^ k.

(** A bus with one 16-byte RAM block, in the slot of the working RAM. *)
Definition small_bus : GameBoyAdvanceMMU.t :=
  let '(s, ram) := GameBoyAdvanceMMU.alloc GameBoyAdvanceMMU.initial (OMemoryBlock sample_block) in
  GameBoyAdvanceMMU.mmap GameBoyAdvanceMMU.REGION_WORKING_RAM ram s.

(** The state a call returned, for stating what holds of it. *)
Definition returned {A} (o : outcome A) (d : A) : A :=
  match o with Normal a => a | _ => d end.

(** The same bus with a 16-byte ROM view in the first cartridge window. *)
Definition small_cart_bus : GameBoyAdvanceMMU.t :=
  let '(s, rom) := GameBoyAdvanceMMU.alloc small_bus (OROMView sample_rom_view false) in
  GameBoyAdvanceMMU.mmap GameBoyAdvanceMMU.REGION_CART0 rom s.

(** The three cartridge windows refer to one and the same object. *)
Definition cart_mounted (l : positive) (o : object) (s : GameBoyAdvanceMMU.t) : Prop :=
  GameBoyAdvanceMMU.slot s GameBoyAdvanceMMU.REGION_CART0 = Some (l, o)
  /\ GameBoyAdvanceMMU.slot s GameBoyAdvanceMMU.REGION_CART1 = Some (l, o)
  /\ GameBoyAdvanceMMU.slot s GameBoyAdvanceMMU.REGION_CART2 = Some (l, o).

(** [save] refers to a save-data object, and that object sits in the slot of
    its kind: 0xD for an EEPROM, 0xE for flash and SRAM. *)
Definition backup_installed (s : GameBoyAdvanceMMU.t) : Prop :=
  exists ls k size,
    GameBoyAdvanceMMU.save s = Some ls
    /\ GameBoyAdvanceMMU.slot s (match k with EEPROMSavedata => 0xd | _ => 0xe end)
       = Some (ls, OSavedata k size).

(** What [loadRom] keeps while it installs the save data. *)
Definition rom_kept (l : positive) (o : object) (s : GameBoyAdvanceMMU.t) : Prop :=
  cart_mounted l o s /\ (l < GameBoyAdvanceMMU.next s)%positive.


(** The entries [adjustTimings] writes into one vector, in its order: the
    window pairs (8, 9), (10, 11), (12, 13). *)
Definition set_windows (v0 v1 v2 : Z) (m : gmap Z Z) : gmap Z Z :=
  <[12 := v2]> (<[13 := v2]> (<[10 := v1]> (<[11 := v1]> (<[8 := v0]> (<[9 := v0]> m))))).

(** ** Snapshot trees that survive a round trip *)

Definition ascii_only (s : string) : bool :=
  forallb (fun c => Z.of_N (N_of_ascii c) <? 0x80) (list_ascii_of_string s).

(** A blob as [Serializer.prefix] builds it from a buffer: the length of the
    payload in four bytes, then the payload. *)
Definition prefixed (bytes : list byte) : bool :=
  (4 <=? length bytes)%nat
  && (le_combine (take 4 bytes) =? Z.of_nat (length bytes) - 4).

(** The keys of an object are distinct. *)
Fixpoint distinct (keys : list string) : bool :=
  match keys with
  | [] => true
  | k :: rest => negb (existsb (String.eqb k) rest) && distinct rest
  end.

(** The keys that come back where they were: ASCII strings other than
    [__proto__] and [hasOwnProperty] that are no array index. *)
Definition storable_key (k : string) : bool :=
  ascii_only k
  && negb (String.eqb k "__proto__")
  && negb (String.eqb k "hasOwnProperty")
  && match Serializer.array_index k with Some _ => false | None => true end.

(** The trees [serialize] can store so that [deserialize] finds them again:
    objects with distinct storable keys whose [type] is not
    [Serializer.TYPE], strings of ASCII characters, blobs made by
    [Serializer.prefix], numbers, booleans and buffers; no [null] and no
    [undefined]. *)
Fixpoint storable (v : Serializer.value) : bool :=
  match v with
  | Serializer.VNumber _ | Serializer.VBoolean _ | Serializer.VBuffer _ => true
  | Serializer.VString s => ascii_only s
  | Serializer.VBlob bytes => prefixed bytes
  | Serializer.VObject properties =>
      negb (Serializer.typed properties)
      && distinct (map fst properties)
      && forallb (fun kv => storable_key (fst kv) && storable (snd kv)) properties
  | Serializer.VNull | Serializer.VUndefined => false
  end.

(** What comes back: a number modulo 2^32, the payload of a blob as a buffer,
    a buffer as an object without properties. *)
Fixpoint thaw (v : Serializer.value) : Serializer.value :=
  match v with
  | Serializer.VNumber n => Serializer.VNumber (JS.ToUint32 n)
  | Serializer.VBlob bytes => Serializer.VBuffer (drop 4 bytes)
  | Serializer.VBuffer _ => Serializer.VObject []
  | Serializer.VObject properties =>
      Serializer.VObject (map (fun kv => (fst kv, thaw (snd kv))) properties)
  | v => v
  end.

Definition thaw_properties (properties : list (string * Serializer.value))
  : list (string * Serializer.value) :=
  map (fun kv => (fst kv, thaw (snd kv))) properties.

(** The tag and the bytes of the body of a stored value. *)
Definition tag_of (v : Serializer.value) : Z :=
  match v with
  | Serializer.VNumber _ => Serializer.TAG_INT
  | Serializer.VString _ => Serializer.TAG_STRING
  | Serializer.VBoolean _ => Serializer.TAG_BOOLEAN
  | Serializer.VBlob _ => Serializer.TAG_BLOB
  | _ => Serializer.TAG_STRUCT
  end.

Fixpoint body_bytes (v : Serializer.value) : list byte :=
  match v with
  | Serializer.VNumber n => Serializer.pack (Some n)
  | Serializer.VString s => Serializer.prefix_string s
  | Serializer.VBoolean b => Serializer.pack8 (if b then 1 else 0)
  | Serializer.VBlob bytes => bytes
  | Serializer.VBuffer _ => Serializer.pack (Some 4)
  | Serializer.VObject properties =>
      let records :=
        flat_map (fun kv => Serializer.pack8 (tag_of (snd kv))
                            ++ Serializer.prefix_string (fst kv)
                            ++ body_bytes (snd kv)) properties in
      Serializer.pack (Some (4 + Z.of_nat (length records))) ++ records
  | _ => []
  end.

Definition record_bytes (kv : string * Serializer.value) : list byte :=
  Serializer.pack8 (tag_of (snd kv)) ++ Serializer.prefix_string (fst kv)
  ++ body_bytes (snd kv).

Definition records (properties : list (string * Serializer.value)) : list byte :=
  flat_map record_bytes properties.

(** The values [serialize] stores as a nested stream. *)
Definition is_struct (v : Serializer.value) : bool :=
  match v with
  | Serializer.VObject _ | Serializer.VBuffer _ => true
  | _ => false
  end.

Definition properties_of (v : Serializer.value) : list (string * Serializer.value) :=
  match v with
  | Serializer.VObject properties => properties
  | _ => []
  end.

(** A nested stream found at the pointer is read back as the object it was
    written from. *)
Definition nested_ok (fuel : nat) (buf : list byte) (v : Serializer.value) : Prop :=
  is_struct v = true ->
  forall p tail,
    0 <= Pointer.index p ->
    drop (Z.to_nat (Pointer.index p)) buf = body_bytes v ++ tail ->
    Serializer.deserializeStream fuel (DataView.mk buf 0) p
    = Normal (properties_of (thaw v),
              Pointer.mk (Pointer.index p + Z.of_nat (length (body_bytes v)))
                         (Pointer.top p) (Pointer.stack p)).

(** A snapshot tree with a value of every storable kind. *)
Definition sample_snapshot : list (string * Serializer.value) :=
  [("ram", Serializer.VBlob (Serializer.prefix [x01; x02; x03]));
   ("pc", Serializer.VNumber 0x08000000);
   ("name", Serializer.VString "GBA");
   ("halted", Serializer.VBoolean true);
   ("cpu", Serializer.VObject [("r0", Serializer.VNumber (-1))])].

(** A bus whose working RAM slots hold blocks over the given buffers. *)
Definition ram_bus (ram iram : list byte) : GameBoyAdvanceMMU.t :=
  let '(s, a) :=
    GameBoyAdvanceMMU.alloc GameBoyAdvanceMMU.initial
      (OMemoryBlock (Cached.mk (MemoryView.new ram None) 9 (JS.shl 2 9 - 1) ∅)) in
  let '(s, b) :=
    GameBoyAdvanceMMU.alloc s
      (OMemoryBlock (Cached.mk (MemoryView.new iram None) 7 (JS.shl 2 7 - 1) ∅)) in
  GameBoyAdvanceMMU.mmap GameBoyAdvanceMMU.REGION_WORKING_IRAM b
    (GameBoyAdvanceMMU.mmap GameBoyAdvanceMMU.REGION_WORKING_RAM a s).

(** A save-game store as the page creates it, over an empty storage. *)
Definition sample_store : LocalStorageSaveGame.t :=
  LocalStorageSaveGame.mk "gbajs" "save".

Definition empty_storage : LocalStorageSaveGame.storage :=
  LocalStorageSaveGame.mkStorage ∅ false.

(** Channel 3 as [dmaWriteControl] leaves it for a one-word transfer from
    0x02000004 to 0x03000004, 32 bits wide, both addresses incrementing. *)
Definition dma_ram_to_iram : dma_info :=
  mkDma true false 4 false 0 0 GameBoyAdvanceMMU.DMA_TIMING_NOW
        0x02000004 0x03000004 1
        0x02000004 0x03000004 1 0.

(** The bytes of a buffer as a binary string, one character per byte. *)
Definition binary_string (bytes : list byte) : string :=
  String.concat EmptyString
    (map (fun b => GameBoyAdvanceMMU.fromCharCode (byte_to_Z b)) bytes).

(** The number an upper-case hexadecimal numeral denotes; [None] when a
    character is not such a digit. *)
Definition digit_value (c : ascii) : option Z :=
  let code := Z.of_N (N_of_ascii c) in
  if (0x30 <=? code) && (code <=? 0x39) then Some (code - 0x30)
  else if (0x41 <=? code) && (code <=? 0x46) then Some (code - 0x41 + 10)
  else None.

Fixpoint hex_value_from (acc : Z) (s : string) : option Z :=
  match s with
  | EmptyString => Some acc
  | String c rest =>
      match digit_value c with
      | Some d => hex_value_from (acc * 16 + d) rest
      | None => None
      end
  end.

Definition hex_value (s : string) : option Z := hex_value_from 0 s.

(** A core as the constructor leaves it, over the bus [m], with the store
    [sample_store] and the items [items] in [localStorage]; no name [i] is
    bound outside the methods. *)
Definition sample_core (m : GameBoyAdvanceMMU.t) (items : gmap string string)
  : GameBoyAdvanceCore.t :=
  GameBoyAdvanceCore.mk sample_store (LocalStorageSaveGame.mkStorage items false) m
    GameBoyAdvanceCore.default_logLevel [] None.

(** A bus with a cartridge whose game code is "ABCD". *)
Definition bus_with_cart : GameBoyAdvanceMMU.t :=
  GameBoyAdvanceMMU.with_cart GameBoyAdvanceMMU.initial
    (Some (mkCart (Some "GAME") (Some "ABCD") (Some "01") [] None)).

(** Sample collaborators: the regions modelled here make the transfer; the
    audio object's [scheduleFIFODma] finds no FIFO at the destination and
    warns; the video object has no [scheduleVCaptureDma]. *)
Definition sample_outside : GameBoyAdvanceMMU.outside :=
  GameBoyAdvanceMMU.mkOutside GameBoyAdvanceMMU.transfer
    (fun _ s =>
       Normal (GameBoyAdvanceMMU.WARN s "Tried to schedule FIFO DMA for non-FIFO destination"))
    (fun _ _ => Throw TypeError).

(** Channel 1 as [dmaWriteControl] leaves it for a repeating transfer of four
    words from 0x02000000 to the fixed address 0x03000000, with the custom
    timing of the sound FIFOs. *)
Definition channel1_fifo : dma_info :=
  mkDma true true 4 false 0 2 GameBoyAdvanceMMU.DMA_TIMING_CUSTOM
        0x02000000 0x03000000 4
        0x02000000 0x03000000 4 0.

Definition dma1_fifo : GameBoyAdvanceMMU.t :=
  GameBoyAdvanceMMU.set_channel after_reset 1 channel1_fifo.

(** * Properties *)

(** *** Bit-level characterisation of the coercions *)

Lemma ToInt32_range x : - 2 ^ 31 <= JS.ToInt32 x < 2 ^ 31.
Proof.
  unfold JS.ToInt32. cbv zeta.
  pose proof (Z.mod_pos_bound x (2 ^ 32) ltac:(lia)).
  destruct (Z.leb_spec (2 ^ 31) (x mod 2 ^ 32)); lia.
Qed.

Lemma ToInt32_id x : - 2 ^ 31 <= x < 2 ^ 31 -> JS.ToInt32 x = x.
Proof.
  intros Hx. unfold JS.ToInt32. cbv zeta.
  destruct (Z.leb_spec (2 ^ 31) (x mod 2 ^ 32)); Z.div_mod_to_equations; lia.
Qed.

Lemma ToInt32_eqm x : (JS.ToInt32 x) mod 2 ^ 32 = x mod 2 ^ 32.
Proof.
  unfold JS.ToInt32. cbv zeta.
  destruct (Z.leb_spec (2 ^ 31) (x mod 2 ^ 32)).
  - replace (x mod 2 ^ 32 - 2 ^ 32) with (x mod 2 ^ 32 + (-1) * 2 ^ 32) by lia.
    rewrite Z.mod_add by lia. apply Z.mod_mod. lia.
  - apply Z.mod_mod. lia.
Qed.

Lemma testbit_high_nonneg x k i : 0 <= x < 2 ^ k -> 0 <= k <= i -> Z.testbit x i = false.
Proof.
  intros Hx Hi. destruct (Z.eq_dec x 0) as [->|Hne].
  - apply Z.bits_0.
  - apply Z.bits_above_log2; [lia|].
    apply Z.lt_le_trans with k; [|lia].
    apply Z.log2_lt_pow2; lia.
Qed.

Lemma testbit_high_neg x k i : - 2 ^ k <= x < 0 -> 0 <= k <= i -> Z.testbit x i = true.
Proof.
  intros Hx Hi.
  replace x with (- (- x)) by lia.
  rewrite Z.bits_opp by lia.
  rewrite (testbit_high_nonneg (Z.pred (- x)) k i); [reflexivity | lia | lia].
Qed.

Lemma ToInt32_testbit x i :
  0 <= i -> Z.testbit (JS.ToInt32 x) i = Z.testbit x (Z.min i 31).
Proof.
  intros Hi.
  assert (Hlow : forall j, 0 <= j < 32 -> Z.testbit (JS.ToInt32 x) j = Z.testbit x j).
  { intros j Hj.
    rewrite <- (Z.mod_pow2_bits_low (JS.ToInt32 x) 32 j) by lia.
    rewrite ToInt32_eqm. apply Z.mod_pow2_bits_low. lia. }
  destruct (Z.lt_ge_cases i 31) as [Hlt|Hge].
  - rewrite Z.min_l by lia. apply Hlow. lia.
  - rewrite Z.min_r by lia. rewrite <- (Hlow 31) by lia.
    pose proof (ToInt32_range x) as Hr.
    destruct (Z.lt_ge_cases (JS.ToInt32 x) 0).
    + rewrite (testbit_high_neg _ 31 i), (testbit_high_neg _ 31 31); auto; lia.
    + rewrite (testbit_high_nonneg _ 31 i), (testbit_high_nonneg _ 31 31); auto; lia.
Qed.

Lemma ToUint32_testbit x i :
  Z.testbit (JS.ToUint32 x) i = (i <? 32) && Z.testbit x i.
Proof.
  unfold JS.ToUint32. destruct (Z.ltb_spec i 32); simpl.
  - destruct (Z.lt_ge_cases i 0).
    + now rewrite !Z.testbit_neg_r.
    + apply Z.mod_pow2_bits_low. lia.
  - apply Z.mod_pow2_bits_high. lia.
Qed.

(** *** Algebra of [&] on coerced operands *)

Lemma ToInt32_idem x : JS.ToInt32 (JS.ToInt32 x) = JS.ToInt32 x.
Proof. apply ToInt32_id, ToInt32_range. Qed.

Lemma min_min_31 i : Z.min (Z.min i 31) 31 = Z.min i 31.
Proof. lia. Qed.

Lemma and_testbit a b i :
  0 <= i ->
  Z.testbit (JS.and a b) i = Z.testbit a (Z.min i 31) && Z.testbit b (Z.min i 31).
Proof.
  intros Hi. unfold JS.and. now rewrite Z.land_spec, !ToInt32_testbit by lia.
Qed.

Lemma ToInt32_and a b : JS.ToInt32 (JS.and a b) = JS.and a b.
Proof.
  apply Z.bits_inj'. intros i Hi.
  rewrite ToInt32_testbit, !and_testbit by lia.
  now rewrite min_min_31.
Qed.

Lemma and_ToInt32_r a b : JS.and a (JS.ToInt32 b) = JS.and a b.
Proof. unfold JS.and. now rewrite ToInt32_idem. Qed.

Lemma and_ToInt32_l a b : JS.and (JS.ToInt32 a) b = JS.and a b.
Proof. unfold JS.and. now rewrite ToInt32_idem. Qed.

Lemma and_comm a b : JS.and a b = JS.and b a.
Proof. unfold JS.and. apply Z.land_comm. Qed.

Lemma and_assoc a b c : JS.and (JS.and a b) c = JS.and a (JS.and b c).
Proof.
  unfold JS.and at 1 3. rewrite !ToInt32_and. unfold JS.and.
  symmetry. apply Z.land_assoc.
Qed.

Lemma and_idem_r a b : JS.and (JS.and a b) b = JS.and a b.
Proof.
  rewrite and_assoc. unfold JS.and at 2. rewrite Z.land_diag.
  apply and_ToInt32_r.
Qed.

Lemma and_0_r a : JS.and a 0 = 0.
Proof. unfold JS.and. change (JS.ToInt32 0) with 0. apply Z.land_0_r. Qed.

(** *** The rotated read *)

Lemma testbit_ToInt32_low x j : 0 <= j <= 31 -> Z.testbit (JS.ToInt32 x) j = Z.testbit x j.
Proof. intros Hj. rewrite ToInt32_testbit by lia. f_equal. lia. Qed.

Lemma testbit_shiftl_any a n m :
  0 <= m -> Z.testbit (Z.shiftl a n) m = Z.testbit a (m - n).
Proof. intros. now apply Z.shiftl_spec. Qed.

Lemma rotate_bits mem R j :
  0 <= j <= 31 -> 0 <= R < 32 ->
  (j + R <? 32) && Z.testbit mem (j + R)
  || Z.testbit (JS.ToInt32 mem) (j - (32 - R) mod 32)
  = (j + R <? 32) && Z.testbit mem (j + R)
    || (j - (32 - R) <? 32) && Z.testbit mem (j - (32 - R)).
Proof.
  intros Hj HR.
  destruct (Z.eq_dec R 0) as [-> | HR0].
  - change ((32 - 0) mod 32) with 0.
    rewrite (Z.testbit_neg_r mem (j - (32 - 0))) by lia.
    rewrite Z.sub_0_r, Z.add_0_r, testbit_ToInt32_low by lia.
    rewrite andb_false_r, orb_false_r.
    destruct (Z.ltb_spec j 32); [|lia].
    destruct (Z.testbit mem j); reflexivity.
  - rewrite (Z.mod_small (32 - R) 32) by lia.
    destruct (Z.ltb_spec (j + R) 32) as [Hlt | Hge]; simpl.
    + rewrite (Z.testbit_neg_r (JS.ToInt32 mem)), (Z.testbit_neg_r mem (j - (32 - R))) by lia.
      now rewrite ?andb_false_r, ?orb_false_r.
    + rewrite testbit_ToInt32_low by lia.
      destruct (Z.ltb_spec (j - (32 - R)) 32); [reflexivity | lia].
Qed.

Lemma shl_3_small r : 0 <= r <= 3 -> JS.shl r 3 = 8 * r.
Proof.
  intros Hr. assert (Hc : r = 0 \/ r = 1 \/ r = 2 \/ r = 3) by lia.
  destruct Hc as [-> | [-> | [-> | ->]]]; reflexivity.
Qed.

(** The expression [(mem >>> rotate) | (mem << (32 - rotate))] of [load32] is
    the right rotation by [rotate] bits, for the four values [rotate] takes. *)
Lemma load32_expr_rotate mem r :
  0 <= r <= 3 ->
  JS.or (JS.ushr mem (JS.shl r 3)) (JS.shl mem (32 - JS.shl r 3))
  = rotate_right mem (8 * r).
Proof.
  intros Hr. rewrite shl_3_small by assumption.
  unfold JS.or, JS.ushr, JS.shl, rotate_right.
  replace (JS.ToUint32 (8 * r) mod 32) with (8 * r)
    by (unfold JS.ToUint32; Z.div_mod_to_equations; lia).
  replace (JS.ToUint32 (32 - 8 * r) mod 32) with ((32 - 8 * r) mod 32)
    by (unfold JS.ToUint32; Z.div_mod_to_equations; lia).
  apply Z.bits_inj'. intros i Hi.
  rewrite Z.lor_spec, !(ToInt32_testbit _ i) by lia.
  set (j := Z.min i 31). assert (Hj : 0 <= j <= 31) by lia. clearbody j.
  rewrite Z.lor_spec, !Z.shiftr_spec by lia.
  rewrite !testbit_ToInt32_low by lia.
  rewrite !testbit_shiftl_any by lia.
  rewrite !ToUint32_testbit.
  apply rotate_bits; lia.
Qed.

(** Bit [i] of the rotation is bit [(i + r) mod 32] of the word. *)
Lemma rotate_right_testbit w r i :
  0 <= r < 32 -> 0 <= i < 32 ->
  Z.testbit (rotate_right w r) i = Z.testbit w ((i + r) mod 32).
Proof.
  intros Hr Hi. unfold rotate_right.
  rewrite testbit_ToInt32_low, Z.lor_spec, Z.shiftr_spec, testbit_shiftl_any by lia.
  rewrite !ToUint32_testbit.
  destruct (Z.ltb_spec (i + r) 32).
  - rewrite (Z.mod_small (i + r)) by lia.
    rewrite (Z.testbit_neg_r _ (i - (32 - r))) by lia.
    now rewrite andb_false_r, orb_false_r.
  - replace ((i + r) mod 32) with (i - (32 - r))
      by (Z.div_mod_to_equations; lia).
    destruct (Z.ltb_spec (i - (32 - r)) 32); [reflexivity | lia].
Qed.

Lemma and_3_range a : 0 <= JS.and a 3 <= 3.
Proof.
  unfold JS.and. change (JS.ToInt32 3) with (Z.ones 2).
  rewrite Z.land_ones by lia. Z.div_mod_to_equations; lia.
Qed.


Lemma rotate_right_0 w : rotate_right w 0 = JS.ToInt32 w.
Proof.
  apply Z.bits_inj'. intros i Hi.
  rewrite ToInt32_testbit by lia.
  unfold rotate_right. rewrite ToInt32_testbit by lia.
  rewrite Z.lor_spec, Z.shiftr_spec, testbit_shiftl_any by lia.
  rewrite !ToUint32_testbit.
  rewrite (Z.testbit_neg_r w (Z.min i 31 - (32 - 0))) by lia.
  rewrite Z.add_0_r, andb_false_r, orb_false_r.
  destruct (Z.ltb_spec (Z.min i 31) 32); [reflexivity | lia].
Qed.

(** Masking with [~3] first changes neither the word that is fetched nor, once
    the masks are those of [resetMask], its address. *)
Lemma and_not3_and_3 a : JS.and (JS.and a (JS.not 3)) 3 = 0.
Proof.
  rewrite and_assoc. change (JS.and (JS.not 3) 3) with 0. apply and_0_r.
Qed.

Lemma and_not3_mask32 a m :
  JS.and (JS.and a (JS.not 3)) (JS.and m 0xfffffffc) = JS.and a (JS.and m 0xfffffffc).
Proof.
  rewrite and_assoc. f_equal.
  rewrite (and_comm m), <- and_assoc.
  now change (JS.and (JS.not 3) 0xfffffffc) with (JS.ToInt32 0xfffffffc).
Qed.

Lemma getInt32_ToInt32 dv i le w :
  DataView.getInt32 dv i le = Normal w -> JS.ToInt32 w = w.
Proof.
  unfold DataView.getInt32, omap, obind.
  destruct (DataView.get dv i 4 le); try discriminate.
  intros [= <-]. apply ToInt32_idem.
Qed.

Lemma MemoryView_load32_word (v : MemoryView.t) a :
  MemoryView.load32 v a
  = omap (fun w => rotate_right w (8 * JS.and a 3))
         (DataView.getInt32 (MemoryView.view v) (JS.and a (MemoryView.mask32 v)) true).
Proof.
  unfold MemoryView.load32, omap, obind.
  destruct (DataView.getInt32 _ _ _); try reflexivity.
  f_equal. apply load32_expr_rotate, and_3_range.
Qed.

Lemma MemoryView_load32_aligned (v : MemoryView.t) a :
  MemoryView.resetMask v = v ->
  MemoryView.load32 v (JS.and a (JS.not 3))
  = DataView.getInt32 (MemoryView.view v) (JS.and a (MemoryView.mask32 v)) true.
Proof.
  intros Hv. rewrite MemoryView_load32_word, and_not3_and_3.
  rewrite <- Hv at 2 4. cbn [MemoryView.resetMask MemoryView.mask32 MemoryView.view].
  rewrite and_not3_mask32.
  destruct (DataView.getInt32 _ _ _) as [w| | |] eqn:E; try reflexivity.
  cbn. f_equal. change (8 * 0) with 0. rewrite rotate_right_0.
  eapply getInt32_ToInt32; eassumption.
Qed.

Lemma MemoryView_load32_rotate (v : MemoryView.t) a :
  MemoryView.resetMask v = v ->
  MemoryView.load32 v a
  = omap (fun w => rotate_right w (8 * JS.and a 3))
         (MemoryView.load32 v (JS.and a (JS.not 3))).
Proof.
  intros Hv. rewrite MemoryView_load32_aligned by assumption.
  apply MemoryView_load32_word.
Qed.

(** ** C1: the rotated 32-bit read *)

(** C1, counterexample: the BIOS view has its own [load32], which reads the
    four bytes at the offset it is given, without rotation: at offset 1 over
    the bytes 00 01 02 03 04 ... it returns 0x04030201, while the word at 0
    rotated right by 8 bits is 0x00030201. *)
Lemma load32_rotated_read_counterexample :
  let bios := OBIOSView (BIOSView.new [x00; x01; x02; x03; x04; x05; x06; x07] None) in
  Region.load32 bios 1 = Normal 0x04030201
  /\ omap (fun w => rotate_right w (8 * JS.and 1 3))
          (Region.load32 bios (JS.and 1 (JS.not 3))) = Normal 0x00030201
  /\ Region.load32 bios 1
     <> omap (fun w => rotate_right w (8 * JS.and 1 3))
             (Region.load32 bios (JS.and 1 (JS.not 3))).
Proof. vm_compute. repeat split; congruence. Qed.

(** C1 (amended): for every region whose [load32] is [MemoryView]'s (RAM
    blocks and ROM views) and every address [a], [load32(a)] is the aligned
    word that [a & mask32] designates, rotated right by [(a & 3) * 8] bits,
    and [load32(a) = rotate_right(load32(a & ~3), (a & 3) * 8)]. *)
Theorem load32_rotated_read (c : Cached.t) (o : object) (a : Z) :
  MemoryView.resetMask (Cached.base c) = Cached.base c ->
  o = OMemoryBlock c \/ (exists mmu, o = OROMView c mmu) ->
  Region.load32 o a
  = omap (fun w => rotate_right w (8 * JS.and a 3))
         (DataView.getInt32 (MemoryView.view (Cached.base c))
                            (JS.and a (MemoryView.mask32 (Cached.base c))) true)
  /\ Region.load32 o a
     = omap (fun w => rotate_right w (8 * JS.and a 3))
            (Region.load32 o (JS.and a (JS.not 3))).
Proof.
  intros Hmask [-> | [mmu ->]]; cbn [Region.load32]; split;
    auto using MemoryView_load32_word, MemoryView_load32_rotate.
Qed.

Lemma load32_rotated_read_witness :
  let c := ROMView.new [x11; x22; x33; x44; x55; x66; x77; x88] None in
  Region.load32 (OROMView c true) 5
  = omap (fun w => rotate_right w (8 * JS.and 5 3))
         (DataView.getInt32 (MemoryView.view (Cached.base c))
                            (JS.and 5 (MemoryView.mask32 (Cached.base c))) true)
  /\ Region.load32 (OROMView c true) 5
     = omap (fun w => rotate_right w (8 * JS.and 5 3))
            (Region.load32 (OROMView c true) (JS.and 5 (JS.not 3))).
Proof.
  intros c. apply (load32_rotated_read c (OROMView c true) 5).
  - reflexivity.
  - right. exists true. reflexivity.
Defined.

(** The masks are those of [resetMask] in every view the constructors build,
    and stores keep them. *)
Lemma MemoryView_new_masks memory offset :
  MemoryView.resetMask (MemoryView.new memory offset) = MemoryView.new memory offset.
Proof. reflexivity. Qed.

Lemma MemoryBlock_new_masks size bits :
  MemoryView.resetMask (Cached.base (MemoryBlock.new size bits))
  = Cached.base (MemoryBlock.new size bits).
Proof. reflexivity. Qed.

Lemma ROMView_new_masks rom offset :
  MemoryView.resetMask (Cached.base (ROMView.new rom offset))
  = Cached.base (ROMView.new rom offset).
Proof. reflexivity. Qed.

Lemma with_view_masks v dv :
  MemoryView.resetMask v = v ->
  MemoryView.resetMask (MemoryView.with_view v dv) = MemoryView.with_view v dv.
Proof.
  intros H. unfold MemoryView.with_view, MemoryView.resetMask in *. cbn in *.
  destruct v; cbn in *. congruence.
Qed.

(** ** C7: masking the address before a load *)

Lemma and_self_mask a m k : JS.and (JS.and a m) (JS.and m k) = JS.and a (JS.and m k).
Proof.
  rewrite and_assoc. f_equal. rewrite <- and_assoc.
  replace (JS.and m m) with (JS.ToInt32 m)
    by (unfold JS.and; now rewrite Z.land_diag).
  apply and_ToInt32_l.
Qed.

Lemma MemoryView_load32_int32 (v : MemoryView.t) a w :
  MemoryView.load32 v a = Normal w -> JS.ToInt32 w = w.
Proof.
  rewrite MemoryView_load32_word.
  destruct (DataView.getInt32 _ _ _); cbn; try discriminate.
  intros [= <-]. unfold rotate_right. apply ToInt32_idem.
Qed.

Lemma omap_rotate_0 (v : MemoryView.t) a :
  omap (fun w => rotate_right w 0) (MemoryView.load32 v a) = MemoryView.load32 v a.
Proof.
  destruct (MemoryView.load32 v a) as [w| | |] eqn:E; try reflexivity.
  cbn. f_equal. rewrite rotate_right_0. eapply MemoryView_load32_int32; eassumption.
Qed.

Lemma MemoryView_load8_mask (v : MemoryView.t) a :
  MemoryView.resetMask v = v ->
  MemoryView.load8 v a = MemoryView.load8 v (JS.and a (MemoryView.mask v)).
Proof.
  intros Hv. unfold MemoryView.load8. rewrite <- Hv.
  cbn [MemoryView.resetMask MemoryView.mask8 MemoryView.mask MemoryView.view].
  now rewrite and_self_mask.
Qed.

Lemma MemoryView_load16_mask (v : MemoryView.t) a :
  MemoryView.load16 v a = MemoryView.load16 v (JS.and a (MemoryView.mask v)).
Proof. unfold MemoryView.load16. now rewrite and_idem_r. Qed.

Lemma MemoryView_load32_mask32 (v : MemoryView.t) a :
  MemoryView.resetMask v = v ->
  MemoryView.load32 v a
  = omap (fun w => rotate_right w (8 * JS.and a 3))
         (MemoryView.load32 v (JS.and a (MemoryView.mask32 v))).
Proof.
  intros Hv. rewrite (MemoryView_load32_word v a).
  rewrite (MemoryView_load32_word v (JS.and a _)).
  rewrite and_idem_r.
  assert (H3 : JS.and (JS.and a (MemoryView.mask32 v)) 3 = 0).
  { rewrite <- Hv. cbn [MemoryView.resetMask MemoryView.mask32].
    rewrite !and_assoc. change (JS.and 0xfffffffc 3) with 0.
    now rewrite !and_0_r. }
  rewrite H3. change (8 * 0) with 0.
  destruct (DataView.getInt32 _ _ _) as [w| | |] eqn:E; try reflexivity.
  cbn. do 2 f_equal. rewrite rotate_right_0.
  symmetry. eapply getInt32_ToInt32; eassumption.
Qed.

(** C7, counterexample: over the bytes 01 02 03 04 of a ROM view, [load16(1)]
    reads the bytes at 1 and 2 while [load16(1 & mask16)] reads those at 0 and
    1; and [load32(1)] is rotated while [load32(1 & mask32)] is not. *)
Lemma load_mask_absorbed_counterexample :
  let c := ROMView.new [x01; x02; x03; x04] None in
  let R := OROMView c true in
  Region.load16 R 1 = Normal 0x0302
  /\ Region.load16 R (JS.and 1 (MemoryView.mask16 (Cached.base c))) = Normal 0x0201
  /\ Region.load32 R 1 = Normal 0x01040302
  /\ Region.load32 R (JS.and 1 (MemoryView.mask32 (Cached.base c))) = Normal 0x04030201.
Proof. vm_compute. repeat split; reflexivity. Qed.

(** For a word-aligned address the rotation is by zero bits. *)
Lemma load32_mask32_aligned (c : Cached.t) (R : object) (a : Z) :
  MemoryView.resetMask (Cached.base c) = Cached.base c ->
  R = OMemoryBlock c \/ (exists mmu, R = OROMView c mmu) ->
  JS.and a 3 = 0 ->
  Region.load32 R a = Region.load32 R (JS.and a (MemoryView.mask32 (Cached.base c))).
Proof.
  intros Hmask HR Ha.
  destruct HR as [-> | [mmu ->]]; cbn [Region.load32];
    rewrite (MemoryView_load32_mask32 _ a) by assumption;
    rewrite Ha; apply omap_rotate_0.
Qed.

(** C7 (amended): for every region whose loads are [MemoryView]'s (RAM blocks
    and ROM views) and every address [a]: [load8(a) = load8(a & mask)];
    [load16(a) = load16(a & mask)], the byte mask and not [mask16]; and
    [load32(a)] is [load32(a & mask32)] rotated right by [(a & 3) * 8] bits. *)
Theorem load_mask_absorbed (c : Cached.t) (R : object) (a : Z) :
  MemoryView.resetMask (Cached.base c) = Cached.base c ->
  R = OMemoryBlock c \/ (exists mmu, R = OROMView c mmu) ->
  Region.load8 R a = Region.load8 R (JS.and a (MemoryView.mask (Cached.base c)))
  /\ Region.load16 R a = Region.load16 R (JS.and a (MemoryView.mask (Cached.base c)))
  /\ Region.load32 R a
     = omap (fun w => rotate_right w (8 * JS.and a 3))
            (Region.load32 R (JS.and a (MemoryView.mask32 (Cached.base c)))).
Proof.
  intros Hmask HR. repeat split.
  - destruct HR as [-> | [mmu ->]]; cbn [Region.load8]; now apply MemoryView_load8_mask.
  - destruct HR as [-> | [mmu ->]]; cbn [Region.load16]; apply MemoryView_load16_mask.
  - destruct HR as [-> | [mmu ->]]; cbn [Region.load32]; now apply MemoryView_load32_mask32.
Qed.

Lemma load_mask_absorbed_witness :
  let c := Cached.mk (MemoryView.new [x01; x02; x03; x04; x05; x06; x07; x08] None)
                     7 (JS.shl 2 7 - 1) ∅ in
  let R := OMemoryBlock c in
  (Region.load8 R 13 = Region.load8 R (JS.and 13 (MemoryView.mask (Cached.base c)))
   /\ Region.load16 R 13 = Region.load16 R (JS.and 13 (MemoryView.mask (Cached.base c)))
   /\ Region.load32 R 13
      = omap (fun w => rotate_right w (8 * JS.and 13 3))
             (Region.load32 R (JS.and 13 (MemoryView.mask32 (Cached.base c)))))
  /\ Region.load8 R 13 = Normal 0x06
  /\ Region.load16 R 13 = Normal 0x0706
  /\ Region.load32 R 13 = Normal 0x05080706.
Proof.
  intros c R. split.
  - apply (load_mask_absorbed c R 13).
    + reflexivity.
    + left. reflexivity.
  - vm_compute. repeat split; reflexivity.
Defined.

(** ** C6: BIOS reads past the end of the image *)

(** C6, counterexample: past the end of a 4-byte image the unsigned loads
    return -1 as well, not 0xFF and 0xFFFF. *)
Lemma BIOS_out_of_bounds_counterexample :
  let bios := BIOSView.new [x00; x01; x02; x03] None in
  BIOSView.byteLength bios <= 4
  /\ BIOSView.loadU8 bios 4 = Normal (-1)
  /\ BIOSView.loadU8 bios 4 <> Normal 0xFF
  /\ BIOSView.loadU16 bios 4 = Normal (-1)
  /\ BIOSView.loadU16 bios 4 <> Normal 0xFFFF.
Proof. vm_compute. repeat split; congruence. Qed.

(** C6 (amended): for every BIOS view and every offset greater than or equal
    to the byte length of its buffer, the five loads [load8], [load16],
    [load32], [loadU8] and [loadU16] all return -1. *)
Theorem BIOS_out_of_bounds (bios : Cached.t) (offset : Z) :
  BIOSView.byteLength bios <= offset ->
  BIOSView.load8 bios offset = Normal (-1)
  /\ BIOSView.load16 bios offset = Normal (-1)
  /\ BIOSView.load32 bios offset = Normal (-1)
  /\ BIOSView.loadU8 bios offset = Normal (-1)
  /\ BIOSView.loadU16 bios offset = Normal (-1).
Proof.
  intros H.
  unfold BIOSView.load8, BIOSView.load16, BIOSView.load32,
         BIOSView.loadU8, BIOSView.loadU16.
  destruct (Z.leb_spec (BIOSView.byteLength bios) offset); [|lia].
  repeat split; reflexivity.
Qed.

Lemma BIOS_out_of_bounds_witness :
  let bios := BIOSView.new [x00; x01; x02; x03] None in
  BIOSView.load8 bios 4 = Normal (-1)
  /\ BIOSView.load16 bios 4 = Normal (-1)
  /\ BIOSView.load32 bios 4 = Normal (-1)
  /\ BIOSView.loadU8 bios 4 = Normal (-1)
  /\ BIOSView.loadU16 bios 4 = Normal (-1).
Proof.
  intros bios. apply (BIOS_out_of_bounds bios 4).
  vm_compute. discriminate.
Defined.

(** ** C8: multiplier cycles *)

Lemma and_1_odd rs : JS.and rs 1 = if Z.odd rs then 1 else 0.
Proof.
  unfold JS.and. change (JS.ToInt32 1) with (Z.ones 1).
  rewrite Z.land_ones by lia. change (2 ^ 1) with 2.
  rewrite Zmod_odd, <- !Z.bit0_odd, testbit_ToInt32_low by lia.
  reflexivity.
Qed.

(** What [waitMul] charges: one cycle for every odd multiplier; for an even
    one, by the highest non-zero byte. *)
Lemma waitMul_cycles_odd rs : Z.odd rs = true -> GameBoyAdvanceMMU.waitMul_cycles rs = 1.
Proof.
  intros Hodd. unfold GameBoyAdvanceMMU.waitMul_cycles.
  change (0xffffff00 =? 0xffffff00) with true. cbv iota.
  now rewrite and_1_odd, Hodd.
Qed.

Lemma waitMul_cycles_even rs :
  Z.odd rs = false ->
  GameBoyAdvanceMMU.waitMul_cycles rs
  = if JS.and rs 0xffffff00 =? 0 then 1
    else if JS.and rs 0xffff0000 =? 0 then 2
    else if JS.and rs 0xff000000 =? 0 then 3
    else 4.
Proof.
  intros Hodd. unfold GameBoyAdvanceMMU.waitMul_cycles.
  change (0xffffff00 =? 0xffffff00) with true.
  change (0xffff0000 =? 0xffff0000) with true.
  change (0xff000000 =? 0xff000000) with true.
  cbv iota. rewrite and_1_odd, Hodd. unfold JS.truthy.
  change (0 =? 0) with true. cbn [negb orb].
  now rewrite !negb_involutive.
Qed.

(** C8, the code at the failing input: the multiplier 0x01000001 has a
    non-zero byte 3, for which the claim charges 4 cycles; it is odd, and
    [waitMul] adds 1 cycle. *)
Theorem waitMul_odd_high_byte (s : GameBoyAdvanceMMU.t) :
  JS.and 0x01000001 0xff000000 <> 0
  /\ GameBoyAdvanceMMU.cycles (GameBoyAdvanceMMU.waitMul 0x01000001 s)
     = GameBoyAdvanceMMU.cycles s + 1.
Proof. split; [vm_compute; discriminate | reflexivity]. Qed.

(** ** C5: the wait-state vectors after [adjustTimings] *)

Lemma land_pow2_testbit a n :
  0 <= n -> Z.land a (2 ^ n) = if Z.testbit a n then 2 ^ n else 0.
Proof.
  intros Hn. apply Z.bits_inj'. intros i Hi.
  rewrite Z.land_spec, Z.pow2_bits_eqb by lia.
  destruct (Z.eqb_spec n i) as [-> | Hne].
  - destruct (Z.testbit a i) eqn:E; cbn.
    + now rewrite Z.pow2_bits_true.
    + now rewrite Z.bits_0.
  - rewrite andb_false_r.
    destruct (Z.testbit a n).
    + now rewrite Z.pow2_bits_false.
    + now rewrite Z.bits_0.
Qed.

(** The [prefetch] field is bit 14 of the control word. *)
Lemma prefetch_bit word : JS.truthy (JS.and word 0x4000) = Z.testbit word 14.
Proof.
  unfold JS.truthy, JS.and. change (JS.ToInt32 0x4000) with (2 ^ 14).
  rewrite land_pow2_testbit, testbit_ToInt32_low by lia.
  now destruct (Z.testbit word 14).
Qed.

Ltac map_lookups :=
  repeat first
    [ rewrite lookup_insert_eq
    | rewrite lookup_insert_ne by (let H := fresh in intros H; discriminate H) ].

(** C5: after [adjustTimings(word)], on each of the six cartridge-window
    slots 8..13: [waitstates32 = waitstates + 1 + waitstatesSeq],
    [waitstatesSeq32 = 2 * waitstatesSeq + 1], and the two prefetch vectors
    are 0 when bit 14 of [word] is set and equal to [waitstatesSeq] and
    [waitstatesSeq32] when it is clear. *)
Theorem adjustTimings_cart_windows (word : Z) (w : waits) (slot : Z) :
  GameBoyAdvanceMMU.REGION_CART0 <= slot <= GameBoyAdvanceMMU.REGION_CART2 + 1 ->
  let w' := GameBoyAdvanceMMU.adjustTimings word w in
  waitstates32 w' !! slot
  = Some (rd (waitstates w') slot + 1 + rd (waitstatesSeq w') slot)
  /\ waitstatesSeq32 w' !! slot = Some (2 * rd (waitstatesSeq w') slot + 1)
  /\ waitstatesPrefetch w' !! slot
     = Some (if Z.testbit word 14 then 0 else rd (waitstatesSeq w') slot)
  /\ waitstatesPrefetch32 w' !! slot
     = Some (if Z.testbit word 14 then 0 else rd (waitstatesSeq32 w') slot).
Proof.
  intros Hslot w'. subst w'.
  unfold GameBoyAdvanceMMU.REGION_CART0, GameBoyAdvanceMMU.REGION_CART2 in Hslot.
  assert (Hc : slot = 8 \/ slot = 9 \/ slot = 10 \/ slot = 11 \/ slot = 12 \/ slot = 13)
    by lia.
  unfold GameBoyAdvanceMMU.adjustTimings.
  rewrite prefetch_bit.
  unfold GameBoyAdvanceMMU.REGION_CART0, GameBoyAdvanceMMU.REGION_CART1,
         GameBoyAdvanceMMU.REGION_CART2, GameBoyAdvanceMMU.REGION_CART_SRAM.
  change (8 + 1) with 9. change (10 + 1) with 11. change (12 + 1) with 13.
  cbv zeta.
  destruct (Z.testbit word 14);
    cbn [waitstates waitstates32 waitstatesSeq waitstatesSeq32
         waitstatesPrefetch waitstatesPrefetch32];
    unfold rd;
    destruct Hc as [-> | [-> | [-> | [-> | [-> | ->]]]]];
    map_lookups; cbn [default]; repeat split; reflexivity.
Qed.

Lemma adjustTimings_cart_windows_witness :
  let w' := GameBoyAdvanceMMU.adjustTimings 0x4014 GameBoyAdvanceMMU.setWaitStates in
  waitstates32 w' !! 8
  = Some (rd (waitstates w') 8 + 1 + rd (waitstatesSeq w') 8)
  /\ waitstatesSeq32 w' !! 8 = Some (2 * rd (waitstatesSeq w') 8 + 1)
  /\ waitstatesPrefetch w' !! 8
     = Some (if Z.testbit 0x4014 14 then 0 else rd (waitstatesSeq w') 8)
  /\ waitstatesPrefetch32 w' !! 8
     = Some (if Z.testbit 0x4014 14 then 0 else rd (waitstatesSeq32 w') 8).
Proof.
  apply (adjustTimings_cart_windows 0x4014 GameBoyAdvanceMMU.setWaitStates 8).
  vm_compute. split; discriminate.
Defined.

(** The worked example of the specification: [WAITCNT = 0x4014]. *)
Example adjustTimings_0x4014 :
  let w' := GameBoyAdvanceMMU.adjustTimings 0x4014 GameBoyAdvanceMMU.setWaitStates in
  rd (waitstates w') 8 = 3 /\ rd (waitstates w') 9 = 3
  /\ rd (waitstatesSeq w') 8 = 1 /\ rd (waitstates32 w') 8 = 5
  /\ rd (waitstatesPrefetch w') 8 = 0.
Proof. vm_compute. repeat split; reflexivity. Qed.

(** ** C4: a ROM image with a bad header byte *)

Lemma getUint8_lookup (buf : list byte) (i : nat) (x : byte) :
  buf !! i = Some x ->
  DataView.getUint8 (DataView.mk buf 0) (Z.of_nat i) = Normal (byte_to_Z x).
Proof.
  intros Hx. pose proof (lookup_lt_Some _ _ _ Hx) as Hlt.
  unfold DataView.getUint8, DataView.get, DataView.in_bounds, DataView.byteLength.
  cbn [DataView.buffer DataView.byteOffset].
  destruct (Z.leb_spec 0 (Z.of_nat i)); [|lia].
  destruct (Z.leb_spec (Z.of_nat i + Z.of_nat 1) (Z.of_nat (length buf) - 0)); [|lia].
  cbn [andb]. f_equal.
  unfold DataView.read, DataView.endian. cbn [DataView.buffer DataView.byteOffset].
  rewrite Z.add_0_l, Nat2Z.id.
  rewrite (drop_S _ _ _ Hx). cbn [take le_combine]. rewrite take_0. cbn [le_combine]. lia.
Qed.

(** C4: when the byte at offset 0xB2 of the image is not 0x96, [loadRom]
    returns no cart and the bus it returns is the bus it was given: the [cart]
    field, the [save] field, every slot of [memory] and every region object
    are what they were. *)
Theorem loadRom_rejects_bad_header
    (rom : list byte) (process : bool) (s : GameBoyAdvanceMMU.t) (x : byte) :
  rom !! 0xB2%nat = Some x ->
  byte_to_Z x <> 0x96 ->
  GameBoyAdvanceMMU.loadRom rom process s = Normal (s, None).
Proof.
  intros Hx Hne. unfold GameBoyAdvanceMMU.loadRom.
  change (MemoryView.view (Cached.base (ROMView.new rom None)))
    with (DataView.mk rom 0).
  change 0xb2 with (Z.of_nat 0xB2).
  rewrite (getUint8_lookup rom _ x Hx). cbn [obind].
  destruct (Z.eqb_spec (byte_to_Z x) 0x96); [contradiction | reflexivity].
Qed.

Lemma loadRom_rejects_bad_header_witness :
  GameBoyAdvanceMMU.loadRom bad_header_rom true
    (GameBoyAdvanceMMU.clear GameBoyAdvanceMMU.initial)
  = Normal (GameBoyAdvanceMMU.clear GameBoyAdvanceMMU.initial, None).
Proof.
  apply (loadRom_rejects_bad_header bad_header_rom true _ x00).
  - reflexivity.
  - vm_compute. discriminate.
Defined.

(** The accepting path, for comparison: with 0x96 at 0xB2 the image is
    installed in the three cartridge windows and a cart is returned. *)
Example loadRom_accepts_good_header :
  match GameBoyAdvanceMMU.loadRom good_header_rom true
          (GameBoyAdvanceMMU.clear GameBoyAdvanceMMU.initial) with
  | Normal (s', Some c) =>
      title c = Some "HELLOWORLD"
      /\ GameBoyAdvanceMMU.cart s' = Some c
      /\ GameBoyAdvanceMMU.memory s' !! 8 = GameBoyAdvanceMMU.memory s' !! 10
      /\ GameBoyAdvanceMMU.memory s' !! 8 = GameBoyAdvanceMMU.memory s' !! 12
      /\ GameBoyAdvanceMMU.save s' = GameBoyAdvanceMMU.memory s' !! 0xe
      /\ snd <$> GameBoyAdvanceMMU.slot s' 0xe = Some (OSavedata SRAMSavedata 0x8000)
  | _ => False
  end.
Proof. vm_compute. repeat split; reflexivity. Qed.

(** ** C2: stores and the instruction-cache pages *)

(** [invalidatePage] flags the page that the address indexes with the current
    [ICACHE_PAGE_BITS] ... *)
Lemma invalidatePage_flags_page (b : Cached.t) (address : Z) (p : page) :
  let i := JS.shr (JS.and address (MemoryView.mask (Cached.base b)))
                  (Cached.ICACHE_PAGE_BITS b) in
  Cached.icache b !! i = Some p ->
  Cached.icache (MemoryBlock.invalidatePage b address) !! i
  = Some (mkPage (thumb p) (arm p) true).
Proof.
  intros i Hp. unfold MemoryBlock.invalidatePage. fold i. rewrite Hp.
  cbn [Cached.icache]. apply lookup_insert_eq.
Qed.

(** ... and then leaves 4 in [ICACHE_PAGE_BITS], whatever the block was built
    with. *)
Lemma invalidatePage_overwrites_bits (b : Cached.t) (address : Z) :
  Cached.ICACHE_PAGE_BITS (MemoryBlock.invalidatePage b address) = 4.
Proof. reflexivity. Qed.

(** From then on a store misses every page whose index, taken with 4 bits,
    is not that of the address. *)
Lemma invalidatePage_misses (b : Cached.t) (address pageId : Z) :
  Cached.ICACHE_PAGE_BITS b = 4 ->
  pageId <> JS.shr (JS.and address (MemoryView.mask (Cached.base b))) 4 ->
  Cached.icache (MemoryBlock.invalidatePage b address) !! pageId
  = Cached.icache b !! pageId.
Proof.
  intros Hbits Hne. unfold MemoryBlock.invalidatePage. rewrite Hbits.
  cbn [Cached.icache].
  destruct (Cached.icache b !! _); [|reflexivity].
  apply lookup_insert_ne. congruence.
Qed.

(** C2, the code at the failing input. On the bus as [clear()] leaves it, the
    CPU takes page 1 of on-chip RAM (addresses 0x80..0xFF of region 3, whose
    blocks are built with 7 page bits). A first store, to 0x03000000, leaves
    [ICACHE_PAGE_BITS] at 4. A second store, of 0xFF to 0x03000080, lands
    inside page 1 -- the byte reads back -- and the page is still valid:
    [invalidatePage] looked at index [0x80 >> 4 = 8]. *)
Theorem store_after_store_leaves_page_valid :
  match GameBoyAdvanceMMU.accessPage 3 1 (GameBoyAdvanceMMU.clear GameBoyAdvanceMMU.initial) with
  | Normal (s1, _) =>
      GameBoyAdvanceMMU.addressToPage 3 0x80 s1 = Normal 1
      /\ cached_page s1 3 1 = Some (mkPage 128 64 false)
      /\ match GameBoyAdvanceMMU.store8 0x03000000 0 s1 with
         | Normal s2 =>
             match GameBoyAdvanceMMU.store8 0x03000080 0xFF s2 with
             | Normal s3 =>
                 GameBoyAdvanceMMU.loadU8 0x03000080 s3 = Normal 0xFF
                 /\ cached_page s3 3 1 = Some (mkPage 128 64 false)
                 /\ GameBoyAdvanceMMU.addressToPage 3 0x80 s3 = Normal 8
             | _ => False
             end
         | _ => False
         end
  | _ => False
  end.
Proof. vm_compute. repeat split; reflexivity. Qed.

(** With the page bits the block was built with, the same store does flag the
    page: it is the overwrite that breaks the invariant. *)
Example first_store_flags_page :
  match GameBoyAdvanceMMU.accessPage 3 1 (GameBoyAdvanceMMU.clear GameBoyAdvanceMMU.initial) with
  | Normal (s1, _) =>
      match GameBoyAdvanceMMU.store8 0x03000080 0xFF s1 with
      | Normal s2 => cached_page s2 3 1 = Some (mkPage 128 64 true)
      | _ => False
      end
  | _ => False
  end.
Proof. vm_compute. reflexivity. Qed.

(** ** Bytes and words *)

Lemma byte_to_Z_range b : 0 <= byte_to_Z b < 256.
Proof.
  unfold byte_to_Z. pose proof (Byte.to_N_bounded b). lia.
Qed.

Lemma Z_to_byte_mod z b : z mod 256 = byte_to_Z b -> Z_to_byte z = b.
Proof.
  intros H. unfold Z_to_byte. rewrite H. unfold byte_to_Z.
  rewrite N2Z.id, Byte.of_to_N. reflexivity.
Qed.

Lemma le_split_combine4 bs :
  length bs = 4%nat -> le_split 4 (JS.ToInt32 (le_combine bs)) = bs.
Proof.
  intros Hlen.
  destruct bs as [|a [|b [|c [|d [|e bs]]]]]; try discriminate Hlen.
  cbn [le_combine le_split].
  pose proof (byte_to_Z_range a). pose proof (byte_to_Z_range b).
  pose proof (byte_to_Z_range c). pose proof (byte_to_Z_range d).
  set (A := byte_to_Z a) in *. set (B := byte_to_Z b) in *.
  set (C := byte_to_Z c) in *. set (D := byte_to_Z d) in *.
  set (N := A + 256 * (B + 256 * (C + 256 * (D + 256 * 0)))).
  assert (HN : 0 <= N < 2 ^ 32) by (subst N; lia).
  assert (HT : JS.ToInt32 N = N \/ JS.ToInt32 N = N - 2 ^ 32).
  { unfold JS.ToInt32. cbv zeta. rewrite (Z.mod_small N) by lia.
    destruct (2 ^ 31 <=? N); auto. }
  repeat f_equal; apply Z_to_byte_mod; subst N;
    destruct HT as [-> | ->]; Z.div_mod_to_equations; lia.
Qed.

Lemma be_split_combine4 bs :
  length bs = 4%nat -> rev (le_split 4 (JS.ToInt32 (le_combine (rev bs)))) = bs.
Proof.
  intros Hlen. rewrite le_split_combine4 by (now rewrite length_rev).
  apply rev_involutive.
Qed.

(** ** C10: the three 32-bit transfer loops *)

Lemma ToInt32_mod4 x : JS.ToInt32 x mod 4 = x mod 4.
Proof.
  pose proof (ToInt32_eqm x) as H.
  change (2 ^ 32) with (4 * 2 ^ 30) in H.
  rewrite !Z.rem_mul_r in H by lia.
  Z.div_mod_to_equations; lia.
Qed.

Lemma and_aligned x : x mod 4 = 0 -> JS.and x 0xfffffffc = JS.ToInt32 x.
Proof.
  intros Hx. unfold JS.and. change (JS.ToInt32 0xfffffffc) with (Z.lnot (Z.ones 2)).
  rewrite <- Z.ldiff_land, Z.ldiff_ones_r by lia.
  rewrite Z.shiftr_div_pow2, Z.shiftl_mul_pow2 by lia.
  pose proof (ToInt32_mod4 x). change (2 ^ 2) with 4.
  Z.div_mod_to_equations; lia.
Qed.

Lemma and_aligned_mask32 x m :
  x mod 4 = 0 -> JS.and x (JS.and m 0xfffffffc) = JS.and x m.
Proof.
  intros Hx. rewrite (and_comm m), <- and_assoc, and_aligned by assumption.
  apply and_ToInt32_l.
Qed.

Lemma and_aligned_3 x : x mod 4 = 0 -> JS.and x 3 = 0.
Proof.
  intros Hx. unfold JS.and. change (JS.ToInt32 3) with (Z.ones 2).
  rewrite Z.land_ones by lia. change (2 ^ 2) with 4.
  now rewrite ToInt32_mod4.
Qed.

Lemma and_0xfffffffc_mod4 x : JS.and x 0xfffffffc mod 4 = 0.
Proof.
  unfold JS.and. change (JS.ToInt32 0xfffffffc) with (Z.lnot (Z.ones 2)).
  rewrite <- Z.ldiff_land, Z.ldiff_ones_r by lia.
  rewrite Z.shiftl_mul_pow2 by lia. change (2 ^ 2) with 4.
  apply Z.mod_mul. lia.
Qed.

(** Reading and writing inside the bounds of a view. *)
Lemma in_bounds_byteLength dv dv' i n :
  DataView.byteLength dv = DataView.byteLength dv' ->
  DataView.in_bounds dv i n = DataView.in_bounds dv' i n.
Proof. unfold DataView.in_bounds. now intros ->. Qed.

Lemma stays_in_range_byteLength dv dv' n start step m :
  DataView.byteLength dv = DataView.byteLength dv' ->
  GameBoyAdvanceMMU.stays_in_range dv n start step m = GameBoyAdvanceMMU.stays_in_range dv' n start step m.
Proof.
  intros H. revert start. induction n as [|n IH]; intros start; cbn; [reflexivity|].
  now rewrite IH, (in_bounds_byteLength dv dv').
Qed.

Lemma read_length dv i :
  0 <= DataView.byteOffset dv ->
  DataView.in_bounds dv i 4 = true ->
  length (DataView.read dv i 4) = 4%nat.
Proof.
  intros Hoff Hb. unfold DataView.in_bounds, DataView.byteLength in Hb.
  apply andb_prop in Hb as [H0 H4].
  apply Z.leb_le in H0, H4.
  unfold DataView.read. rewrite length_take, length_drop. lia.
Qed.

Lemma write_byteLength dv i bs :
  0 <= DataView.byteOffset dv ->
  DataView.in_bounds dv i (Z.of_nat (length bs)) = true ->
  DataView.byteLength (DataView.write dv i bs) = DataView.byteLength dv
  /\ DataView.byteOffset (DataView.write dv i bs) = DataView.byteOffset dv.
Proof.
  intros Hoff Hb. unfold DataView.in_bounds, DataView.byteLength in Hb.
  apply andb_prop in Hb as [H0 H4].
  apply Z.leb_le in H0, H4.
  unfold DataView.write, DataView.byteLength.
  cbn [DataView.buffer DataView.byteOffset].
  rewrite !length_app, length_take, length_drop. lia.
Qed.

(** A 32-bit word read and written back with one and the same byte order
    moves the four bytes unchanged, whichever the order. *)
Lemma set_get_int32 dvs dvd i j le :
  0 <= DataView.byteOffset dvs ->
  DataView.in_bounds dvs i 4 = true ->
  DataView.in_bounds dvd j 4 = true ->
  (let! word := DataView.getInt32 dvs i le in DataView.setInt32 dvd j word le)
  = Normal (DataView.write dvd j (DataView.read dvs i 4)).
Proof.
  intros Hoff Hs Hd.
  unfold DataView.getInt32, DataView.setInt32, DataView.get, DataView.set, omap.
  change (Z.of_nat 4) with 4. rewrite Hs. cbn [obind]. rewrite Hd.
  f_equal. f_equal.
  pose proof (read_length dvs i Hoff Hs) as Hlen.
  destruct le; cbn [DataView.endian].
  - now apply le_split_combine4.
  - now apply be_split_combine4.
Qed.

Section TransferLoops.

Variables (ls ld : positive) (sm dm Ls Ld : Z).

Lemma in_bounds_in_range dv i :
  DataView.in_bounds dv i 4 = in_range (DataView.byteLength dv) i.
Proof. reflexivity. Qed.

(** One round: under the invariant, for aligned [source] and [dest] inside
    the two views, the three loop bodies produce one and the same heap, and
    the invariant holds of it. *)
Lemma copy32_round h source dest :
  source_ok ls sm Ls h -> dest_ok ld dm Ld h ->
  source mod 4 = 0 -> dest mod 4 = 0 ->
  in_range Ls (JS.and source sm) = true ->
  in_range Ld (JS.and dest dm) = true ->
  exists h',
    GameBoyAdvanceMMU.copy32_views ls ld sm dm source dest h = Normal h'
    /\ GameBoyAdvanceMMU.copy32_view_store ls ld sm source dest h = Normal h'
    /\ GameBoyAdvanceMMU.copy32_load_store ls ld source dest h = Normal h'
    /\ source_ok ls sm Ls h' /\ dest_ok ld dm Ld h'
    /\ (forall l, l <> ld -> h' !! l = h !! l).
Proof.
  intros (cs & Hls & Hms & Hsm & HLs & Hos) (cd & Hld & Hmd & Hdm & HLd & Hod)
         Hsrc Hdst Hrs Hrd.
  set (dvs := MemoryView.view (Cached.base cs)) in *.
  set (dvd := MemoryView.view (Cached.base cd)) in *.
  set (dv' := DataView.write dvd (JS.and dest dm) (DataView.read dvs (JS.and source sm) 4)).
  set (od' := OMemoryBlock (Cached.with_base cd (MemoryView.with_view (Cached.base cd) dv'))).
  assert (Hbs : DataView.in_bounds dvs (JS.and source sm) 4 = true)
    by (rewrite in_bounds_in_range, HLs; exact Hrs).
  assert (Hbd : DataView.in_bounds dvd (JS.and dest dm) 4 = true)
    by (rewrite in_bounds_in_range, HLd; exact Hrd).
  assert (Hview : GameBoyAdvanceMMU.heap_view h ls = Normal dvs).
  { unfold GameBoyAdvanceMMU.heap_view. destruct Hls as [-> | [mmu ->]]; reflexivity. }
  assert (Hviewd : GameBoyAdvanceMMU.heap_view h ld = Normal dvd).
  { unfold GameBoyAdvanceMMU.heap_view. rewrite Hld. reflexivity. }
  assert (Hobjd : GameBoyAdvanceMMU.heap_object h ld = Normal (OMemoryBlock cd)).
  { unfold GameBoyAdvanceMMU.heap_object. now rewrite Hld. }
  assert (Hmask32s : JS.and source (MemoryView.mask32 (Cached.base cs)) = JS.and source sm).
  { rewrite <- Hms, <- Hsm. cbn [MemoryView.resetMask MemoryView.mask32 MemoryView.mask].
    now apply and_aligned_mask32. }
  assert (Hmask32d : JS.and dest (MemoryView.mask32 (Cached.base cd)) = JS.and dest dm).
  { rewrite <- Hmd, <- Hdm. cbn [MemoryView.resetMask MemoryView.mask32 MemoryView.mask].
    now apply and_aligned_mask32. }
  assert (Hstore : forall word,
    Region.store32 (OMemoryBlock cd) dest word
    = let! dv := DataView.setInt32 dvd (JS.and dest dm) word true in
      Normal (OMemoryBlock (Cached.with_base cd (MemoryView.with_view (Cached.base cd) dv)))).
  { intros word. cbn [Region.store32]. unfold MemoryView.store32.
    rewrite Hmask32d. fold dvd. now destruct (DataView.setInt32 dvd _ word true). }
  exists (<[ld := od']> h). repeat split.
  - (* view to view, big-endian both ways *)
    unfold GameBoyAdvanceMMU.copy32_views. rewrite Hview. cbn [obind].
    pose proof (set_get_int32 dvs dvd _ _ false Hos Hbs Hbd) as Hsg.
    destruct (DataView.getInt32 dvs (JS.and source sm) false) as [w| | |];
      cbn [obind] in Hsg |- *; try discriminate Hsg.
    rewrite Hviewd. cbn [obind]. rewrite Hsg. cbn [obind].
    unfold GameBoyAdvanceMMU.write_view. rewrite Hobjd. reflexivity.
  - (* view read, region store *)
    unfold GameBoyAdvanceMMU.copy32_view_store. rewrite Hview. cbn [obind].
    pose proof (set_get_int32 dvs dvd _ _ true Hos Hbs Hbd) as Hsg.
    destruct (DataView.getInt32 dvs (JS.and source sm) true) as [w| | |];
      cbn [obind] in Hsg |- *; try discriminate Hsg.
    rewrite Hobjd. cbn [obind]. rewrite Hstore, Hsg. reflexivity.
  - (* region load, region store *)
    unfold GameBoyAdvanceMMU.copy32_load_store.
    assert (Hload : exists os, GameBoyAdvanceMMU.heap_object h ls = Normal os
              /\ Region.load32 os source = DataView.getInt32 dvs (JS.and source sm) true).
    { unfold GameBoyAdvanceMMU.heap_object.
      destruct Hls as [-> | [mmu ->]]; eexists; (split; [reflexivity|]);
        cbn [Region.load32]; rewrite MemoryView_load32_word, Hmask32s;
        rewrite and_aligned_3 by assumption; fold dvs;
        (destruct (DataView.getInt32 dvs (JS.and source sm) true) as [w| | |] eqn:E;
         [|reflexivity..]);
        cbn; f_equal; change (8 * 0) with 0; rewrite rotate_right_0;
        eapply getInt32_ToInt32; eassumption. }
    destruct Hload as (os & -> & Hl). cbn [obind]. rewrite Hl.
    pose proof (set_get_int32 dvs dvd _ _ true Hos Hbs Hbd) as Hsg.
    destruct (DataView.getInt32 dvs (JS.and source sm) true) as [w| | |];
      cbn [obind] in Hsg |- *; try discriminate Hsg.
    rewrite Hobjd. cbn [obind]. rewrite Hstore, Hsg. reflexivity.
  - (* the source object, possibly the block just written *)
    destruct (write_byteLength dvd (JS.and dest dm) (DataView.read dvs (JS.and source sm) 4))
      as [HL' Ho']; [assumption | now rewrite read_length | ].
    destruct (decide (ls = ld)) as [Heq | Hne].
    + exists (Cached.with_base cd (MemoryView.with_view (Cached.base cd) dv')).
      assert (Hsame : cs = cd).
      { rewrite Heq, Hld in Hls. destruct Hls as [[= ->] | [mmu [=]]]. reflexivity. }
      subst cs. cbn [Cached.base Cached.with_base MemoryView.view MemoryView.with_view
                     MemoryView.mask].
      split; [left; rewrite Heq; apply lookup_insert_eq|].
      split; [now apply with_view_masks|].
      fold dv' in HL', Ho'. subst dvs dvd. repeat split; congruence.
    + exists cs. rewrite lookup_insert_ne by congruence.
      repeat split; assumption.
  - destruct (write_byteLength dvd (JS.and dest dm) (DataView.read dvs (JS.and source sm) 4))
      as [HL' Ho']; [assumption | now rewrite read_length | ].
    exists (Cached.with_base cd (MemoryView.with_view (Cached.base cd) dv')).
    cbn [Cached.base Cached.with_base MemoryView.view MemoryView.with_view MemoryView.mask].
    split; [apply lookup_insert_eq|].
    split; [now apply with_view_masks|].
    fold dv' in HL', Ho'. subst dvd. repeat split; congruence.
  - intros l Hl. apply lookup_insert_ne. congruence.
Qed.


Variables (dvs0 dvd0 : DataView.t) (sourceOffset destOffset : Z).
Hypothesis dvs0_length : DataView.byteLength dvs0 = Ls.
Hypothesis dvd0_length : DataView.byteLength dvd0 = Ld.
Hypothesis sourceOffset_aligned : sourceOffset mod 4 = 0.
Hypothesis destOffset_aligned : destOffset mod 4 = 0.

Lemma add_aligned x d : x mod 4 = 0 -> d mod 4 = 0 -> (x + d) mod 4 = 0.
Proof. intros. Z.div_mod_to_equations; lia. Qed.

(** The whole loops, by induction on the number of rounds: they return one
    and the same heap, which differs from the initial one at the destination
    object only. *)
Lemma copy32_loops n : forall h source dest,
  source_ok ls sm Ls h -> dest_ok ld dm Ld h ->
  source mod 4 = 0 -> dest mod 4 = 0 ->
  GameBoyAdvanceMMU.stays_in_range dvs0 n source sourceOffset sm = true ->
  GameBoyAdvanceMMU.stays_in_range dvd0 n dest destOffset dm = true ->
  exists h' source' dest',
    GameBoyAdvanceMMU.dma_loop (GameBoyAdvanceMMU.copy32_views ls ld sm dm) n
      sourceOffset destOffset source dest h = Normal (h', source', dest')
    /\ GameBoyAdvanceMMU.dma_loop (GameBoyAdvanceMMU.copy32_view_store ls ld sm) n
         sourceOffset destOffset source dest h = Normal (h', source', dest')
    /\ GameBoyAdvanceMMU.dma_loop (GameBoyAdvanceMMU.copy32_load_store ls ld) n
         sourceOffset destOffset source dest h = Normal (h', source', dest')
    /\ (forall l, l <> ld -> h' !! l = h !! l).
Proof.
  induction n as [|n IH]; intros h source dest Hs Hd Hsrc Hdst Hrs Hrd.
  - exists h, source, dest. repeat split; reflexivity.
  - cbn [GameBoyAdvanceMMU.stays_in_range] in Hrs, Hrd.
    apply andb_prop in Hrs as [Hrs0 Hrs], Hrd as [Hrd0 Hrd].
    rewrite in_bounds_in_range, dvs0_length in Hrs0.
    rewrite in_bounds_in_range, dvd0_length in Hrd0.
    destruct (copy32_round h source dest Hs Hd Hsrc Hdst Hrs0 Hrd0)
      as (h1 & Ha & Hb & Hc & Hs' & Hd' & Hframe).
    destruct (IH h1 (source + sourceOffset) (dest + destOffset) Hs' Hd')
      as (h' & a & b & Ra & Rb & Rc & Rframe); auto using add_aligned.
    exists h', a, b. cbn [GameBoyAdvanceMMU.dma_loop].
    rewrite Ha, Hb, Hc. cbn [obind]. repeat split; try assumption.
    intros l Hl. rewrite Rframe, Hframe by assumption. reflexivity.
Qed.

End TransferLoops.

(** C10: a transfer of [n] words of width 4 between a source that has a raw
    view (a RAM block or a ROM view) and a RAM block as destination,
    with word-aligned [source] and [dest] that stay in range for the [n]
    rounds: the view-to-view loop, the view-read/region-store loop and the
    loop through [load32] and [store32] all complete, and leave one and the
    same heap -- the destination region has identical contents -- and the
    same final addresses. *)
Theorem dma_paths_agree
    (h : gmap positive object) (ls ld : positive) (cs cd : Cached.t)
    (n : nat) (srcControl dstControl source dest : Z) :
  let sourceOffset := GameBoyAdvanceMMU.DMA_OFFSET srcControl * 4 in
  let destOffset := GameBoyAdvanceMMU.DMA_OFFSET dstControl * 4 in
  let sourceMask := MemoryView.mask (Cached.base cs) in
  let destMask := MemoryView.mask (Cached.base cd) in
  let sourceView := MemoryView.view (Cached.base cs) in
  let destView := MemoryView.view (Cached.base cd) in
  h !! ls = Some (OMemoryBlock cs) \/ (exists mmu, h !! ls = Some (OROMView cs mmu)) ->
  h !! ld = Some (OMemoryBlock cd) ->
  MemoryView.resetMask (Cached.base cs) = Cached.base cs ->
  MemoryView.resetMask (Cached.base cd) = Cached.base cd ->
  0 <= DataView.byteOffset sourceView ->
  0 <= DataView.byteOffset destView ->
  source mod 4 = 0 ->
  dest mod 4 = 0 ->
  GameBoyAdvanceMMU.stays_in_range sourceView n source sourceOffset sourceMask = true ->
  GameBoyAdvanceMMU.stays_in_range destView n dest destOffset destMask = true ->
  exists r,
    GameBoyAdvanceMMU.dma_loop
      (GameBoyAdvanceMMU.copy32_views ls ld sourceMask destMask) n
      sourceOffset destOffset source dest h = Normal r
    /\ GameBoyAdvanceMMU.dma_loop
         (GameBoyAdvanceMMU.copy32_view_store ls ld sourceMask) n
         sourceOffset destOffset source dest h = Normal r
    /\ GameBoyAdvanceMMU.dma_loop
         (GameBoyAdvanceMMU.copy32_load_store ls ld) n
         sourceOffset destOffset source dest h = Normal r.
Proof.
  intros sourceOffset destOffset sourceMask destMask sourceView destView
         Hls Hld Hms Hmd Hos Hod Hsrc Hdst Hrs Hrd.
  destruct (copy32_loops ls ld sourceMask destMask
              (DataView.byteLength sourceView) (DataView.byteLength destView)
              sourceView destView sourceOffset destOffset
              eq_refl eq_refl
              (Z.mod_mul _ 4 ltac:(lia)) (Z.mod_mul _ 4 ltac:(lia))
              n h source dest)
    as (h' & a & b & Ra & Rb & Rc & _); try assumption.
  - exists cs. repeat split; assumption.
  - exists cd. repeat split; assumption.
  - exists (h', a, b). auto.
Qed.

Lemma dma_paths_agree_witness :
  exists r,
    GameBoyAdvanceMMU.dma_loop
      (GameBoyAdvanceMMU.copy32_views 1 2
         (MemoryView.mask (Cached.base sample_rom_view))
         (MemoryView.mask (Cached.base sample_block))) 3
      (GameBoyAdvanceMMU.DMA_OFFSET 0 * 4) (GameBoyAdvanceMMU.DMA_OFFSET 0 * 4)
      4 0 sample_heap = Normal r
    /\ GameBoyAdvanceMMU.dma_loop
         (GameBoyAdvanceMMU.copy32_view_store 1 2
            (MemoryView.mask (Cached.base sample_rom_view))) 3
         (GameBoyAdvanceMMU.DMA_OFFSET 0 * 4) (GameBoyAdvanceMMU.DMA_OFFSET 0 * 4)
         4 0 sample_heap = Normal r
    /\ GameBoyAdvanceMMU.dma_loop
         (GameBoyAdvanceMMU.copy32_load_store 1 2) 3
         (GameBoyAdvanceMMU.DMA_OFFSET 0 * 4) (GameBoyAdvanceMMU.DMA_OFFSET 0 * 4)
         4 0 sample_heap = Normal r.
Proof.
  apply (dma_paths_agree sample_heap 1 2 sample_rom_view sample_block 3 0 0 4 0).
  - right. exists false. reflexivity.
  - reflexivity.
  - reflexivity.
  - reflexivity.
  - vm_compute. discriminate.
  - vm_compute. discriminate.
  - reflexivity.
  - reflexivity.
  - vm_compute. reflexivity.
  - vm_compute. reflexivity.
Defined.

(** The bytes the sample transfer leaves in the block. *)
Example sample_transfer_result :
  match GameBoyAdvanceMMU.dma_loop
          (GameBoyAdvanceMMU.copy32_views 1 2
             (MemoryView.mask (Cached.base sample_rom_view))
             (MemoryView.mask (Cached.base sample_block))) 3 4 4 4 0 sample_heap with
  | Normal (h, source, dest) =>
      source = 16 /\ dest = 12
      /\ (Region.cached <$> h !! 2%positive)
         = Some (Some (Cached.with_base sample_block
              (MemoryView.with_view (Cached.base sample_block)
                 (DataView.mk [x14; x15; x16; x17; x18; x19; x1a; x1b;
                               x1c; x1d; x1e; x1f; x00; x00; x00; x00] 0))))
  | _ => False
  end.
Proof. vm_compute. repeat split; reflexivity. Qed.

(** ** C3: the bookkeeping at the end of [serviceDma] *)

(** The transfer touches region objects and the warning log only: the channel
    records are what they were. *)
Lemma transfer_dma info s s1 src dst remaining :
  GameBoyAdvanceMMU.transfer info s = Normal (s1, src, dst, remaining) ->
  GameBoyAdvanceMMU.dma s1 = GameBoyAdvanceMMU.dma s.
Proof.
  unfold GameBoyAdvanceMMU.transfer.
  destruct (GameBoyAdvanceMMU.slot s (JS.ushr (nextDest info) _)) as [[ld od]|];
    [|discriminate].
  destruct (Region.ICACHE_PAGE_BITS od) as [bits| | |]; cbn [obind]; try discriminate.
  match goal with
  | |- context [obind ?m _] => destruct m as [od'| | |]; cbn [obind]; try discriminate
  end.
  match goal with
  | |- context [obind ?m _] => destruct m as [[dv dmask]| | |]; cbn [obind]; try discriminate
  end.
  match goal with
  | |- context [obind ?m _] => destruct m as [[sv smask]| | |]; cbn [obind]; try discriminate
  end.
  destruct (GameBoyAdvanceMMU.slot s (JS.ushr (nextSource info) _)) as [[ls os]|].
  - destruct (GameBoyAdvanceMMU.rounds (nextCount info)) as [n| | |];
      cbn [obind]; try discriminate.
    match goal with
    | |- context [obind ?m _] =>
        destruct m as [[[h a] b]| | |]; cbn [obind]; try discriminate
    end.
    intros [= <- _ _ _]. reflexivity.
  - intros [= <- _ _ _]. reflexivity.
Qed.

Lemma settle_fields at_call info s src dst remaining :
  let info' := GameBoyAdvanceMMU.settle at_call info s src dst remaining in
  enable info' = enable info /\ repeat info' = repeat info
  /\ count info' = count info /\ dest info' = dest info
  /\ dstControl info' = dstControl info /\ timing info' = timing info.
Proof. cbn. repeat split; reflexivity. Qed.

Lemma cleared_enable_bit x : Z.testbit (JS.ToUint16 (JS.and x 0x7fe0)) 15 = false.
Proof.
  unfold JS.ToUint16, JS.and. rewrite Z.mod_pow2_bits_low, Z.land_spec by lia.
  change (Z.testbit (JS.ToInt32 0x7fe0) 15) with false.
  apply andb_false_r.
Qed.

Lemma clear_enable_bit_spec i s s' r :
  0 <= i ->
  GameBoyAdvanceMMU.DMA_REGISTER !! Z.to_nat i = Some r ->
  GameBoyAdvanceMMU.clear_enable_bit i s = Normal s' ->
  GameBoyAdvanceMMU.dma s' = GameBoyAdvanceMMU.dma s
  /\ exists v, io_register s' r = Some v /\ Z.testbit v 15 = false.
Proof.
  intros Hi Hr. unfold GameBoyAdvanceMMU.clear_enable_bit, io_register.
  unfold GameBoyAdvanceMMU.slot at 1.
  destruct (GameBoyAdvanceMMU.memory s !! GameBoyAdvanceMMU.REGION_IO) as [l|] eqn:Hm;
    [|discriminate].
  destruct (GameBoyAdvanceMMU.heap s !! l) as [o|] eqn:Hh; [|discriminate].
  destruct o; try discriminate.
  rewrite Hr. destruct (Z.leb_spec 0 i); [|lia].
  intros [= <-]. split; [reflexivity|].
  unfold GameBoyAdvanceMMU.slot, GameBoyAdvanceMMU.set_object.
  cbn [GameBoyAdvanceMMU.memory GameBoyAdvanceMMU.heap GameBoyAdvanceMMU.with_heap].
  rewrite Hm, lookup_insert_eq.
  eexists. split; [reflexivity|].
  unfold rd at 1. rewrite lookup_insert_eq. cbn [default].
  apply cleared_enable_bit.
Qed.

Lemma channel_set_channel s i info :
  GameBoyAdvanceMMU.channel (GameBoyAdvanceMMU.set_channel s i info) i = Some info.
Proof.
  unfold GameBoyAdvanceMMU.channel, GameBoyAdvanceMMU.set_channel.
  cbn [GameBoyAdvanceMMU.dma GameBoyAdvanceMMU.with_dma]. apply lookup_insert_eq.
Qed.

(** The record [serviceDma] writes back for a repeating channel is reloaded. *)
Lemma reloaded_reload s i info :
  repeat info = true ->
  reloaded (GameBoyAdvanceMMU.set_channel s i (GameBoyAdvanceMMU.reload info)) i.
Proof.
  intros Hrep. exists (GameBoyAdvanceMMU.reload info).
  split; [apply channel_set_channel|].
  cbn [GameBoyAdvanceMMU.reload repeat nextCount count dstControl nextDest dest].
  repeat split; [exact Hrep|]. intros ->. now rewrite Z.eqb_refl.
Qed.

Lemma reloaded_done s i r :
  reloaded s i ->
  exists info',
    GameBoyAdvanceMMU.channel s i = Some info'
    /\ if repeat info'
       then nextCount info' = count info'
            /\ (dstControl info' = GameBoyAdvanceMMU.DMA_INCREMENT_RELOAD ->
                nextDest info' = dest info')
       else enable info' = false
            /\ exists v, io_register s r = Some v /\ Z.testbit v 15 = false.
Proof. intros (info & Hch & Hrep & Hc & Hd). exists info. rewrite Hrep. auto. Qed.

(** Whatever the transfer and the collaborators do, a call that returns has
    left the channel disabled with its enable bit clear, or reloaded. *)
Lemma serviceDma_done (o : GameBoyAdvanceMMU.outside) :
  keeps_reloaded (GameBoyAdvanceMMU.scheduleFIFODma o) ->
  keeps_reloaded (GameBoyAdvanceMMU.scheduleVCaptureDma o) ->
  forall (fuel : nat) i s s' info r,
    GameBoyAdvanceMMU.channel s i = Some info ->
    enable info = true ->
    0 <= i ->
    GameBoyAdvanceMMU.DMA_REGISTER !! Z.to_nat i = Some r ->
    GameBoyAdvanceMMU.serviceDma o fuel i s = Normal s' ->
    exists info',
      GameBoyAdvanceMMU.channel s' i = Some info'
      /\ if repeat info'
         then nextCount info' = count info'
              /\ (dstControl info' = GameBoyAdvanceMMU.DMA_INCREMENT_RELOAD ->
                  nextDest info' = dest info')
         else enable info' = false
              /\ exists v, io_register s' r = Some v /\ Z.testbit v 15 = false.
Proof.
  intros Haudio Hvideo.
  induction fuel as [|fuel IH]; intros i s s' info r Hch Hen Hi Hr; [discriminate|].
  cbn [GameBoyAdvanceMMU.serviceDma]. rewrite Hch, Hen. cbn [negb].
  destruct (GameBoyAdvanceMMU.moved o info s) as [[[[s1 src] dst] remaining]| | |];
    cbn [obind]; try discriminate.
  destruct (GameBoyAdvanceMMU.channel s1 i) as [now|]; [|discriminate].
  set (settled := GameBoyAdvanceMMU.settle info now s1 src dst remaining).
  destruct (repeat settled) eqn:Hrep; cbn [negb].
  - (* repeat: reload and reschedule *)
    set (s2 := GameBoyAdvanceMMU.set_channel s1 i (GameBoyAdvanceMMU.reload settled)).
    pose proof (reloaded_reload s1 i settled Hrep) as Hre. fold s2 in Hre.
    assert (Hch2 : GameBoyAdvanceMMU.channel s2 i = Some (GameBoyAdvanceMMU.reload settled))
      by apply channel_set_channel.
    unfold GameBoyAdvanceMMU.scheduleDma_with. rewrite Hch2.
    destruct (timing (GameBoyAdvanceMMU.reload settled) =? GameBoyAdvanceMMU.DMA_TIMING_NOW).
    + (* serviced again at once, unless the transfer has disabled the channel *)
      destruct (enable (GameBoyAdvanceMMU.reload settled)) eqn:Hen2.
      * intros Hrec. exact (IH i s2 s' _ r Hch2 Hen2 Hi Hr Hrec).
      * destruct fuel as [|fuel']; [discriminate|].
        cbn [GameBoyAdvanceMMU.serviceDma]. rewrite Hch2, Hen2. cbn [negb].
        intros [= <-]. now apply reloaded_done.
    + destruct ((timing (GameBoyAdvanceMMU.reload settled) =? GameBoyAdvanceMMU.DMA_TIMING_HBLANK)
                || (timing (GameBoyAdvanceMMU.reload settled)
                    =? GameBoyAdvanceMMU.DMA_TIMING_VBLANK)).
      { intros [= <-]. now apply reloaded_done. }
      destruct (timing (GameBoyAdvanceMMU.reload settled) =? GameBoyAdvanceMMU.DMA_TIMING_CUSTOM);
        [|intros [= <-]; now apply reloaded_done].
      destruct (i =? 0); [intros [= <-]; now apply reloaded_done|].
      destruct ((i =? 1) || (i =? 2)).
      { intros Hs'. apply reloaded_done. exact (Haudio i s2 s' Hs' Hre). }
      destruct (i =? 3); [|intros [= <-]; now apply reloaded_done].
      intros Hs'. apply reloaded_done. exact (Hvideo i _ s' Hs' Hre).
  - (* no repeat: disable and clear the bit *)
    intros Hclr.
    destruct (clear_enable_bit_spec i _ s' r Hi Hr Hclr) as (Hd' & v & Hv & Hbit).
    exists (GameBoyAdvanceMMU.disable settled). split.
    + unfold GameBoyAdvanceMMU.channel. rewrite Hd'. apply channel_set_channel.
    + cbn [GameBoyAdvanceMMU.disable repeat enable]. rewrite Hrep. eauto.
Qed.

(** When it returns: a call returns as soon as the transfer does, if the
    record then has [repeat] clear and slot 4 holds the I/O object, or has
    [repeat] set and the timing of H-blank or V-blank. *)
Lemma serviceDma_returns (o : GameBoyAdvanceMMU.outside)
    fuel i s info r s1 src dst remaining now l registers :
  GameBoyAdvanceMMU.channel s i = Some info ->
  enable info = true ->
  0 <= i ->
  GameBoyAdvanceMMU.DMA_REGISTER !! Z.to_nat i = Some r ->
  GameBoyAdvanceMMU.moved o info s = Normal (s1, src, dst, remaining) ->
  GameBoyAdvanceMMU.channel s1 i = Some now ->
  GameBoyAdvanceMMU.slot s1 GameBoyAdvanceMMU.REGION_IO = Some (l, OIO registers) ->
  repeat now = false
  \/ timing now = GameBoyAdvanceMMU.DMA_TIMING_HBLANK
  \/ timing now = GameBoyAdvanceMMU.DMA_TIMING_VBLANK ->
  is_normal (GameBoyAdvanceMMU.serviceDma o (S fuel) i s) = true.
Proof.
  intros Hch Hen Hi Hr Ht Hnow Hio Hcase.
  cbn [GameBoyAdvanceMMU.serviceDma]. rewrite Hch, Hen, Ht. cbn [negb obind].
  rewrite Hnow.
  destruct (settle_fields info now s1 src dst remaining) as (_ & Sr & _ & _ & _ & St).
  rewrite Sr.
  destruct (repeat now) eqn:Hrep; cbn [negb].
  - destruct Hcase as [Hc | Hc]; [discriminate|].
    unfold GameBoyAdvanceMMU.scheduleDma_with. rewrite channel_set_channel.
    cbn [GameBoyAdvanceMMU.reload timing]. rewrite St.
    destruct Hc as [-> | ->]; reflexivity.
  - unfold GameBoyAdvanceMMU.clear_enable_bit.
    replace (GameBoyAdvanceMMU.slot (GameBoyAdvanceMMU.set_channel s1 i _)
               GameBoyAdvanceMMU.REGION_IO)
      with (GameBoyAdvanceMMU.slot s1 GameBoyAdvanceMMU.REGION_IO) by reflexivity.
    rewrite Hio, Hr. destruct (Z.leb_spec 0 i); [reflexivity | lia].
Qed.

Lemma clear_enable_bit_dma i s s' :
  GameBoyAdvanceMMU.clear_enable_bit i s = Normal s' ->
  GameBoyAdvanceMMU.dma s' = GameBoyAdvanceMMU.dma s.
Proof.
  unfold GameBoyAdvanceMMU.clear_enable_bit.
  destruct (GameBoyAdvanceMMU.slot s GameBoyAdvanceMMU.REGION_IO) as [[l o]|];
    [|discriminate].
  destruct o; try discriminate.
  destruct (GameBoyAdvanceMMU.DMA_REGISTER !! Z.to_nat i); [|now intros [= <-]].
  destruct (0 <=? i); now intros [= <-].
Qed.

Lemma same_program_refl a : same_program a a.
Proof. repeat split. Qed.

Lemma same_program_trans a b c : same_program a b -> same_program b c -> same_program a c.
Proof.
  intros (H1 & H2 & H3 & H4) (K1 & K2 & K3 & K4).
  repeat split; congruence.
Qed.

(** A call that returns has left the programme of its channel as it found
    it, when the collaborators do. *)
Lemma serviceDma_program (o : GameBoyAdvanceMMU.outside) :
  keeps_program o ->
  forall (fuel : nat) i s s' info,
    GameBoyAdvanceMMU.channel s i = Some info ->
    GameBoyAdvanceMMU.serviceDma o fuel i s = Normal s' ->
    exists info', GameBoyAdvanceMMU.channel s' i = Some info' /\ same_program info info'.
Proof.
  intros (Hmoved & Haudio & Hvideo).
  induction fuel as [|fuel IH]; intros i s s' info Hch; [discriminate|].
  cbn [GameBoyAdvanceMMU.serviceDma]. rewrite Hch.
  destruct (enable info); cbn [negb];
    [|intros [= <-]; exists info; split; [exact Hch | apply same_program_refl]].
  destruct (GameBoyAdvanceMMU.moved o info s) as [[[[s1 src] dst] remaining]| | |] eqn:Hm;
    cbn [obind]; try discriminate.
  destruct (Hmoved i s info s1 src dst remaining Hch Hm) as (now & Hnow & Hsame).
  rewrite Hnow.
  set (settled := GameBoyAdvanceMMU.settle info now s1 src dst remaining).
  assert (Hsettled : same_program info settled).
  { apply (same_program_trans _ now); [exact Hsame|]. repeat split. }
  destruct (repeat settled); cbn [negb].
  - set (s2 := GameBoyAdvanceMMU.set_channel s1 i (GameBoyAdvanceMMU.reload settled)).
    assert (Hch2 : GameBoyAdvanceMMU.channel s2 i = Some (GameBoyAdvanceMMU.reload settled))
      by apply channel_set_channel.
    assert (Hre : same_program info (GameBoyAdvanceMMU.reload settled)).
    { apply (same_program_trans _ settled); [exact Hsettled|]. repeat split. }
    assert (Hstay : exists info',
               GameBoyAdvanceMMU.channel s2 i = Some info' /\ same_program info info')
      by (eexists; split; [exact Hch2 | exact Hre]).
    assert (Hnext : forall schedule t,
               keeps_program_of schedule ->
               GameBoyAdvanceMMU.channel t i = Some (GameBoyAdvanceMMU.reload settled) ->
               schedule i t = Normal s' ->
               exists info',
                 GameBoyAdvanceMMU.channel s' i = Some info' /\ same_program info info').
    { intros schedule t Hk Ht Hs'.
      destruct (Hk i t s' _ Hs' Ht) as (info' & Hi' & Hp).
      exists info'. split; [exact Hi'|]. exact (same_program_trans _ _ _ Hre Hp). }
    unfold GameBoyAdvanceMMU.scheduleDma_with. rewrite Hch2.
    destruct (timing (GameBoyAdvanceMMU.reload settled) =? GameBoyAdvanceMMU.DMA_TIMING_NOW).
    + intros Hrec. destruct (IH i s2 s' _ Hch2 Hrec) as (info' & Hi' & Hp).
      exists info'. split; [exact Hi'|]. exact (same_program_trans _ _ _ Hre Hp).
    + destruct ((timing (GameBoyAdvanceMMU.reload settled) =? GameBoyAdvanceMMU.DMA_TIMING_HBLANK)
                || (timing (GameBoyAdvanceMMU.reload settled)
                    =? GameBoyAdvanceMMU.DMA_TIMING_VBLANK)).
      { intros [= <-]. exact Hstay. }
      destruct (timing (GameBoyAdvanceMMU.reload settled) =? GameBoyAdvanceMMU.DMA_TIMING_CUSTOM);
        [|intros [= <-]; exact Hstay].
      destruct (i =? 0); [intros [= <-]; exact Hstay|].
      destruct ((i =? 1) || (i =? 2)); [exact (Hnext _ s2 Haudio Hch2)|].
      destruct (i =? 3); [|intros [= <-]; exact Hstay].
      apply (Hnext _ _ Hvideo). exact Hch2.
  - intros Hclr. exists (GameBoyAdvanceMMU.disable settled). split.
    + unfold GameBoyAdvanceMMU.channel. rewrite (clear_enable_bit_dma _ _ _ Hclr).
      apply channel_set_channel.
    + apply (same_program_trans _ settled); [exact Hsettled|]. repeat split.
Qed.

(** With collaborators that keep the programme, the bookkeeping is that of
    the record the call found. *)
Lemma serviceDma_programmed (o : GameBoyAdvanceMMU.outside) fuel i s s' info r :
  keeps_reloaded (GameBoyAdvanceMMU.scheduleFIFODma o) ->
  keeps_reloaded (GameBoyAdvanceMMU.scheduleVCaptureDma o) ->
  keeps_program o ->
  GameBoyAdvanceMMU.channel s i = Some info ->
  enable info = true ->
  0 <= i ->
  GameBoyAdvanceMMU.DMA_REGISTER !! Z.to_nat i = Some r ->
  GameBoyAdvanceMMU.serviceDma o fuel i s = Normal s' ->
  bookkeeping_done info r s' i.
Proof.
  intros Haudio Hvideo Hkeep Hch Hen Hi Hr Hs'.
  destruct (serviceDma_done o Haudio Hvideo fuel i s s' info r Hch Hen Hi Hr Hs')
    as (info' & Hch' & Hdone).
  destruct (serviceDma_program o Hkeep fuel i s s' info Hch Hs')
    as (info'' & Hch'' & Hrep & Hcount & Hdest & Hctl).
  rewrite Hch' in Hch''. injection Hch'' as <-.
  exists info'. split; [exact Hch'|].
  rewrite Hrep, Hcount, Hdest, Hctl. exact Hdone.
Qed.

(** C3: for a call of [serviceDma] on an enabled channel 0..3, whatever
    regions the transfer goes through and whatever their loads and stores do
    to the bus and to the channel records. Whenever the call returns: if the
    record has [repeat] clear, its [enable] flag is false and bit 15, the
    enable bit, of the channel's control register in the I/O register file is
    clear; if it has [repeat] set, [nextCount] is the programmed [count], and
    [nextDest] the programmed [dest] when the destination control is
    increment-and-reload. Unless the transfer or the scheduling has
    reprogrammed the channel, these are the [repeat], [count], [dest] and
    [dstControl] of the record the call found. The two methods of the audio
    and the video object that [scheduleDma] calls last, for a repeating
    channel with custom timing, are taken to leave a reloaded channel
    reloaded. And the call does return once the transfer has, when the record
    then has [repeat] clear, with the I/O object in slot 4, or the timing of
    H-blank or V-blank. *)
Theorem serviceDma_bookkeeping
    (o : GameBoyAdvanceMMU.outside)
    (fuel : nat) (i : Z) (s : GameBoyAdvanceMMU.t) (info : dma_info) (r : Z) :
  keeps_reloaded (GameBoyAdvanceMMU.scheduleFIFODma o) ->
  keeps_reloaded (GameBoyAdvanceMMU.scheduleVCaptureDma o) ->
  GameBoyAdvanceMMU.channel s i = Some info ->
  enable info = true ->
  0 <= i ->
  GameBoyAdvanceMMU.DMA_REGISTER !! Z.to_nat i = Some r ->
  (forall s',
     GameBoyAdvanceMMU.serviceDma o fuel i s = Normal s' ->
     exists info',
       GameBoyAdvanceMMU.channel s' i = Some info'
       /\ if repeat info'
          then nextCount info' = count info'
               /\ (dstControl info' = GameBoyAdvanceMMU.DMA_INCREMENT_RELOAD ->
                   nextDest info' = dest info')
          else enable info' = false
               /\ exists v, io_register s' r = Some v /\ Z.testbit v 15 = false)
  /\ (keeps_program o ->
      forall s',
        GameBoyAdvanceMMU.serviceDma o fuel i s = Normal s' ->
        bookkeeping_done info r s' i)
  /\ (forall s1 src dst remaining now l registers,
        GameBoyAdvanceMMU.moved o info s = Normal (s1, src, dst, remaining) ->
        GameBoyAdvanceMMU.channel s1 i = Some now ->
        GameBoyAdvanceMMU.slot s1 GameBoyAdvanceMMU.REGION_IO = Some (l, OIO registers) ->
        repeat now = false
        \/ timing now = GameBoyAdvanceMMU.DMA_TIMING_HBLANK
        \/ timing now = GameBoyAdvanceMMU.DMA_TIMING_VBLANK ->
        is_normal (GameBoyAdvanceMMU.serviceDma o (S fuel) i s) = true).
Proof.
  intros Haudio Hvideo Hch Hen Hi Hr. split; [|split].
  - intros s' Hs'.
    exact (serviceDma_done o Haudio Hvideo fuel i s s' info r Hch Hen Hi Hr Hs').
  - intros Hkeep s' Hs'.
    exact (serviceDma_programmed o fuel i s s' info r
             Haudio Hvideo Hkeep Hch Hen Hi Hr Hs').
  - intros s1 src dst remaining now l registers Ht Hnow Hio Hcase.
    exact (serviceDma_returns o fuel i s info r s1 src dst remaining now l registers
             Hch Hen Hi Hr Ht Hnow Hio Hcase).
Qed.

(** The sample collaborators satisfy what the theorem takes of them. *)
Lemma sample_outside_keeps :
  keeps_reloaded (GameBoyAdvanceMMU.scheduleFIFODma sample_outside)
  /\ keeps_reloaded (GameBoyAdvanceMMU.scheduleVCaptureDma sample_outside).
Proof.
  split; intros i s s'; cbn [sample_outside GameBoyAdvanceMMU.scheduleFIFODma
                           GameBoyAdvanceMMU.scheduleVCaptureDma]; [|discriminate].
  intros [= <-] Hre. exact Hre.
Qed.

(** They leave the programme of the channels alone. *)
Lemma sample_outside_program : keeps_program sample_outside.
Proof.
  repeat split.
  - intros i s info s1 src dst remaining Hch Hm.
    exists info. split; [|apply same_program_refl].
    unfold GameBoyAdvanceMMU.channel. now rewrite (transfer_dma _ _ _ _ _ _ Hm).
  - intros i s s' info [= <-] Hch. exists info. split; [exact Hch | apply same_program_refl].
  - intros i s s' info Hs'. discriminate.
Qed.

(** The immediate transfer of 16 words from 0x02000000 to 0x03000000 on
    channel 3 returns, and so does the repeating transfer on channel 1 that
    ends in the audio object; the theorem applies to both. *)
Lemma serviceDma_bookkeeping_witness :
  (is_normal (GameBoyAdvanceMMU.serviceDma sample_outside 1 3 dma3_programmed) = true
   /\ forall s',
        GameBoyAdvanceMMU.serviceDma sample_outside 1 3 dma3_programmed = Normal s' ->
        bookkeeping_done channel3_immediate 111 s' 3)
  /\ (is_normal (GameBoyAdvanceMMU.serviceDma sample_outside 1 1 dma1_fifo) = true
      /\ forall s',
           GameBoyAdvanceMMU.serviceDma sample_outside 1 1 dma1_fifo = Normal s' ->
           bookkeeping_done channel1_fifo 99 s' 1).
Proof.
  split; (split; [vm_compute; reflexivity|]).
  - apply (serviceDma_bookkeeping sample_outside 1 3 dma3_programmed channel3_immediate 111
             (proj1 sample_outside_keeps) (proj2 sample_outside_keeps)).
    + vm_compute. reflexivity.
    + reflexivity.
    + lia.
    + reflexivity.
    + exact sample_outside_program.
  - apply (serviceDma_bookkeeping sample_outside 1 1 dma1_fifo channel1_fifo 99
             (proj1 sample_outside_keeps) (proj2 sample_outside_keeps)).
    + vm_compute. reflexivity.
    + reflexivity.
    + lia.
    + reflexivity.
    + exact sample_outside_program.
Defined.

(** *** The transfers of the regions modelled here *)

(** With the transfer of the regions modelled here, the record the call found
    is the record the transfer leaves: the bookkeeping is that of the
    programmed [repeat], [count], [dest] and [dstControl]. *)
Lemma serviceDma_returns_done (fuel : nat) : forall i s s' info r,
  GameBoyAdvanceMMU.channel s i = Some info ->
  enable info = true ->
  0 <= i ->
  GameBoyAdvanceMMU.DMA_REGISTER !! Z.to_nat i = Some r ->
  GameBoyAdvanceMMU.serviceDma GameBoyAdvanceMMU.modelled fuel i s = Normal s' ->
  bookkeeping_done info r s' i.
Proof.
  induction fuel as [|fuel IH]; intros i s s' info r Hch Hen Hi Hr; [discriminate|].
  cbn [GameBoyAdvanceMMU.serviceDma GameBoyAdvanceMMU.modelled GameBoyAdvanceMMU.moved].
  rewrite Hch, Hen. cbn [negb].
  destruct (GameBoyAdvanceMMU.transfer info s) as [[[[s1 src] dst] remaining]| | |] eqn:Ht;
    cbn [obind]; try discriminate.
  pose proof (transfer_dma _ _ _ _ _ _ Ht) as Hdma.
  replace (GameBoyAdvanceMMU.channel s1 i) with (Some info)
    by (unfold GameBoyAdvanceMMU.channel in *; now rewrite Hdma).
  set (settled := GameBoyAdvanceMMU.settle info info s1 src dst remaining).
  destruct (settle_fields info info s1 src dst remaining)
    as (Se & Sr & Sc & Sd & Sdc & St). fold settled in Se, Sr, Sc, Sd, Sdc, St.
  rewrite Sr. unfold bookkeeping_done.
  destruct (repeat info) eqn:Hrep; cbn [negb].
  - (* repeat: reload and reschedule *)
    set (s2 := GameBoyAdvanceMMU.set_channel s1 i (GameBoyAdvanceMMU.reload settled)).
    assert (Hch2 : GameBoyAdvanceMMU.channel s2 i = Some (GameBoyAdvanceMMU.reload settled))
      by apply channel_set_channel.
    assert (Hpost : nextCount (GameBoyAdvanceMMU.reload settled) = count info
              /\ (dstControl info = GameBoyAdvanceMMU.DMA_INCREMENT_RELOAD ->
                  nextDest (GameBoyAdvanceMMU.reload settled) = dest info)).
    { cbn [GameBoyAdvanceMMU.reload nextCount nextDest]. split; [exact Sc|].
      intros Hd. rewrite Sdc, Hd, Z.eqb_refl. exact Sd. }
    unfold GameBoyAdvanceMMU.scheduleDma_with. rewrite Hch2.
    cbn [GameBoyAdvanceMMU.reload timing]. rewrite St.
    destruct (timing info =? GameBoyAdvanceMMU.DMA_TIMING_NOW).
    + intros Hrec.
      destruct (IH i s2 s' (GameBoyAdvanceMMU.reload settled) r Hch2) as (info' & Hc' & Hp');
        auto.
      unfold bookkeeping_done in Hp'.
      cbn [GameBoyAdvanceMMU.reload repeat count dstControl dest] in Hp'.
      rewrite Sr, Sc, Sdc, Sd in Hp'. eauto.
    + destruct ((timing info =? GameBoyAdvanceMMU.DMA_TIMING_HBLANK)
                || (timing info =? GameBoyAdvanceMMU.DMA_TIMING_VBLANK)).
      { intros [= <-]. eauto. }
      destruct (timing info =? GameBoyAdvanceMMU.DMA_TIMING_CUSTOM);
        [|intros [= <-]; eauto].
      destruct (i =? 0); [intros [= <-]; eauto|].
      destruct ((i =? 1) || (i =? 2)); [discriminate|].
      destruct (i =? 3); [discriminate|].
      intros [= <-]. eauto.
  - (* no repeat: disable and clear the bit *)
    intros Hclr.
    destruct (clear_enable_bit_spec i _ s' r Hi Hr Hclr) as (Hd' & v & Hv & Hbit).
    exists (GameBoyAdvanceMMU.disable settled). split.
    + unfold GameBoyAdvanceMMU.channel. rewrite Hd'. apply channel_set_channel.
    + split; [reflexivity|]. eauto.
Qed.

(** A repeating channel with immediate timing never returns: [scheduleDma]
    services it again at once, with [enable] and [repeat] still set. *)
Lemma serviceDma_immediate_repeat_never_returns (fuel : nat) : forall i s info,
  GameBoyAdvanceMMU.channel s i = Some info ->
  enable info = true ->
  repeat info = true ->
  timing info = GameBoyAdvanceMMU.DMA_TIMING_NOW ->
  is_normal (GameBoyAdvanceMMU.serviceDma GameBoyAdvanceMMU.modelled fuel i s) = false.
Proof.
  induction fuel as [|fuel IH]; intros i s info Hch Hen Hrep Htim; [reflexivity|].
  cbn [GameBoyAdvanceMMU.serviceDma GameBoyAdvanceMMU.modelled GameBoyAdvanceMMU.moved].
  rewrite Hch, Hen. cbn [negb].
  destruct (GameBoyAdvanceMMU.transfer info s) as [[[[s1 src] dst] remaining]| | |] eqn:Ht;
    cbn [obind]; try reflexivity.
  pose proof (transfer_dma _ _ _ _ _ _ Ht) as Hdma.
  replace (GameBoyAdvanceMMU.channel s1 i) with (Some info)
    by (unfold GameBoyAdvanceMMU.channel in *; now rewrite Hdma).
  destruct (settle_fields info info s1 src dst remaining) as (Se & Sr & _ & _ & _ & St).
  rewrite Sr, Hrep. cbn [negb].
  unfold GameBoyAdvanceMMU.scheduleDma_with. rewrite channel_set_channel.
  cbn [GameBoyAdvanceMMU.reload timing]. rewrite St, Htim.
  cbn [Z.eqb GameBoyAdvanceMMU.DMA_TIMING_NOW].
  eapply IH.
  - apply channel_set_channel.
  - cbn [GameBoyAdvanceMMU.reload enable]. congruence.
  - cbn [GameBoyAdvanceMMU.reload repeat]. congruence.
  - cbn [GameBoyAdvanceMMU.reload timing]. congruence.
Qed.

(** The two sample channels, run. *)
Example serviceDma_immediate_copy :
  match GameBoyAdvanceMMU.serviceDma GameBoyAdvanceMMU.modelled 1 3 dma3_programmed with
  | Normal s' =>
      (enable <$> GameBoyAdvanceMMU.channel s' 3) = Some false
      /\ (nextCount <$> GameBoyAdvanceMMU.channel s' 3) = Some (-1)
      /\ (nextDest <$> GameBoyAdvanceMMU.channel s' 3) = Some 0x03000040
      /\ io_register s' 111 = Some 0x0400
  | _ => False
  end.
Proof. vm_compute. repeat split; reflexivity. Qed.

Example serviceDma_repeat_hblank :
  match GameBoyAdvanceMMU.serviceDma GameBoyAdvanceMMU.modelled 1 3 dma3_repeating with
  | Normal s' =>
      (enable <$> GameBoyAdvanceMMU.channel s' 3) = Some true
      /\ (nextCount <$> GameBoyAdvanceMMU.channel s' 3) = Some 0x10
      /\ (nextDest <$> GameBoyAdvanceMMU.channel s' 3) = Some 0x03000000
      /\ io_register s' 111 = Some 0x8400
  | _ => False
  end.
Proof. vm_compute. repeat split; reflexivity. Qed.

(** *** A transfer between the working RAM blocks returns *)

Lemma invalidate_pages_block n : forall i c,
  exists c',
    GameBoyAdvanceMMU.invalidate_pages n i (OMemoryBlock c) = Normal (OMemoryBlock c')
    /\ Cached.base c' = Cached.base c.
Proof.
  induction n as [|n IH]; intros i c.
  - exists c. split; reflexivity.
  - cbn [GameBoyAdvanceMMU.invalidate_pages Region.ICACHE_PAGE_BITS
         Region.invalidatePage obind].
    destruct (IH (i + 1) (MemoryBlock.invalidatePage c
                (JS.shl i (default 0 (Some (Cached.ICACHE_PAGE_BITS c))))))
      as (c' & Hc' & Hb).
    exists c'. split; [exact Hc' | exact Hb].
Qed.

Lemma is_ram_region region :
  region = GameBoyAdvanceMMU.REGION_WORKING_RAM
  \/ region = GameBoyAdvanceMMU.REGION_WORKING_IRAM ->
  (region =? GameBoyAdvanceMMU.REGION_WORKING_RAM)
  || (region =? GameBoyAdvanceMMU.REGION_WORKING_IRAM) = true.
Proof. intros [-> | ->]; reflexivity. Qed.

(** A 32-bit transfer whose source and destination are the RAM blocks of
    slots 2 and 3, with a non-negative count and addresses that stay in
    range, completes; the slots other than the destination's keep their
    objects. *)
Lemma transfer_ram_to_ram info s ls ld cs cd :
  let sourceRegion := JS.ushr (nextSource info) GameBoyAdvanceMMU.BASE_OFFSET in
  let destRegion := JS.ushr (nextDest info) GameBoyAdvanceMMU.BASE_OFFSET in
  let source := JS.and (JS.and (nextSource info) GameBoyAdvanceMMU.OFFSET_MASK) 0xfffffffc in
  let dest := JS.and (JS.and (nextDest info) GameBoyAdvanceMMU.OFFSET_MASK) 0xfffffffc in
  width info = 4 ->
  0 <= nextCount info ->
  sourceRegion = GameBoyAdvanceMMU.REGION_WORKING_RAM
  \/ sourceRegion = GameBoyAdvanceMMU.REGION_WORKING_IRAM ->
  destRegion = GameBoyAdvanceMMU.REGION_WORKING_RAM
  \/ destRegion = GameBoyAdvanceMMU.REGION_WORKING_IRAM ->
  GameBoyAdvanceMMU.slot s sourceRegion = Some (ls, OMemoryBlock cs) ->
  GameBoyAdvanceMMU.slot s destRegion = Some (ld, OMemoryBlock cd) ->
  MemoryView.resetMask (Cached.base cs) = Cached.base cs ->
  MemoryView.resetMask (Cached.base cd) = Cached.base cd ->
  0 <= DataView.byteOffset (MemoryView.view (Cached.base cs)) ->
  0 <= DataView.byteOffset (MemoryView.view (Cached.base cd)) ->
  GameBoyAdvanceMMU.stays_in_range (MemoryView.view (Cached.base cs))
    (Z.to_nat (nextCount info)) source
    (GameBoyAdvanceMMU.DMA_OFFSET (srcControl info) * 4)
    (MemoryView.mask (Cached.base cs)) = true ->
  GameBoyAdvanceMMU.stays_in_range (MemoryView.view (Cached.base cd))
    (Z.to_nat (nextCount info)) dest
    (GameBoyAdvanceMMU.DMA_OFFSET (dstControl info) * 4)
    (MemoryView.mask (Cached.base cd)) = true ->
  exists s1 src dst,
    GameBoyAdvanceMMU.transfer info s = Normal (s1, src, dst, -1)
    /\ GameBoyAdvanceMMU.memory s1 = GameBoyAdvanceMMU.memory s
    /\ (forall l, l <> ld -> GameBoyAdvanceMMU.heap s1 !! l = GameBoyAdvanceMMU.heap s !! l).
Proof.
  intros sourceRegion destRegion source dest Hw Hcount Hsr Hdr Hss Hsd
         Hms Hmd Hos Hod Hrs Hrd.
  unfold GameBoyAdvanceMMU.transfer.
  fold sourceRegion destRegion. rewrite Hsd.
  cbn [Region.ICACHE_PAGE_BITS obind].
  (* the sweep over the destination pages *)
  assert (Hsweep : exists cd',
    (if JS.truthy (Cached.ICACHE_PAGE_BITS cd)
     then GameBoyAdvanceMMU.invalidate_pages
            (Z.to_nat
               (JS.shr (JS.and (nextDest info) GameBoyAdvanceMMU.OFFSET_MASK
                        + nextCount info * width info) (Cached.ICACHE_PAGE_BITS cd)
                - JS.shr (JS.and (nextDest info) GameBoyAdvanceMMU.OFFSET_MASK)
                         (Cached.ICACHE_PAGE_BITS cd) + 1))
            (JS.shr (JS.and (nextDest info) GameBoyAdvanceMMU.OFFSET_MASK)
                    (Cached.ICACHE_PAGE_BITS cd))
            (OMemoryBlock cd)
     else Normal (OMemoryBlock cd)) = Normal (OMemoryBlock cd')
    /\ Cached.base cd' = Cached.base cd).
  { destruct (JS.truthy _); [apply invalidate_pages_block | eauto]. }
  destruct Hsweep as (cd' & -> & Hbase). cbn [obind].
  set (s0 := GameBoyAdvanceMMU.set_object s ld (OMemoryBlock cd')).
  rewrite (is_ram_region destRegion Hdr).
  cbn [Region.view Region.mask obind GameBoyAdvanceMMU.defined default].
  assert (Hor : (sourceRegion =? GameBoyAdvanceMMU.REGION_WORKING_RAM)
                || (sourceRegion =? GameBoyAdvanceMMU.REGION_WORKING_IRAM)
                || (sourceRegion =? GameBoyAdvanceMMU.REGION_CART0)
                || (sourceRegion =? GameBoyAdvanceMMU.REGION_CART1) = true).
  { rewrite (is_ram_region sourceRegion Hsr). reflexivity. }
  rewrite Hor.
  (* the source object in the updated heap *)
  assert (Hsrc0 : exists cs0,
    GameBoyAdvanceMMU.slot s0 sourceRegion = Some (ls, OMemoryBlock cs0)
    /\ Cached.base cs0 = Cached.base cs).
  { unfold GameBoyAdvanceMMU.slot in Hss |- *.
    cbn [s0 GameBoyAdvanceMMU.set_object GameBoyAdvanceMMU.with_heap
         GameBoyAdvanceMMU.memory GameBoyAdvanceMMU.heap].
    destruct (GameBoyAdvanceMMU.memory s !! sourceRegion) as [l|]; [|discriminate].
    destruct (GameBoyAdvanceMMU.heap s !! l) as [o|] eqn:Hl; [|discriminate].
    injection Hss as -> ->.
    destruct (decide (ls = ld)) as [-> | Hne].
    - rewrite lookup_insert_eq. exists cd'. split; [reflexivity|].
      unfold GameBoyAdvanceMMU.slot in Hsd.
      destruct (GameBoyAdvanceMMU.memory s !! destRegion) as [l'|]; [|discriminate].
      destruct (GameBoyAdvanceMMU.heap s !! l') as [o'|] eqn:Hl'; [|discriminate].
      injection Hsd as -> ->. rewrite Hl in Hl'. injection Hl' as ->. exact Hbase.
    - rewrite lookup_insert_ne by congruence. rewrite Hl. eauto. }
  destruct Hsrc0 as (cs0 & Hss0 & Hbase0).
  rewrite Hss0. cbn [Region.view Region.mask obind GameBoyAdvanceMMU.defined default].
  rewrite Hss.
  unfold GameBoyAdvanceMMU.rounds. destruct (Z.ltb_spec (nextCount info) 0); [lia|].
  cbn [obind andb]. rewrite Hw. cbn [Z.eqb Pos.eqb].
  rewrite Hbase, Hbase0.
  (* the loop *)
  destruct (copy32_loops ls ld
              (MemoryView.mask (Cached.base cs)) (MemoryView.mask (Cached.base cd))
              (DataView.byteLength (MemoryView.view (Cached.base cs)))
              (DataView.byteLength (MemoryView.view (Cached.base cd)))
              (MemoryView.view (Cached.base cs)) (MemoryView.view (Cached.base cd))
              (GameBoyAdvanceMMU.DMA_OFFSET (srcControl info) * 4)
              (GameBoyAdvanceMMU.DMA_OFFSET (dstControl info) * 4)
              eq_refl eq_refl
              (Z.mod_mul _ 4 ltac:(lia)) (Z.mod_mul _ 4 ltac:(lia))
              (Z.to_nat (nextCount info)) (GameBoyAdvanceMMU.heap s0) source dest)
    as (h' & a & b & Ra & _ & _ & Rframe);
    try assumption; try apply and_0xfffffffc_mod4.
  - exists cs0. unfold GameBoyAdvanceMMU.slot in Hss0.
    destruct (GameBoyAdvanceMMU.memory s0 !! sourceRegion) as [l|]; [|discriminate].
    destruct (GameBoyAdvanceMMU.heap s0 !! l) as [o|] eqn:Hl; [|discriminate].
    injection Hss0 as -> ->. rewrite Hbase0. repeat split; auto.
  - exists cd'. cbn [s0 GameBoyAdvanceMMU.set_object GameBoyAdvanceMMU.with_heap
                     GameBoyAdvanceMMU.heap].
    rewrite lookup_insert_eq, Hbase. repeat split; auto.
  - fold source dest. unfold id. rewrite Ra. cbn [obind].
    exists (GameBoyAdvanceMMU.with_heap s0 h'), a, b.
    split; [reflexivity|]. split; [reflexivity|].
    intros l Hl. cbn [GameBoyAdvanceMMU.with_heap GameBoyAdvanceMMU.heap].
    rewrite Rframe by assumption.
    cbn [s0 GameBoyAdvanceMMU.set_object GameBoyAdvanceMMU.with_heap
         GameBoyAdvanceMMU.heap].
    apply lookup_insert_ne. congruence.
Qed.

(** Total correctness for the common case: a 32-bit transfer between the
    working RAM blocks, with [repeat] clear or with H-blank or V-blank timing,
    returns with the bookkeeping done. *)
Lemma serviceDma_ram_to_ram fuel i s info r ls ld cs cd l registers :
  let sourceRegion := JS.ushr (nextSource info) GameBoyAdvanceMMU.BASE_OFFSET in
  let destRegion := JS.ushr (nextDest info) GameBoyAdvanceMMU.BASE_OFFSET in
  let source := JS.and (JS.and (nextSource info) GameBoyAdvanceMMU.OFFSET_MASK) 0xfffffffc in
  let dest := JS.and (JS.and (nextDest info) GameBoyAdvanceMMU.OFFSET_MASK) 0xfffffffc in
  GameBoyAdvanceMMU.channel s i = Some info ->
  enable info = true ->
  0 <= i ->
  GameBoyAdvanceMMU.DMA_REGISTER !! Z.to_nat i = Some r ->
  width info = 4 ->
  0 <= nextCount info ->
  sourceRegion = GameBoyAdvanceMMU.REGION_WORKING_RAM
  \/ sourceRegion = GameBoyAdvanceMMU.REGION_WORKING_IRAM ->
  destRegion = GameBoyAdvanceMMU.REGION_WORKING_RAM
  \/ destRegion = GameBoyAdvanceMMU.REGION_WORKING_IRAM ->
  GameBoyAdvanceMMU.slot s sourceRegion = Some (ls, OMemoryBlock cs) ->
  GameBoyAdvanceMMU.slot s destRegion = Some (ld, OMemoryBlock cd) ->
  MemoryView.resetMask (Cached.base cs) = Cached.base cs ->
  MemoryView.resetMask (Cached.base cd) = Cached.base cd ->
  0 <= DataView.byteOffset (MemoryView.view (Cached.base cs)) ->
  0 <= DataView.byteOffset (MemoryView.view (Cached.base cd)) ->
  GameBoyAdvanceMMU.stays_in_range (MemoryView.view (Cached.base cs))
    (Z.to_nat (nextCount info)) source
    (GameBoyAdvanceMMU.DMA_OFFSET (srcControl info) * 4)
    (MemoryView.mask (Cached.base cs)) = true ->
  GameBoyAdvanceMMU.stays_in_range (MemoryView.view (Cached.base cd))
    (Z.to_nat (nextCount info)) dest
    (GameBoyAdvanceMMU.DMA_OFFSET (dstControl info) * 4)
    (MemoryView.mask (Cached.base cd)) = true ->
  GameBoyAdvanceMMU.slot s GameBoyAdvanceMMU.REGION_IO = Some (l, OIO registers) ->
  repeat info = false
  \/ timing info = GameBoyAdvanceMMU.DMA_TIMING_HBLANK
  \/ timing info = GameBoyAdvanceMMU.DMA_TIMING_VBLANK ->
  exists s',
    GameBoyAdvanceMMU.serviceDma GameBoyAdvanceMMU.modelled (S fuel) i s = Normal s'
    /\ bookkeeping_done info r s' i.
Proof.
  intros sourceRegion destRegion source dest Hch Hen Hi Hr Hw Hcount Hsr Hdr
         Hss Hsd Hms Hmd Hos Hod Hrs Hrd Hio Hcase.
  destruct (transfer_ram_to_ram info s ls ld cs cd Hw Hcount Hsr Hdr Hss Hsd
              Hms Hmd Hos Hod Hrs Hrd) as (s1 & src & dst & Ht & Hmem & Hframe).
  assert (Hio1 : GameBoyAdvanceMMU.slot s1 GameBoyAdvanceMMU.REGION_IO
                 = Some (l, OIO registers)).
  { unfold GameBoyAdvanceMMU.slot in Hio, Hsd |- *. rewrite Hmem.
    destruct (GameBoyAdvanceMMU.memory s !! GameBoyAdvanceMMU.REGION_IO) as [l0|];
      [|discriminate].
    destruct (GameBoyAdvanceMMU.heap s !! l0) as [o|] eqn:Hl0; [|discriminate].
    injection Hio as -> ->.
    destruct (GameBoyAdvanceMMU.memory s !! destRegion) as [l1|]; [|discriminate].
    destruct (GameBoyAdvanceMMU.heap s !! l1) as [o|] eqn:Hl1; [|discriminate].
    injection Hsd as -> ->.
    rewrite Hframe, Hl0; [reflexivity|].
    intros ->. rewrite Hl0 in Hl1. discriminate. }
  assert (Hnow : GameBoyAdvanceMMU.channel s1 i = Some info).
  { pose proof (transfer_dma _ _ _ _ _ _ Ht) as Hdma.
    unfold GameBoyAdvanceMMU.channel in *. now rewrite Hdma. }
  pose proof (serviceDma_returns GameBoyAdvanceMMU.modelled fuel i s info r s1 src dst (-1)
                info l registers Hch Hen Hi Hr Ht Hnow Hio1 Hcase) as Hret.
  destruct (GameBoyAdvanceMMU.serviceDma GameBoyAdvanceMMU.modelled (S fuel) i s) as [s'| | |] eqn:Hs';
    try discriminate Hret.
  exists s'. split; [reflexivity|].
  exact (serviceDma_returns_done (S fuel) i s s' info r Hch Hen Hi Hr Hs').
Qed.

(** ** C9: base64 transport of save data *)

(** Without an outer binding of the name [i], [decodeBase64] returns for no
    string at all: the read of [i] after the loop throws. *)
Lemma decodeBase64_never_returns (string : string) :
  is_normal (GameBoyAdvance.decodeBase64 None string) = false.
Proof.
  unfold GameBoyAdvance.decodeBase64.
  destruct (GameBoyAdvance.decode_loop _ _ _ _ _) as [[bits view]| | |]; reflexivity.
Qed.

(** C9, the code at the failing input: the five bytes "abcde" encode to
    "YWJjZGU="; decoding that string runs the loop once and then throws a
    ReferenceError at [if (i < length)], where the [let]-declared loop counter
    is out of scope; no buffer is returned. *)
Theorem decodeBase64_of_encodeBase64_throws :
  GameBoyAdvance.encodeBase64 sample_save = Normal "YWJjZGU="
  /\ GameBoyAdvance.decodeBase64 None "YWJjZGU=" = Throw ReferenceError.
Proof. vm_compute. split; reflexivity. Qed.

(** Were [i] bound, after the loop, to the value the loop counter ended with
    (3 for this string), the bytes would come back. *)
Example decodeBase64_with_counter_in_scope :
  GameBoyAdvance.decodeBase64 (Some 3) "YWJjZGU="
  = Normal (DataView.buffer sample_save, Some 5).
Proof. vm_compute. reflexivity. Qed.

(** [encodeBase64] returns for every view. *)
Lemma encode_loop_returns view n : forall i wordstring data,
  0 <= DataView.byteOffset view ->
  0 <= i ->
  i + Z.of_nat n <= DataView.byteLength view ->
  is_normal (GameBoyAdvance.encode_loop view n i wordstring data) = true.
Proof.
  induction n as [|n IH]; intros i wordstring data Hoff Hi Hn; [reflexivity|].
  cbn [GameBoyAdvance.encode_loop].
  unfold DataView.getUint8, DataView.get, DataView.in_bounds.
  destruct (Z.leb_spec 0 i); [|lia].
  destruct (Z.leb_spec (i + Z.of_nat 1) (DataView.byteLength view)); [|lia].
  cbn [andb obind].
  destruct (GameBoyAdvance.splice_triplets _ _ _) as [ws' data'].
  apply IH; lia.
Qed.

Lemma encodeBase64_returns view :
  0 <= DataView.byteOffset view ->
  is_normal (GameBoyAdvance.encodeBase64 view) = true.
Proof.
  intros Hoff. unfold GameBoyAdvance.encodeBase64.
  assert (H : is_normal (GameBoyAdvance.encode_loop view
                           (Z.to_nat (DataView.byteLength view)) 0 [] []) = true).
  { destruct (Z.le_gt_cases 0 (DataView.byteLength view)).
    - apply encode_loop_returns; lia.
    - replace (Z.to_nat (DataView.byteLength view)) with 0%nat by lia. reflexivity. }
  destruct (GameBoyAdvance.encode_loop view _ 0 [] []) as [[ws data]| | |];
    cbn [is_normal obind] in *; try discriminate H.
  reflexivity.
Qed.

(** Hence no save data makes the round trip. *)
Lemma base64_round_trip_never_returns view :
  0 <= DataView.byteOffset view ->
  exists text,
    GameBoyAdvance.encodeBase64 view = Normal text
    /\ is_normal (GameBoyAdvance.decodeBase64 None text) = false.
Proof.
  intros Hoff. pose proof (encodeBase64_returns view Hoff) as H.
  destruct (GameBoyAdvance.encodeBase64 view) as [text| | |]; try discriminate H.
  exists text. split; [reflexivity | apply decodeBase64_never_returns].
Qed.

(** ** Stores and loads through the bus *)

Lemma byte_to_Z_to_byte z : byte_to_Z (Z_to_byte z) = z mod 256.
Proof.
  unfold Z_to_byte, byte_to_Z.
  assert (H : 0 <= z mod 256 < 256) by (apply Z.mod_pos_bound; lia).
  destruct (Byte.of_N (Z.to_N (z mod 256))) as [b|] eqn:E.
  - apply Byte.to_of_N in E. rewrite E. lia.
  - apply Byte.of_N_None_iff in E. lia.
Qed.

Lemma le_combine_split n v : le_combine (le_split n v) = v mod 256 ^ Z.of_nat n.
Proof.
  revert v. induction n as [|n IH]; intros v.
  - cbn. now rewrite Z.mod_1_r.
  - cbn [le_split le_combine]. rewrite IH, byte_to_Z_to_byte.
    rewrite Nat2Z.inj_succ, Z.pow_succ_r by lia.
    rewrite Z.rem_mul_r by lia. reflexivity.
Qed.

Lemma length_le_split n v : length (le_split n v) = n.
Proof. revert v. induction n as [|n IH]; intros v; cbn; [|rewrite IH]; reflexivity. Qed.

Lemma read_write_same dv i bs :
  0 <= DataView.byteOffset dv ->
  DataView.in_bounds dv i (Z.of_nat (length bs)) = true ->
  DataView.read (DataView.write dv i bs) i (length bs) = bs.
Proof.
  intros Hoff Hb. unfold DataView.in_bounds, DataView.byteLength in Hb.
  apply andb_prop in Hb as [H0 H4]. apply Z.leb_le in H0, H4.
  unfold DataView.read, DataView.write. cbn [DataView.buffer DataView.byteOffset].
  rewrite drop_app_length' by (rewrite length_take; lia).
  now rewrite take_app_length.
Qed.

Lemma get_set_same dv i n v le dv' :
  0 <= DataView.byteOffset dv ->
  DataView.set dv i n v le = Normal dv' ->
  DataView.get dv' i n le = Normal (v mod 256 ^ Z.of_nat n).
Proof.
  intros Hoff. unfold DataView.set, DataView.get.
  destruct (DataView.in_bounds dv i (Z.of_nat n)) eqn:Hb; [|discriminate].
  intros [= <-].
  assert (Hlen : length (DataView.endian le (le_split n v)) = n).
  { destruct le; cbn; rewrite ?length_rev; apply length_le_split. }
  rewrite (in_bounds_byteLength _ dv).
  2:{ apply write_byteLength; [assumption|]. now rewrite Hlen. }
  rewrite Hb. f_equal.
  rewrite <- Hlen at 2. rewrite read_write_same by (rewrite ?Hlen; assumption).
  destruct le; cbn [DataView.endian]; rewrite ?rev_involutive; apply le_combine_split.
Qed.

Lemma slot_inv s region l o :
  GameBoyAdvanceMMU.slot s region = Some (l, o) ->
  GameBoyAdvanceMMU.memory s !! region = Some l /\ GameBoyAdvanceMMU.heap s !! l = Some o.
Proof.
  unfold GameBoyAdvanceMMU.slot.
  destruct (GameBoyAdvanceMMU.memory s !! region) as [l'|] eqn:Hm; [|discriminate].
  destruct (GameBoyAdvanceMMU.heap s !! l') as [o'|] eqn:Hh; [|discriminate].
  intros [= <- <-]. split; [reflexivity | assumption].
Qed.

Lemma slot_set_object s region l o :
  GameBoyAdvanceMMU.memory s !! region = Some l ->
  GameBoyAdvanceMMU.slot (GameBoyAdvanceMMU.set_object s l o) region = Some (l, o).
Proof.
  intros H. unfold GameBoyAdvanceMMU.slot, GameBoyAdvanceMMU.set_object.
  cbn. rewrite H, lookup_insert_eq. reflexivity.
Qed.

(** X1: a byte stored through the bus into a RAM block reads back. *)
Theorem bus_store8_load8 (s s' : GameBoyAdvanceMMU.t) (a x : Z) (l : positive) (c : Cached.t) :
  GameBoyAdvanceMMU.slot s (JS.ushr a GameBoyAdvanceMMU.BASE_OFFSET) = Some (l, OMemoryBlock c) ->
  0 <= DataView.byteOffset (MemoryView.view (Cached.base c)) ->
  GameBoyAdvanceMMU.store8 a x s = Normal s' ->
  GameBoyAdvanceMMU.loadU8 a s' = Normal (JS.ToUint8 x)
  /\ GameBoyAdvanceMMU.load8 a s' = Normal (JS.ToInt8 x).
Proof.
  intros Hs Hoff. unfold GameBoyAdvanceMMU.store8. rewrite Hs.
  cbn [Region.store8]. unfold MemoryView.store8, DataView.setInt8.
  destruct (DataView.set _ _ 1 x true) as [dv| | |] eqn:Hset; try discriminate.
  cbn [obind Region.invalidatePage]. intros [= <-].
  apply slot_inv in Hs as [Hm _].
  unfold GameBoyAdvanceMMU.loadU8, GameBoyAdvanceMMU.load8.
  rewrite (slot_set_object _ _ _ _ Hm).
  cbn [Region.loadU8 Region.load8].
  unfold MemoryView.loadU8, MemoryView.load8, DataView.getUint8, DataView.getInt8.
  cbn [MemoryBlock.invalidatePage Cached.base Cached.with_base MemoryView.with_view
       MemoryView.view MemoryView.mask8].
  rewrite (get_set_same _ _ _ _ _ _ Hoff Hset). split; [reflexivity|].
  cbn [omap obind]. f_equal. unfold JS.ToInt8.
  change (256 ^ Z.of_nat 1) with (2 ^ 8). now rewrite Z.mod_mod by lia.
Qed.

(** Equalities between masked addresses, bit by bit. *)
Ltac and_bits :=
  apply Z.bits_inj'; intros ?i ?Hi;
  rewrite ?and_testbit by lia; rewrite ?min_min_31;
  repeat match goal with
         | |- context [Z.testbit ?x (Z.min ?i 31)] =>
             destruct (Z.testbit x (Z.min i 31)); cbn [andb]
         end; try reflexivity.

Lemma store16_load16_offset a m :
  JS.and a 1 = 0 ->
  JS.and (JS.and a 0x00fffffe) (JS.and m 0xfffffffe) = JS.and (JS.and a 0x00ffffff) m.
Proof.
  intros Ha.
  assert (Hbit : forall j, 0 <= j ->
            Z.testbit a (Z.min j 31) && negb (Z.testbit 0xfffffffe (Z.min j 31)) = false).
  { intros j Hj.
    assert (H : Z.testbit (JS.and a 1) j = false) by (rewrite Ha; apply Z.bits_0).
    rewrite and_testbit in H by lia.
    destruct (Z.eq_dec (Z.min j 31) 0) as [E | Hne].
    - rewrite E in *. change (Z.testbit 1 0) with true in H.
      change (Z.testbit 0xfffffffe 0) with false. cbn [negb].
      rewrite andb_true_r in *. exact H.
    - replace (Z.testbit 0xfffffffe (Z.min j 31)) with true; [apply andb_false_r|].
      change 0xfffffffe with (Z.land (Z.ones 32) (Z.lnot (Z.ones 1))).
      rewrite Z.land_spec, Z.lnot_spec, !Z.testbit_ones by lia.
      symmetry. repeat (apply andb_true_intro; split); try apply negb_true_iff;
        try apply andb_false_intro2; try apply Z.leb_le; try apply Z.ltb_lt;
        try apply Z.ltb_ge; lia. }
  change 0x00fffffe with (JS.and 0x00ffffff 0xfffffffe).
  apply Z.bits_inj'. intros i Hi. specialize (Hbit i Hi).
  rewrite ?and_testbit by lia. rewrite ?min_min_31.
  destruct (Z.testbit a (Z.min i 31)), (Z.testbit 0xfffffffe (Z.min i 31)),
    (Z.testbit 0x00ffffff (Z.min i 31)), (Z.testbit m (Z.min i 31));
    cbn in Hbit |- *; congruence.
Qed.

Lemma store32_load32_offset a m :
  JS.and (JS.and a 0x00fffffc) (JS.and m 0xfffffffc)
  = JS.and (JS.and a 0x00ffffff) (JS.and m 0xfffffffc).
Proof.
  change 0x00fffffc with (JS.and 0x00ffffff 0xfffffffc). and_bits.
Qed.

Lemma and_ffffff_3 a : JS.and (JS.and a 0x00ffffff) 3 = JS.and a 3.
Proof. rewrite and_assoc. reflexivity. Qed.

Lemma ToInt16_mod x : JS.ToInt16 (x mod 2 ^ 16) = JS.ToInt16 x.
Proof. unfold JS.ToInt16. now rewrite Z.mod_mod by lia. Qed.

Lemma ToInt32_mod x : JS.ToInt32 (x mod 2 ^ 32) = JS.ToInt32 x.
Proof. unfold JS.ToInt32. now rewrite Z.mod_mod by lia. Qed.

Lemma rotate_right_ToInt32 w r : rotate_right (JS.ToInt32 w) r = rotate_right w r.
Proof. unfold rotate_right, JS.ToUint32. now rewrite ToInt32_eqm. Qed.

(** X2: a halfword stored through the bus at an even address reads back. *)
Theorem bus_store16_load16 (s s' : GameBoyAdvanceMMU.t) (a x : Z) (l : positive) (c : Cached.t) :
  GameBoyAdvanceMMU.slot s (JS.ushr a GameBoyAdvanceMMU.BASE_OFFSET) = Some (l, OMemoryBlock c) ->
  MemoryView.resetMask (Cached.base c) = Cached.base c ->
  0 <= DataView.byteOffset (MemoryView.view (Cached.base c)) ->
  JS.and a 1 = 0 ->
  GameBoyAdvanceMMU.store16 a x s = Normal s' ->
  GameBoyAdvanceMMU.loadU16 a s' = Normal (JS.ToUint16 x)
  /\ GameBoyAdvanceMMU.load16 a s' = Normal (JS.ToInt16 x).
Proof.
  intros Hs Hmask Hoff Ha. unfold GameBoyAdvanceMMU.store16. rewrite Hs.
  cbn [Region.store16]. unfold MemoryView.store16, DataView.setInt16.
  destruct (DataView.set _ _ 2 x true) as [dv| | |] eqn:Hset; try discriminate.
  cbn [obind Region.invalidatePage]. intros [= <-].
  apply slot_inv in Hs as [Hm _].
  unfold GameBoyAdvanceMMU.loadU16, GameBoyAdvanceMMU.load16.
  rewrite (slot_set_object _ _ _ _ Hm).
  cbn [Region.loadU16 Region.load16].
  unfold MemoryView.loadU16, MemoryView.load16, DataView.getUint16, DataView.getInt16.
  cbn [MemoryBlock.invalidatePage Cached.base Cached.with_base MemoryView.with_view
       MemoryView.view MemoryView.mask].
  rewrite <- Hmask in Hset. cbn [MemoryView.resetMask MemoryView.mask16 MemoryView.view] in Hset.
  rewrite store16_load16_offset in Hset by assumption.
  rewrite (get_set_same _ _ _ _ _ _ Hoff Hset). split; [reflexivity|].
  cbn [omap obind]. f_equal. apply ToInt16_mod.
Qed.

Lemma and_not3_K a : JS.and a (JS.not 3) = JS.and a 0xfffffffc.
Proof. reflexivity. Qed.

Lemma ushr_24_and_not3 a : JS.ushr (JS.and a (JS.not 3)) 24 = JS.ushr a 24.
Proof.
  unfold JS.ushr. change (JS.ToUint32 24 mod 32) with 24.
  apply Z.bits_inj'. intros i Hi.
  rewrite !Z.shiftr_spec, !ToUint32_testbit by lia.
  destruct (Z.ltb_spec (i + 24) 32); [|reflexivity]. cbn [andb].
  rewrite and_testbit by lia. rewrite Z.min_l by lia.
  replace (Z.testbit (JS.not 3) (i + 24)) with true; [apply andb_true_r|].
  change (JS.not 3) with (Z.lnot (Z.ones 2)).
  rewrite Z.lnot_spec, Z.testbit_ones by lia.
  symmetry. apply negb_true_iff, andb_false_intro2, Z.ltb_ge. lia.
Qed.

Lemma aligned_offset a m :
  JS.and (JS.and (JS.and a (JS.not 3)) 0x00ffffff) (JS.and m 0xfffffffc)
  = JS.and (JS.and a 0x00ffffff) (JS.and m 0xfffffffc).
Proof. rewrite and_not3_K. and_bits. Qed.

Lemma aligned_rotation a : JS.and (JS.and (JS.and a (JS.not 3)) 0x00ffffff) 3 = 0.
Proof.
  rewrite and_ffffff_3. apply and_not3_and_3.
Qed.

(** X3: a word stored through the bus is read back by [load32] rotated by the
    low two address bits; at the word's own address it reads back as stored. *)
Theorem bus_store32_load32 (s s' : GameBoyAdvanceMMU.t) (a x : Z) (l : positive) (c : Cached.t) :
  GameBoyAdvanceMMU.slot s (JS.ushr a GameBoyAdvanceMMU.BASE_OFFSET) = Some (l, OMemoryBlock c) ->
  MemoryView.resetMask (Cached.base c) = Cached.base c ->
  0 <= DataView.byteOffset (MemoryView.view (Cached.base c)) ->
  GameBoyAdvanceMMU.store32 a x s = Normal s' ->
  GameBoyAdvanceMMU.load32 a s' = Normal (rotate_right x (8 * JS.and a 3))
  /\ GameBoyAdvanceMMU.load32 (JS.and a (JS.not 3)) s' = Normal (JS.ToInt32 x).
Proof.
  intros Hs Hmask Hoff. unfold GameBoyAdvanceMMU.store32. rewrite Hs.
  cbn [Region.store32]. unfold MemoryView.store32, DataView.setInt32.
  destruct (DataView.set _ _ 4 x true) as [dv| | |] eqn:Hset; try discriminate.
  cbn [obind Region.invalidatePage]. intros [= <-].
  apply slot_inv in Hs as [Hm _].
  rewrite <- Hmask in Hset.
  cbn [MemoryView.resetMask MemoryView.mask32 MemoryView.view] in Hset.
  rewrite store32_load32_offset in Hset.
  pose proof (get_set_same _ _ _ _ _ _ Hoff Hset) as Hget.
  change (256 ^ Z.of_nat 4) with (2 ^ 32) in Hget.
  unfold GameBoyAdvanceMMU.load32, GameBoyAdvanceMMU.BASE_OFFSET in *.
  rewrite ushr_24_and_not3.
  rewrite !(slot_set_object _ _ _ _ Hm).
  cbn [Region.load32]. rewrite !MemoryView_load32_word.
  cbn [MemoryBlock.invalidatePage Cached.base Cached.with_base MemoryView.with_view
       MemoryView.view MemoryView.mask32].
  rewrite <- Hmask.
  cbn [MemoryView.resetMask MemoryView.mask32 MemoryView.view].
  rewrite aligned_offset, aligned_rotation, and_ffffff_3.
  unfold DataView.getInt32. rewrite Hget. cbn [omap obind].
  rewrite ToInt32_mod, !rotate_right_ToInt32. change (8 * 0) with 0. rewrite rotate_right_0.
  split; reflexivity.
Qed.

Lemma bus_store8_load8_witness :
  let s' := returned (GameBoyAdvanceMMU.store8 0x02000005 0x1ab small_bus) small_bus in
  GameBoyAdvanceMMU.loadU8 0x02000005 s' = Normal (JS.ToUint8 0x1ab)
  /\ GameBoyAdvanceMMU.load8 0x02000005 s' = Normal (JS.ToInt8 0x1ab).
Proof.
  apply (bus_store8_load8 small_bus _ 0x02000005 0x1ab 1%positive sample_block).
  - reflexivity.
  - vm_compute. discriminate.
  - reflexivity.
Defined.

Lemma bus_store16_load16_witness :
  let s' := returned (GameBoyAdvanceMMU.store16 0x02000006 0x1abcd small_bus) small_bus in
  GameBoyAdvanceMMU.loadU16 0x02000006 s' = Normal (JS.ToUint16 0x1abcd)
  /\ GameBoyAdvanceMMU.load16 0x02000006 s' = Normal (JS.ToInt16 0x1abcd).
Proof.
  apply (bus_store16_load16 small_bus _ 0x02000006 0x1abcd 1%positive sample_block).
  - reflexivity.
  - reflexivity.
  - vm_compute. discriminate.
  - reflexivity.
  - reflexivity.
Defined.

Lemma bus_store32_load32_witness :
  let s' := returned (GameBoyAdvanceMMU.store32 0x02000009 0x11223344 small_bus) small_bus in
  GameBoyAdvanceMMU.load32 0x02000009 s' = Normal (rotate_right 0x11223344 (8 * JS.and 0x02000009 3))
  /\ GameBoyAdvanceMMU.load32 (JS.and 0x02000009 (JS.not 3)) s' = Normal (JS.ToInt32 0x11223344).
Proof.
  apply (bus_store32_load32 small_bus _ 0x02000009 0x11223344 1%positive sample_block).
  - reflexivity.
  - reflexivity.
  - vm_compute. discriminate.
  - reflexivity.
Defined.

(** A one-byte write leaves every other byte where it was. *)
Lemma take1_drop {A} (l : list A) (n : nat) :
  take 1 (drop n l) = match l !! n with Some x => [x] | None => [] end.
Proof.
  revert n. induction l as [|y l IH]; intros [|n]; cbn; auto.
Qed.

Lemma read_write_other dv i j x :
  0 <= DataView.byteOffset dv ->
  DataView.in_bounds dv i 1 = true ->
  0 <= j -> j <> i ->
  DataView.read (DataView.write dv i [x]) j 1 = DataView.read dv j 1.
Proof.
  intros Hoff Hb Hj Hne. unfold DataView.in_bounds, DataView.byteLength in Hb.
  apply andb_prop in Hb as [H0 H1]. apply Z.leb_le in H0, H1.
  unfold DataView.read, DataView.write. cbn [DataView.buffer DataView.byteOffset].
  rewrite !take1_drop.
  set (k := Z.to_nat (DataView.byteOffset dv + i)).
  assert (Hk : (k < length (DataView.buffer dv))%nat) by lia.
  replace (take k (DataView.buffer dv) ++ [x] ++ drop (k + length [x]) (DataView.buffer dv))
    with (<[k := x]> (DataView.buffer dv)).
  2:{ rewrite insert_take_drop by assumption. cbn [length app].
      now replace (k + 1)%nat with (S k) by lia. }
  rewrite list_lookup_insert_ne by lia. reflexivity.
Qed.

(** X4: a byte store changes one byte: a later load returns the new byte at
    every address that the mask sends to the offset written (the address itself
    and its mirrors), and what it returned before at every other address. *)
Theorem MemoryView_store8_frame (v v' : MemoryView.t) (a b x : Z) :
  0 <= DataView.byteOffset (MemoryView.view v) ->
  MemoryView.store8 v a x = Normal v' ->
  MemoryView.loadU8 v' b
  = if JS.and b (MemoryView.mask8 v) =? JS.and a (MemoryView.mask8 v)
    then Normal (JS.ToUint8 x)
    else MemoryView.loadU8 v b.
Proof.
  intros Hoff. unfold MemoryView.store8, DataView.setInt8.
  destruct (DataView.set _ _ 1 x true) as [dv| | |] eqn:Hset; try discriminate.
  cbn [obind]. intros [= <-].
  unfold MemoryView.loadU8, DataView.getUint8.
  cbn [MemoryView.with_view MemoryView.view MemoryView.mask8].
  destruct (Z.eqb_spec (JS.and b (MemoryView.mask8 v)) (JS.and a (MemoryView.mask8 v)))
    as [-> | Hne].
  - apply (get_set_same _ _ _ _ _ _ Hoff Hset).
  - unfold DataView.set in Hset.
    destruct (DataView.in_bounds _ _ (Z.of_nat 1)) eqn:Hb; [|discriminate].
    injection Hset as <-. unfold DataView.get.
    rewrite (in_bounds_byteLength _ (MemoryView.view v)).
    2:{ now apply write_byteLength. }
    destruct (DataView.in_bounds (MemoryView.view v) (JS.and b _) _) eqn:Hb'; [|reflexivity].
    cbn [DataView.endian le_split].
    rewrite read_write_other; try assumption; [reflexivity|].
    apply andb_prop in Hb' as [H0 _]. now apply Z.leb_le in H0.
Qed.

Lemma MemoryView_store8_frame_witness :
  let v := Cached.base sample_block in
  let v' := returned (MemoryView.store8 v 3 0xab) v in
  MemoryView.loadU8 v' 19
  = if JS.and 19 (MemoryView.mask8 v) =? JS.and 3 (MemoryView.mask8 v)
    then Normal (JS.ToUint8 0xab)
    else MemoryView.loadU8 v 19.
Proof.
  apply (MemoryView_store8_frame (Cached.base sample_block) _ 3 19 0xab).
  - vm_compute. discriminate.
  - reflexivity.
Defined.

(** ** Regions that drop stores *)

Lemma with_heap_id s : GameBoyAdvanceMMU.with_heap s (GameBoyAdvanceMMU.heap s) = s.
Proof. now destruct s. Qed.

Lemma set_object_same s l o :
  GameBoyAdvanceMMU.heap s !! l = Some o -> GameBoyAdvanceMMU.set_object s l o = s.
Proof.
  intros H. unfold GameBoyAdvanceMMU.set_object.
  rewrite insert_id by assumption. apply with_heap_id.
Qed.

Lemma with_base_id c : Cached.with_base c (Cached.base c) = c.
Proof. now destruct c. Qed.

(** X5: a store through the bus to the open bus, to the BIOS or to the
    cartridge ROM returns and leaves the whole bus state as it was, the 16- and
    32-bit stores to the GPIO window of a ROM view apart: the view that
    [loadRom] gave its [mmu] hands them to the GPIO object; on any other ROM
    view they throw a TypeError. *)
Theorem bus_store_read_only (s : GameBoyAdvanceMMU.t) (a x : Z) (l : positive) (o : object) :
  GameBoyAdvanceMMU.slot s (JS.ushr a GameBoyAdvanceMMU.BASE_OFFSET) = Some (l, o) ->
  read_only o = true ->
  GameBoyAdvanceMMU.store8 a x s = Normal s
  /\ GameBoyAdvanceMMU.store16 a x s
     = (if gpio_window o (JS.and a 0x00fffffe)
        then if has_mmu o then Outside "GameBoyAdvanceGPIO.store16" else Throw TypeError
        else Normal s)
  /\ GameBoyAdvanceMMU.store32 a x s
     = (if gpio_window o (JS.and a 0x00fffffc)
        then if has_mmu o then Outside "GameBoyAdvanceGPIO.store32" else Throw TypeError
        else Normal s).
Proof.
  intros Hs Hro.
  unfold GameBoyAdvanceMMU.store8, GameBoyAdvanceMMU.store16, GameBoyAdvanceMMU.store32.
  rewrite Hs. apply slot_inv in Hs as [_ Hh].
  destruct o as [ | | r mmu | b | | | ]; try discriminate Hro; cbn [gpio_window has_mmu].
  - cbn. now rewrite set_object_same.
  - cbn [Region.store8 Region.store16 Region.store32].
    unfold ROMView.store8, ROMView.store16, ROMView.store32.
    repeat split.
    + cbn. unfold MemoryView.invalidatePage. rewrite with_base_id.
      now rewrite set_object_same.
    + destruct ((JS.and a 0x00fffffe <? 0xca) && (0xc4 <=? JS.and a 0x00fffffe));
        [now destruct mmu|].
      cbn. unfold MemoryView.invalidatePage. rewrite with_base_id.
      now rewrite set_object_same.
    + destruct ((JS.and a 0x00fffffc <? 0xca) && (0xc4 <=? JS.and a 0x00fffffc));
        [now destruct mmu|].
      cbn. unfold MemoryView.invalidatePage. rewrite !with_base_id.
      now rewrite set_object_same.
  - cbn. unfold MemoryView.invalidatePage. rewrite !with_base_id.
    now rewrite set_object_same.
Qed.

Lemma bus_store_read_only_witness :
  GameBoyAdvanceMMU.store8 0x080000c4 0xff small_cart_bus = Normal small_cart_bus
  /\ GameBoyAdvanceMMU.store16 0x080000c4 0xff small_cart_bus = Throw TypeError
  /\ GameBoyAdvanceMMU.store32 0x080000c4 0xff small_cart_bus = Throw TypeError
  /\ GameBoyAdvanceMMU.store16 0x080000ca 0xff small_cart_bus = Normal small_cart_bus.
Proof.
  destruct (bus_store_read_only small_cart_bus 0x080000c4 0xff 2%positive
              (OROMView sample_rom_view false) eq_refl eq_refl) as (H8 & H16 & H32).
  destruct (bus_store_read_only small_cart_bus 0x080000ca 0xff 2%positive
              (OROMView sample_rom_view false) eq_refl eq_refl) as (_ & H16' & _).
  repeat split; assumption.
Defined.

(** ** Instruction-cache pages *)

Lemma cached_with_cached o c c' :
  Region.cached o = Some c -> Region.cached (Region.with_cached o c') = Some c'.
Proof. destruct o; cbn; congruence. Qed.

Lemma cached_page_set s region l o c c' q :
  GameBoyAdvanceMMU.slot s region = Some (l, o) ->
  Region.cached o = Some c ->
  cached_page (GameBoyAdvanceMMU.set_object s l (Region.with_cached o c')) region q
  = Cached.icache c' !! q.
Proof.
  intros Hs Hc. apply slot_inv in Hs as [Hm _]. unfold cached_page.
  now rewrite (slot_set_object _ _ _ _ Hm), (cached_with_cached _ _ _ Hc).
Qed.

(** The two ways [accessPage] returns: the page was there and valid, or a
    fresh one has been put in its place. *)
Lemma accessPage_cases s region pageId s' p :
  GameBoyAdvanceMMU.accessPage region pageId s = Normal (s', p) ->
  (s' = s /\ cached_page s region pageId = Some p /\ invalid p = false)
  \/ exists l o c,
       GameBoyAdvanceMMU.slot s region = Some (l, o) /\ Region.cached o = Some c
       /\ s' = GameBoyAdvanceMMU.set_object s l
                 (Region.with_cached o
                    (Cached.with_icache c
                       (<[pageId := GameBoyAdvanceMMU.new_page c]> (Cached.icache c))))
       /\ p = GameBoyAdvanceMMU.new_page c.
Proof.
  unfold GameBoyAdvanceMMU.accessPage, cached_page.
  destruct (GameBoyAdvanceMMU.slot s region) as [[l o]|] eqn:Hs; [|discriminate].
  destruct (Region.cached o) as [c|] eqn:Hc.
  2:{ destruct o; discriminate. }
  destruct (Cached.icache c !! pageId) as [p0|] eqn:Hp.
  - destruct (invalid p0) eqn:Hinv; intros [= <- <-].
    + right. now exists l, o, c.
    + left. repeat split; auto.
  - intros [= <- <-]. right. now exists l, o, c.
Qed.

Lemma accessPage_hit s region pageId p :
  cached_page s region pageId = Some p -> invalid p = false ->
  GameBoyAdvanceMMU.accessPage region pageId s = Normal (s, p).
Proof.
  unfold GameBoyAdvanceMMU.accessPage, cached_page.
  destruct (GameBoyAdvanceMMU.slot s region) as [[l o]|]; [|discriminate].
  destruct (Region.cached o) as [c|]; [|discriminate].
  now intros -> ->.
Qed.

(** X6: the page [accessPage] returns is valid and is the one the cache then
    holds under that id; asking again returns the same page and changes
    nothing; every other page of the region is as it was. *)
Theorem accessPage_stable (s s' : GameBoyAdvanceMMU.t) (region pageId : Z) (p : page) :
  GameBoyAdvanceMMU.accessPage region pageId s = Normal (s', p) ->
  invalid p = false
  /\ cached_page s' region pageId = Some p
  /\ GameBoyAdvanceMMU.accessPage region pageId s' = Normal (s', p)
  /\ forall q, q <> pageId -> cached_page s' region q = cached_page s region q.
Proof.
  intros H. apply accessPage_cases in H as [(-> & Hp & Hinv) | (l & o & c & Hs & Hc & -> & ->)].
  - repeat split; try assumption. now apply accessPage_hit.
  - assert (Hp : cached_page
                   (GameBoyAdvanceMMU.set_object s l
                      (Region.with_cached o
                         (Cached.with_icache c
                            (<[pageId := GameBoyAdvanceMMU.new_page c]> (Cached.icache c)))))
                   region pageId = Some (GameBoyAdvanceMMU.new_page c)).
    { rewrite (cached_page_set _ _ _ _ _ _ _ Hs Hc). cbn. apply lookup_insert_eq. }
    repeat split; try assumption.
    + now apply accessPage_hit.
    + intros q Hq. rewrite (cached_page_set _ _ _ _ _ _ _ Hs Hc). cbn.
      rewrite lookup_insert_ne by congruence.
      unfold cached_page. now rewrite Hs, Hc.
Qed.

Lemma accessPage_stable_witness :
  let r := returned (GameBoyAdvanceMMU.accessPage 2 1 small_bus)
                    (small_bus, mkPage 0 0 true) in
  invalid (snd r) = false
  /\ cached_page (fst r) 2 1 = Some (snd r)
  /\ GameBoyAdvanceMMU.accessPage 2 1 (fst r) = Normal (fst r, snd r)
  /\ forall q, q <> 1 -> cached_page (fst r) 2 q = cached_page small_bus 2 q.
Proof.
  apply (accessPage_stable small_bus _ 2 1 _). reflexivity.
Defined.

(** ** RAM blocks: which accesses return *)

Lemma and_ffffffff m : JS.and m 0xffffffff = JS.ToInt32 m.
Proof. unfold JS.and. change (JS.ToInt32 0xffffffff) with (-1). apply Z.land_m1_r. Qed.

Lemma and_ones a k : 0 <= k <= 30 -> JS.and a (2 ^ k - 1) = JS.ToInt32 a mod 2 ^ k.
Proof.
  intros Hk. unfold JS.and.
  assert (0 < 2 ^ k <= 2 ^ 30) by (split; [lia | apply Z.pow_le_mono_r; lia]).
  rewrite (ToInt32_id (2 ^ k - 1)) by lia.
  replace (2 ^ k - 1) with (Z.ones k) by (rewrite Z.ones_equiv; lia).
  apply Z.land_ones. lia.
Qed.

Lemma and_0xfffffffe_mod2 x : JS.and x 0xfffffffe mod 2 = 0.
Proof.
  unfold JS.and. change (JS.ToInt32 0xfffffffe) with (Z.lnot (Z.ones 1)).
  rewrite <- Z.ldiff_land, Z.ldiff_ones_r by lia.
  rewrite Z.shiftl_mul_pow2 by lia. change (2 ^ 1) with 2.
  apply Z.mod_mul. lia.
Qed.

Section BlockOffsets.

Variables (v : MemoryView.t) (k : Z).
Hypothesis shape : block_shape v k.
Hypothesis k_range : 2 <= k <= 30.

Lemma pow_k : 0 < 2 ^ k /\ (4 | 2 ^ k) /\ (2 | 2 ^ k).
Proof.
  replace k with (2 + (k - 2)) by lia. rewrite Z.pow_add_r by lia.
  change (2 ^ 2) with 4. assert (0 < 2 ^ (k - 2)) by (apply Z.pow_pos_nonneg; lia).
  repeat split; [lia | exists (2 ^ (k - 2)); lia | exists (2 * 2 ^ (k - 2)); lia].
Qed.

Lemma shape_masks :
  MemoryView.mask8 v = JS.and (2 ^ k - 1) 0xffffffff
  /\ MemoryView.mask16 v = JS.and (2 ^ k - 1) 0xfffffffe
  /\ MemoryView.mask32 v = JS.and (2 ^ k - 1) 0xfffffffc.
Proof.
  destruct shape as (Hm & Hk & _). rewrite <- Hm, <- Hk. repeat split; reflexivity.
Qed.

Lemma shape_in_bounds i n :
  DataView.in_bounds (MemoryView.view v) i n = (0 <=? i) && (i + n <=? 2 ^ k).
Proof.
  destruct shape as (_ & _ & Hoff & Hlen).
  unfold DataView.in_bounds, DataView.byteLength.
  unfold MemoryView.byteLength, MemoryView.buffer in Hlen.
  now rewrite Hoff, Hlen, Z.sub_0_r.
Qed.

Lemma offset8 a : 0 <= JS.and a (MemoryView.mask8 v) < 2 ^ k.
Proof.
  destruct shape_masks as (-> & _). rewrite and_ffffffff, and_ToInt32_r.
  rewrite and_ones by lia. apply Z.mod_pos_bound, pow_k.
Qed.

Lemma offset_mask a : 0 <= JS.and a (MemoryView.mask v) < 2 ^ k.
Proof.
  destruct shape as (_ & -> & _).
  rewrite and_ones by lia. apply Z.mod_pos_bound, pow_k.
Qed.

Lemma offset16 a : 0 <= JS.and a (MemoryView.mask16 v) <= 2 ^ k - 2.
Proof.
  destruct shape_masks as (_ & -> & _).
  rewrite (and_comm (2 ^ k - 1)), <- and_assoc, and_ones by lia.
  rewrite ToInt32_and.
  destruct pow_k as (Hpos & _ & Hdiv).
  pose proof (Z.mod_pos_bound (JS.and a 0xfffffffe) (2 ^ k) Hpos).
  pose proof (and_0xfffffffe_mod2 a) as H2.
  rewrite <- (Z.mod_mod_divide _ (2 ^ k)) in H2 by assumption.
  set (r := JS.and a 0xfffffffe mod 2 ^ k) in *. clearbody r.
  destruct Hdiv as [q Hq]. rewrite Hq in *.
  Z.div_mod_to_equations. lia.
Qed.

Lemma offset32 a : 0 <= JS.and a (MemoryView.mask32 v) <= 2 ^ k - 4.
Proof.
  destruct shape_masks as (_ & _ & ->).
  rewrite (and_comm (2 ^ k - 1)), <- and_assoc, and_ones by lia.
  rewrite ToInt32_and.
  destruct pow_k as (Hpos & Hdiv & _).
  pose proof (Z.mod_pos_bound (JS.and a 0xfffffffc) (2 ^ k) Hpos).
  pose proof (and_0xfffffffc_mod4 a) as H4.
  rewrite <- (Z.mod_mod_divide _ (2 ^ k)) in H4 by assumption.
  set (r := JS.and a 0xfffffffc mod 2 ^ k) in *. clearbody r.
  destruct Hdiv as [q Hq]. rewrite Hq in *.
  Z.div_mod_to_equations. lia.
Qed.

End BlockOffsets.

(** X7: on a RAM block of [2^k] bytes every byte and word access and every
    halfword store returns, at every address; a halfword load returns unless
    the mask sends its address to the last byte of the block, where it
    throws. *)
Theorem block_accesses_return (v : MemoryView.t) (k a x : Z) :
  block_shape v k -> 2 <= k <= 30 ->
  is_normal (MemoryView.load8 v a) = true
  /\ is_normal (MemoryView.loadU8 v a) = true
  /\ is_normal (MemoryView.load32 v a) = true
  /\ is_normal (MemoryView.store8 v a x) = true
  /\ is_normal (MemoryView.store16 v a x) = true
  /\ is_normal (MemoryView.store32 v a x) = true
  /\ MemoryView.load16 v a
     = (if JS.and a (MemoryView.mask v) =? 2 ^ k - 1 then Throw RangeError
        else MemoryView.load16 v a)
  /\ is_normal (MemoryView.loadU16 v a)
     = negb (JS.and a (MemoryView.mask v) =? 2 ^ k - 1)
  /\ is_normal (MemoryView.load16 v a)
     = negb (JS.and a (MemoryView.mask v) =? 2 ^ k - 1).
Proof.
  intros Hshape Hk.
  pose proof (offset8 v k Hshape Hk a) as H8.
  pose proof (offset16 v k Hshape Hk a) as H16.
  pose proof (offset32 v k Hshape Hk a) as H32.
  pose proof (offset_mask v k Hshape Hk a) as Hm.
  unfold MemoryView.load8, MemoryView.loadU8, MemoryView.load32, MemoryView.store8,
    MemoryView.store16, MemoryView.store32, MemoryView.load16, MemoryView.loadU16,
    DataView.getInt8, DataView.getUint8, DataView.getInt32, DataView.getInt16,
    DataView.getUint16, DataView.setInt8, DataView.setInt16, DataView.setInt32,
    DataView.get, DataView.set.
  rewrite !(shape_in_bounds v k Hshape).
  change (Z.of_nat 1) with 1. change (Z.of_nat 2) with 2. change (Z.of_nat 4) with 4.
  replace ((0 <=? JS.and a (MemoryView.mask8 v)) && (JS.and a (MemoryView.mask8 v) + 1 <=? 2 ^ k))
    with true by (symmetry; apply andb_true_intro; split; apply Z.leb_le; lia).
  replace ((0 <=? JS.and a (MemoryView.mask16 v)) && (JS.and a (MemoryView.mask16 v) + 2 <=? 2 ^ k))
    with true by (symmetry; apply andb_true_intro; split; apply Z.leb_le; lia).
  replace ((0 <=? JS.and a (MemoryView.mask32 v)) && (JS.and a (MemoryView.mask32 v) + 4 <=? 2 ^ k))
    with true by (symmetry; apply andb_true_intro; split; apply Z.leb_le; lia).
  cbn [omap obind is_normal].
  destruct (Z.eqb_spec (JS.and a (MemoryView.mask v)) (2 ^ k - 1)) as [E | E].
  - replace ((0 <=? JS.and a (MemoryView.mask v)) && (JS.and a (MemoryView.mask v) + 2 <=? 2 ^ k))
      with false by (symmetry; apply andb_false_intro2, Z.leb_gt; lia).
    repeat split; reflexivity.
  - replace ((0 <=? JS.and a (MemoryView.mask v)) && (JS.and a (MemoryView.mask v) + 2 <=? 2 ^ k))
      with true by (symmetry; apply andb_true_intro; split; apply Z.leb_le; lia).
    repeat split; reflexivity.
Qed.

Lemma block_accesses_return_witness :
  let v := Cached.base sample_block in
  is_normal (MemoryView.load8 v 0x1f) = true
  /\ is_normal (MemoryView.loadU8 v 0x1f) = true
  /\ is_normal (MemoryView.load32 v 0x1f) = true
  /\ is_normal (MemoryView.store8 v 0x1f 7) = true
  /\ is_normal (MemoryView.store16 v 0x1f 7) = true
  /\ is_normal (MemoryView.store32 v 0x1f 7) = true
  /\ MemoryView.load16 v 0x1f
     = (if JS.and 0x1f (MemoryView.mask v) =? 2 ^ 4 - 1 then Throw RangeError
        else MemoryView.load16 v 0x1f)
  /\ is_normal (MemoryView.loadU16 v 0x1f)
     = negb (JS.and 0x1f (MemoryView.mask v) =? 2 ^ 4 - 1)
  /\ is_normal (MemoryView.load16 v 0x1f)
     = negb (JS.and 0x1f (MemoryView.mask v) =? 2 ^ 4 - 1).
Proof.
  apply (block_accesses_return (Cached.base sample_block) 4 0x1f 7).
  - repeat split; reflexivity.
  - lia.
Defined.

(** ** [clear] *)

Lemma MemoryBlock_new_shape k bits :
  0 <= k -> block_shape (Cached.base (MemoryBlock.new (2 ^ k) bits)) k.
Proof.
  intros Hk. assert (0 < 2 ^ k) by (apply Z.pow_pos_nonneg; lia).
  unfold block_shape. split; [apply MemoryBlock_new_masks|].
  cbn. unfold MemoryView.byteLength, MemoryView.buffer. cbn.
  rewrite length_replicate. repeat split; lia.
Qed.

Lemma le_combine_zero l : Forall (eq x00) l -> le_combine l = 0.
Proof. induction 1 as [|b l <- _ IH]; cbn [le_combine]; [|rewrite IH]; reflexivity. Qed.

Lemma get_zero n off i m le :
  DataView.in_bounds (DataView.mk (replicate n x00) off) i (Z.of_nat m) = true ->
  DataView.get (DataView.mk (replicate n x00) off) i m le = Normal 0.
Proof.
  intros Hb. unfold DataView.get. rewrite Hb. f_equal.
  apply le_combine_zero. unfold DataView.read. cbn [DataView.buffer DataView.byteOffset].
  assert (Forall (eq x00) (take m (drop (Z.to_nat (off + i)) (replicate n x00)))).
  { apply Forall_take, Forall_drop, Forall_replicate. reflexivity. }
  destruct le; cbn [DataView.endian]; [assumption | now apply Forall_rev].
Qed.

Lemma rotate_right_zero r : rotate_right 0 r = 0.
Proof.
  unfold rotate_right. change (JS.ToUint32 0) with 0.
  now rewrite Z.shiftr_0_l, Z.shiftl_0_l.
Qed.

Lemma fresh_block_reads_zero k bits a :
  2 <= k <= 30 ->
  let v := Cached.base (MemoryBlock.new (2 ^ k) bits) in
  MemoryView.loadU8 v a = Normal 0
  /\ MemoryView.load8 v a = Normal 0
  /\ MemoryView.load32 v a = Normal 0.
Proof.
  intros Hk v.
  assert (Hshape : block_shape v k) by (apply MemoryBlock_new_shape; lia).
  pose proof (offset8 v k Hshape Hk a) as H8.
  pose proof (offset32 v k Hshape Hk a) as H32.
  assert (Hb8 : DataView.in_bounds (MemoryView.view v) (JS.and a (MemoryView.mask8 v)) 1 = true).
  { rewrite (shape_in_bounds v k Hshape). apply andb_true_intro. split; apply Z.leb_le; lia. }
  assert (Hb32 : DataView.in_bounds (MemoryView.view v) (JS.and a (MemoryView.mask32 v)) 4 = true).
  { rewrite (shape_in_bounds v k Hshape). apply andb_true_intro. split; apply Z.leb_le; lia. }
  rewrite MemoryView_load32_word.
  unfold MemoryView.loadU8, MemoryView.load8, DataView.getUint8, DataView.getInt8,
    DataView.getInt32.
  change (MemoryView.view v) with (DataView.mk (replicate (Z.to_nat (2 ^ k)) x00) 0) in *.
  rewrite !get_zero by assumption. cbn [omap obind].
  change (JS.ToInt32 0) with 0. now rewrite rotate_right_zero.
Qed.

Lemma lookup_foldr_insert {V} (bad : V) (low : gmap Z V) (l : list nat) (k : Z) :
  Forall (fun i => Z.of_nat i <> k) l ->
  foldr (fun i m => <[Z.of_nat i := bad]> m) low l !! k = low !! k.
Proof.
  induction 1 as [|i l Hi _ IH]; cbn [foldr]; [reflexivity|].
  now rewrite lookup_insert_ne.
Qed.

Lemma lookup_foldr_insert_in {V} (bad : V) (low : gmap Z V) (l : list nat) (i : nat) :
  i ∈ l ->
  foldr (fun i m => <[Z.of_nat i := bad]> m) low l !! Z.of_nat i = Some bad.
Proof.
  induction 1 as [i l | i j l _ IH]; cbn [foldr].
  - apply lookup_insert_eq.
  - destruct (decide (Z.of_nat j = Z.of_nat i)) as [-> | Hne].
    + apply lookup_insert_eq.
    + now rewrite lookup_insert_ne.
Qed.

(** The slots of the bus after [clear()]. *)
Lemma clear_slots s :
  let s' := GameBoyAdvanceMMU.clear s in
  GameBoyAdvanceMMU.slot s' 2
  = Some (Pos.succ (GameBoyAdvanceMMU.next s),
          OMemoryBlock (MemoryBlock.new GameBoyAdvanceMMU.SIZE_WORKING_RAM 9))
  /\ GameBoyAdvanceMMU.slot s' 3
     = Some (Pos.succ (Pos.succ (GameBoyAdvanceMMU.next s)),
             OMemoryBlock (MemoryBlock.new GameBoyAdvanceMMU.SIZE_WORKING_IRAM 7))
  /\ (forall r, r = 1 \/ 8 <= r < 256 ->
        GameBoyAdvanceMMU.slot s' r = Some (GameBoyAdvanceMMU.next s, OBadMemory))
  /\ (forall r, 4 <= r < 8 -> GameBoyAdvanceMMU.slot s' r = None).
Proof.
  unfold GameBoyAdvanceMMU.clear, GameBoyAdvanceMMU.alloc, GameBoyAdvanceMMU.slot.
  cbn [GameBoyAdvanceMMU.heap GameBoyAdvanceMMU.next GameBoyAdvanceMMU.memory
       GameBoyAdvanceMMU.bios].
  set (n := GameBoyAdvanceMMU.next s).
  set (low := <[2 := Pos.succ n]> (<[3 := Pos.succ (Pos.succ n)]>
                (match GameBoyAdvanceMMU.bios s with Some b => <[0 := b]> ∅ | None => ∅ end))).
  assert (Hval : forall i, In i (1%nat :: seq 8 248) -> Z.of_nat i = 1 \/ 8 <= Z.of_nat i < 256).
  { intros i [<- | Hi]; [left; reflexivity|]. apply in_seq in Hi. lia. }
  assert (Hout : forall k, k <> 1 -> ~ 8 <= k < 256 ->
            foldr (fun i m => <[Z.of_nat i := n]> m) low (1%nat :: seq 8 248) !! k = low !! k).
  { intros k H1 H8. apply lookup_foldr_insert, Forall_forall.
    intros i Hi%list_elem_of_In%Hval. lia. }
  repeat split.
  - rewrite Hout by lia. subst low. rewrite lookup_insert_eq.
    rewrite lookup_insert_ne by lia. now rewrite lookup_insert_eq.
  - rewrite Hout by lia. subst low. rewrite lookup_insert_ne by lia.
    rewrite lookup_insert_eq. now rewrite lookup_insert_eq.
  - intros r Hr.
    assert (Hin : Z.to_nat r ∈ (1%nat :: seq 8 248)).
    { apply list_elem_of_In. destruct Hr as [-> | Hr]; [now left | right].
      apply in_seq. lia. }
    apply (lookup_foldr_insert_in n low) in Hin.
    rewrite Z2Nat.id in Hin by lia. rewrite Hin.
    rewrite !lookup_insert_ne by lia. now rewrite lookup_insert_eq.
  - intros r Hr. rewrite Hout by lia. subst low.
    rewrite !lookup_insert_ne by lia.
    destruct (GameBoyAdvanceMMU.bios s); [rewrite lookup_insert_ne by lia|]; reflexivity.
Qed.

(** X8: after [clear()] the working RAM reads zero everywhere: every byte and
    word load from regions 2 and 3 returns 0. *)
Theorem clear_zeroes_ram (s : GameBoyAdvanceMMU.t) (a : Z) :
  JS.ushr a GameBoyAdvanceMMU.BASE_OFFSET = GameBoyAdvanceMMU.REGION_WORKING_RAM
  \/ JS.ushr a GameBoyAdvanceMMU.BASE_OFFSET = GameBoyAdvanceMMU.REGION_WORKING_IRAM ->
  GameBoyAdvanceMMU.loadU8 a (GameBoyAdvanceMMU.clear s) = Normal 0
  /\ GameBoyAdvanceMMU.load8 a (GameBoyAdvanceMMU.clear s) = Normal 0
  /\ GameBoyAdvanceMMU.load32 a (GameBoyAdvanceMMU.clear s) = Normal 0.
Proof.
  intros Hr. destruct (clear_slots s) as (H2 & H3 & _).
  unfold GameBoyAdvanceMMU.loadU8, GameBoyAdvanceMMU.load8, GameBoyAdvanceMMU.load32.
  destruct Hr as [-> | ->].
  - change GameBoyAdvanceMMU.REGION_WORKING_RAM with 2. rewrite H2.
    cbn [Region.loadU8 Region.load8 Region.load32].
    apply (fresh_block_reads_zero 18). lia.
  - change GameBoyAdvanceMMU.REGION_WORKING_IRAM with 3. rewrite H3.
    cbn [Region.loadU8 Region.load8 Region.load32].
    apply (fresh_block_reads_zero 15). lia.
Qed.

Lemma clear_zeroes_ram_witness :
  GameBoyAdvanceMMU.loadU8 0x0203ffff (GameBoyAdvanceMMU.clear GameBoyAdvanceMMU.initial) = Normal 0
  /\ GameBoyAdvanceMMU.load8 0x0203ffff (GameBoyAdvanceMMU.clear GameBoyAdvanceMMU.initial) = Normal 0
  /\ GameBoyAdvanceMMU.load32 0x0203ffff (GameBoyAdvanceMMU.clear GameBoyAdvanceMMU.initial) = Normal 0.
Proof.
  apply (clear_zeroes_ram GameBoyAdvanceMMU.initial 0x0203ffff). left. reflexivity.
Defined.

(** ** [loadRom] *)

(** X9: an image too short to have a byte at 0xB2 makes [loadRom] throw a
    RangeError, the empty image included. *)
Theorem loadRom_short_image_throws
    (rom : list byte) (process : bool) (s : GameBoyAdvanceMMU.t) :
  (length rom <= 0xB2)%nat ->
  GameBoyAdvanceMMU.loadRom rom process s = Throw RangeError.
Proof.
  intros Hlen. unfold GameBoyAdvanceMMU.loadRom.
  change (MemoryView.view (Cached.base (ROMView.new rom None)))
    with (DataView.mk rom 0).
  unfold DataView.getUint8, DataView.get, DataView.in_bounds, DataView.byteLength.
  cbn [DataView.buffer DataView.byteOffset].
  replace (0xb2 + Z.of_nat 1 <=? Z.of_nat (length rom) - 0) with false
    by (symmetry; apply Z.leb_gt; lia).
  reflexivity.
Qed.

Lemma loadRom_short_image_throws_witness :
  GameBoyAdvanceMMU.loadRom [] true small_bus = Throw RangeError.
Proof.
  apply (loadRom_short_image_throws [] true small_bus). cbn. lia.
Defined.

(** Byte loads from a ROM view: inside the image they return. *)
Lemma ROMView_loadU8 rom i :
  0 <= i < Z.of_nat (length rom) ->
  exists c, MemoryView.loadU8 (Cached.base (ROMView.new rom None)) i = Normal c.
Proof.
  intros Hi. unfold MemoryView.loadU8.
  change (MemoryView.view (Cached.base (ROMView.new rom None))) with (DataView.mk rom 0).
  change (MemoryView.mask8 (Cached.base (ROMView.new rom None))) with (2 ^ 25 - 1).
  rewrite and_ones by lia.
  assert (Hj : 0 <= JS.ToInt32 i mod 2 ^ 25 <= i).
  { replace (JS.ToInt32 i mod 2 ^ 25) with (i mod 2 ^ 25).
    - split; [apply Z.mod_pos_bound; lia | apply Z.mod_le; lia].
    - rewrite <- (Z.mod_mod_divide (JS.ToInt32 i) (2 ^ 32)) by (exists (2 ^ 7); reflexivity).
      rewrite ToInt32_eqm. symmetry. apply Z.mod_mod_divide. exists (2 ^ 7). reflexivity. }
  set (j := JS.ToInt32 i mod 2 ^ 25) in *.
  destruct (lookup_lt_is_Some_2 rom (Z.to_nat j)) as [b Hb]; [lia|].
  exists (byte_to_Z b). rewrite <- (Z2Nat.id j) by lia.
  now apply getUint8_lookup.
Qed.

Lemma read_name_returns rom n : forall i base name,
  0 <= i + base -> i + base + Z.of_nat n <= Z.of_nat (length rom) ->
  exists r, GameBoyAdvanceMMU.read_name (ROMView.new rom None) n i base name = Normal r.
Proof.
  induction n as [|n IH]; intros i base name H0 Hn; cbn [GameBoyAdvanceMMU.read_name].
  - now exists name.
  - destruct (ROMView_loadU8 rom (i + base)) as [c ->]; [lia|]. cbn [obind].
    destruct (c =? 0); [now exists name|].
    apply IH; lia.
Qed.

Lemma scan_savetype_returns rom n : forall i state,
  0 <= i -> Z.of_nat n <= Z.max 0 (Z.of_nat (length rom) - i) ->
  exists st terminal,
    GameBoyAdvanceMMU.scan_savetype (ROMView.new rom None) n i state = Normal (st, terminal)
    /\ (terminal = true -> GameBoyAdvanceMMU.string_in st GameBoyAdvanceMMU.save_tokens = true).
Proof.
  induction n as [|n IH]; intros i state H0 Hn; cbn [GameBoyAdvanceMMU.scan_savetype].
  - exists state, false. split; [reflexivity | discriminate].
  - destruct (ROMView_loadU8 rom i) as [c ->]; [lia|]. cbn [obind].
    destruct (GameBoyAdvanceMMU.string_in _ GameBoyAdvanceMMU.save_prefixes).
    + apply IH; lia.
    + destruct (GameBoyAdvanceMMU.string_in _ GameBoyAdvanceMMU.save_tokens) eqn:Htok.
      * eexists _, true. split; [reflexivity | intros _; exact Htok].
      * apply IH; lia.
Qed.

Lemma install_save_kept l o s region k size :
  rom_kept l o s -> region = 0xe \/ region = 0xd ->
  rom_kept l o (GameBoyAdvanceMMU.install_save s region k size)
  /\ GameBoyAdvanceMMU.save (GameBoyAdvanceMMU.install_save s region k size)
     = Some (GameBoyAdvanceMMU.next s)
  /\ GameBoyAdvanceMMU.slot (GameBoyAdvanceMMU.install_save s region k size) region
     = Some (GameBoyAdvanceMMU.next s, OSavedata k size).
Proof.
  intros [(H8 & H10 & H12) Hlt] Hr.
  apply slot_inv in H8 as [M8 Hh], H10 as [M10 _], H12 as [M12 _].
  unfold rom_kept, cart_mounted, GameBoyAdvanceMMU.install_save, GameBoyAdvanceMMU.alloc,
    GameBoyAdvanceMMU.mmap, GameBoyAdvanceMMU.with_save, GameBoyAdvanceMMU.with_memory,
    GameBoyAdvanceMMU.slot.
  cbn [GameBoyAdvanceMMU.heap GameBoyAdvanceMMU.next GameBoyAdvanceMMU.memory
       GameBoyAdvanceMMU.save].
  change GameBoyAdvanceMMU.REGION_CART0 with 8 in *.
  change GameBoyAdvanceMMU.REGION_CART1 with 10 in *.
  change GameBoyAdvanceMMU.REGION_CART2 with 12 in *.
  rewrite !(lookup_insert_ne _ region) by (destruct Hr; subst; discriminate).
  rewrite M8, M10, M12, lookup_insert_eq.
  rewrite lookup_insert_ne by lia. rewrite Hh, lookup_insert_eq.
  repeat split; lia.
Qed.

Lemma install_save_backup l o s region k size :
  rom_kept l o s ->
  region = (match k with EEPROMSavedata => 0xd | _ => 0xe end) ->
  rom_kept l o (GameBoyAdvanceMMU.install_save s region k size)
  /\ backup_installed (GameBoyAdvanceMMU.install_save s region k size)
  /\ GameBoyAdvanceMMU.save (GameBoyAdvanceMMU.install_save s region k size)
     = Some (GameBoyAdvanceMMU.next s).
Proof.
  intros Hk Hr.
  destruct (install_save_kept l o s region k size Hk) as (Hk' & Hsave & Hslot).
  { destruct k; auto. }
  repeat split; try assumption; try apply Hk'.
  exists (GameBoyAdvanceMMU.next s), k, size. rewrite <- Hr. now split.
Qed.

Lemma loadRom_accepts rom process s x :
  rom !! 0xB2%nat = Some x -> byte_to_Z x = 0x96 ->
  exists s' c,
    GameBoyAdvanceMMU.loadRom rom process s = Normal (s', Some c)
    /\ GameBoyAdvanceMMU.cart s' = Some c
    /\ cart_memory c = rom
    /\ cart_mounted (GameBoyAdvanceMMU.next s) (OROMView (ROMView.new rom None) true) s'
    /\ (process = true -> GameBoyAdvanceMMU.save s = None -> backup_installed s').
Proof.
  intros Hx H96. pose proof (lookup_lt_Some _ _ _ Hx) as Hlen.
  unfold GameBoyAdvanceMMU.loadRom.
  change (MemoryView.view (Cached.base (ROMView.new rom None)))
    with (DataView.mk rom 0).
  change 0xb2 with (Z.of_nat 0xB2).
  rewrite (getUint8_lookup rom _ x Hx). cbn [obind]. rewrite H96. cbn [Z.eqb Pos.eqb negb].
  set (lo := OROMView (ROMView.new rom None) true).
  set (l := GameBoyAdvanceMMU.next s).
  unfold GameBoyAdvanceMMU.alloc at 1. cbv beta iota. fold l.
  set (s0 := if 0x01000000 <? Z.of_nat (length rom) then _ else _).
  assert (Hkept : rom_kept l lo s0 /\ GameBoyAdvanceMMU.save s0 = GameBoyAdvanceMMU.save s).
  { subst s0. unfold rom_kept, cart_mounted, GameBoyAdvanceMMU.slot.
    change GameBoyAdvanceMMU.REGION_CART0 with 8.
    change GameBoyAdvanceMMU.REGION_CART1 with 10.
    change GameBoyAdvanceMMU.REGION_CART2 with 12.
    destruct (0x01000000 <? Z.of_nat (length rom)); cbn;
      repeat first [rewrite lookup_insert_eq | rewrite lookup_insert_ne by lia];
      repeat split; try reflexivity; lia. }
  destruct Hkept as [Hkept Hsave]. clearbody s0.
  destruct process.
  2:{ eexists _, _. split; [reflexivity|]. repeat split; try apply Hkept.
      discriminate. }
  destruct (read_name_returns rom 12 0 0xa0 EmptyString) as [name ->]; [lia | cbn; lia |].
  destruct (read_name_returns rom 4 0 0xac EmptyString) as [code ->]; [lia | cbn; lia |].
  destruct (read_name_returns rom 2 0 0xb0 EmptyString) as [maker ->]; [lia | cbn; lia |].
  destruct (scan_savetype_returns rom (Z.to_nat (Z.of_nat (length rom) - 0xe4)) 0xe4 EmptyString)
    as (state & terminal & -> & _); [lia | lia |].
  cbn [obind].
  set (s1 := if terminal then _ else s0).
  assert (H1 : rom_kept l lo s1
               /\ (s1 = s0 \/ backup_installed s1
                              /\ exists ls, GameBoyAdvanceMMU.save s1 = Some ls)).
  { subst s1. destruct terminal; [|auto].
    repeat match goal with
           | |- context [if ?b then _ else _] => destruct b
           end; auto;
      match goal with
      | |- context [GameBoyAdvanceMMU.install_save s0 ?r ?k ?sz] =>
          destruct (install_save_backup l lo s0 r k sz Hkept eq_refl) as (? & ? & ?)
      end; eauto. }
  clearbody s1. destruct H1 as [Hk1 [-> | [Hb [ls Hls]]]].
  - destruct (GameBoyAdvanceMMU.save s0) eqn:E.
    + eexists _, _. split; [reflexivity|]. repeat split; try apply Hk1.
      intros _ Hnone. congruence.
    + destruct (install_save_backup l lo s0 0xe SRAMSavedata
                  GameBoyAdvanceMMU.SIZE_CART_SRAM Hkept eq_refl) as (Hk2 & Hb2 & _).
      eexists _, _. split; [reflexivity|]. repeat split; try apply Hk2.
      intros _ _. exact Hb2.
  - rewrite Hls. eexists _, _. split; [reflexivity|]. repeat split; try apply Hk1.
    intros _ _. exact Hb.
Qed.

(** X10: an image with 0x96 at 0xB2 is accepted whatever else it holds:
    [loadRom] returns the cart record, whose [memory] is the image, and one
    and the same ROM view then sits in the three windows 0x8, 0xA and 0xC. *)
Theorem loadRom_mounts_one_view
    (rom : list byte) (process : bool) (s : GameBoyAdvanceMMU.t) (x : byte) :
  rom !! 0xB2%nat = Some x -> byte_to_Z x = 0x96 ->
  exists s' c,
    GameBoyAdvanceMMU.loadRom rom process s = Normal (s', Some c)
    /\ GameBoyAdvanceMMU.cart s' = Some c
    /\ cart_memory c = rom
    /\ cart_mounted (GameBoyAdvanceMMU.next s) (OROMView (ROMView.new rom None) true) s'.
Proof.
  intros Hx H96.
  destruct (loadRom_accepts rom process s x Hx H96) as (s' & c & H & Hc & Hm & Hw & _).
  now exists s', c.
Qed.

Lemma loadRom_mounts_one_view_witness :
  exists s' c,
    GameBoyAdvanceMMU.loadRom good_header_rom true small_bus = Normal (s', Some c)
    /\ GameBoyAdvanceMMU.cart s' = Some c
    /\ cart_memory c = good_header_rom
    /\ cart_mounted (GameBoyAdvanceMMU.next small_bus)
         (OROMView (ROMView.new good_header_rom None) true) s'.
Proof.
  apply (loadRom_mounts_one_view good_header_rom true small_bus x96); reflexivity.
Defined.

(** X11: when [loadRom] processes an accepted image on a bus without save data,
    it returns with a save-data object installed: [save] refers to it and it
    sits in slot 0xD if it is an EEPROM and in slot 0xE otherwise. *)
Theorem loadRom_installs_backup
    (rom : list byte) (s : GameBoyAdvanceMMU.t) (x : byte) :
  rom !! 0xB2%nat = Some x -> byte_to_Z x = 0x96 ->
  GameBoyAdvanceMMU.save s = None ->
  exists s' c,
    GameBoyAdvanceMMU.loadRom rom true s = Normal (s', Some c)
    /\ backup_installed s'.
Proof.
  intros Hx H96 Hsave.
  destruct (loadRom_accepts rom true s x Hx H96) as (s' & c & H & _ & _ & _ & Hb).
  exists s', c. auto.
Qed.

Lemma loadRom_installs_backup_witness :
  exists s' c,
    GameBoyAdvanceMMU.loadRom good_header_rom true small_bus = Normal (s', Some c)
    /\ backup_installed s'.
Proof.
  apply (loadRom_installs_backup good_header_rom small_bus x96); reflexivity.
Defined.


(** ** [adjustTimings]: what it leaves alone, and what it forgets *)

Ltac unfold_adjustTimings :=
  unfold GameBoyAdvanceMMU.adjustTimings;
  rewrite ?prefetch_bit;
  unfold GameBoyAdvanceMMU.REGION_CART0, GameBoyAdvanceMMU.REGION_CART1,
         GameBoyAdvanceMMU.REGION_CART2, GameBoyAdvanceMMU.REGION_CART_SRAM;
  change (8 + 1) with 9; change (10 + 1) with 11; change (12 + 1) with 13;
  cbv zeta.

(** X12: [adjustTimings] writes the slots 8..14 only: every entry of the six
    vectors outside them is what it was; in slot 14 (cartridge SRAM) the four
    non-prefetch vectors all get [ROM_WS[word & 3]]. *)
Theorem adjustTimings_elsewhere (word : Z) (w : waits) (slot : Z) :
  slot < 8 \/ 14 < slot ->
  let w' := GameBoyAdvanceMMU.adjustTimings word w in
  (waitstates w' !! slot = waitstates w !! slot
   /\ waitstates32 w' !! slot = waitstates32 w !! slot
   /\ waitstatesSeq w' !! slot = waitstatesSeq w !! slot
   /\ waitstatesSeq32 w' !! slot = waitstatesSeq32 w !! slot
   /\ waitstatesPrefetch w' !! slot = waitstatesPrefetch w !! slot
   /\ waitstatesPrefetch32 w' !! slot = waitstatesPrefetch32 w !! slot)
  /\ (waitstates w' !! 14 = Some (GameBoyAdvanceMMU.ROM_WS (JS.and word 3))
      /\ waitstates32 w' !! 14 = Some (GameBoyAdvanceMMU.ROM_WS (JS.and word 3))
      /\ waitstatesSeq w' !! 14 = Some (GameBoyAdvanceMMU.ROM_WS (JS.and word 3))
      /\ waitstatesSeq32 w' !! 14 = Some (GameBoyAdvanceMMU.ROM_WS (JS.and word 3))
      /\ waitstatesPrefetch w' !! 14 = waitstatesPrefetch w !! 14
      /\ waitstatesPrefetch32 w' !! 14 = waitstatesPrefetch32 w !! 14).
Proof.
  intros Hslot w'. subst w'. unfold_adjustTimings.
  destruct (Z.testbit word 14);
    cbn [waitstates waitstates32 waitstatesSeq waitstatesSeq32
         waitstatesPrefetch waitstatesPrefetch32];
    (split; [rewrite !lookup_insert_ne by lia; repeat split; reflexivity
            | map_lookups; repeat split; reflexivity]).
Qed.

Lemma adjustTimings_elsewhere_witness :
  let w := GameBoyAdvanceMMU.setWaitStates in
  let w' := GameBoyAdvanceMMU.adjustTimings 0x4317 w in
  (waitstates w' !! 2 = waitstates w !! 2
   /\ waitstates32 w' !! 2 = waitstates32 w !! 2
   /\ waitstatesSeq w' !! 2 = waitstatesSeq w !! 2
   /\ waitstatesSeq32 w' !! 2 = waitstatesSeq32 w !! 2
   /\ waitstatesPrefetch w' !! 2 = waitstatesPrefetch w !! 2
   /\ waitstatesPrefetch32 w' !! 2 = waitstatesPrefetch32 w !! 2)
  /\ (waitstates w' !! 14 = Some (GameBoyAdvanceMMU.ROM_WS (JS.and 0x4317 3))
      /\ waitstates32 w' !! 14 = Some (GameBoyAdvanceMMU.ROM_WS (JS.and 0x4317 3))
      /\ waitstatesSeq w' !! 14 = Some (GameBoyAdvanceMMU.ROM_WS (JS.and 0x4317 3))
      /\ waitstatesSeq32 w' !! 14 = Some (GameBoyAdvanceMMU.ROM_WS (JS.and 0x4317 3))
      /\ waitstatesPrefetch w' !! 14 = waitstatesPrefetch w !! 14
      /\ waitstatesPrefetch32 w' !! 14 = waitstatesPrefetch32 w !! 14).
Proof.
  apply (adjustTimings_elsewhere 0x4317 GameBoyAdvanceMMU.setWaitStates 2). lia.
Defined.

Ltac by_slot i :=
  apply map_eq; intros i; unfold set_windows;
  destruct (decide (i = 8)) as [-> |]; [map_lookups; reflexivity|];
  destruct (decide (i = 9)) as [-> |]; [map_lookups; reflexivity|];
  destruct (decide (i = 10)) as [-> |]; [map_lookups; reflexivity|];
  destruct (decide (i = 11)) as [-> |]; [map_lookups; reflexivity|];
  destruct (decide (i = 12)) as [-> |]; [map_lookups; reflexivity|];
  destruct (decide (i = 13)) as [-> |]; [map_lookups; reflexivity|];
  destruct (decide (i = 14)) as [-> |]; [map_lookups; reflexivity|];
  rewrite !lookup_insert_ne by congruence; reflexivity.

Lemma set_windows_forget a b c a' b' c' m :
  set_windows a b c (set_windows a' b' c' m) = set_windows a b c m.
Proof. by_slot i. Qed.

Lemma set_windows_forget_14 a b c s a' b' c' s' m :
  set_windows a b c (<[14 := s]> (set_windows a' b' c' (<[14 := s']> m)))
  = set_windows a b c (<[14 := s]> m).
Proof. by_slot i. Qed.

(** [adjustTimings] with the values it reads back written out. *)
Lemma adjustTimings_closed word w :
  let sram := GameBoyAdvanceMMU.ROM_WS (JS.and word 0x0003) in
  let n0 := GameBoyAdvanceMMU.ROM_WS (JS.shr (JS.and word 0x000c) 2) in
  let n1 := GameBoyAdvanceMMU.ROM_WS (JS.shr (JS.and word 0x0060) 5) in
  let n2 := GameBoyAdvanceMMU.ROM_WS (JS.shr (JS.and word 0x0300) 8) in
  let q0 := GameBoyAdvanceMMU.ROM_WS_SEQ 0 (JS.shr (JS.and word 0x0010) 4) in
  let q1 := GameBoyAdvanceMMU.ROM_WS_SEQ 1 (JS.shr (JS.and word 0x0080) 7) in
  let q2 := GameBoyAdvanceMMU.ROM_WS_SEQ 2 (JS.shr (JS.and word 0x0400) 10) in
  GameBoyAdvanceMMU.adjustTimings word w
  = mkWaits
      (set_windows n0 n1 n2 (<[14 := sram]> (waitstates w)))
      (set_windows (n0 + 1 + q0) (n1 + 1 + q1) (n2 + 1 + q2) (<[14 := sram]> (waitstates32 w)))
      (set_windows q0 q1 q2 (<[14 := sram]> (waitstatesSeq w)))
      (set_windows (2 * q0 + 1) (2 * q1 + 1) (2 * q2 + 1) (<[14 := sram]> (waitstatesSeq32 w)))
      (if Z.testbit word 14 then set_windows 0 0 0 (waitstatesPrefetch w)
       else set_windows q0 q1 q2 (waitstatesPrefetch w))
      (if Z.testbit word 14 then set_windows 0 0 0 (waitstatesPrefetch32 w)
       else set_windows (2 * q0 + 1) (2 * q1 + 1) (2 * q2 + 1) (waitstatesPrefetch32 w)).
Proof.
  cbv zeta. unfold_adjustTimings. unfold set_windows, rd.
  destruct (Z.testbit word 14); map_lookups; reflexivity.
Qed.

(** X13: the timings a control word sets do not depend on the control words
    written before it: [adjustTimings] after [adjustTimings] gives what the
    second call alone gives. In particular the operation is idempotent. *)
Theorem adjustTimings_forgets (word1 word2 : Z) (w : waits) :
  GameBoyAdvanceMMU.adjustTimings word2 (GameBoyAdvanceMMU.adjustTimings word1 w)
  = GameBoyAdvanceMMU.adjustTimings word2 w.
Proof.
  rewrite !adjustTimings_closed. cbv zeta.
  cbn [waitstates waitstates32 waitstatesSeq waitstatesSeq32
       waitstatesPrefetch waitstatesPrefetch32].
  rewrite !set_windows_forget_14.
  destruct (Z.testbit word1 14), (Z.testbit word2 14);
    now rewrite !set_windows_forget.
Qed.

(** ** Cycle charges *)

Lemma with_cycles_eq s c c' :
  c = c' -> GameBoyAdvanceMMU.with_cycles s c = GameBoyAdvanceMMU.with_cycles s c'.
Proof. now intros ->. Qed.

Lemma with_cycles_twice s c d :
  GameBoyAdvanceMMU.with_cycles (GameBoyAdvanceMMU.with_cycles s c) d
  = GameBoyAdvanceMMU.with_cycles s d.
Proof. reflexivity. Qed.

Lemma with_cycles_same s : GameBoyAdvanceMMU.with_cycles s (GameBoyAdvanceMMU.cycles s) = s.
Proof. now destruct s. Qed.

Lemma waitSeq32_iter address n s :
  Nat.iter n (GameBoyAdvanceMMU.waitSeq32 address) s
  = GameBoyAdvanceMMU.with_cycles s
      (GameBoyAdvanceMMU.cycles s
       + Z.of_nat n
         * (1 + rd (waitstatesSeq32 (GameBoyAdvanceMMU.ws s))
                   (JS.ushr address GameBoyAdvanceMMU.BASE_OFFSET))).
Proof.
  induction n as [|n IH].
  - change (Nat.iter 0 (GameBoyAdvanceMMU.waitSeq32 address) s) with s.
    rewrite <- (with_cycles_same s) at 1. apply with_cycles_eq.
    change (Z.of_nat 0) with 0. ring.
  - rewrite Nat.iter_succ, IH. unfold GameBoyAdvanceMMU.waitSeq32.
    rewrite !with_cycles_twice.
    apply with_cycles_eq.
    cbn [GameBoyAdvanceMMU.with_cycles GameBoyAdvanceMMU.cycles GameBoyAdvanceMMU.ws].
    rewrite Nat2Z.inj_succ. ring.
Qed.

(** X14: a burst of [seq] 32-bit accesses is charged as one non-sequential
    access followed by [seq - 1] sequential ones. *)
Theorem waitMulti32_is_wait32_then_waitSeq32 (address : Z) (n : nat) (s : GameBoyAdvanceMMU.t) :
  GameBoyAdvanceMMU.waitMulti32 address (Z.of_nat (S n)) s
  = Nat.iter n (GameBoyAdvanceMMU.waitSeq32 address) (GameBoyAdvanceMMU.wait32 address s).
Proof.
  rewrite waitSeq32_iter. unfold GameBoyAdvanceMMU.waitMulti32, GameBoyAdvanceMMU.wait32.
  cbv zeta.
  rewrite !with_cycles_twice.
  apply with_cycles_eq.
  cbn [GameBoyAdvanceMMU.with_cycles GameBoyAdvanceMMU.cycles GameBoyAdvanceMMU.ws].
  replace (Z.of_nat (S n) - 1) with (Z.of_nat n) by lia. ring.
Qed.

(** ** Snapshots: [serialize] and [deserialize] *)

Section Snapshots.

Import Serializer.

Lemma value_nested_ind (P : value -> Prop) :
  (forall n, P (VNumber n)) -> (forall s, P (VString s)) -> (forall b, P (VBoolean b)) ->
  (forall bytes, P (VBlob bytes)) -> (forall bytes, P (VBuffer bytes)) ->
  (forall properties, Forall (fun kv => P (snd kv)) properties -> P (VObject properties)) ->
  P VNull -> P VUndefined ->
  forall v, P v.
Proof.
  intros Hn Hs Hb Hbl Hbu Ho Hnu Hu. fix IH 1.
  intros [n|s|b|bs|bs|ps| |];
    [apply Hn | apply Hs | apply Hb | apply Hbl | apply Hbu | | exact Hnu | exact Hu].
  apply Ho. induction ps as [|[k v] ps IHps]; constructor; [apply IH | exact IHps].
Qed.

Lemma length_pack v : length (pack v) = 4%nat.
Proof. apply length_le_split. Qed.

Lemma length_pack8 v : length (pack8 v) = 1%nat.
Proof. apply length_le_split. Qed.

Lemma pack_measured n : pack (measured n) = pack (Some n).
Proof. unfold measured. destruct (Z.eqb_spec n 0) as [-> |]; reflexivity. Qed.

Lemma measured_length (l : list byte) :
  (0 < length l)%nat -> measured (Z.of_nat (length l)) = Some (Z.of_nat (length l)).
Proof. intros H. unfold measured. destruct (Z.eqb_spec (Z.of_nat (length l)) 0); [lia | reflexivity]. Qed.

Lemma body_bytes_nonempty v : storable v = true -> (0 < length (body_bytes v))%nat.
Proof.
  destruct v; cbn [storable body_bytes]; intros H; try discriminate;
    unfold prefix_string; rewrite ?length_app, ?length_pack, ?length_pack8; try lia.
  unfold prefixed in H. apply andb_prop in H as [H _]. apply Nat.leb_le in H. lia.
Qed.

Lemma body_bytes_object properties :
  body_bytes (VObject properties)
  = pack (Some (4 + Z.of_nat (length (records properties)))) ++ records properties.
Proof. reflexivity. Qed.

Lemma records_cons kv properties :
  records (kv :: properties) = record_bytes kv ++ records properties.
Proof. reflexivity. Qed.

Lemma has_key_false object key :
  Forall (fun kv => String.eqb (fst kv) key = false) object -> has_key object key = false.
Proof.
  induction 1 as [|kv ps Hk _ IH]; [reflexivity|].
  cbn [has_key existsb]. rewrite Hk. exact IH.
Qed.

(** What [storable] says of an object: its [type] is not [Serializer.TYPE],
    its keys are distinct, each of them is storable and so is each value. *)
Lemma storable_object properties :
  storable (VObject properties) = true ->
  typed properties = false
  /\ distinct (map fst properties) = true
  /\ Forall (fun kv => storable_key (fst kv) = true /\ storable (snd kv) = true) properties.
Proof.
  cbn [storable]. intros H.
  apply andb_prop in H as [H Hall]. apply andb_prop in H as [Ht Hd].
  apply negb_true_iff in Ht. repeat split; try assumption.
  apply Forall_forall. intros kv Hin.
  rewrite forallb_forall in Hall. specialize (Hall kv).
  rewrite <- list_elem_of_In in Hall. specialize (Hall Hin).
  now apply andb_prop in Hall.
Qed.

Lemma storable_key_spec k :
  storable_key k = true ->
  ascii_only k = true /\ String.eqb k "__proto__" = false
  /\ String.eqb k "hasOwnProperty" = false /\ array_index k = None.
Proof.
  unfold storable_key. intros H.
  apply andb_prop in H as [H Hi]. apply andb_prop in H as [H Hh].
  apply andb_prop in H as [Ha Hp].
  apply negb_true_iff in Hp, Hh.
  destruct (array_index k); [discriminate|]. auto.
Qed.

(** One round on a storable value. *)
Lemma part_of_storable v :
  storable v = true ->
  (is_struct v = true -> serialize_value v = Normal (body_bytes v)) ->
  part_of serialize_value v
  = Normal (tag_of v, body_bytes v, Some (Z.of_nat (length (body_bytes v))), true).
Proof.
  intros Hst Hnested.
  pose proof (body_bytes_nonempty v Hst) as Hlen.
  destruct v as [n|s|b|bs|bs|ps| |]; try discriminate Hst; cbn [part_of tag_of].
  - now rewrite measured_length.
  - now rewrite measured_length.
  - now rewrite measured_length.
  - now rewrite measured_length.
  - rewrite Hnested by reflexivity. cbn [obind]. now rewrite measured_length.
  - destruct (storable_object ps Hst) as (-> & _ & _).
    rewrite Hnested by reflexivity. cbn [obind]. now rewrite measured_length.
Qed.

(** The loop of [serialize] writes the records one after the other and keeps
    their total size. *)
Lemma serialize_properties_records properties :
  Forall (fun kv => storable (snd kv) = true
                    /\ (is_struct (snd kv) = true ->
                        serialize_value (snd kv) = Normal (body_bytes (snd kv))))
         properties ->
  forall size parts,
    serialize_properties serialize_value properties (Some size) parts true
    = Normal (pack (Some (size + Z.of_nat (length (records properties))))
              ++ parts ++ records properties).
Proof.
  induction 1 as [|[k v] ps [Hst Hnested] _ IH]; intros size parts.
  - cbn. now rewrite Z.add_0_r, app_nil_r.
  - cbn [serialize_properties]. cbn [snd] in Hst, Hnested.
    rewrite (part_of_storable v Hst Hnested). cbn [obind andb].
    rewrite IH, records_cons. unfold record_bytes. cbn [fst snd].
    rewrite !length_app, length_pack8.
    f_equal. f_equal; [f_equal; f_equal; lia | now rewrite <- !app_assoc].
Qed.

(** [serialize] returns on every storable tree, with the bytes [body_bytes]
    describes. *)
Lemma serialize_value_bytes v :
  storable v = true -> is_struct v = true ->
  serialize_value v = Normal (body_bytes v).
Proof.
  induction v as [n|s|b|bs|bs|ps IH| |] using value_nested_ind;
    intros Hst Hstruct; try discriminate; [reflexivity|].
  cbn [serialize_value].
  destruct (storable_object ps Hst) as (_ & _ & Hall).
  rewrite has_key_false.
  2:{ eapply Forall_impl; [exact Hall|]. intros kv [Hk _].
      now apply storable_key_spec in Hk. }
  rewrite serialize_properties_records.
  - rewrite body_bytes_object. cbn [app]. reflexivity.
  - rewrite Forall_forall in *. intros kv Hin.
    destruct (Hall kv Hin) as (_ & Hs). split; [exact Hs|].
    intros Hk. now apply IH.
Qed.

(** *** Reading what has been written *)

Lemma get_at buf i bs tail le :
  0 <= i -> (0 < length bs)%nat ->
  drop (Z.to_nat i) buf = bs ++ tail ->
  DataView.get (DataView.mk buf 0) i (length bs) le
  = Normal (le_combine (DataView.endian le bs)).
Proof.
  intros Hi Hbs Hdrop.
  assert (Hlen : (Z.to_nat i + length bs <= length buf)%nat).
  { pose proof (f_equal length Hdrop) as H. rewrite length_drop, length_app in H. lia. }
  unfold DataView.get, DataView.in_bounds, DataView.byteLength, DataView.read.
  cbn [DataView.buffer DataView.byteOffset].
  replace ((0 <=? i) && (i + Z.of_nat (length bs) <=? Z.of_nat (length buf) - 0)) with true
    by (symmetry; apply andb_true_intro; split; apply Z.leb_le; lia).
  rewrite Z.add_0_l, Hdrop, take_app_length. reflexivity.
Qed.

Lemma drop_after (buf : list byte) i bs tail :
  0 <= i ->
  drop (Z.to_nat i) buf = bs ++ tail ->
  drop (Z.to_nat (i + Z.of_nat (length bs))) buf = tail.
Proof.
  intros Hi Hdrop.
  replace (Z.to_nat (i + Z.of_nat (length bs))) with (Z.to_nat i + length bs)%nat by lia.
  rewrite <- drop_drop, Hdrop. apply drop_app_length.
Qed.

Lemma getUint32_pack buf i x tail :
  0 <= i ->
  drop (Z.to_nat i) buf = pack (Some x) ++ tail ->
  DataView.get (DataView.mk buf 0) i 4 true = Normal (JS.ToUint32 x).
Proof.
  intros Hi Hdrop.
  rewrite <- (length_pack (Some x)).
  rewrite (get_at buf i _ tail true Hi) by (rewrite ?length_pack; auto; lia).
  cbn [DataView.endian]. unfold pack. cbn [default].
  now rewrite le_combine_split.
Qed.

Lemma getUint8_pack8 buf i x tail :
  0 <= i -> 0 <= x < 256 ->
  drop (Z.to_nat i) buf = pack8 x ++ tail ->
  DataView.getUint8 (DataView.mk buf 0) i = Normal x.
Proof.
  intros Hi Hx Hdrop. unfold DataView.getUint8.
  rewrite <- (length_pack8 x).
  rewrite (get_at buf i _ tail true Hi) by (rewrite ?length_pack8; auto; lia).
  cbn [DataView.endian]. unfold pack8.
  rewrite le_combine_split. change (256 ^ Z.of_nat 1) with 256.
  now rewrite Z.mod_small.
Qed.

Lemma utf8_ascii s : ascii_only s = true -> length (utf8 s) = String.length s.
Proof.
  induction s as [|c s IH]; [reflexivity|]. intros H.
  unfold ascii_only in H. cbn [list_ascii_of_string forallb] in H.
  apply andb_prop in H as [Hc Hs].
  change (utf8 (String c s)) with (utf8_char c ++ utf8 s).
  rewrite length_app. unfold utf8_char. rewrite Hc. cbn [length String.length].
  now rewrite IH.
Qed.

Lemma append_char acc c s : (acc +:+ String c EmptyString) +:+ s = acc +:+ String c s.
Proof.
  induction acc as [|a acc IH]; [reflexivity|].
  change (String a ((acc +:+ String c EmptyString) +:+ s) = String a (acc +:+ String c s)).
  now rewrite IH.
Qed.

Lemma append_empty acc : acc +:+ EmptyString = acc.
Proof.
  induction acc as [|a acc IH]; [reflexivity|].
  change (String a (acc +:+ EmptyString) = String a acc). now rewrite IH.
Qed.

Lemma read_chars_utf8 buf s : forall n i p acc tail,
  ascii_only s = true ->
  (String.length s < n)%nat ->
  0 <= Pointer.index p ->
  drop (Z.to_nat (Pointer.index p)) buf = utf8 s ++ tail ->
  Pointer.read_chars (DataView.mk buf 0) n i (i + Z.of_nat (String.length s)) p acc
  = Normal (acc +:+ s,
            Pointer.mk (Pointer.index p + Z.of_nat (String.length s))
                       (Pointer.top p) (Pointer.stack p)).
Proof.
  induction s as [|c s IH]; intros n i p acc tail Hascii Hn Hp Hdrop.
  - destruct n as [|n]; [cbn in Hn; lia|]. cbn [Pointer.read_chars String.length].
    rewrite Z.add_0_r, Z.ltb_irrefl, append_empty. destruct p. cbn.
    now rewrite Z.add_0_r.
  - destruct n as [|n]; [cbn in Hn; lia|]. cbn [Pointer.read_chars String.length].
    replace (i <? i + Z.of_nat (S (String.length s))) with true
      by (symmetry; apply Z.ltb_lt; lia).
    unfold Pointer.advance.
    unfold ascii_only in Hascii. cbn [list_ascii_of_string forallb] in Hascii.
    apply andb_prop in Hascii as [Hc Hs]. apply Z.ltb_lt in Hc.
    assert (Hu : utf8 (String c s) = pack8 (Z.of_N (N_of_ascii c)) ++ utf8 s).
    { unfold utf8. cbn [list_ascii_of_string flat_map]. unfold utf8_char.
      replace (Z.of_N (N_of_ascii c) <? 0x80) with true by (symmetry; apply Z.ltb_lt; lia).
      reflexivity. }
    rewrite Hu, <- app_assoc in Hdrop.
    rewrite (getUint8_pack8 buf _ (Z.of_N (N_of_ascii c)) _ Hp) by (try lia; exact Hdrop).
    cbn [obind]. rewrite N2Z.id, ascii_N_embedding.
    replace (i + Z.of_nat (S (String.length s))) with (i + 1 + Z.of_nat (String.length s)) by lia.
    apply (drop_after buf _ (pack8 (Z.of_N (N_of_ascii c)))) in Hdrop; [|lia].
    rewrite length_pack8 in Hdrop. cbn [String.length] in Hn.
    rewrite (IH n (i + 1) (Pointer.mk (Pointer.index p + 1) (Pointer.top p) (Pointer.stack p))
               _ tail Hs); cbn [Pointer.index Pointer.top Pointer.stack];
      [|lia|lia|exact Hdrop].
    rewrite append_char. do 2 f_equal. f_equal. lia.
Qed.

Lemma length_prefix_string s :
  ascii_only s = true -> length (prefix_string s) = (4 + String.length s)%nat.
Proof. intros H. unfold prefix_string. now rewrite length_app, length_pack, utf8_ascii. Qed.

Lemma readString_prefix buf s p tail :
  ascii_only s = true ->
  Z.of_nat (String.length s) < 2 ^ 32 ->
  0 <= Pointer.index p ->
  drop (Z.to_nat (Pointer.index p)) buf = prefix_string s ++ tail ->
  Pointer.readString (DataView.mk buf 0) p
  = Normal (s, Pointer.mk (Pointer.index p + Z.of_nat (length (prefix_string s)))
                          (Pointer.top p) (Pointer.stack p)).
Proof.
  intros Hascii Hlen Hp Hdrop.
  assert (Hbuf : (Z.to_nat (Pointer.index p) + (4 + String.length s) <= length buf)%nat).
  { pose proof (f_equal length Hdrop) as H.
    rewrite length_drop, length_app, length_prefix_string in H by assumption. lia. }
  unfold prefix_string in Hdrop. rewrite pack_measured, <- app_assoc in Hdrop.
  unfold Pointer.readString, Pointer.advance.
  rewrite (getUint32_pack buf _ _ _ Hp Hdrop). cbn [obind].
  unfold JS.ToUint32. rewrite Z.mod_small by lia.
  apply (drop_after buf _ (pack _)) in Hdrop; [|exact Hp]. rewrite length_pack in Hdrop.
  change (Z.of_nat (String.length s)) with (0 + Z.of_nat (String.length s)) at 1.
  rewrite (read_chars_utf8 buf s _ 0 _ EmptyString tail Hascii);
    unfold DataView.byteLength;
    cbn [Pointer.index Pointer.top Pointer.stack DataView.buffer DataView.byteOffset];
    [|lia|lia|exact Hdrop].
  rewrite length_prefix_string by assumption.
  change (EmptyString +:+ s) with s. do 2 f_equal. f_equal. lia.
Qed.

Lemma tag_of_range v : 0 <= tag_of v < 256.
Proof.
  destruct v; unfold tag_of, TAG_INT, TAG_STRING, TAG_STRUCT, TAG_BLOB, TAG_BOOLEAN; lia.
Qed.

Lemma pop_push index top stack :
  Pointer.pop (Pointer.mk index (Some 0) (stack ++ [top])) = Pointer.mk index top stack.
Proof. unfold Pointer.pop. cbn. now rewrite last_snoc, removelast_last. Qed.

(** What the loop of [deserializeStream] makes of the records of storable
    properties, when the nested streams are read as [nested_ok] says. *)
Section Records.

Variables (fuel' : nat) (buf : list byte).

Lemma records_loop properties :
  Forall (fun kv => storable_key (fst kv) = true
                    /\ storable (snd kv) = true /\ nested_ok fuel' buf (snd kv)) properties ->
  distinct (map fst properties) = true ->
  Z.of_nat (length (records properties)) < 2 ^ 32 ->
  forall n object p t tail,
    Forall (fun kv => has_key object (fst kv) = false) properties ->
    (length properties < n)%nat ->
    Pointer.top p = Some t ->
    0 <= Pointer.index p ->
    drop (Z.to_nat (Pointer.index p)) buf = records properties ++ tail ->
    deserialize_records (deserializeStream fuel') n (DataView.mk buf 0)
      (Pointer.index p - t + Z.of_nat (length (records properties))) object p
    = Normal (object ++ thaw_properties properties,
              Pointer.mk (Pointer.index p + Z.of_nat (length (records properties)))
                         (Pointer.top p) (Pointer.stack p)).
Proof.
  induction 1 as [|[k v] ps (Hkey & Hst & Hnested) _ IH];
    intros Hdist Hsize n object p t tail Hfresh Hn Htop Hp Hdrop.
  - destruct n as [|n]; [cbn in Hn; lia|]. cbn [deserialize_records].
    unfold Pointer.mark. rewrite Htop. cbn [lt records flat_map length].
    rewrite Z.add_0_r, Z.ltb_irrefl, app_nil_r.
    destruct p as [i tp st]. cbn in Htop |- *. subst tp.
    change (Z.of_nat 0) with 0. now rewrite Z.add_0_r.
  - destruct n as [|n]; [cbn in Hn; lia|]. cbn [fst snd length] in *.
    destruct (storable_key_spec k Hkey) as (Hk & Hproto & _ & Hindex).
    cbn [map distinct fst] in Hdist. apply andb_prop in Hdist as [Hnew Hdist].
    apply negb_true_iff in Hnew.
    apply Forall_cons in Hfresh as [Hfresh_k Hfresh]. cbn [fst] in Hfresh_k.
    rewrite records_cons in *. unfold record_bytes in Hdrop, Hsize. cbn [fst snd] in Hdrop, Hsize.
    rewrite !length_app, length_pack8, length_prefix_string in Hsize by assumption.
    pose proof (body_bytes_nonempty v Hst) as Hbody.
    cbn [deserialize_records].
    unfold Pointer.mark at 1. rewrite Htop. cbn [lt].
    replace (Pointer.index p - t <? _) with true
      by (symmetry; apply Z.ltb_lt; rewrite length_app; unfold record_bytes;
          rewrite !length_app, length_pack8; lia).
    unfold Pointer.advance at 1.
    rewrite <- !app_assoc in Hdrop.
    rewrite (getUint8_pack8 buf _ _ _ Hp (tag_of_range v) Hdrop). cbn [obind].
    apply (drop_after buf _ (pack8 _)) in Hdrop; [|exact Hp]. rewrite length_pack8 in Hdrop.
    change (Z.of_nat 1) with 1 in Hdrop.
    rewrite (readString_prefix buf k _ _ Hk) by (cbn [Pointer.index]; try lia; exact Hdrop).
    cbn [obind Pointer.index Pointer.top Pointer.stack].
    apply (drop_after buf _ (prefix_string k)) in Hdrop; [|lia].
    set (i2 := Pointer.index p + 1 + Z.of_nat (length (prefix_string k))) in *.
    assert (Hi2 : 0 <= i2) by (subst i2; lia).
    set (p2 := Pointer.mk i2 (Pointer.top p) (Pointer.stack p)).
    (* the body *)
    assert (Hb : (if tag_of v =? TAG_INT then
                    let '(at_, pointer) := Pointer.advance p2 4 in
                    let! n := DataView.get (DataView.mk buf 0) at_ 4 true in
                    Normal (VNumber n, pointer)
                  else if tag_of v =? TAG_STRING then
                    let! s := Pointer.readString (DataView.mk buf 0) p2 in
                    Normal (VString (fst s), snd s)
                  else if tag_of v =? TAG_STRUCT then
                    let! o := deserializeStream fuel' (DataView.mk buf 0) p2 in
                    Normal (VObject (fst o), snd o)
                  else if tag_of v =? TAG_BLOB then
                    let '(at_, pointer) := Pointer.advance p2 4 in
                    let! size := DataView.get (DataView.mk buf 0) at_ 4 true in
                    let '(first, pointer) := Pointer.advance pointer size in
                    let '(final, pointer) := Pointer.advance pointer 0 in
                    Normal (VBuffer (slice (DataView.buffer (DataView.mk buf 0)) first final),
                            pointer)
                  else if tag_of v =? TAG_BOOLEAN then
                    let '(at_, pointer) := Pointer.advance p2 1 in
                    let! x := DataView.getUint8 (DataView.mk buf 0) at_ in
                    Normal (VBoolean (JS.truthy x), pointer)
                  else Normal (VUndefined, p2))
                 = Normal (thaw v,
                           Pointer.mk (i2 + Z.of_nat (length (body_bytes v)))
                                      (Pointer.top p) (Pointer.stack p))).
    { destruct v as [x|s|b|bs|bs|qs| |]; try discriminate Hst;
        cbn [tag_of body_bytes thaw storable] in *.
      - (* number *)
        cbn [Z.eqb Pos.eqb TAG_INT]. unfold Pointer.advance. cbn [Pointer.index p2].
        rewrite (getUint32_pack buf _ _ _ Hi2 Hdrop). cbn [obind].
        now rewrite length_pack.
      - (* string *)
        cbn [Z.eqb Pos.eqb TAG_INT TAG_STRING].
        rewrite (readString_prefix buf s p2 (records ps ++ tail) Hst);
          [reflexivity | rewrite length_prefix_string in Hsize by assumption; lia
          | exact Hi2 | exact Hdrop].
      - (* boolean *)
        cbn [Z.eqb Pos.eqb TAG_INT TAG_STRING TAG_STRUCT TAG_BLOB TAG_BOOLEAN].
        unfold Pointer.advance. cbn [Pointer.index p2].
        rewrite (getUint8_pack8 buf _ (if b then 1 else 0) _ Hi2)
          by (try exact Hdrop; destruct b; lia).
        cbn [obind]. rewrite length_pack8. now destruct b.
      - (* blob *)
        cbn [Z.eqb Pos.eqb TAG_INT TAG_STRING TAG_STRUCT TAG_BLOB].
        unfold prefixed in Hst. apply andb_prop in Hst as [H4 Hlen].
        apply Nat.leb_le in H4. apply Z.eqb_eq in Hlen.
        unfold Pointer.advance. cbn [Pointer.index p2 Pointer.top Pointer.stack].
        rewrite <- (take_drop 4 bs), <- app_assoc in Hdrop.
        assert (Ht4 : length (take 4 bs) = 4%nat) by (rewrite length_take; lia).
        pose proof (get_at buf i2 (take 4 bs) _ true Hi2 ltac:(lia) Hdrop) as Hget.
        rewrite Ht4 in Hget. rewrite Hget. cbn [obind DataView.endian]. rewrite Hlen.
        assert (Hbuf : (Z.to_nat i2 + length bs <= length buf)%nat).
        { pose proof (f_equal length Hdrop) as H.
          rewrite length_drop, !length_app, Ht4, length_drop in H. lia. }
        apply (drop_after buf _ (take 4 bs)) in Hdrop; [|exact Hi2]. rewrite Ht4 in Hdrop.
        cbn [DataView.buffer].
        f_equal. f_equal.
        + f_equal. unfold slice.
          replace (i2 + 4 <? 0) with false by (symmetry; apply Z.ltb_ge; lia).
          replace (i2 + 4 + (Z.of_nat (length bs) - 4) <? 0) with false
            by (symmetry; apply Z.ltb_ge; lia).
          rewrite !Z.min_l by lia.
          replace (Z.to_nat (i2 + 4 + (Z.of_nat (length bs) - 4) - (i2 + 4)))
            with (length (drop 4 bs)) by (rewrite length_drop; lia).
          change (Z.of_nat 4) with 4 in Hdrop.
          rewrite Hdrop. apply take_app_length.
        + f_equal. lia.
      - (* buffer *)
        cbn [Z.eqb Pos.eqb TAG_INT TAG_STRING TAG_STRUCT].
        rewrite (Hnested eq_refl p2 _ Hi2 Hdrop). reflexivity.
      - (* object *)
        cbn [Z.eqb Pos.eqb TAG_INT TAG_STRING TAG_STRUCT].
        rewrite (Hnested eq_refl p2 _ Hi2 Hdrop). reflexivity. }
    fold p2. rewrite Hb. cbn [obind].
    unfold assign. rewrite Hproto, Hfresh_k, Hindex. cbn [obind].
    apply (drop_after buf _ (body_bytes v)) in Hdrop; [|exact Hi2].
    set (p3 := Pointer.mk (i2 + Z.of_nat (length (body_bytes v)))
                          (Pointer.top p) (Pointer.stack p)).
    replace (Pointer.index p - t + Z.of_nat (length (record_bytes (k, v) ++ records ps)))
      with (Pointer.index p3 - t + Z.of_nat (length (records ps))).
    2:{ subst p3 i2. cbn [Pointer.index]. unfold record_bytes. cbn [fst snd].
        rewrite !length_app, length_pack8. lia. }
    rewrite (IH Hdist ltac:(lia) n _ p3 t tail);
      cbn [Pointer.index Pointer.top Pointer.stack p3];
      [| |lia|exact Htop|lia|exact Hdrop].
    2:{ rewrite Forall_forall in *. intros kv Hin.
        unfold has_key. rewrite existsb_app. cbn [existsb fst orb].
        fold (has_key object (fst kv)). rewrite (Hfresh kv Hin). cbn [orb].
        rewrite orb_false_r.
        destruct (String.eqb_spec k (fst kv)) as [E|]; [|reflexivity].
        assert (Hdup : existsb (String.eqb k) (map fst ps) = true); [|congruence].
        apply existsb_exists. exists (fst kv). split; [|subst k; apply String.eqb_refl].
        apply in_map. now apply list_elem_of_In. }
    rewrite ?Htop. f_equal. f_equal.
    + now rewrite <- app_assoc.
    + f_equal. subst i2. unfold record_bytes. cbn [fst snd].
      rewrite !length_app, length_pack8. lia.
Qed.

End Records.

Lemma record_in_records kv properties :
  kv ∈ properties ->
  (length (body_bytes (snd kv)) < length (records properties))%nat.
Proof.
  induction 1 as [kv ps | kv kv' ps _ IH]; rewrite records_cons, length_app.
  - unfold record_bytes. rewrite !length_app, length_pack8. lia.
  - lia.
Qed.

Lemma length_records properties : (length properties <= length (records properties))%nat.
Proof.
  induction properties as [|kv ps IH]; [cbn; lia|].
  rewrite records_cons, length_app. unfold record_bytes.
  rewrite !length_app, length_pack8. cbn [length]. lia.
Qed.

(** A stream is read back as the object it was written from, whatever
    follows it in the buffer, once the streams nested in it are. *)
Lemma struct_read fuel buf properties p tail :
  Forall (fun kv => storable_key (fst kv) = true
                    /\ storable (snd kv) = true /\ nested_ok (Nat.pred fuel) buf (snd kv))
         properties ->
  distinct (map fst properties) = true ->
  4 + Z.of_nat (length (records properties)) < 2 ^ 32 ->
  (4 + length (records properties) < fuel)%nat ->
  0 <= Pointer.index p ->
  drop (Z.to_nat (Pointer.index p)) buf
  = (pack (Some (4 + Z.of_nat (length (records properties)))) ++ records properties) ++ tail ->
  deserializeStream fuel (DataView.mk buf 0) p
  = Normal (thaw_properties properties,
            Pointer.mk (Pointer.index p + (4 + Z.of_nat (length (records properties))))
                       (Pointer.top p) (Pointer.stack p)).
Proof.
  intros Hps Hdist Hsize Hfuel Hp Hdrop.
  destruct fuel as [|fuel']; [lia|]. cbn [Nat.pred] in Hps.
  cbn [deserializeStream]. unfold Pointer.push, Pointer.advance.
  cbn [Pointer.index Pointer.top Pointer.stack].
  rewrite <- app_assoc in Hdrop.
  rewrite (getUint32_pack buf _ _ _ Hp Hdrop). cbn [obind].
  unfold JS.ToUint32. rewrite Z.mod_small by lia.
  apply (drop_after buf _ (pack _)) in Hdrop; [|exact Hp]. rewrite length_pack in Hdrop.
  change (Z.of_nat 4) with 4 in Hdrop.
  set (p1 := Pointer.mk (Pointer.index p + 4) (Some (Pointer.index p))
                        (Pointer.stack p ++ [Pointer.top p])).
  replace (4 + Z.of_nat (length (records properties)))
    with (Pointer.index p1 - Pointer.index p + Z.of_nat (length (records properties))) at 1
    by (cbn [Pointer.index p1]; lia).
  pose proof (length_records properties) as Hn.
  rewrite (records_loop fuel' buf properties Hps Hdist ltac:(lia) fuel' [] p1
             (Pointer.index p) tail);
    cbn [Pointer.index Pointer.top Pointer.stack p1];
    [|now apply Forall_forall|lia|reflexivity|lia|exact Hdrop].
  cbn [obind app]. unfold Pointer.mark. cbn [Pointer.index Pointer.top gt].
  replace (_ <? _) with false by (symmetry; apply Z.ltb_ge; lia).
  unfold Pointer.pop. cbn [Pointer.index Pointer.stack].
  rewrite last_snoc, removelast_last. cbn [default].
  do 2 f_equal. f_equal. lia.
Qed.

Lemma deserializeStream_body v :
  storable v = true ->
  forall fuel buf,
    (length (body_bytes v) < fuel)%nat ->
    Z.of_nat (length (body_bytes v)) < 2 ^ 32 ->
    nested_ok fuel buf v.
Proof.
  induction v as [n|s|b|bs|bs|ps IH| |] using value_nested_ind;
    intros Hst fuel buf Hfuel Hsize Hstruct p tail Hp Hdrop; try discriminate.
  - (* a buffer: no property *)
    rewrite (struct_read fuel buf [] p tail (Forall_nil_2 _) eq_refl); try assumption.
    reflexivity.
  - (* an object *)
    rewrite body_bytes_object, length_app, length_pack in Hfuel, Hsize.
    rewrite body_bytes_object in Hdrop.
    destruct (storable_object ps Hst) as (_ & Hdist & Hall).
    rewrite (struct_read fuel buf ps p tail); try assumption; try lia.
    { rewrite body_bytes_object, length_app, length_pack. cbn [thaw properties_of].
      do 2 f_equal. f_equal. lia. }
    rewrite Forall_forall in *.
    intros kv Hin. destruct (Hall kv Hin) as (Hk & Hs).
    repeat split; try assumption.
    pose proof (record_in_records kv ps Hin).
    apply IH; try assumption; lia.
Qed.

(** X15: [serialize] returns on every storable tree (objects with distinct
    ASCII keys, none of them an array index, [__proto__] or [hasOwnProperty],
    and no [type] that marks them as blobs; ASCII strings; blobs made by
    [prefix]), and [deserialize] gives the tree back from the blob: the same
    keys in the same order, numbers modulo 2^32, strings and booleans as they
    were, the payload of each blob as a buffer, a buffer as an empty object,
    nested objects likewise. *)
Theorem serialize_deserialize_round_trip (stream : list (string * value)) :
  storable (VObject stream) = true ->
  exists blob,
    serialize stream = Normal blob
    /\ (Z.of_nat (length blob) < 2 ^ 32 ->
        deserialize blob = Normal (thaw_properties stream)).
Proof.
  intros Hst. exists (body_bytes (VObject stream)). split.
  - now apply serialize_value_bytes.
  - intros Hsize. unfold deserialize.
    rewrite (deserializeStream_body (VObject stream) Hst
               (S (length (body_bytes (VObject stream)))) (body_bytes (VObject stream))
               (Nat.lt_succ_diag_r _) Hsize eq_refl Pointer.new []).
    + reflexivity.
    + cbn. lia.
    + cbn [Pointer.new Pointer.index Z.to_nat drop]. now rewrite app_nil_r.
Qed.

Lemma serialize_deserialize_round_trip_witness :
  exists blob,
    serialize sample_snapshot = Normal blob
    /\ (Z.of_nat (length blob) < 2 ^ 32 ->
        deserialize blob = Normal (thaw_properties sample_snapshot)).
Proof.
  apply (serialize_deserialize_round_trip sample_snapshot). reflexivity.
Defined.

(** X16: the blob [serialize] returns for a storable tree begins with its own
    length, four bytes little-endian, the four bytes included. *)
Theorem serialize_size_header (stream : list (string * value)) (blob : list byte) :
  storable (VObject stream) = true ->
  serialize stream = Normal blob ->
  Z.of_nat (length blob) < 2 ^ 32 ->
  le_combine (take 4 blob) = Z.of_nat (length blob).
Proof.
  intros Hst Hser Hsize. unfold serialize in Hser.
  rewrite serialize_value_bytes in Hser by (try assumption; reflexivity).
  assert (Hblob : blob = body_bytes (VObject stream)) by congruence.
  subst blob. clear Hser. rewrite body_bytes_object in Hsize |- *.
  rewrite (take_app_length' (pack (Some (4 + Z.of_nat (length (records stream))))))
    by (symmetry; apply length_le_split).
  unfold pack in *. cbn [default]. rewrite le_combine_split.
  rewrite length_app, length_le_split in Hsize |- *.
  change (256 ^ Z.of_nat 4) with (2 ^ 32). unfold id.
  rewrite Z.mod_small; lia.
Qed.

Lemma serialize_size_header_witness :
  le_combine (take 4 (returned (serialize sample_snapshot) []))
  = Z.of_nat (length (returned (serialize sample_snapshot) [])).
Proof.
  apply (serialize_size_header sample_snapshot); reflexivity.
Defined.

(** *** The working RAM through [freeze], [serialize], [deserialize] and
    [defrost] *)

Lemma prefixed_prefix bytes :
  Z.of_nat (length bytes) < 2 ^ 32 -> prefixed (prefix bytes) = true.
Proof.
  intros Hlen. unfold prefixed, prefix.
  rewrite pack_measured, length_app, length_pack.
  apply andb_true_intro. split; [apply Nat.leb_le; lia|].
  rewrite (take_app_length' (pack (Some (Z.of_nat (length bytes)))))
    by (symmetry; apply length_le_split).
  unfold pack. cbn [default]. unfold id. rewrite le_combine_split.
  change (256 ^ Z.of_nat 4) with (2 ^ 32). rewrite Z.mod_small by lia.
  apply Z.eqb_eq. lia.
Qed.

Lemma drop_prefix bytes : drop 4 (prefix bytes) = bytes.
Proof.
  unfold prefix.
  now rewrite (drop_app_length' (pack (measured (Z.of_nat (length bytes)))))
    by (symmetry; apply length_le_split).
Qed.

Lemma round_trip stream :
  storable (VObject stream) = true ->
  Z.of_nat (length (body_bytes (VObject stream))) < 2 ^ 32 ->
  serialize stream = Normal (body_bytes (VObject stream))
  /\ deserialize (body_bytes (VObject stream)) = Normal (thaw_properties stream).
Proof.
  intros Hst Hsize. split.
  - now apply serialize_value_bytes.
  - unfold deserialize.
    rewrite (deserializeStream_body (VObject stream) Hst
               (S (length (body_bytes (VObject stream)))) (body_bytes (VObject stream))
               (Nat.lt_succ_diag_r _) Hsize eq_refl Pointer.new []).
    + reflexivity.
    + cbn. lia.
    + cbn [Pointer.new Pointer.index Z.to_nat drop]. now rewrite app_nil_r.
Qed.

(** X17: a snapshot restores the working RAM. From a bus whose slots 2 and 3
    hold RAM blocks, [freeze], [serialize], [deserialize] and then [defrost]
    into any bus with two distinct RAM blocks in those slots all return, and
    the blocks of the second bus then have the buffers of the first. *)
Theorem snapshot_restores_ram
    (s t : GameBoyAdvanceMMU.t) (l2 l3 m2 m3 : positive) (c2 c3 d2 d3 : Cached.t) :
  GameBoyAdvanceMMU.slot s 2 = Some (l2, OMemoryBlock c2) ->
  GameBoyAdvanceMMU.slot s 3 = Some (l3, OMemoryBlock c3) ->
  GameBoyAdvanceMMU.slot t 2 = Some (m2, OMemoryBlock d2) ->
  GameBoyAdvanceMMU.slot t 3 = Some (m3, OMemoryBlock d3) ->
  m2 <> m3 ->
  MemoryView.byteLength (Cached.base c2) + MemoryView.byteLength (Cached.base c3) + 29 < 2 ^ 32 ->
  exists frost blob tree t' e2 e3,
    GameBoyAdvanceMMU.freeze s = Normal frost
    /\ serialize frost = Normal blob
    /\ deserialize blob = Normal tree
    /\ GameBoyAdvanceMMU.defrost tree t = Normal t'
    /\ GameBoyAdvanceMMU.slot t' 2 = Some (m2, OMemoryBlock e2)
    /\ GameBoyAdvanceMMU.slot t' 3 = Some (m3, OMemoryBlock e3)
    /\ MemoryView.buffer (Cached.base e2) = MemoryView.buffer (Cached.base c2)
    /\ MemoryView.buffer (Cached.base e3) = MemoryView.buffer (Cached.base c3).
Proof.
  intros Hs2 Hs3 Ht2 Ht3 Hne Hsize.
  unfold MemoryView.byteLength in Hsize.
  set (b2 := MemoryView.buffer (Cached.base c2)) in *.
  set (b3 := MemoryView.buffer (Cached.base c3)) in *.
  set (frost := [("ram", VBlob (prefix b2)); ("iram", VBlob (prefix b3))]).
  assert (Hfreeze : GameBoyAdvanceMMU.freeze s = Normal frost).
  { unfold GameBoyAdvanceMMU.freeze, GameBoyAdvanceMMU.frozen_buffer.
    change GameBoyAdvanceMMU.REGION_WORKING_RAM with 2.
    change GameBoyAdvanceMMU.REGION_WORKING_IRAM with 3.
    rewrite Hs2, Hs3. reflexivity. }
  assert (Hst : storable (VObject frost) = true).
  { cbn [storable frost forallb fst snd].
    rewrite !prefixed_prefix by lia. reflexivity. }
  assert (Hlen : Z.of_nat (length (body_bytes (VObject frost))) < 2 ^ 32).
  { rewrite body_bytes_object. unfold frost, records, record_bytes.
    cbn [flat_map fst snd body_bytes tag_of].
    unfold prefix_string, prefix.
    rewrite !length_app, !length_pack, !length_pack8.
    change (length (utf8 "ram")) with 3%nat. change (length (utf8 "iram")) with 4%nat.
    cbn [length]. lia. }
  destruct (round_trip frost Hst Hlen) as [Hser Hdes].
  set (e2 := Cached.mk (MemoryView.replaceData (Cached.base d2) b2 None)
                       (Cached.ICACHE_PAGE_BITS d2) (Cached.PAGE_MASK d2) ∅).
  set (e3 := Cached.mk (MemoryView.replaceData (Cached.base d3) b3 None)
                       (Cached.ICACHE_PAGE_BITS d3) (Cached.PAGE_MASK d3) ∅).
  apply slot_inv in Ht2 as [Hm2 Hh2]. apply slot_inv in Ht3 as [Hm3 Hh3].
  exists frost, (body_bytes (VObject frost)), (thaw_properties frost),
    (GameBoyAdvanceMMU.set_object
       (GameBoyAdvanceMMU.set_object t m2 (OMemoryBlock e2)) m3 (OMemoryBlock e3)),
    e2, e3.
  repeat split; try assumption; try reflexivity.
  - unfold GameBoyAdvanceMMU.defrost, GameBoyAdvanceMMU.replace_slot.
    change GameBoyAdvanceMMU.REGION_WORKING_RAM with 2.
    change GameBoyAdvanceMMU.REGION_WORKING_IRAM with 3.
    change (property (thaw_properties frost) "ram") with (Some (VBuffer (drop 4 (prefix b2)))).
    change (property (thaw_properties frost) "iram") with (Some (VBuffer (drop 4 (prefix b3)))).
    rewrite !drop_prefix.
    unfold GameBoyAdvanceMMU.slot at 1. rewrite Hm2, Hh2.
    cbn [Region.replaceData omap obind]. fold e2.
    unfold GameBoyAdvanceMMU.slot, GameBoyAdvanceMMU.set_object at 1 2.
    cbn [GameBoyAdvanceMMU.memory GameBoyAdvanceMMU.heap GameBoyAdvanceMMU.with_heap].
    rewrite Hm3, lookup_insert_ne, Hh3 by congruence.
    cbn [Region.replaceData omap obind]. reflexivity.
  - unfold GameBoyAdvanceMMU.slot, GameBoyAdvanceMMU.set_object.
    cbn [GameBoyAdvanceMMU.memory GameBoyAdvanceMMU.heap GameBoyAdvanceMMU.with_heap].
    rewrite Hm2, lookup_insert_ne, lookup_insert_eq by congruence. reflexivity.
  - unfold GameBoyAdvanceMMU.slot, GameBoyAdvanceMMU.set_object.
    cbn [GameBoyAdvanceMMU.memory GameBoyAdvanceMMU.heap GameBoyAdvanceMMU.with_heap].
    rewrite Hm3, lookup_insert_eq. reflexivity.
Qed.

Lemma snapshot_restores_ram_witness :
  exists frost blob tree t' e2 e3,
    GameBoyAdvanceMMU.freeze (ram_bus [x01; x02; x03; x04] [x05; x06]) = Normal frost
    /\ serialize frost = Normal blob
    /\ deserialize blob = Normal tree
    /\ GameBoyAdvanceMMU.defrost tree (ram_bus [x00; x00; x00; x00] [x00; x00]) = Normal t'
    /\ GameBoyAdvanceMMU.slot t' 2 = Some (1%positive, OMemoryBlock e2)
    /\ GameBoyAdvanceMMU.slot t' 3 = Some (2%positive, OMemoryBlock e3)
    /\ MemoryView.buffer (Cached.base e2) = [x01; x02; x03; x04]
    /\ MemoryView.buffer (Cached.base e3) = [x05; x06].
Proof.
  apply (snapshot_restores_ram
           (ram_bus [x01; x02; x03; x04] [x05; x06])
           (ram_bus [x00; x00; x00; x00] [x00; x00])
           1 2 1 2
           (Cached.mk (MemoryView.new [x01; x02; x03; x04] None) 9 (JS.shl 2 9 - 1) ∅)
           (Cached.mk (MemoryView.new [x05; x06] None) 7 (JS.shl 2 7 - 1) ∅)
           (Cached.mk (MemoryView.new [x00; x00; x00; x00] None) 9 (JS.shl 2 9 - 1) ∅)
           (Cached.mk (MemoryView.new [x00; x00] None) 7 (JS.shl 2 7 - 1) ∅));
    try reflexivity.
  discriminate.
Defined.

End Snapshots.

(** ** The keypad *)

Lemma or_testbit a b i :
  0 <= i ->
  Z.testbit (JS.or a b) i = Z.testbit a (Z.min i 31) || Z.testbit b (Z.min i 31).
Proof.
  intros Hi. unfold JS.or. now rewrite Z.lor_spec, !ToInt32_testbit by lia.
Qed.

Lemma not_testbit a i :
  0 <= i -> Z.testbit (JS.not a) i = negb (Z.testbit a (Z.min i 31)).
Proof.
  intros Hi. unfold JS.not. now rewrite Z.lnot_spec, ToInt32_testbit by lia.
Qed.

Lemma shl_1_small j : 0 <= j <= 30 -> JS.shl 1 j = 2 ^ j.
Proof.
  intros Hj. unfold JS.shl, JS.ToUint32. change (JS.ToInt32 1) with 1.
  rewrite (Z.mod_small j) by lia. rewrite (Z.mod_small j) by lia.
  rewrite Z.shiftl_1_l. apply ToInt32_id.
  assert (0 < 2 ^ j <= 2 ^ 30) by (split; [lia | apply Z.pow_le_mono_r; lia]). lia.
Qed.

(** X18: the getter [currentDown] is active-low over the ten keys: bit [j] of
    its value is set exactly when [j < 10] and no input device has bit [j] of
    its entry in [pressedKeys] set. *)
Theorem currentDown_bit (k : GameBoyAdvanceKeypad.t) (j : Z) :
  0 <= j ->
  Z.testbit (GameBoyAdvanceKeypad.currentDown k) j = true
  <-> j < 10
      /\ map_Forall (fun _ value => Z.testbit value j = false)
                    (GameBoyAdvanceKeypad.pressedKeys k).
Proof.
  unfold GameBoyAdvanceKeypad.currentDown. revert j.
  apply (map_fold_weak_ind
           (fun r m => forall j, 0 <= j ->
              Z.testbit r j = true
              <-> j < 10 /\ map_Forall (fun _ value => Z.testbit value j = false) m)).
  - intros j Hj. change GameBoyAdvanceKeypad.KEY_OFFSET with (Z.ones 10).
    rewrite Z.testbit_ones_nonneg by lia. split.
    + intros H%Z.ltb_lt. split; [exact H | apply map_Forall_empty].
    + intros [H _]. now apply Z.ltb_lt.
  - intros dev x m r Hnone IH j Hj.
    rewrite and_testbit, not_testbit, min_min_31 by lia.
    rewrite map_Forall_insert by exact Hnone.
    rewrite andb_true_iff, negb_true_iff, (IH (Z.min j 31)) by lia.
    split.
    + intros [[Hlt Hall] Hx]. assert (Hmin : Z.min j 31 = j) by lia.
      rewrite Hmin in *. auto.
    + intros (Hlt & Hx & Hall). assert (Hmin : Z.min j 31 = j) by lia.
      rewrite Hmin. auto.
Qed.

Lemma currentDown_bit_witness :
  Z.testbit (GameBoyAdvanceKeypad.currentDown GameBoyAdvanceKeypad.new) 3 = true
  <-> 3 < 10
      /\ map_Forall (fun _ value => Z.testbit value 3 = false)
                    (GameBoyAdvanceKeypad.pressedKeys GameBoyAdvanceKeypad.new).
Proof.
  apply (currentDown_bit GameBoyAdvanceKeypad.new 3). lia.
Defined.

Lemma remappingKeyId_with_pressedKeys k p :
  GameBoyAdvanceKeypad.remappingKeyId (GameBoyAdvanceKeypad.with_pressedKeys k p)
  = GameBoyAdvanceKeypad.remappingKeyId k.
Proof. reflexivity. Qed.

Lemma toggle_of_with_pressedKeys k p code :
  GameBoyAdvanceKeypad.toggle_of (GameBoyAdvanceKeypad.with_pressedKeys k p) code
  = GameBoyAdvanceKeypad.toggle_of k code.
Proof. reflexivity. Qed.

Lemma pressedKeys_with_pressedKeys k p :
  GameBoyAdvanceKeypad.pressedKeys (GameBoyAdvanceKeypad.with_pressedKeys k p) = p.
Proof. reflexivity. Qed.

Lemma with_pressedKeys_twice k p q :
  GameBoyAdvanceKeypad.with_pressedKeys (GameBoyAdvanceKeypad.with_pressedKeys k p) q
  = GameBoyAdvanceKeypad.with_pressedKeys k q.
Proof. reflexivity. Qed.

Lemma toggle_of_range k code j :
  GameBoyAdvanceKeypad.toggle_of k code = Some j -> 0 <= j < 10.
Proof.
  unfold GameBoyAdvanceKeypad.toggle_of.
  repeat match goal with
         | |- context [if ?b then _ else _] => destruct b
         end; intros [= <-]; cbv; split; congruence.
Qed.

(** X19: a key of the keyboard, pressed and released. While it is held, its bit
    in [currentDown] is clear; once released, the bit is set again exactly when
    no other input device holds the key; the other keys of the keyboard are as
    they were. *)
Theorem keyboard_press_release (k : GameBoyAdvanceKeypad.t) (code j : Z) :
  GameBoyAdvanceKeypad.remappingKeyId k = EmptyString ->
  GameBoyAdvanceKeypad.toggle_of k code = Some j ->
  let held := fst (GameBoyAdvanceKeypad.keyboardHandler code "keydown" k) in
  let released := fst (GameBoyAdvanceKeypad.keyboardHandler code "keyup" held) in
  Z.testbit (GameBoyAdvanceKeypad.currentDown held) j = false
  /\ (Z.testbit (GameBoyAdvanceKeypad.currentDown released) j = true
      <-> forall device value,
            device <> "keyboard" ->
            GameBoyAdvanceKeypad.pressedKeys k !! device = Some value ->
            Z.testbit value j = false)
  /\ forall i, 0 <= i <= 31 -> i <> j ->
       Z.testbit (default 0 (GameBoyAdvanceKeypad.pressedKeys released !! "keyboard")) i
       = Z.testbit (default 0 (GameBoyAdvanceKeypad.pressedKeys k !! "keyboard")) i.
Proof.
  intros Hremap Htog held released.
  pose proof (toggle_of_range k code j Htog) as Hj.
  set (kb := default 0 (GameBoyAdvanceKeypad.pressedKeys k !! "keyboard")).
  assert (Hheld : held = GameBoyAdvanceKeypad.with_pressedKeys k
                    (<["keyboard" := JS.or kb (JS.shl 1 j)]> (GameBoyAdvanceKeypad.pressedKeys k))).
  { subst held. unfold GameBoyAdvanceKeypad.keyboardHandler. now rewrite Hremap, Htog. }
  assert (Hrel : released = GameBoyAdvanceKeypad.with_pressedKeys k
                    (<["keyboard" := JS.and (JS.or kb (JS.shl 1 j)) (JS.not (JS.shl 1 j))]>
                       (GameBoyAdvanceKeypad.pressedKeys k))).
  { subst released. rewrite Hheld. unfold GameBoyAdvanceKeypad.keyboardHandler.
    rewrite remappingKeyId_with_pressedKeys, toggle_of_with_pressedKeys, Hremap, Htog.
    cbn [fst negb String.eqb Ascii.eqb Bool.eqb]. rewrite pressedKeys_with_pressedKeys.
    rewrite lookup_insert_eq. cbn [default].
    rewrite with_pressedKeys_twice. now rewrite insert_insert_eq. }
  assert (Hbit : forall i, 0 <= i <= 31 ->
            Z.testbit (JS.shl 1 j) i = bool_decide (i = j)).
  { intros i Hi. rewrite shl_1_small by lia. rewrite Z.pow2_bits_eqb by lia.
    destruct (Z.eqb_spec j i); [rewrite bool_decide_eq_true_2 | rewrite bool_decide_eq_false_2];
      auto. }
  repeat split.
  - (* held *)
    destruct (Z.testbit (GameBoyAdvanceKeypad.currentDown held) j) eqn:E; [|reflexivity].
    apply currentDown_bit in E as [_ Hall]; [|lia]. rewrite Hheld in Hall.
    cbn [GameBoyAdvanceKeypad.with_pressedKeys GameBoyAdvanceKeypad.pressedKeys] in Hall.
    specialize (Hall "keyboard" _ (lookup_insert_eq _ _ _)). cbn beta in Hall.
    rewrite or_testbit, Z.min_l, Hbit, bool_decide_eq_true_2, orb_true_r in Hall by lia.
    discriminate.
  - (* released: every other device has let go *)
    intros E device value Hdev Hlook.
    apply currentDown_bit in E as [_ Hall]; [|lia]. rewrite Hrel in Hall.
    cbn [GameBoyAdvanceKeypad.with_pressedKeys GameBoyAdvanceKeypad.pressedKeys] in Hall.
    apply (Hall device value). now rewrite lookup_insert_ne by congruence.
  - intros Hothers. apply currentDown_bit; [lia|]. split; [lia|]. rewrite Hrel.
    cbn [GameBoyAdvanceKeypad.with_pressedKeys GameBoyAdvanceKeypad.pressedKeys].
    intros device value Hlook.
    destruct (decide (device = "keyboard")) as [-> | Hdev].
    + rewrite lookup_insert_eq in Hlook. injection Hlook as <-.
      rewrite and_testbit, not_testbit, !Z.min_l, Hbit, bool_decide_eq_true_2 by lia.
      apply andb_false_r.
    + rewrite lookup_insert_ne in Hlook by congruence. eauto.
  - intros i Hi Hne. rewrite Hrel.
    cbn [GameBoyAdvanceKeypad.with_pressedKeys GameBoyAdvanceKeypad.pressedKeys].
    rewrite lookup_insert_eq.
    change (default 0 (Some ?x)) with x.
    rewrite and_testbit, not_testbit, or_testbit, !Z.min_l, Hbit, bool_decide_eq_false_2 by lia.
    cbn [negb]. now rewrite orb_false_r, andb_true_r.
Qed.

Lemma keyboard_press_release_witness :
  let k := GameBoyAdvanceKeypad.new in
  let held := fst (GameBoyAdvanceKeypad.keyboardHandler 90 "keydown" k) in
  let released := fst (GameBoyAdvanceKeypad.keyboardHandler 90 "keyup" held) in
  Z.testbit (GameBoyAdvanceKeypad.currentDown held) 0 = false
  /\ (Z.testbit (GameBoyAdvanceKeypad.currentDown released) 0 = true
      <-> forall device value,
            device <> "keyboard" ->
            GameBoyAdvanceKeypad.pressedKeys k !! device = Some value ->
            Z.testbit value 0 = false)
  /\ forall i, 0 <= i <= 31 -> i <> 0 ->
       Z.testbit (default 0 (GameBoyAdvanceKeypad.pressedKeys released !! "keyboard")) i
       = Z.testbit (default 0 (GameBoyAdvanceKeypad.pressedKeys k !! "keyboard")) i.
Proof.
  apply (keyboard_press_release GameBoyAdvanceKeypad.new 90 0); reflexivity.
Defined.

(** ** Save games in the browser's storage *)

Lemma append_inj_l s a b : s +:+ a = s +:+ b -> a = b.
Proof.
  induction s as [|c s IH]; intros H; [exact H|].
  change (String c (s +:+ a) = String c (s +:+ b)) in H.
  injection H as H. now apply IH.
Qed.

Lemma length_append s a : String.length (s +:+ a) = (String.length s + String.length a)%nat.
Proof.
  induction s as [|c s IH]; [reflexivity|].
  change (S (String.length (s +:+ a)) = S (String.length s + String.length a)).
  now rewrite IH.
Qed.

Lemma truthy_false v : LocalStorageSaveGame.truthy v = false -> v = EmptyString.
Proof.
  unfold LocalStorageSaveGame.truthy. intros H%negb_false_iff. now apply String.eqb_eq.
Qed.

Lemma truthy_length v : LocalStorageSaveGame.truthy v = true -> (0 < String.length v)%nat.
Proof.
  unfold LocalStorageSaveGame.truthy. destruct v; [discriminate | cbn; lia].
Qed.

(** The key of a game determines the game. *)
Lemma _key_inj this game game' :
  LocalStorageSaveGame._key this game = LocalStorageSaveGame._key this game' ->
  game = game'.
Proof.
  unfold LocalStorageSaveGame._key. cbn [List.filter].
  destruct (LocalStorageSaveGame.truthy (LocalStorageSaveGame.namespace this)) eqn:Hn,
           (LocalStorageSaveGame.truthy (LocalStorageSaveGame.prefix this)) eqn:Hp,
           (LocalStorageSaveGame.truthy game) eqn:Hg,
           (LocalStorageSaveGame.truthy game') eqn:Hg';
    cbn [String.concat]; intros H;
    try (apply truthy_false in Hg); try (apply truthy_false in Hg');
    try (apply truthy_length in Hg); try (apply truthy_length in Hg');
    try congruence;
    try (repeat apply append_inj_l in H; exact H);
    try (exfalso; apply (f_equal String.length) in H;
         rewrite ?length_append in H; cbn [String.length] in H; lia).
Qed.

(** X20: a save game stored under a game's code is the one [load] returns for
    that code, and storing it changes what [load] returns for no other code. *)
Theorem save_then_load
    (this : LocalStorageSaveGame.t) (game data other : string)
    (st st' : LocalStorageSaveGame.storage) :
  LocalStorageSaveGame.save this game data st = Normal st' ->
  LocalStorageSaveGame.load this game st' = Some data
  /\ LocalStorageSaveGame.load this other st'
     = if String.eqb other game then Some data
       else LocalStorageSaveGame.load this other st.
Proof.
  unfold LocalStorageSaveGame.save, LocalStorageSaveGame.setItem,
    LocalStorageSaveGame.load, LocalStorageSaveGame.getItem.
  destruct (LocalStorageSaveGame.full st); [discriminate|]. intros [= <-].
  cbn [LocalStorageSaveGame.items]. split; [apply lookup_insert_eq|].
  destruct (String.eqb_spec other game) as [-> | Hne]; [apply lookup_insert_eq|].
  apply lookup_insert_ne. intros H. apply _key_inj in H. congruence.
Qed.

Lemma save_then_load_witness :
  let st' := returned (LocalStorageSaveGame.save sample_store "AXVE" "YWJj" empty_storage)
                      empty_storage in
  LocalStorageSaveGame.load sample_store "AXVE" st' = Some "YWJj"
  /\ LocalStorageSaveGame.load sample_store "BPRE" st'
     = if String.eqb "BPRE" "AXVE" then Some "YWJj"
       else LocalStorageSaveGame.load sample_store "BPRE" empty_storage.
Proof.
  apply (save_then_load sample_store "AXVE" "YWJj" "BPRE" empty_storage). reflexivity.
Defined.

(** ** What a 32-bit DMA copies *)

Lemma and_mask_id x k :
  0 <= k <= 30 -> 0 <= x < 2 ^ k -> JS.and x (2 ^ k - 1) = x.
Proof.
  intros Hk Hx. rewrite and_ones by lia.
  assert (2 ^ k <= 2 ^ 30) by (apply Z.pow_le_mono_r; lia).
  rewrite ToInt32_id by lia. apply Z.mod_small. lia.
Qed.

Lemma write_write_adjacent dv i (A B : list byte) :
  0 <= DataView.byteOffset dv + i ->
  (Z.to_nat (DataView.byteOffset dv + i) + length A + length B
   <= length (DataView.buffer dv))%nat ->
  DataView.write (DataView.write dv i A) (i + Z.of_nat (length A)) B
  = DataView.write dv i (A ++ B).
Proof.
  intros Hi Hlen. unfold DataView.write. cbn [DataView.buffer DataView.byteOffset].
  set (k := Z.to_nat (DataView.byteOffset dv + i)) in *.
  set (buf := DataView.buffer dv) in *.
  replace (Z.to_nat (DataView.byteOffset dv + (i + Z.of_nat (length A))))
    with (k + length A)%nat by lia.
  f_equal.
  assert (Hk : length (take k buf) = k) by (rewrite length_take; lia).
  rewrite (app_assoc (take k buf) A).
  rewrite take_app_length' by (rewrite length_app; lia).
  rewrite drop_app_add' by (rewrite length_app; lia).
  rewrite drop_drop, length_app, <- !app_assoc.
  now rewrite Nat.add_assoc.
Qed.

Lemma read_split dv i (a b : nat) :
  0 <= DataView.byteOffset dv + i ->
  DataView.read dv i (a + b)
  = DataView.read dv i a ++ DataView.read dv (i + Z.of_nat a) b.
Proof.
  intros Hi. unfold DataView.read.
  replace (Z.to_nat (DataView.byteOffset dv + (i + Z.of_nat a)))
    with (Z.to_nat (DataView.byteOffset dv + i) + a)%nat by lia.
  rewrite <- drop_drop. symmetry. apply take_take_drop.
Qed.

Lemma block_shape_write v k i bs :
  block_shape v k ->
  DataView.in_bounds (MemoryView.view v) i (Z.of_nat (length bs)) = true ->
  block_shape (MemoryView.with_view v (DataView.write (MemoryView.view v) i bs)) k.
Proof.
  intros (Hm & Hk & Hoff & Hlen) Hb.
  destruct (write_byteLength (MemoryView.view v) i bs) as [HL HO]; [lia | exact Hb |].
  unfold block_shape. split; [now apply with_view_masks|].
  cbn [MemoryView.with_view MemoryView.mask MemoryView.view].
  repeat split; try assumption; try lia.
  unfold MemoryView.byteLength, MemoryView.buffer, DataView.byteLength in *.
  cbn [MemoryView.view MemoryView.with_view] in *. lia.
Qed.

Lemma copy32_views_round h ls ld cs cd ks kd source dest :
  h !! ls = Some (OMemoryBlock cs) ->
  h !! ld = Some (OMemoryBlock cd) ->
  block_shape (Cached.base cs) ks -> 2 <= ks <= 30 ->
  block_shape (Cached.base cd) kd -> 2 <= kd <= 30 ->
  0 <= source -> source + 4 <= 2 ^ ks ->
  0 <= dest -> dest + 4 <= 2 ^ kd ->
  GameBoyAdvanceMMU.copy32_views ls ld
    (MemoryView.mask (Cached.base cs)) (MemoryView.mask (Cached.base cd)) source dest h
  = Normal
      (<[ld := OMemoryBlock
                 (Cached.with_base cd
                    (MemoryView.with_view (Cached.base cd)
                       (DataView.write (MemoryView.view (Cached.base cd)) dest
                          (DataView.read (MemoryView.view (Cached.base cs)) source 4))))]> h).
Proof.
  intros Hls Hld Hcs Hks Hcd Hkd Hs0 Hs1 Hd0 Hd1.
  assert (Hbs : DataView.in_bounds (MemoryView.view (Cached.base cs)) source 4 = true).
  { rewrite (shape_in_bounds _ ks) by assumption.
    apply andb_true_intro. split; apply Z.leb_le; lia. }
  assert (Hbd : DataView.in_bounds (MemoryView.view (Cached.base cd)) dest 4 = true).
  { rewrite (shape_in_bounds _ kd) by assumption.
    apply andb_true_intro. split; apply Z.leb_le; lia. }
  destruct Hcs as (_ & Hmks & Hoffs & _). destruct Hcd as (_ & Hmkd & _ & _).
  unfold GameBoyAdvanceMMU.copy32_views. rewrite Hmks, Hmkd.
  rewrite !and_mask_id by lia.
  unfold GameBoyAdvanceMMU.heap_view. rewrite Hls, Hld. cbn [Region.view obind].
  pose proof (set_get_int32 (MemoryView.view (Cached.base cs)) (MemoryView.view (Cached.base cd))
                source dest false ltac:(lia) Hbs Hbd) as Hsg.
  destruct (DataView.getInt32 _ source false) as [w| | |];
    cbn [obind] in Hsg |- *; try discriminate Hsg.
  rewrite Hsg. cbn [obind].
  unfold GameBoyAdvanceMMU.write_view, GameBoyAdvanceMMU.heap_object.
  rewrite Hld. reflexivity.
Qed.

(** The 32-bit loop between the raw views of two distinct RAM blocks, both
    addresses incrementing, is a block copy. *)
Lemma copy32_loop_block_copy (n : nat) :
  forall (h : gmap positive object) (ls ld : positive) (cs cd : Cached.t)
         (ks kd source dest : Z),
  ls <> ld ->
  h !! ls = Some (OMemoryBlock cs) ->
  h !! ld = Some (OMemoryBlock cd) ->
  block_shape (Cached.base cs) ks -> 2 <= ks <= 30 ->
  block_shape (Cached.base cd) kd -> 2 <= kd <= 30 ->
  0 <= source -> source + 4 * Z.of_nat n <= 2 ^ ks ->
  0 <= dest -> dest + 4 * Z.of_nat n <= 2 ^ kd ->
  GameBoyAdvanceMMU.dma_loop
    (GameBoyAdvanceMMU.copy32_views ls ld
       (MemoryView.mask (Cached.base cs)) (MemoryView.mask (Cached.base cd)))
    n 4 4 source dest h
  = Normal
      (<[ld := OMemoryBlock
                 (Cached.with_base cd
                    (MemoryView.with_view (Cached.base cd)
                       (DataView.write (MemoryView.view (Cached.base cd)) dest
                          (DataView.read (MemoryView.view (Cached.base cs)) source
                             (4 * n)))))]> h,
       source + 4 * Z.of_nat n, dest + 4 * Z.of_nat n).
Proof.
  induction n as [|n IH];
    intros h ls ld cs cd ks kd source dest Hne Hls Hld Hcs Hks Hcd Hkd Hs0 Hs1 Hd0 Hd1.
  - cbn [GameBoyAdvanceMMU.dma_loop]. f_equal. f_equal; [f_equal|lia]; [|lia].
    assert (Hw : DataView.write (MemoryView.view (Cached.base cd)) dest []
                 = MemoryView.view (Cached.base cd)).
    { unfold DataView.write. cbn [app length]. rewrite Nat.add_0_r, take_drop.
      now destruct (MemoryView.view (Cached.base cd)). }
    change (4 * 0)%nat with 0%nat. unfold DataView.read at 1. rewrite take_0, Hw.
    replace (MemoryView.with_view (Cached.base cd) (MemoryView.view (Cached.base cd)))
      with (Cached.base cd) by (now destruct (Cached.base cd)).
    rewrite with_base_id. symmetry. now apply insert_id.
  - cbn [GameBoyAdvanceMMU.dma_loop].
    rewrite (copy32_views_round h ls ld cs cd ks kd) by (try assumption; lia).
    cbn [obind].
    set (dvs := MemoryView.view (Cached.base cs)) in *.
    set (dvd := MemoryView.view (Cached.base cd)) in *.
    set (A := DataView.read dvs source 4).
    assert (Hoffs : DataView.byteOffset dvs = 0) by apply Hcs.
    assert (Hoffd : DataView.byteOffset dvd = 0) by apply Hcd.
    assert (Hbs : DataView.in_bounds dvs source 4 = true).
    { unfold dvs. rewrite (shape_in_bounds _ ks) by assumption.
      apply andb_true_intro. split; apply Z.leb_le; lia. }
    assert (Hbd : DataView.in_bounds dvd dest 4 = true).
    { unfold dvd. rewrite (shape_in_bounds _ kd) by assumption.
      apply andb_true_intro. split; apply Z.leb_le; lia. }
    assert (HA : length A = 4%nat) by (apply read_length; [lia | exact Hbs]).
    set (cd1 := Cached.with_base cd
                  (MemoryView.with_view (Cached.base cd) (DataView.write dvd dest A))).
    assert (Hshape1 : block_shape (Cached.base cd1) kd).
    { apply block_shape_write; [assumption|]. now rewrite HA. }
    change (MemoryView.mask (Cached.base cd)) with (MemoryView.mask (Cached.base cd1)).
    rewrite (IH (<[ld := OMemoryBlock cd1]> h) ls ld cs cd1 ks kd (source + 4) (dest + 4));
      try assumption; try lia;
      [| now rewrite lookup_insert_ne by congruence | apply lookup_insert_eq ].
    f_equal. f_equal; [f_equal|lia]; [|lia].
    rewrite insert_insert_eq. do 3 f_equal.
    cbn [cd1 Cached.base Cached.with_base MemoryView.with_view MemoryView.view].
    fold dvs.
    replace (dest + 4) with (dest + Z.of_nat (length A)) by lia.
    rewrite write_write_adjacent.
    + f_equal. replace (4 * S n)%nat with (4 + 4 * n)%nat by lia.
      rewrite read_split by lia. reflexivity.
    + lia.
    + assert (Hlend : Z.of_nat (length (DataView.buffer dvd)) = 2 ^ kd) by apply Hcd.
      assert (Hlens : Z.of_nat (length (DataView.buffer dvs)) = 2 ^ ks) by apply Hcs.
      unfold DataView.read. rewrite length_take, length_drop. lia.
Qed.

Lemma dma_offset_range x :
  0 <= JS.and (JS.and x GameBoyAdvanceMMU.OFFSET_MASK) 0xfffffffc.
Proof.
  assert (H : 0 <= JS.and x GameBoyAdvanceMMU.OFFSET_MASK < 2 ^ 24).
  { change GameBoyAdvanceMMU.OFFSET_MASK with (2 ^ 24 - 1).
    rewrite and_ones by lia.
    apply Z.mod_pos_bound. lia. }
  set (y := JS.and x GameBoyAdvanceMMU.OFFSET_MASK) in *.
  unfold JS.and at 1. change (JS.ToInt32 0xfffffffc) with (Z.lnot (Z.ones 2)).
  rewrite <- Z.ldiff_land, Z.ldiff_ones_r by lia.
  rewrite Z.shiftl_mul_pow2, Z.shiftr_div_pow2 by lia.
  rewrite (ToInt32_id y) by lia. change (2 ^ 2) with 4. Z.div_mod_to_equations; lia.
Qed.

(** X21: a 32-bit transfer from one working RAM block to the other, both
    address controls incrementing, with a non-negative count and both word
    ranges inside their blocks, returns; afterwards the destination block
    holds, from the destination offset on, the [4 * count] bytes the source
    block held from the source offset on, and every other byte and every
    other object is as before. The addresses it hands back have advanced by
    [4 * count]. *)
Theorem dma_transfer_copies_block
    (info : dma_info) (s : GameBoyAdvanceMMU.t) (ls ld : positive)
    (cs cd : Cached.t) (ks kd : Z) :
  let sourceRegion := JS.ushr (nextSource info) GameBoyAdvanceMMU.BASE_OFFSET in
  let destRegion := JS.ushr (nextDest info) GameBoyAdvanceMMU.BASE_OFFSET in
  let source := JS.and (JS.and (nextSource info) GameBoyAdvanceMMU.OFFSET_MASK) 0xfffffffc in
  let dest := JS.and (JS.and (nextDest info) GameBoyAdvanceMMU.OFFSET_MASK) 0xfffffffc in
  width info = 4 ->
  0 <= nextCount info ->
  GameBoyAdvanceMMU.DMA_OFFSET (srcControl info) = 1 ->
  GameBoyAdvanceMMU.DMA_OFFSET (dstControl info) = 1 ->
  sourceRegion = GameBoyAdvanceMMU.REGION_WORKING_RAM
  \/ sourceRegion = GameBoyAdvanceMMU.REGION_WORKING_IRAM ->
  destRegion = GameBoyAdvanceMMU.REGION_WORKING_RAM
  \/ destRegion = GameBoyAdvanceMMU.REGION_WORKING_IRAM ->
  GameBoyAdvanceMMU.slot s sourceRegion = Some (ls, OMemoryBlock cs) ->
  GameBoyAdvanceMMU.slot s destRegion = Some (ld, OMemoryBlock cd) ->
  ls <> ld ->
  block_shape (Cached.base cs) ks -> 2 <= ks <= 30 ->
  block_shape (Cached.base cd) kd -> 2 <= kd <= 30 ->
  source + 4 * nextCount info <= 2 ^ ks ->
  dest + 4 * nextCount info <= 2 ^ kd ->
  exists s1 cd1,
    GameBoyAdvanceMMU.transfer info s
    = Normal (s1, source + 4 * nextCount info, dest + 4 * nextCount info, -1)
    /\ GameBoyAdvanceMMU.slot s1 destRegion = Some (ld, OMemoryBlock cd1)
    /\ MemoryView.view (Cached.base cd1)
       = DataView.write (MemoryView.view (Cached.base cd)) dest
           (DataView.read (MemoryView.view (Cached.base cs)) source
              (4 * Z.to_nat (nextCount info)))
    /\ GameBoyAdvanceMMU.memory s1 = GameBoyAdvanceMMU.memory s
    /\ (forall l, l <> ld ->
          GameBoyAdvanceMMU.heap s1 !! l = GameBoyAdvanceMMU.heap s !! l).
Proof.
  intros sourceRegion destRegion source dest Hw Hcount Hinc Hind Hsr Hdr Hss Hsd
         Hne Hcs Hks Hcd Hkd Hrs Hrd.
  unfold GameBoyAdvanceMMU.transfer.
  fold sourceRegion destRegion. rewrite Hsd.
  cbn [Region.ICACHE_PAGE_BITS obind].
  assert (Hsweep : exists cd',
    (if JS.truthy (Cached.ICACHE_PAGE_BITS cd)
     then GameBoyAdvanceMMU.invalidate_pages
            (Z.to_nat
               (JS.shr (JS.and (nextDest info) GameBoyAdvanceMMU.OFFSET_MASK
                        + nextCount info * width info) (Cached.ICACHE_PAGE_BITS cd)
                - JS.shr (JS.and (nextDest info) GameBoyAdvanceMMU.OFFSET_MASK)
                         (Cached.ICACHE_PAGE_BITS cd) + 1))
            (JS.shr (JS.and (nextDest info) GameBoyAdvanceMMU.OFFSET_MASK)
                    (Cached.ICACHE_PAGE_BITS cd))
            (OMemoryBlock cd)
     else Normal (OMemoryBlock cd)) = Normal (OMemoryBlock cd')
    /\ Cached.base cd' = Cached.base cd).
  { destruct (JS.truthy _); [apply invalidate_pages_block | eauto]. }
  destruct Hsweep as (cd' & -> & Hbase). cbn [obind].
  set (s0 := GameBoyAdvanceMMU.set_object s ld (OMemoryBlock cd')).
  rewrite (is_ram_region destRegion Hdr).
  cbn [Region.view Region.mask obind GameBoyAdvanceMMU.defined default].
  assert (Hor : (sourceRegion =? GameBoyAdvanceMMU.REGION_WORKING_RAM)
                || (sourceRegion =? GameBoyAdvanceMMU.REGION_WORKING_IRAM)
                || (sourceRegion =? GameBoyAdvanceMMU.REGION_CART0)
                || (sourceRegion =? GameBoyAdvanceMMU.REGION_CART1) = true).
  { rewrite (is_ram_region sourceRegion Hsr). reflexivity. }
  rewrite Hor.
  pose proof (slot_inv _ _ _ _ Hss) as (Hms & Hhs).
  pose proof (slot_inv _ _ _ _ Hsd) as (Hmd & Hhd).
  assert (Hss0 : GameBoyAdvanceMMU.slot s0 sourceRegion = Some (ls, OMemoryBlock cs)).
  { unfold GameBoyAdvanceMMU.slot.
    cbn [s0 GameBoyAdvanceMMU.set_object GameBoyAdvanceMMU.with_heap
         GameBoyAdvanceMMU.memory GameBoyAdvanceMMU.heap].
    rewrite Hms. cbn. rewrite lookup_insert_ne by congruence. now rewrite Hhs. }
  rewrite Hss0. cbn [Region.view Region.mask obind GameBoyAdvanceMMU.defined default].
  rewrite Hss.
  unfold GameBoyAdvanceMMU.rounds. destruct (Z.ltb_spec (nextCount info) 0); [lia|].
  cbn [obind andb]. rewrite Hw, Hinc, Hind. cbn [Z.eqb Pos.eqb].
  change (1 * 4) with 4. unfold id. fold source dest.
  pose proof (dma_offset_range (nextSource info)) as Hs0. fold source in Hs0.
  pose proof (dma_offset_range (nextDest info)) as Hd0. fold dest in Hd0.
  rewrite <- Hbase in Hcd.
  rewrite (copy32_loop_block_copy (Z.to_nat (nextCount info)) (GameBoyAdvanceMMU.heap s0)
             ls ld cs cd' ks kd source dest); try assumption; try lia.
  2: { cbn [s0 GameBoyAdvanceMMU.set_object GameBoyAdvanceMMU.with_heap
            GameBoyAdvanceMMU.heap]. rewrite lookup_insert_ne by congruence. exact Hhs. }
  2: { cbn [s0 GameBoyAdvanceMMU.set_object GameBoyAdvanceMMU.with_heap
            GameBoyAdvanceMMU.heap]. apply lookup_insert_eq. }
  cbn [obind]. rewrite Z2Nat.id by lia.
  eexists _, _. split; [reflexivity|].
  cbn [s0 GameBoyAdvanceMMU.set_object GameBoyAdvanceMMU.with_heap
       GameBoyAdvanceMMU.heap GameBoyAdvanceMMU.memory].
  split.
  { unfold GameBoyAdvanceMMU.slot, GameBoyAdvanceMMU.with_heap.
    cbn [GameBoyAdvanceMMU.memory GameBoyAdvanceMMU.heap].
    change (GameBoyAdvanceMMU.memory s0) with (GameBoyAdvanceMMU.memory s).
    rewrite Hmd, lookup_insert_eq. reflexivity. }
  split.
  { cbn [Cached.base Cached.with_base MemoryView.view MemoryView.with_view].
    now rewrite Hbase. }
  split; [reflexivity|].
  intros l Hl. unfold GameBoyAdvanceMMU.with_heap. cbn [GameBoyAdvanceMMU.heap].
  now rewrite !lookup_insert_ne by congruence.
Qed.

Lemma dma_transfer_copies_block_witness :
  exists s1 cd1,
    GameBoyAdvanceMMU.transfer dma_ram_to_iram
      (ram_bus [x01; x02; x03; x04; x05; x06; x07; x08; x09; x0a; x0b; x0c; x0d; x0e; x0f; x10]
               [x00; x00; x00; x00; x00; x00; x00; x00])
    = Normal (s1, 8, 8, -1)
    /\ GameBoyAdvanceMMU.slot s1 3 = Some (2%positive, OMemoryBlock cd1)
    /\ MemoryView.view (Cached.base cd1)
       = DataView.mk [x00; x00; x00; x00; x05; x06; x07; x08] 0
    /\ GameBoyAdvanceMMU.memory s1
       = GameBoyAdvanceMMU.memory
           (ram_bus [x01; x02; x03; x04; x05; x06; x07; x08; x09; x0a; x0b; x0c; x0d; x0e; x0f; x10]
                    [x00; x00; x00; x00; x00; x00; x00; x00])
    /\ (forall l, l <> 2%positive ->
          GameBoyAdvanceMMU.heap s1 !! l
          = GameBoyAdvanceMMU.heap
              (ram_bus [x01; x02; x03; x04; x05; x06; x07; x08; x09; x0a; x0b; x0c; x0d; x0e; x0f; x10]
                       [x00; x00; x00; x00; x00; x00; x00; x00]) !! l).
Proof.
  apply (dma_transfer_copies_block dma_ram_to_iram
           (ram_bus [x01; x02; x03; x04; x05; x06; x07; x08; x09; x0a; x0b; x0c; x0d; x0e; x0f; x10]
                    [x00; x00; x00; x00; x00; x00; x00; x00])
           1 2
           (Cached.mk (MemoryView.new
              [x01; x02; x03; x04; x05; x06; x07; x08; x09; x0a; x0b; x0c; x0d; x0e; x0f; x10]
              None) 9 (JS.shl 2 9 - 1) ∅)
           (Cached.mk (MemoryView.new [x00; x00; x00; x00; x00; x00; x00; x00] None)
              7 (JS.shl 2 7 - 1) ∅)
           4 3);
    try reflexivity; try lia; try discriminate;
    try (left; reflexivity); try (right; reflexivity);
    try (repeat split; reflexivity).
Defined.
(** ** [encodeBase64] against [btoa] of the whole buffer *)

Lemma concat_cons x l :
  String.concat EmptyString (x :: l) = x +:+ String.concat EmptyString l.
Proof.
  destruct l as [|y l]; [|reflexivity].
  cbn [String.concat]. now rewrite append_empty.
Qed.

Lemma append_assoc a b c : (a +:+ b) +:+ c = a +:+ (b +:+ c).
Proof.
  induction a as [|x a IH]; [reflexivity|].
  change (String x ((a +:+ b) +:+ c) = String x (a +:+ (b +:+ c))). now rewrite IH.
Qed.

Lemma concat_app l1 l2 :
  String.concat EmptyString (l1 ++ l2)
  = String.concat EmptyString l1 +:+ String.concat EmptyString l2.
Proof.
  induction l1 as [|x l1 IH]; [reflexivity|].
  change ((x :: l1) ++ l2) with (x :: (l1 ++ l2)).
  now rewrite !concat_cons, IH, append_assoc.
Qed.

Lemma binary_string_cons b l :
  binary_string (b :: l) = String (ascii_of_N (Z.to_N (byte_to_Z b))) (binary_string l).
Proof. unfold binary_string. cbn [map]. now rewrite concat_cons. Qed.

Lemma binary_string_app l1 l2 :
  binary_string (l1 ++ l2) = binary_string l1 +:+ binary_string l2.
Proof. unfold binary_string. now rewrite map_app, concat_app. Qed.

Lemma string_of_list_ascii_append l1 l2 :
  string_of_list_ascii (l1 ++ l2) = string_of_list_ascii l1 +:+ string_of_list_ascii l2.
Proof.
  induction l1 as [|x l1 IH]; [reflexivity|].
  cbn [app string_of_list_ascii]. now rewrite IH.
Qed.

(** [btoa] works group by group: a leading group of three characters can be
    encoded on its own. *)
Lemma btoa_triplet a b c rest :
  Base64.btoa (binary_string (a :: b :: c :: rest))
  = Base64.btoa (binary_string [a; b; c]) +:+ Base64.btoa (binary_string rest).
Proof.
  unfold Base64.btoa. rewrite !binary_string_cons.
  cbn [list_ascii_of_string map Base64.btoa_codes].
  change (binary_string []) with EmptyString.
  cbn [list_ascii_of_string map Base64.btoa_codes string_of_list_ascii].
  reflexivity.
Qed.

Lemma read_cons dv i n :
  0 <= DataView.byteOffset dv -> 0 <= i -> i + 1 <= DataView.byteLength dv ->
  exists b,
    DataView.getUint8 dv i = Normal (byte_to_Z b)
    /\ DataView.read dv i (S n) = b :: DataView.read dv (i + 1) n.
Proof.
  intros Hoff Hi Hlen.
  unfold DataView.getUint8, DataView.get, DataView.in_bounds.
  destruct (Z.leb_spec 0 i); [|lia].
  destruct (Z.leb_spec (i + Z.of_nat 1) (DataView.byteLength dv)); [|lia].
  cbn [andb]. unfold DataView.read, DataView.endian, DataView.byteLength in *.
  destruct (lookup_lt_is_Some_2 (DataView.buffer dv) (Z.to_nat (DataView.byteOffset dv + i)))
    as [b Hb]; [lia|].
  exists b. rewrite !(drop_S _ _ _ Hb). cbn [take le_combine].
  split; [f_equal; rewrite take_0; cbn [le_combine]; lia|].
  f_equal. f_equal. f_equal. lia.
Qed.

Lemma encode_loop_spec view n : forall i (w : list byte) data,
  0 <= DataView.byteOffset view ->
  0 <= i ->
  i + Z.of_nat n <= DataView.byteLength view ->
  (length w < 3)%nat ->
  exists wordstring data',
    GameBoyAdvance.encode_loop view n i
      (map (fun b => GameBoyAdvanceMMU.fromCharCode (byte_to_Z b)) w) data
    = Normal (wordstring, data')
    /\ String.concat EmptyString
         match wordstring with
         | [] => data'
         | _ => data' ++ [Base64.btoa (String.concat EmptyString wordstring)]
         end
       = String.concat EmptyString data
         +:+ Base64.btoa (binary_string (w ++ DataView.read view i n)).
Proof.
  induction n as [|n IH]; intros i w data Hoff Hi Hn Hw.
  - eexists _, _. split; [reflexivity|].
    unfold DataView.read. rewrite take_0, app_nil_r.
    destruct w as [|b w].
    + cbn [map]. change (Base64.btoa (binary_string [])) with EmptyString.
      now rewrite append_empty.
    + cbn [map]. rewrite concat_app. reflexivity.
  - cbn [GameBoyAdvance.encode_loop].
    destruct (read_cons view i n Hoff Hi ltac:(lia)) as (b & -> & ->). cbn [obind].
    change [GameBoyAdvanceMMU.fromCharCode (byte_to_Z b)]
      with (map (fun b => GameBoyAdvanceMMU.fromCharCode (byte_to_Z b)) [b]).
    rewrite <- map_app.
    destruct w as [|w0 [|w1 [|w2 w]]]; [| | |cbn [length] in Hw; lia].
    + destruct (IH (i + 1) [b] data Hoff ltac:(lia) ltac:(lia) ltac:(cbn; lia))
        as (ws & data' & E1 & E).
      cbn [app map length GameBoyAdvance.splice_triplets Nat.leb] in E1 |- *.
      rewrite E1. eexists _, _. split; [reflexivity|]. exact E.
    + destruct (IH (i + 1) [w0; b] data Hoff ltac:(lia) ltac:(lia) ltac:(cbn; lia))
        as (ws & data' & E1 & E).
      cbn [app map length GameBoyAdvance.splice_triplets Nat.leb] in E1 |- *.
      rewrite E1. eexists _, _. split; [reflexivity|]. exact E.
    + destruct (IH (i + 1) []
                  (data ++ [Base64.btoa (binary_string [w0; w1; b])])
                  Hoff ltac:(lia) ltac:(lia) ltac:(cbn; lia))
        as (ws & data' & E1 & E).
      cbn [app map length GameBoyAdvance.splice_triplets Nat.leb drop take] in E1 |- *.
      change (String.concat EmptyString
                [GameBoyAdvanceMMU.fromCharCode (byte_to_Z w0);
                 GameBoyAdvanceMMU.fromCharCode (byte_to_Z w1);
                 GameBoyAdvanceMMU.fromCharCode (byte_to_Z b)])
        with (binary_string [w0; w1; b]).
      rewrite E1. eexists _, _. split; [reflexivity|]. rewrite E.
      rewrite concat_app, append_assoc. cbn [app]. f_equal.
      symmetry. apply btoa_triplet.
Qed.

(** X22: [encodeBase64] returns for every view, and the text it returns is
    [btoa] of the whole buffer taken as one binary string: encoding the bytes
    three at a time loses nothing at the seams, whatever the length. *)
Theorem encodeBase64_is_btoa (view : DataView.t) :
  0 <= DataView.byteOffset view ->
  GameBoyAdvance.encodeBase64 view
  = Normal (Base64.btoa
              (binary_string
                 (DataView.read view 0 (Z.to_nat (DataView.byteLength view))))).
Proof.
  intros Hoff. unfold GameBoyAdvance.encodeBase64.
  destruct (Z.le_gt_cases 0 (DataView.byteLength view)) as [Hlen | Hlen].
  - destruct (encode_loop_spec view (Z.to_nat (DataView.byteLength view)) 0 [] []
                Hoff ltac:(lia) ltac:(lia) ltac:(cbn; lia)) as (ws & data & E1 & E).
    cbn [map] in E1. rewrite E1. cbn [obind]. f_equal. exact E.
  - replace (Z.to_nat (DataView.byteLength view)) with 0%nat by lia.
    unfold DataView.read. rewrite take_0. reflexivity.
Qed.

Lemma encodeBase64_is_btoa_witness :
  GameBoyAdvance.encodeBase64 sample_save = Normal "YWJjZGU=".
Proof. apply (encodeBase64_is_btoa sample_save). vm_compute. discriminate. Defined.
(** ** [hex] *)

Lemma digit_value_hex_digit d : 0 <= d < 16 -> digit_value (hex_digit d) = Some d.
Proof.
  intros H.
  assert (E : d = 0 \/ d = 1 \/ d = 2 \/ d = 3 \/ d = 4 \/ d = 5 \/ d = 6 \/ d = 7
              \/ d = 8 \/ d = 9 \/ d = 10 \/ d = 11 \/ d = 12 \/ d = 13 \/ d = 14
              \/ d = 15) by lia.
  repeat (destruct E as [-> | E]; [reflexivity|]). now subst.
Qed.

Lemma hex_value_from_snoc s : forall acc c,
  hex_value_from acc (s +:+ String c EmptyString)
  = match hex_value_from acc s, digit_value c with
    | Some v, Some d => Some (v * 16 + d)
    | _, _ => None
    end.
Proof.
  induction s as [|a s IH]; intros acc c.
  - change (EmptyString +:+ String c EmptyString) with (String c EmptyString).
    cbn [hex_value_from]. destruct (digit_value c); reflexivity.
  - change (String a s +:+ String c EmptyString)
      with (String a (s +:+ String c EmptyString)).
    cbn [hex_value_from]. destruct (digit_value a); [apply IH|reflexivity].
Qed.

(** The digits of [n]: their value, their number, and no leading zero. *)
Lemma toString16_spec fuel : forall n,
  0 <= n < 16 ^ Z.of_nat fuel ->
  (0 < fuel)%nat ->
  let len := Z.of_nat (String.length (toString16 fuel n)) in
  (forall acc, hex_value_from acc (toString16 fuel n) = Some (acc * 16 ^ len + n))
  /\ 1 <= len <= Z.of_nat fuel
  /\ n < 16 ^ len
  /\ (len = 1 \/ 16 ^ (len - 1) <= n).
Proof.
  induction fuel as [|fuel IH]; intros n Hn Hfuel; [lia|].
  cbn [toString16].
  assert (Hd : 0 <= n mod 16 < 16) by (apply Z.mod_pos_bound; lia).
  destruct (Z.eqb_spec (n / 16) 0) as [Hq | Hq].
  - assert (n < 16) by (Z.div_mod_to_equations; lia).
    change (EmptyString +:+ String (hex_digit (n mod 16)) EmptyString)
      with (String (hex_digit (n mod 16)) EmptyString).
    cbn [String.length hex_value_from]. rewrite digit_value_hex_digit by assumption.
    rewrite Z.mod_small by lia. change (Z.of_nat 1) with 1.
    repeat split; lia.
  - assert (Hpow : 16 ^ Z.of_nat (S fuel) = 16 * 16 ^ Z.of_nat fuel).
    { rewrite Nat2Z.inj_succ, Z.pow_succ_r by lia. reflexivity. }
    assert (Hq' : 0 <= n / 16 < 16 ^ Z.of_nat fuel) by (Z.div_mod_to_equations; nia).
    assert (Hf : (0 < fuel)%nat).
    { destruct fuel; [|lia]. change (16 ^ Z.of_nat 0) with 1 in Hq'. lia. }
    destruct (IH (n / 16) Hq' Hf) as (Hv & Hlen & Hup & Hlow).
    set (s := toString16 fuel (n / 16)) in *.
    rewrite length_append. cbn [String.length].
    set (k := Z.of_nat (String.length s)) in *.
    replace (Z.of_nat (String.length s + 1)) with (k + 1) by lia.
    assert (Hk : 16 ^ (k + 1) = 16 * 16 ^ k) by (rewrite Z.pow_add_r by lia; lia).
    repeat split; try lia.
    + intros acc. rewrite hex_value_from_snoc, Hv, digit_value_hex_digit by assumption.
      f_equal. rewrite Hk. Z.div_mod_to_equations; nia.
    + rewrite Hk. Z.div_mod_to_equations; nia.
    + right. replace (k + 1 - 1) with k by lia.
      destruct Hlow as [-> | Hlow].
      * change (16 ^ 1) with 16. Z.div_mod_to_equations; nia.
      * replace k with (k - 1 + 1) by lia. rewrite Z.pow_add_r by lia.
        Z.div_mod_to_equations; nia.
Qed.

Lemma ushr_0 x : JS.ushr x 0 = JS.ToUint32 x.
Proof. unfold JS.ushr. change (JS.ToUint32 0 mod 32) with 0. apply Z.shiftr_0_r. Qed.

Lemma ToUint32_range x : 0 <= JS.ToUint32 x < 16 ^ Z.of_nat 8.
Proof. unfold JS.ToUint32. apply Z.mod_pos_bound. lia. Qed.

Lemma hex_value_from_zeros n : forall s,
  hex_value_from 0 (string_of_list_ascii (replicate n "0"%char) +:+ s)
  = hex_value_from 0 s.
Proof.
  induction n as [|n IH]; intros s; [reflexivity|].
  change (hex_value_from (0 * 16 + 0) (string_of_list_ascii (replicate n "0"%char) +:+ s)
          = hex_value_from 0 s).
  apply IH.
Qed.

Lemma length_zeros n :
  String.length (string_of_list_ascii (replicate n "0"%char)) = n.
Proof. induction n as [|n IH]; [reflexivity|]. cbn. now rewrite IH. Qed.

(** X23: with the default field width and prefix, [hex] returns for every
    value [0x] followed by exactly eight upper-case hexadecimal digits, and
    these digits denote [value >>> 0]. *)
Theorem hex_default_width (value : Z) :
  exists digits,
    hex value None None = Normal ("0x" +:+ digits)
    /\ String.length digits = 8%nat
    /\ hex_value digits = Some (JS.ToUint32 value).
Proof.
  unfold hex. rewrite ushr_0. cbn [default]. unfold id.
  destruct (toString16_spec 8 (JS.ToUint32 value) (ToUint32_range value) ltac:(lia))
    as (Hv & Hlen & _ & _).
  set (s := toString16 8 (JS.ToUint32 value)) in *.
  destruct (Z.ltb_spec (8 - Z.of_nat (String.length s)) 0); [lia|].
  unfold joined_zeros.
  destruct (Z.leb_spec 0 (8 - Z.of_nat (String.length s) + 1)); [|lia].
  destruct (Z.ltb_spec (8 - Z.of_nat (String.length s) + 1) (2 ^ 32)); [|lia].
  cbn [andb obind].
  replace (Z.to_nat (8 - Z.of_nat (String.length s) + 1 - 1))
    with (8 - String.length s)%nat by lia.
  exists (string_of_list_ascii (replicate (8 - String.length s) "0"%char) +:+ s).
  split; [now rewrite append_assoc|].
  split.
  - rewrite length_append, length_zeros. lia.
  - unfold hex_value. rewrite hex_value_from_zeros, Hv. f_equal; lia.
Qed.

(** X24: when the value needs more digits than the field is wide, [hex]
    returns the bare digits of [value >>> 0]: nothing is cut off, and no [0x]
    is put in front even when a prefix is asked for. *)
Theorem hex_narrow_field (value leading : Z) (usePrefix : option bool) :
  0 <= leading ->
  16 ^ leading <= JS.ToUint32 value ->
  exists digits,
    hex value (Some leading) usePrefix = Normal digits
    /\ leading < Z.of_nat (String.length digits)
    /\ hex_value digits = Some (JS.ToUint32 value).
Proof.
  intros Hl Hv. unfold hex. rewrite ushr_0.
  change (default 8 (Some leading)) with leading.
  destruct (toString16_spec 8 (JS.ToUint32 value) (ToUint32_range value) ltac:(lia))
    as (Hval & Hlen & Hup & _).
  set (s := toString16 8 (JS.ToUint32 value)) in *.
  assert (leading < Z.of_nat (String.length s)).
  { apply (Z.pow_lt_mono_r_iff 16); lia. }
  destruct (Z.ltb_spec (leading - Z.of_nat (String.length s)) 0); [|lia].
  exists s. split; [reflexivity|]. split; [assumption|].
  unfold hex_value. rewrite Hval. f_equal; lia.
Qed.

Lemma hex_narrow_field_witness :
  exists digits,
    hex 0x1234 (Some 2) (Some true) = Normal digits
    /\ 2 < Z.of_nat (String.length digits)
    /\ hex_value digits = Some (JS.ToUint32 0x1234).
Proof. apply (hex_narrow_field 0x1234 2 (Some true)); vm_compute; discriminate. Defined.
(** ** The stored save is never restored *)

Lemma shift_atob_settles bits :
  (exists r, GameBoyAdvance.shift_atob bits = Normal r)
  \/ (exists e, GameBoyAdvance.shift_atob bits = Throw e).
Proof.
  assert (Hatob : forall s, (exists r, Base64.atob s = Normal r)
                            \/ (exists e, Base64.atob s = Throw e)).
  { intros s. unfold Base64.atob.
    destruct (_ =? 1); [right; eauto|].
    destruct (Base64.sextets _); [left | right]; eauto. }
  destruct bits as [[|g rest]|]; cbn [GameBoyAdvance.shift_atob].
  - destruct (Hatob "undefined") as [[r ->] | [e ->]]; cbn [obind]; eauto.
  - destruct (Hatob g) as [[r ->] | [e ->]]; cbn [obind]; eauto.
  - right. eauto.
Qed.

(** The loop of [decodeBase64] ends: it returns or throws. *)
Lemma decode_loop_settles n : forall i length4 bits view,
  (0 < n)%nat ->
  length4 - 4 * (i + 2) <= 12 * (Z.of_nat n - 1) ->
  (exists r, GameBoyAdvance.decode_loop n i length4 bits view = Normal r)
  \/ (exists e, GameBoyAdvance.decode_loop n i length4 bits view = Throw e).
Proof.
  induction n as [|n IH]; intros i length4 bits view Hpos Hn; [lia|].
  cbn [GameBoyAdvance.decode_loop].
  destruct (Z.ltb_spec (4 * (i + 2)) length4); [|left; eauto].
  destruct (shift_atob_settles bits) as [[[s bits'] ->] | [e ->]]; cbn [obind];
    [|right; eauto].
  apply IH; lia.
Qed.

Lemma decodeBase64_throws (string : string) :
  exists e, GameBoyAdvance.decodeBase64 None string = Throw e.
Proof.
  unfold GameBoyAdvance.decodeBase64.
  set (len := Z.of_nat (String.length string)).
  set (length4 := if GameBoyAdvance.char_at_is string (len - 2) "="
                  then len * 3 - 8
                  else if GameBoyAdvance.char_at_is string (len - 1) "="
                       then len * 3 - 4 else len * 3).
  assert (Hl : length4 <= 3 * len).
  { unfold length4. repeat destruct (GameBoyAdvance.char_at_is _ _ _); lia. }
  destruct (decode_loop_settles (S (Z.to_nat len)) 0 length4
              (GameBoyAdvance.match_groups string)
              (replicate (Z.to_nat (Z.quot length4 4)) x00))
    as [[[bits view] ->] | [e ->]]; cbn [obind]; eauto; lia.
Qed.

(** X25: while no name [i] is bound outside [decodeBase64],
    [retrieveSavedata] returns [false] for every content of the store: a save
    found under the game's key is never handed to the bus, which stays as it
    was, and the failure is reported as a warning. *)
Theorem retrieveSavedata_never_restores (this : GameBoyAdvanceCore.t) :
  GameBoyAdvanceCore.outer_i this = None ->
  exists this',
    GameBoyAdvanceCore.retrieveSavedata this = Normal (this', false)
    /\ GameBoyAdvanceCore.mmu this' = GameBoyAdvanceCore.mmu this
    /\ GameBoyAdvanceCore.localStorage this' = GameBoyAdvanceCore.localStorage this
    /\ (this' = this
        \/ exists e,
             this' = GameBoyAdvanceCore.WARN this
                       (GameBoyAdvanceCore.TextWith "Could not retrieve savedata! " e)).
Proof.
  intros Hi. unfold GameBoyAdvanceCore.retrieveSavedata. rewrite Hi.
  assert (Hwarn : forall e,
    let this' := GameBoyAdvanceCore.WARN this
                   (GameBoyAdvanceCore.TextWith "Could not retrieve savedata! " e) in
    GameBoyAdvanceCore.mmu this' = GameBoyAdvanceCore.mmu this
    /\ GameBoyAdvanceCore.localStorage this' = GameBoyAdvanceCore.localStorage this
    /\ (this' = this
        \/ exists e', this' = GameBoyAdvanceCore.WARN this
                                (GameBoyAdvanceCore.TextWith "Could not retrieve savedata! " e'))).
  { intros e this'. repeat split; try (right; eauto).
    all: unfold this', GameBoyAdvanceCore.WARN; destruct (JS.truthy _); reflexivity. }
  destruct (GameBoyAdvanceMMU.cart (GameBoyAdvanceCore.mmu this)) as [cart|].
  - destruct (LocalStorageSaveGame.load _ _ _) as [data|].
    + destruct (LocalStorageSaveGame.truthy data).
      * destruct (decodeBase64_throws data) as [e ->].
        eexists. split; [reflexivity | apply Hwarn].
      * exists this. repeat split. now left.
    + exists this. repeat split. now left.
  - eexists. split; [reflexivity | apply Hwarn].
Qed.

Lemma retrieveSavedata_never_restores_witness :
  exists this',
    GameBoyAdvanceCore.retrieveSavedata
      (sample_core bus_with_cart {[ "gbajs.save.ABCD" := "YWJjZGU=" ]})
    = Normal (this', false)
    /\ GameBoyAdvanceCore.mmu this' = bus_with_cart
    /\ GameBoyAdvanceCore.localStorage this'
       = LocalStorageSaveGame.mkStorage {[ "gbajs.save.ABCD" := "YWJjZGU=" ]} false
    /\ (this' = sample_core bus_with_cart {[ "gbajs.save.ABCD" := "YWJjZGU=" ]}
        \/ exists e,
             this' = GameBoyAdvanceCore.WARN
                       (sample_core bus_with_cart {[ "gbajs.save.ABCD" := "YWJjZGU=" ]})
                       (GameBoyAdvanceCore.TextWith "Could not retrieve savedata! " e)).
Proof.
  apply (retrieveSavedata_never_restores
           (sample_core bus_with_cart {[ "gbajs.save.ABCD" := "YWJjZGU=" ]})).
  reflexivity.
Defined.
(** ** [logStackTrace] *)

Lemma log_frames_spec n stack : forall i this,
  0 <= i ->
  Z.of_nat (length stack) - i <= Z.of_nat n ->
  GameBoyAdvanceCore.logged (GameBoyAdvanceCore.log_frames n i stack this)
  = GameBoyAdvanceCore.logged this
    ++ map (fun frame => (-1, GameBoyAdvanceCore.Text ("> " +:+ frame)))
           (drop (Z.to_nat i) stack).
Proof.
  induction n as [|n IH]; intros i this Hi Hn.
  - cbn [GameBoyAdvanceCore.log_frames].
    rewrite drop_ge by lia. cbn [map]. now rewrite app_nil_r.
  - cbn [GameBoyAdvanceCore.log_frames].
    destruct (Z.ltb_spec i (Z.of_nat (length stack))) as [Hlt | Hge].
    + destruct (lookup_lt_is_Some_2 stack (Z.to_nat i)) as [frame Hframe]; [lia|].
      rewrite Hframe, IH by lia.
      rewrite (drop_S _ _ _ Hframe). cbn [map GameBoyAdvanceCore.log GameBoyAdvanceCore.logged].
      rewrite <- app_assoc. cbn [app]. do 4 f_equal. lia.
    + rewrite drop_ge by lia. cbn [map]. now rewrite app_nil_r.
Qed.

(** X26: [logStackTrace] hands to the logger, after the heading that the
    error level lets through, the last 32 entries of the stack in their order
    and nothing of the entries before them, which a single line stands for. *)
Theorem logStackTrace_last_frames (stack : list string) (this : GameBoyAdvanceCore.t) :
  GameBoyAdvanceCore.logged (GameBoyAdvanceCore.logStackTrace stack this)
  = GameBoyAdvanceCore.logged this
    ++ (if JS.truthy (JS.and (GameBoyAdvanceCore.logLevel this) GameBoyAdvanceCore.LOG_ERROR)
        then [(GameBoyAdvanceCore.LOG_ERROR, GameBoyAdvanceCore.Text "Stack trace follows:")]
        else [])
    ++ (if (32 <? length stack)%nat
        then [(-1, GameBoyAdvanceCore.Text "> (Too many frames)")]
        else [])
    ++ map (fun frame => (-1, GameBoyAdvanceCore.Text ("> " +:+ frame)))
           (drop (length stack - 32) stack).
Proof.
  unfold GameBoyAdvanceCore.logStackTrace.
  rewrite log_frames_spec by lia.
  replace (Z.to_nat (Z.max (Z.of_nat (length stack) - 32) 0))
    with (length stack - 32)%nat by lia.
  rewrite !app_assoc. f_equal.
  unfold GameBoyAdvanceCore.ERROR.
  destruct (Z.ltb_spec 0 (Z.of_nat (length stack) - 32));
    destruct (Nat.ltb_spec 32 (length stack)); try lia;
    destruct (JS.truthy _); cbn [GameBoyAdvanceCore.log GameBoyAdvanceCore.logged];
    rewrite ?app_nil_r; reflexivity.
Qed.
